(* ===== verification/_CoqProject ===== *)
-Q . S2P
Prelude.v
Ordered.v
Types.v
Limits.v
Bitcoin.v
Aead.v
CoreState.v
Clock.v
Checksum.v
Parse.v
Derive.v
Verify.v
Accept.v
Toy.v
VerifySamples.v
Keystore.v
SignErrors.v
Window.v
WindowSamples.v
Entropy.v
Sign.v
Lifecycle.v
Finalize.v
SignSamples.v
Text.v
Sheet.v
Base64.v
Checkpoint.v
LocalChain.v
MergeChains.v
ChainStore.v
Tracking.v
Chain.v
CoreRpc.v
Electrum.v
Cbf.v
BdkElectrum.v
Merkle.v
ClientLogic.v
ElectrumTip.v
ElectrumAnchors.v
ElectrumScan.v
ElectrumSync.v
FilterIter.v
Sync.v
ChainSamples.v
SyncSamples.v
ElectrumSamples.v
Redact.v
SignerTests.v
TestWallet.v
CeremonyTests.v
FinalizeTests.v
KeystoreTests.v
ChainTests.v
EntropyTests.v
WatchDesc.v
WatchDoc.v
Watch.v
WatchSamples.v
