(* ===== verification/Prelude.v ===== *)
(** * Verification of the Trinity wallet core

    Trinity is a Bitcoin 2-of-3 multisig wallet. This library models the crates
    under [src/crates/] that hold its logic: those that decide about money and
    keys ([trinity-verify], [trinity-signer], [trinity-keystore],
    [trinity-entropy], [trinity-types]) and those that watch the chain and build
    spends ([trinity-watch], [trinity-chain]); and it proves what they promise
    to each other.

    ** The program

    A spend is a PSBT. [trinity-verify] parses the wallet's descriptors
    (checksum, grammar, keys), derives the wallet's scripts itself and checks a
    PSBT against them and against what the user declared. [trinity-signer]
    first asks the spend window whether the amount is allowed without the
    passphrase, then has key A sign, then key B, each after a verification of
    its own, books the charge, and finalizes the result into a transaction.
    [trinity-entropy] generates keys from the random generator and optional
    dice, coins, cards and sensor noise; [trinity-keystore] seals the keys'
    entropy under a key the platform unwraps. The spend window persists as a
    sealed core state.

    [trinity-watch] holds no keys. It builds the receive and change descriptors
    from three public key contributions, keeps them in [descriptor.json], and
    wraps a BDK wallet that derives addresses and builds the PSBT to be signed.
    [trinity-chain] finds the wallet's transactions and announces new ones, by
    one of three backends (a Core node, an Electrum server, compact filters) or
    a split of two; what a backend returns is an [Update] for the BDK wallet.

    ** Files

    - [Prelude] (this file): outcomes of fallible code, machine integers, byte
      strings, slices, early-return loops; [Ordered]: total orders, sorting,
      [BTreeSet] and [BTreeMap] as sorted lists.
    - [Types]: [trinity-types] (key slots, word counts, networks, balances,
      fingerprints and their hex form).
    - [Bitcoin]: transactions, PSBTs, derivation paths and the small functions
      of the vendored [bitcoin] crate the wallet calls; cryptography, base58,
      bech32 and the script interpreter as the classes [Hashes], [Secp],
      [Codec]. [Aead]: the class for XChaCha20-Poly1305.
    - [trinity-verify]: [Checksum] (checksum.rs), [Parse] (parse.rs, types.rs),
      [Derive] (ckd.rs, bip67.rs, witness.rs, derive.rs), [Verify] (verify.rs,
      policy.rs), [Accept] (a specification of the accepted PSBTs that does not
      follow the checks, and the proof that [verify] decides it).
    - [trinity-keystore]: [Keystore] (blob.rs, policy.rs, platform.rs, fake.rs).
    - [trinity-signer]: [Limits] (limits.rs), [CoreState] (core_state.rs),
      [Clock] (clock.rs), [Window] (window.rs), [SignErrors] (error.rs), [Sign]
      (sign.rs, local.rs, kind.rs, lib.rs), [Finalize] (finalize.rs).
    - [trinity-entropy]: [Entropy] (sources.rs, entropy.rs, hex.rs, evidence.rs).
      [Lifecycle] composes it with [Keystore] and [Sign].
    - [Text]: string functions of the standard library. [Sheet]: the text of the
      verification sheet (evidence.rs) and its reader. [Redact]: what the types
      of all crates print of themselves ([Debug], [Display]), with secret.rs and
      psbt.rs of [trinity-types].
    - The wallet's local chain: [Checkpoint] (checkpoint.rs of the vendored
      [bdk_core]), [LocalChain], [MergeChains] and [ChainStore] (local_chain.rs
      of the vendored [bdk_chain]: operations, merging of an update, change sets
      and reloading), [Tracking] (chains that follow a node's best chain).
    - [trinity-chain]: [Chain] (backend.rs, error.rs, fee.rs, privacy.rs,
      split.rs, memory.rs), [CoreRpc] (core_rpc.rs), [Electrum] (electrum.rs),
      [Cbf] (cbf.rs). [FilterIter] is the iterator of the vendored
      [bdk_bitcoind_rpc] (bip158.rs) that [CoreRpc] takes as a parameter; [Sync]
      puts the backends, the iterator and the local chain together.
    - The Electrum client behind [Electrum]: [BdkElectrum] (the vendored
      [bdk_electrum], with [validate_merkle_proof] of [electrum-client]),
      [Merkle] (the vendored [bitcoin]'s merkle_tree and what a Merkle path
      proves), [ClientLogic] (triples for operations over the client's caches),
      [ElectrumScan] (the batched script scan), [ElectrumAnchors] (what an anchor
      stands for), [ElectrumTip] (its checkpoints against the server's chain).
      [ElectrumSync] instantiates the class [ElectrumClient] of the backend with
      this client and composes both with the wallet's chain.
    - [trinity-watch]: [WatchDesc] (descriptor/build.rs, path.rs, source.rs,
      error.rs), [WatchDoc] (descriptor/document.rs), [Watch] (wallet/mod.rs,
      error.rs), [Base64] (wallet/encode.rs and the decoder).
    - [ChainSamples], [SyncSamples], [ElectrumSamples] and [WatchSamples] run
      the backends, the local chain, the Electrum client, the builder and the
      wallet on concrete instances of their parameters.
    - Tests of the project, translated and run on the model: [SignerTests] (the
      test modules of the spend window, limits, clocks and sealed state),
      [EntropyTests], [KeystoreTests], [ChainTests]; [TestWallet] is the fixture
      wallet of [trinity-signer]'s ceremony tests, [CeremonyTests] (sign.rs,
      local.rs, tests_wp33.rs, tests_wp34.rs) and [FinalizeTests]
      (tests_wp36.rs) are those tests.
    - [Toy] gives the parameters concrete stand-ins; [VerifySamples],
      [WindowSamples] and [SignSamples] run one spend through verification,
      authorization, both signatures and finalization, and apply the theorems
      to it.

    ** Conventions

    Functions keep the names of the source; where two modules use one name, a
    prefix tells them apart ([blob_decrypt], [FakeClock_set]). [Result] is
    [res]: [Ok], [Err], and [Panic] for a failed [unwrap], [expect], index or
    assertion, so that the absence of panics is provable. A [u64] is a [Z];
    saturating and checked operations are written out. [&mut self] is state
    passing, a [for] loop with early return is a fold over [res]. Loops are
    structural; the two loops on a cursor ([count_extra], [parse_cards_loop])
    take the input's length as fuel, which is enough since every round consumes
    a character ([count_extra_fuel], [parse_cards_loop_no_panic]); the stop-gap
    loop takes one round more than there are scripts, and that this is enough
    is part of [keychain_found] and [keychain_bounded], which give its result.
    The merge of two chains takes one round more than both have checkpoints,
    which [merge_loop_result] shows to be enough; the filter iterator is a lazy
    sequence in the source and is run for more rounds than the best chain has
    blocks, where [filter_iter_walks] proves that it has stopped by itself.
    The Electrum client's script loop takes one round more than there are
    scripts ([populate_whole] gives its result), the Merkle root as many rounds
    as there are leaves ([merkle_root_tree]).
    Callbacks ([Signer], [PlatformKeyStore]) are records of functions over a
    state of the outside world, so that "the key was not touched" is a
    statement about that state.

    ** What the theorems show

    - The verifier ([verify_sound]): an accepted PSBT spends known coins of the
      wallet, pays declared recipients or own change, conserves value and keeps
      to the fee caps; conversely every PSBT that meets the specification is
      accepted, with the verdict it determines ([verify_decides]); it does not
      panic when the change origins are written without [m/]
      ([verify_no_panic]), and does on every accepted PSBT with change when they
      are written with it ([verify_panics_on_m_prefix]); the index
      hint is an optimisation only ([find_index_hint_irrelevant]).
    - Descriptors: the parser accepts exactly the checksummed strings of the
      grammar ([parse_spec], [descriptor_roundtrip]); the checksum catches
      every change of up to four consecutive characters
      ([checksum_detects_burst]).
    - Derivation: the wallet's own CKDpub agrees with the vendored one
      at every depth up to 253, above which only the vendored one refuses
      ([derive_child_agrees]); scripts do not depend on the order of the keys.
    - The spend window as a state machine ([run], the reachable counters with a
      log of what was booked): the charges still inside the window never exceed
      the allowance at authorization ([spend_budget]); elapsed time is bounded
      by every clock that is trusted ([step_elapsed_bounds]); every state
      a counter reaches ([reached]: any policies, windows and clocks, late
      commits, reopening from a blob) can be sealed, and reopens to itself up to
      the encoding's mark for unknown values ([reachable_state_seals]).
    - The ceremony: a rejected spend reaches no key; key B signs only a
      transaction that carries signatures by the keys listed for A's
      fingerprint; a local signature sets the sighash field to ALL, adds one
      signature per input and changes nothing else ([rejected_spend_calls_no_signer], [second_key_guarded],
      [local_sign_correct]); two signers with different fingerprints that keep
      the contract [FaithfulSigner], which the on-device signer does, return the
      approved PSBT with exactly two valid signatures by different keys added to
      every input ([ceremony_two_signatures]); a finished transaction carries the two signatures
      in key order and passed consensus ([finalize_sound]).
    - Sealed blobs: round trips, canonical encodings, and that nothing decrypts
      but what was sealed, under the laws of [Aead].
    - Printing: the types that hold secrets redact them ([debug_redacts]), but
      for the verification sheet, whose [Debug] determines the source bytes it
      redacts ([sheet_debug_leaks]).
    - Key generation: the encoding of the additional sources is injective
      ([canonical_bytes_injective]), the printed verification
      sheet can be read back field by field and is enough to recompute a key
      ([printed_sheet_recomputes]), and a generated key survives sealing
      and unlocking ([generated_key_unlocks]).
    - Builder and verifier agree: what [trinity-watch] builds, [trinity-verify]
      parses to the same keys on the right branches, exactly when no extended
      key contains a slash, which the builder leaves unchecked
      ([built_descriptors_parse]); on such keys
      the document is canonical ([build_canonical]), survives JSON
      ([document_roundtrip]), and a document that loads is what the builder
      makes of its keys ([from_json_rebuilds]; [reordered_document] is the
      exception in the other direction).
    - The BDK wrapper: the fee identity agrees with [Psbt::fee]
      ([fee_identity_exact]); a built PSBT has the tip as locktime, replaceable
      inputs, the recipient and the fee asked for ([built_psbt_shape]); the tip
      walk keeps the chain ([ensure_tip_extends]).
    - Scanning: the Core backend reports exactly the relevant transactions,
      each once, whatever their order and also when a block delivers one again
      ([scan_complete]); the stop gap finds what it should
      and stops ([keychain_found], [keychain_bounded]); an eviction means that
      the node does not have the transaction, and a lookup it cannot do is an
      error ([eviction_sound], [eviction_complete], [sync_fails_loud]); Electrum
      fees are the server's ([electrum_fees_exact]); a reorganisation replaces
      the old branch ([reorg_replaces]). Two theorems state where the
      compact-filter sync falls short: it reports nothing when no fetched block
      pays a requested script, whatever they spend ([sync_misses_spends];
      [sync_reports_positions]).
    - The wallet's chain: an update is merged exactly when it says which blocks
      it keeps, or when it has another genesis block and nothing in common, a
      case the documentation lists as an error ([chain_update_merges]); over any
      sequence of operations the chain keeps its order and the stored changes
      reload to it ([stored_chain_reloads]). A compact-filter
      scan and a Core scan, against a node that serves one chain and answers, end
      in an update that the wallet applies, wherever its chain left the best
      chain ([cbf_scan_applies], [core_scan_applies]);
      the filter iterator visits every block above the common one and stops
      ([filter_iter_walks]). So does an Electrum scan or sync against a server
      that serves one chain; when the server is not behind, the anchors lie on
      the wallet's new chain ([electrum_update_applies]). Two theorems state where this falls short: an empty
      Core sync ([core_empty_sync]) and the block an event is taken for when
      the wallet's chain has a gap ([event_tips]).
    - The Electrum client does not trust the server for confirmations: with any
      server, an anchor it reports comes with a header and a Merkle path that was
      checked against it ([anchors_proved]); such a path of the tree's depth is
      about a transaction of the block, or exhibits a collision
      ([merkle_proof_decides]). Batches do not matter ([batch_size_irrelevant])
      and the scan reports what the stop gap allows ([scan_exact]). A sync that
      starts with a header and an anchor in the caches reports that anchor, also
      when its block was reorganised away ([stale_anchor_kept]).
    - Concurrency: the worker thread, which may hang or end without a result at
      any [await], and the caller with its deadline are steps that interleave
      freely. The caller always has a step of its own that leads to its return,
      whatever the worker does ([handoff_returns]); "delivery unconfirmed" is
      reported only of a broadcast whose submission was entered or is the
      worker's only next step, and always of one that was entered before the
      deadline ([handoff_truthful]); with a
      split, neither backend sees the other's calls ([split_separates]).
    - The project's unit tests of the spend window, the policy, the clocks, the
      sealed state, the key blobs, the fake keystore, the entropy sources, the
      wrappers, the ceremony, the finalizer and the offline backends hold of the
      model ([window_tests_pass] and its siblings), as a check of the
      translation; the checksum the tests bring along is the crate's
      ([with_checksum_agrees]).

    ** What is not modelled

    Cryptographic primitives and encodings of the dependencies are parameters;
    theorems name the laws they use ([SecpLaws], [AeadLaws]), and [Toy] shows
    that the laws can hold together. So are miniscript, serde_json, the BDK
    wallet (coin selection, persistence, the transaction graph), the RPC client,
    the protocol of the Electrum server and the compact-filter node, as the
    classes [Miniscript], [Json], [Bdk], [TxGraph], [RpcClient], [ElectrumApi]
    and [CbfNode]; the sample files instantiate them. Wiping of secrets, the texts of most errors,
    mutex poisoning and logging have no counterpart. The pointer comparison of
    the chain merge is a parameter that may answer as it likes on equal chains.
    Tests that need a running node, known-answer values of real hash functions
    or error texts, the fuzz targets with their vendored support crates, the
    vendored dependencies beyond what is called, and the empty crates
    [trinity-ffi], [trinity-export] and [trinity-transport] are left out.

    ** What could follow

    The largest parameter left is BDK's transaction graph and script index
    behind [Bdk] and [TxGraph]. The wallet reads balances, spendable outputs and
    the canonical transactions from them, so a model of their indexing would
    connect what the backends report to what a spend selects.

    ** This file

    - [res], the outcome type of fallible Rust code, with its monad, inversion
      lemmas and tactics;
    - machine integers: an [n]-bit unsigned integer is a [Z] in [0, 2^n), with
      the saturating and checked operations of the Rust standard library;
    - byte strings ([list Z], one element per byte), string literals, slices
      that panic out of range, little- and big-endian encodings;
    - the early-return loops [for_each], [for_eachi], [fold_res], [fold_resi]. *)
From Stdlib Require Export ZArith Lia.
From stdpp Require Export base tactics list numbers strings gmap sorting.

Declare Scope trinity_scope.
Delimit Scope trinity_scope with trinity.
Global Open Scope Z_scope.
Global Open Scope trinity_scope.

Create HintDb trinity.

(** ** Outcomes of fallible code *)

Inductive res (E A : Type) : Type :=
  | Ok (a : A)
  | Err (e : E)
  | Panic.
Arguments Ok {E A} a.
Arguments Err {E A} e.
Arguments Panic {E A}.

#[global] Instance res_ret {E} : MRet (res E) := λ A a, Ok a.
#[global] Instance res_bind {E} : MBind (res E) := λ A B f m,
  match m with Ok a => f a | Err e => Err e | Panic => Panic end.
#[global] Instance res_fmap {E} : FMap (res E) := λ A B f m,
  match m with Ok a => Ok (f a) | Err e => Err e | Panic => Panic end.
#[global] Instance res_eq_dec `{EqDecision E, EqDecision A} : EqDecision (res E A).
Proof. solve_decision. Defined.

(** [Result::map_err], also the [From] conversion that [?] inserts. *)
Definition map_err {E F A} (f : E → F) (m : res E A) : res F A :=
  match m with Ok a => Ok a | Err e => Err (f e) | Panic => Panic end.

(** [Option::ok_or] *)
Definition ok_or {E A} (o : option A) (e : E) : res E A :=
  match o with Some a => Ok a | None => Err e end.

(** [Option::expect] / [Option::unwrap] *)
Definition expect {E A} (o : option A) : res E A :=
  match o with Some a => Ok a | None => Panic end.

(** [if !b { return Err(e) }] *)
Definition ensure {E} (b : bool) (e : E) : res E unit :=
  if b then Ok tt else Err e.

Definition is_ok {E A} (m : res E A) : bool :=
  match m with Ok _ => true | _ => false end.

Lemma bind_Ok {E A B} (m : res E A) (f : A → res E B) b :
  m ≫= f = Ok b ↔ ∃ a, m = Ok a ∧ f a = Ok b.
Proof. destruct m; naive_solver. Qed.

Lemma bind_Panic {E A B} (m : res E A) (f : A → res E B) :
  m ≫= f = Panic ↔ m = Panic ∨ ∃ a, m = Ok a ∧ f a = Panic.
Proof. destruct m; naive_solver. Qed.

Lemma bind_Err {E A B} (m : res E A) (f : A → res E B) e :
  m ≫= f = Err e ↔ m = Err e ∨ ∃ a, m = Ok a ∧ f a = Err e.
Proof. destruct m; naive_solver. Qed.

Lemma map_err_Ok {E F A} (f : E → F) (m : res E A) a :
  map_err f m = Ok a ↔ m = Ok a.
Proof. destruct m; naive_solver. Qed.

Lemma map_err_Panic {E F A} (f : E → F) (m : res E A) :
  map_err f m = Panic ↔ m = Panic.
Proof. destruct m; naive_solver. Qed.

Lemma map_err_Err {E F A} (f : E → F) (m : res E A) e :
  map_err f m = Err e ↔ ∃ e', m = Err e' ∧ e = f e'.
Proof. destruct m; naive_solver. Qed.

Lemma ok_or_Ok {E A} (o : option A) (e : E) a : ok_or o e = Ok a ↔ o = Some a.
Proof. destruct o; naive_solver. Qed.
Lemma ok_or_Panic {E A} (o : option A) (e : E) : ok_or o e = Panic ↔ False.
Proof. destruct o; naive_solver. Qed.
Lemma ok_or_Err {E A} (o : option A) (e e' : E) :
  ok_or o e = Err e' ↔ o = None ∧ e = e'.
Proof. destruct o; naive_solver. Qed.

Lemma expect_Ok {E A} (o : option A) a : expect (E:=E) o = Ok a ↔ o = Some a.
Proof. destruct o; naive_solver. Qed.
Lemma expect_Panic {E A} (o : option A) : expect (E:=E) o = Panic ↔ o = None.
Proof. destruct o; naive_solver. Qed.

Lemma ensure_Ok {E} b (e : E) u : ensure b e = Ok u ↔ b = true.
Proof. destruct b, u; naive_solver. Qed.
Lemma ensure_Panic {E} b (e : E) : ensure b e = Panic ↔ False.
Proof. destruct b; naive_solver. Qed.
Lemma ensure_Err {E} b (e e' : E) : ensure b e = Err e' ↔ b = false ∧ e = e'.
Proof. destruct b; naive_solver. Qed.

(** Turn every hypothesis about a monadic outcome into facts about its parts. *)
Ltac res_step :=
  match goal with
  | H : _ ≫= _ = Ok _ |- _ => apply bind_Ok in H as (? & ? & ?)
  | H : _ ≫= _ = Panic |- _ => apply bind_Panic in H as [? | (? & ? & ?)]
  | H : map_err _ _ = Ok _ |- _ => apply map_err_Ok in H
  | H : map_err _ _ = Panic |- _ => apply map_err_Panic in H
  | H : ok_or _ _ = Ok _ |- _ => apply ok_or_Ok in H
  | H : ok_or _ _ = Panic |- _ => apply ok_or_Panic in H as []
  | H : expect _ = Ok _ |- _ => apply expect_Ok in H
  | H : expect _ = Panic |- _ => apply expect_Panic in H
  | H : ensure _ _ = Ok _ |- _ => apply ensure_Ok in H
  | H : ensure _ _ = Panic |- _ => apply ensure_Panic in H as []
  | H : Ok _ = Ok _ |- _ => injection H as H; try subst
  | H : Err _ = Ok _ |- _ => discriminate H
  | H : Panic = Ok _ |- _ => discriminate H
  | H : Ok _ = Panic |- _ => discriminate H
  | H : Err _ = Panic |- _ => discriminate H
  | H : Ok _ = Err _ |- _ => discriminate H
  | H : Panic = Err _ |- _ => discriminate H
  | u : unit |- _ => destruct u
  end.
Ltac res_inv := repeat res_step.

(** Case on the test that guards the outcome in [H]; drop the failing branch. *)
Ltac if_inv H E :=
  match type of H with
  | (if ?b then _ else _) = _ => destruct b eqn:E; try discriminate H
  end.

(** Split a conjunction of boolean tests read off the source. *)
Ltac bool_simp :=
  repeat match goal with
  | H : _ && _ = true |- _ => apply andb_prop in H as [? ?]
  | H : _ || _ = false |- _ => apply orb_false_elim in H as [? ?]
  | H : negb _ = true |- _ => apply negb_true_iff in H
  | H : negb _ = false |- _ => apply negb_false_iff in H
  | H : bool_decide _ = true |- _ => apply bool_decide_eq_true in H
  | H : bool_decide _ = false |- _ => apply bool_decide_eq_false in H
  | H : Z.leb _ _ = true |- _ => apply Z.leb_le in H
  | H : Z.ltb _ _ = true |- _ => apply Z.ltb_lt in H
  | H : Z.leb _ _ = false |- _ => apply Z.leb_gt in H
  | H : Z.ltb _ _ = false |- _ => apply Z.ltb_ge in H
  | H : Z.eqb _ _ = true |- _ => apply Z.eqb_eq in H
  | H : Z.eqb _ _ = false |- _ => apply Z.eqb_neq in H
  | H : Nat.leb _ _ = true |- _ => apply Nat.leb_le in H
  | H : Nat.ltb _ _ = true |- _ => apply Nat.ltb_lt in H
  | H : Nat.leb _ _ = false |- _ => apply Nat.leb_gt in H
  | H : Nat.ltb _ _ = false |- _ => apply Nat.ltb_ge in H
  | H : Nat.eqb _ _ = true |- _ => apply Nat.eqb_eq in H
  | H : Nat.eqb _ _ = false |- _ => apply Nat.eqb_neq in H
  end.

(** ** Machine integers *)

Definition u8_max : Z := 2 ^ 8 - 1.
Definition u16_max : Z := 2 ^ 16 - 1.
Definition u32_max : Z := 2 ^ 32 - 1.
Definition u64_max : Z := 2 ^ 64 - 1.
Definition u128_max : Z := 2 ^ 128 - 1.

Definition is_u8 (z : Z) : Prop := 0 ≤ z ≤ u8_max.
Definition is_u16 (z : Z) : Prop := 0 ≤ z ≤ u16_max.
Definition is_u32 (z : Z) : Prop := 0 ≤ z ≤ u32_max.
Definition is_u64 (z : Z) : Prop := 0 ≤ z ≤ u64_max.

(** [u64::saturating_add], [saturating_sub], [saturating_mul]. *)
Definition sat_add (a b : Z) : Z := Z.min (a + b) u64_max.
Definition sat_sub (a b : Z) : Z := Z.max (a - b) 0.
Definition sat_mul (a b : Z) : Z := Z.min (a * b) u64_max.

(** [u64::checked_add], [checked_sub]. *)
Definition checked_add (a b : Z) : option Z :=
  if a + b <=? u64_max then Some (a + b) else None.
Definition checked_sub (a b : Z) : option Z :=
  if b <=? a then Some (a - b) else None.

(** [u64::div_ceil] for a non-zero divisor. *)
Definition div_ceil (a b : Z) : Z := (a + b - 1) / b.

(** Linear arithmetic over the machine bounds. *)
Ltac mlia :=
  unfold is_u8, is_u16, is_u32, is_u64, sat_add, sat_sub,
    u8_max, u16_max, u32_max, u64_max in *; lia.

Lemma sat_add_u64 a b : is_u64 a → is_u64 b → is_u64 (sat_add a b).
Proof. intros. mlia. Qed.
Lemma sat_sub_u64 a b : is_u64 a → 0 ≤ b → is_u64 (sat_sub a b).
Proof. intros. mlia. Qed.
#[export] Hint Resolve sat_add_u64 sat_sub_u64 : trinity.

Lemma checked_add_Some a b c :
  checked_add a b = Some c ↔ c = a + b ∧ a + b ≤ u64_max.
Proof. unfold checked_add. destruct (a + b <=? u64_max) eqn:H; bool_simp; naive_solver lia. Qed.
Lemma checked_sub_Some a b c :
  checked_sub a b = Some c ↔ c = a - b ∧ b ≤ a.
Proof. unfold checked_sub. destruct (b <=? a) eqn:H; bool_simp; naive_solver lia. Qed.

Lemma testbit_small x n k : 0 ≤ x < 2 ^ n → 0 ≤ n ≤ k → Z.testbit x k = false.
Proof. intros ? ?. rewrite <-(Z.mod_small x (2 ^ n)) by lia. apply Z.mod_pow2_bits_high. lia. Qed.

(** [fold(0u64, saturating_add)] over a list of amounts. *)
Definition sat_sum (l : list Z) : Z := foldl sat_add 0 l.
Fixpoint sum_Z (l : list Z) : Z :=
  match l with [] => 0 | x :: l => x + sum_Z l end.

Lemma sum_Z_app l k : sum_Z (l ++ k) = sum_Z l + sum_Z k.
Proof. induction l; cbn; lia. Qed.
Lemma sum_Z_nonneg l : Forall (λ z, 0 ≤ z) l → 0 ≤ sum_Z l.
Proof. induction 1; cbn; lia. Qed.
Lemma sum_Z_Permutation l k : l ≡ₚ k → sum_Z l = sum_Z k.
Proof. induction 1; cbn; lia. Qed.

Lemma foldl_sat_add l a :
  Forall (λ z, 0 ≤ z) l → 0 ≤ a ≤ u64_max →
  foldl sat_add a l = Z.min (a + sum_Z l) u64_max.
Proof.
  intros Hl. revert a. induction Hl as [|x l Hx Hl IH]; intros a Ha; cbn.
  - lia.
  - pose proof (sum_Z_nonneg l Hl). rewrite IH; unfold sat_add; lia.
Qed.

Lemma sat_sum_spec l :
  Forall (λ z, 0 ≤ z) l → sat_sum l = Z.min (sum_Z l) u64_max.
Proof. intros. unfold sat_sum. rewrite foldl_sat_add; [f_equal; lia|done|unfold u64_max; lia]. Qed.

(** ** Bytes and strings *)

Notation bytes := (list Z).

(** A string or byte-string literal of the source. *)
Definition str (s : string) : bytes :=
  map (λ c, Z.of_N (Ascii.N_of_ascii c)) (String.list_ascii_of_string s).

Arguments str : simpl never.

Definition is_bytes (l : bytes) : Prop := Forall is_u8 l.

Definition bytes_ok (l : bytes) : bool := forallb (λ b, (0 <=? b) && (b <=? 255)) l.
Lemma bytes_ok_spec l : bytes_ok l = true → is_bytes l.
Proof.
  unfold bytes_ok, is_bytes. rewrite forallb_forall, Forall_forall. intros H x Hx%list_elem_of_In.
  specialize (H x Hx). bool_simp. unfold is_u8, u8_max. lia.
Qed.

(** [&buf[a..b]] *)
Definition slice {E} (a b : nat) (buf : bytes) : res E bytes :=
  if (a <=? b)%nat && (b <=? length buf)%nat then Ok (take (b - a) (drop a buf)) else Panic.

(** [buf[i]] *)
Definition index {E A} (i : nat) (buf : list A) : res E A := expect (buf !! i).

Lemma slice_ok {E} a b buf :
  (a ≤ b ≤ length buf)%nat → slice (E:=E) a b buf = Ok (take (b - a) (drop a buf)).
Proof.
  intros. unfold slice.
  rewrite (proj2 (Nat.leb_le a b)), (proj2 (Nat.leb_le b _)) by lia. done.
Qed.

Lemma slice_app {E} (p q r : bytes) a b :
  length p = a → (a + length q)%nat = b → slice (E:=E) a b (p ++ q ++ r) = Ok q.
Proof.
  intros <- <-. rewrite slice_ok by (rewrite !length_app; lia).
  rewrite drop_app_length. replace (_ + _ - _)%nat with (length q) by lia.
  by rewrite take_app_length.
Qed.

(** [to_le_bytes] / [from_le_bytes] *)
Fixpoint le_bytes (n : nat) (z : Z) : bytes :=
  match n with
  | O => []
  | S n => z mod 256 :: le_bytes n (z / 256)
  end.

Fixpoint le_Z (l : bytes) : Z :=
  match l with
  | [] => 0
  | b :: l => b + 256 * le_Z l
  end.

Lemma length_le_bytes n z : length (le_bytes n z) = n.
Proof. revert z; induction n; intros; cbn; auto. Qed.

Lemma le_bytes_ok n z : is_bytes (le_bytes n z).
Proof.
  unfold is_bytes. revert z; induction n; intros; cbn; constructor; auto.
  unfold is_u8, u8_max. pose proof (Z.mod_pos_bound z 256). lia.
Qed.

Lemma le_Z_le_bytes n z : 0 ≤ z < 256 ^ Z.of_nat n → le_Z (le_bytes n z) = z.
Proof.
  revert z; induction n as [|n IH]; intros z Hz; cbn [le_bytes le_Z].
  - cbn in Hz. lia.
  - rewrite IH.
    + pose proof (Z.div_mod z 256). lia.
    + rewrite Nat2Z.inj_succ, Z.pow_succ_r in Hz by lia.
      split; [apply Z.div_pos; lia|]. apply Z.div_lt_upper_bound; lia.
Qed.

Lemma le_bytes_le_Z l : is_bytes l → le_bytes (length l) (le_Z l) = l.
Proof.
  unfold is_bytes, is_u8, u8_max. induction 1 as [|b l Hb Hl IH]; cbn [length le_bytes le_Z]; [done|].
  rewrite (Z.mul_comm 256), Z.mod_add, Z.mod_small, Z.div_add, Z.div_small by lia.
  by rewrite Z.add_0_l, IH.
Qed.

Lemma le_Z_bound l : is_bytes l → 0 ≤ le_Z l < 256 ^ Z.of_nat (length l).
Proof.
  unfold is_bytes, is_u8, u8_max. induction 1 as [|b l Hb Hl IH]; cbn [length le_Z]; [cbn; lia|].
  rewrite Nat2Z.inj_succ, Z.pow_succ_r by lia. lia.
Qed.

Arguments le_bytes : simpl never.
Arguments le_Z : simpl never.

(** Field-by-field reading of a concatenation. *)
Lemma slice_pre {E} (p l : bytes) a b :
  (a ≤ b)%nat → slice (E:=E) (length p + a) (length p + b) (p ++ l) = slice a b l.
Proof.
  intros Hab. unfold slice. rewrite length_app.
  rewrite (proj2 (Nat.leb_le a b)), (proj2 (Nat.leb_le (_ + a) _)) by lia. cbn.
  destruct (b <=? length l)%nat eqn:E1; bool_simp.
  - rewrite (proj2 (Nat.leb_le _ _)) by lia. rewrite drop_app_add.
    by replace (length p + b - (length p + a))%nat with (b - a)%nat by lia.
  - by rewrite (proj2 (Nat.leb_gt _ _)) by lia.
Qed.
Lemma slice_skip {E} (p l : bytes) n a b :
  length p = n → (n ≤ a ≤ b)%nat → slice (E:=E) a b (p ++ l) = slice (a - n) (b - n) l.
Proof.
  intros <- ?. rewrite <-(slice_pre p l) by lia. f_equal; lia.
Qed.
Lemma slice_here {E} (p l : bytes) n : length p = n → slice (E:=E) 0 n (p ++ l) = Ok p.
Proof. intros <-. by apply (slice_app [] p l). Qed.

Lemma slice_Ok {E} a b buf l :
  slice (E:=E) a b buf = Ok l →
  drop a buf = l ++ drop b buf ∧ length l = (b - a)%nat ∧ (a ≤ b ≤ length buf)%nat ∧
  (is_bytes buf → is_bytes l).
Proof.
  unfold slice. destruct (_ && _) eqn:E1; [|done]. bool_simp. intros [= <-].
  split_and!; try lia.
  - replace b with (a + (b - a))%nat at 2 by lia. rewrite <-drop_drop. by rewrite take_drop.
  - rewrite length_take, length_drop. lia.
  - intros Hb. unfold is_bytes. by apply Forall_take, Forall_drop.
Qed.
Lemma index_Ok {E A} i (buf : list A) x :
  index (E:=E) i buf = Ok x → drop i buf = x :: drop (S i) buf ∧ (i < length buf)%nat.
Proof.
  unfold index. intros H%expect_Ok. split; [by apply drop_S|]. by eapply lookup_lt_Some.
Qed.
Lemma slice_Panic {E} a b buf : slice (E:=E) a b buf = Panic → (a > b ∨ b > length buf)%nat.
Proof. unfold slice. destruct (_ && _) eqn:E1; [done|]. apply andb_false_iff in E1 as []; bool_simp; lia. Qed.
Lemma index_Panic {E A} i (buf : list A) : index (E:=E) i buf = Panic → (i ≥ length buf)%nat.
Proof. unfold index. intros H%expect_Panic. apply lookup_ge_None in H. lia. Qed.

Lemma index_skip {E A} (p l : list A) n i :
  length p = n → (n ≤ i)%nat → index (E:=E) i (p ++ l) = index (i - n) l.
Proof. intros <- ?. unfold index. by rewrite lookup_app_r by lia. Qed.

(** Solve the length of a fixed-size field. *)
Ltac field_len := rewrite ?length_app, ?length_le_bytes, ?length_replicate; (done || lia).
(** Read every slice of a concatenation of fields, at literal offsets. *)
Ltac read_fields :=
  repeat first
    [ rewrite slice_here by field_len
    | erewrite slice_skip by ((apply length_le_bytes || done) || lia)
    | erewrite index_skip by ((apply length_le_bytes || done) || lia)
    | progress cbn [mbind res_bind Nat.sub] ].

Definition be_bytes (n : nat) (z : Z) : bytes := reverse (le_bytes n z).

#[export] Hint Rewrite length_le_bytes @length_app @length_replicate : trinity.

(** Refute a panic hypothesis by walking the monadic code: [tac H] closes the
    panic of each step, given the facts the earlier steps established. *)
Ltac read_panic H :=
  first [ apply slice_Panic in H; lia
        | apply index_Panic in H; lia
        | apply ok_or_Panic in H; exact H
        | apply ensure_Panic in H; exact H ].
Ltac no_panic tac :=
  repeat match goal with
  | H : (_ ≫= _) = Panic |- _ =>
      apply bind_Panic in H as [H|(? & ? & H)]; [exfalso; solve [read_panic H | tac H]|]
  | H : (if _ then _ else _) = Panic |- _ => let E := fresh "E" in if_inv H E; bool_simp
  | H : (match ?x with pair _ _ => _ end) = Panic |- _ => destruct x
  | H : (let _ := _ in _) = Panic |- _ => cbn zeta in H
  | H : Ok _ = Panic |- _ => discriminate H
  | H : Err _ = Panic |- _ => discriminate H
  end.

(** Induction in steps of three. *)
Lemma list_ind3 {A} (P : list A → Prop) :
  P [] → (∀ a, P [a]) → (∀ a b, P [a; b]) → (∀ a b c l, P l → P (a :: b :: c :: l)) → ∀ l, P l.
Proof.
  intros H0 H1 H2 H3. assert (∀ n l, (length l ≤ n)%nat → P l) as H; [|eauto].
  induction n as [|n IH]; intros [|a [|b [|c l]]] Hl; cbn in Hl; auto; try lia.
  apply H3, IH. lia.
Qed.

(** ** Early-return loops *)

(** [for x in l { f(x)?; }] *)
Fixpoint for_each {E A} (f : A → res E unit) (l : list A) : res E unit :=
  match l with
  | [] => Ok tt
  | x :: l => f x ≫= λ _, for_each f l
  end.

(** [for (i, x) in l.iter().enumerate() { f(i, x)?; }] *)
Fixpoint for_eachi {E A} (f : nat → A → res E unit) (i : nat) (l : list A) : res E unit :=
  match l with
  | [] => Ok tt
  | x :: l => f i x ≫= λ _, for_eachi f (S i) l
  end.

(** [for x in l { acc = f(acc, x)?; }] *)
Fixpoint fold_res {E A B} (f : B → A → res E B) (b : B) (l : list A) : res E B :=
  match l with
  | [] => Ok b
  | x :: l => f b x ≫= λ b', fold_res f b' l
  end.

(** The same loop with the index in hand. *)
Fixpoint fold_resi {E A B} (f : B → nat → A → res E B) (b : B) (i : nat) (l : list A) : res E B :=
  match l with
  | [] => Ok b
  | x :: l => f b i x ≫= λ b', fold_resi f b' (S i) l
  end.

Lemma for_each_Ok {E A} (f : A → res E unit) l :
  for_each f l = Ok tt ↔ ∀ x, x ∈ l → f x = Ok tt.
Proof.
  induction l as [|x l IH]; cbn.
  - set_solver.
  - split.
    + intros ([] & Hx & Hl)%bind_Ok. rewrite IH in Hl. set_solver.
    + intros H. rewrite (H x) by set_solver. cbn. apply IH. set_solver.
Qed.

Lemma for_each_no_panic {E A} (f : A → res E unit) l :
  (∀ x, x ∈ l → f x ≠ Panic) → for_each f l ≠ Panic.
Proof.
  induction l as [|x l IH]; cbn; [done|]. intros H Hp. res_inv.
  - eapply H; [left|done].
  - apply IH; [set_solver|done].
Qed.

Lemma for_eachi_Ok {E A} (f : nat → A → res E unit) i l :
  for_eachi f i l = Ok tt ↔ ∀ k x, l !! k = Some x → f (i + k)%nat x = Ok tt.
Proof.
  revert i. induction l as [|x l IH]; intros i; cbn.
  - naive_solver.
  - split.
    + intros ([] & Hx & Hl)%bind_Ok [|k] y Hk; cbn in Hk; simplify_eq.
      * by rewrite Nat.add_0_r.
      * rewrite <-Nat.add_succ_comm. rewrite IH in Hl. by apply Hl.
    + intros H. rewrite <-(Nat.add_0_r i). rewrite (H O x) by done. cbn.
      apply IH. intros k y Hk. rewrite Nat.add_0_r, Nat.add_succ_comm. by apply (H (S k)).
Qed.

Lemma for_eachi_no_panic {E A} (f : nat → A → res E unit) i l :
  (∀ k x, l !! k = Some x → f (i + k)%nat x ≠ Panic) → for_eachi f i l ≠ Panic.
Proof.
  revert i. induction l as [|x l IH]; intros i; cbn; [done|].
  intros H Hp. res_inv.
  - apply (H O x eq_refl). by rewrite Nat.add_0_r.
  - apply (IH (S i)); [|done]. intros k y Hk.
    rewrite Nat.add_succ_comm. by apply (H (S k)).
Qed.

Lemma fold_res_no_panic {E A B} (f : B → A → res E B) b l :
  (∀ b x, x ∈ l → f b x ≠ Panic) → fold_res f b l ≠ Panic.
Proof.
  revert b. induction l as [|x l IH]; intros b; cbn; [done|].
  intros H Hp. res_inv; [by apply (H b x); [left|]|].
  eapply IH; [|done]. set_solver.
Qed.

Lemma fold_res_total {E A B} (f : B → A → res E B) b l :
  (∀ b x, x ∈ l → ∃ b', f b x = Ok b') → ∃ b', fold_res f b l = Ok b'.
Proof.
  revert b. induction l as [|x l IH]; intros b Hf; cbn [fold_res]; [by exists b|].
  destruct (Hf b x) as [b' ->]; [left|]. cbn [mbind res_bind]. apply IH. intros c y Hy. apply Hf. by right.
Qed.

(** ** Checked sums *)

(** No partial sum overflows. *)
Fixpoint sums_fit (acc : Z) (vs : list Z) : Prop :=
  match vs with [] => True | v :: vs => acc + v ≤ u64_max ∧ sums_fit (acc + v) vs end.

Lemma checked_sum_spec {E A} (f : A → res E Z) (e : E) (step : Z → A → res E Z) acc l s :
  (∀ acc x, x ∈ l → step acc x = v ← f x; ok_or (checked_add acc v) e) →
  fold_res step acc l = Ok s ↔ ∃ vs, Forall2 (λ x v, f x = Ok v) l vs ∧ sums_fit acc vs ∧ s = acc + sum_Z vs.
Proof.
  revert acc. induction l as [|x l IH]; intros acc Hstep; cbn [fold_res].
  - split; [intros [= <-]; exists []; split_and!; [constructor|done|cbn; lia]|].
    intros (vs & ->%Forall2_nil_inv_l & _ & ->). cbn. f_equal. lia.
  - rewrite Hstep by set_solver. split.
    + intros (n & (v & Hv & Hn%ok_or_Ok)%bind_Ok & H)%bind_Ok. apply checked_add_Some in Hn as [-> Hle].
      apply IH in H as (vs & Hf & Hs & ->); [|set_solver]. exists (v :: vs). cbn. split_and!; [by constructor|done..|lia].
    + intros (vs' & (v & vs & Hv & Hf & ->)%Forall2_cons_inv_l & [Hle Hs] & ->). rewrite Hv. cbn [mbind res_bind].
      rewrite (proj2 (checked_add_Some acc v _)) by done. cbn [ok_or mbind res_bind].
      apply IH; [set_solver|]. exists vs. cbn. split_and!; [done..|lia].
Qed.

(** With non-negative summands, the total decides. *)
Lemma sums_fit_total acc vs : Forall (λ z, 0 ≤ z) vs → acc + sum_Z vs ≤ u64_max → sums_fit acc vs.
Proof.
  intros Hv. revert acc. induction Hv as [|v vs Hv Hvs IH]; intros acc; cbn; [done|]. intros Hs.
  pose proof (sum_Z_nonneg _ Hvs). split; [lia|]. apply IH. lia.
Qed.
Lemma sums_fit_bound acc vs : acc ≤ u64_max → sums_fit acc vs → acc + sum_Z vs ≤ u64_max.
Proof.
  revert acc. induction vs as [|v vs IH]; intros acc Ha; cbn; [lia|]. intros [Hv Hvs].
  rewrite Z.add_assoc. by apply IH.
Qed.
