(* ===== verification/Ordered.v ===== *)
(** Total orders and the ordered containers of the Rust standard library.

    [Cmp] is [Ord::cmp]; [CmpLaws] is what [Ord] promises its clients. The
    insertion sort [isort] stands for [slice::sort] and [sort_unstable]: over a
    total order the sorted permutation of a list is unique, so every correct
    sort returns the same list. [BTreeSet] is a strictly increasing list and
    [BTreeMap] an association list with strictly increasing keys, in iteration
    order. *)
From S2P Require Import Prelude.

Class Cmp (A : Type) := cmp : A → A → comparison.

Class CmpLaws (A : Type) `{Cmp A} : Prop := {
  cmp_eq (x y : A) : cmp x y = Eq ↔ x = y;
  cmp_opp (x y : A) : cmp y x = CompOpp (cmp x y);
  cmp_lt_trans (x y z : A) : cmp x y = Lt → cmp y z = Lt → cmp x z = Lt
}.

#[global] Instance Z_cmp : Cmp Z := Z.compare.
#[global] Instance Z_cmp_laws : CmpLaws Z.
Proof.
  split; unfold cmp, Z_cmp.
  - intros. apply Z.compare_eq_iff.
  - intros. apply Z.compare_antisym.
  - intros x y z. rewrite !Z.compare_lt_iff. lia.
Qed.

(** Lexicographic order, [impl Ord for [T]]. *)
Fixpoint lex_cmp `{Cmp A} (l k : list A) : comparison :=
  match l, k with
  | [], [] => Eq
  | [], _ => Lt
  | _, [] => Gt
  | x :: l, y :: k => match cmp x y with Eq => lex_cmp l k | c => c end
  end.
#[global] Instance list_cmp `{Cmp A} : Cmp (list A) := lex_cmp.

Lemma cmp_refl `{CmpLaws A} (x : A) : cmp x x = Eq.
Proof. by apply cmp_eq. Qed.

Lemma cmp_gt_lt `{CmpLaws A} (x y : A) : cmp x y = Gt ↔ cmp y x = Lt.
Proof. rewrite (cmp_opp x y). destruct (cmp x y); naive_solver. Qed.

#[global] Instance list_cmp_laws `{CmpLaws A} : CmpLaws (list A).
Proof.
  split; unfold cmp, list_cmp.
  - intros l. induction l as [|x l IH]; intros [|y k]; cbn; try naive_solver.
    destruct (cmp x y) eqn:E.
    + apply cmp_eq in E as ->. rewrite IH. naive_solver.
    + split; [done|]. intros [= -> ->]. by rewrite cmp_refl in E.
    + split; [done|]. intros [= -> ->]. by rewrite cmp_refl in E.
  - intros l. induction l as [|x l IH]; intros [|y k]; cbn; try done.
    rewrite (cmp_opp x y). destruct (cmp x y); cbn; auto.
  - intros l. induction l as [|x l IH]; intros [|y k] [|z m]; cbn; try done.
    destruct (cmp x y) eqn:E1; try done.
    + apply cmp_eq in E1 as ->. destruct (cmp y z) eqn:E2; try done. eauto.
    + destruct (cmp y z) eqn:E2; try done.
      * apply cmp_eq in E2 as ->. by rewrite E1.
      * by rewrite (cmp_lt_trans x y z).
Qed.

(** Derived [Ord] of a struct with two fields. *)
#[global] Instance prod_cmp `{Cmp A, Cmp B} : Cmp (A * B) := λ x y,
  match cmp x.1 y.1 with Eq => cmp x.2 y.2 | c => c end.
#[global] Instance prod_cmp_laws `{CmpLaws A, CmpLaws B} : CmpLaws (A * B).
Proof.
  split; unfold cmp, prod_cmp.
  - intros [a b] [a' b']; cbn. destruct (cmp a a') eqn:E.
    + apply cmp_eq in E as ->. rewrite cmp_eq. naive_solver.
    + split; [done|]. intros [= -> ->]. by rewrite cmp_refl in E.
    + split; [done|]. intros [= -> ->]. by rewrite cmp_refl in E.
  - intros [a b] [a' b']; cbn. rewrite (cmp_opp a a'). destruct (cmp a a'); cbn; try done.
    apply cmp_opp.
  - intros [a b] [a' b'] [a'' b'']; cbn.
    destruct (cmp a a') eqn:E1; try done.
    + apply cmp_eq in E1 as ->. destruct (cmp a' a'') eqn:E2; try done. eauto using cmp_lt_trans.
    + destruct (cmp a' a'') eqn:E2; try done.
      * apply cmp_eq in E2 as ->. by rewrite E1.
      * by rewrite (cmp_lt_trans a a' a'').
Qed.

Definition clt `{Cmp A} (x y : A) : Prop := cmp x y = Lt.
Definition cle `{Cmp A} (x y : A) : Prop := cmp x y ≠ Gt.
Definition cleb `{Cmp A} (x y : A) : bool := match cmp x y with Gt => false | _ => true end.

Section order.
Context `{CmpLaws A}.
Implicit Types (x y z : A) (l k : list A).

#[global] Instance clt_trans : Transitive (clt (A:=A)).
Proof. intros x y z. apply cmp_lt_trans. Qed.
Lemma clt_irrefl x : ¬ clt x x.
Proof. unfold clt. by rewrite cmp_refl. Qed.
Lemma cle_spec x y : cle x y ↔ clt x y ∨ x = y.
Proof.
  unfold cle, clt. rewrite <-cmp_eq. destruct (cmp x y); naive_solver.
Qed.
Lemma cle_total x y : cle x y ∨ cle y x.
Proof. unfold cle. rewrite (cmp_opp x y). destruct (cmp x y); naive_solver. Qed.
#[global] Instance cle_trans : Transitive (cle (A:=A)).
Proof.
  intros x y z. rewrite !cle_spec. intros [?| ->]; [|done]. intros [?| ->]; [|by left].
  left. by etrans.
Qed.
Lemma cle_antisym x y : cle x y → cle y x → x = y.
Proof.
  rewrite !cle_spec. intros [Hxy|?] [Hyx|?]; try done.
  destruct (clt_irrefl x). by etrans.
Qed.
Lemma cleb_spec x y : cleb x y = true ↔ cle x y.
Proof. unfold cleb, cle. destruct (cmp x y); naive_solver. Qed.

(** ** Sorting *)

Fixpoint ins x l : list A :=
  match l with
  | [] => [x]
  | y :: l' => if cleb x y then x :: l else y :: ins x l'
  end.
Definition isort l : list A := foldr ins [] l.

Lemma ins_perm x l : ins x l ≡ₚ x :: l.
Proof.
  induction l as [|y l IH]; cbn; [done|]. destruct (cleb x y); [done|].
  rewrite IH. apply Permutation_swap.
Qed.
Lemma isort_perm l : isort l ≡ₚ l.
Proof. induction l as [|x l IH]; cbn; [done|]. by rewrite ins_perm, IH. Qed.

Lemma ins_sorted x l : StronglySorted cle l → StronglySorted cle (ins x l).
Proof.
  induction 1 as [|y l Hl IH Hy]; cbn; [repeat constructor|].
  destruct (cleb x y) eqn:E.
  - apply cleb_spec in E. constructor; [by constructor|]. constructor; [done|].
    eapply Forall_impl; [done|]. intros z ?. by etrans.
  - constructor; [done|]. rewrite ins_perm. constructor; [|done].
    destruct (cle_total x y) as [Hle|]; [|done]. apply cleb_spec in Hle. congruence.
Qed.
Lemma isort_sorted l : StronglySorted cle (isort l).
Proof. induction l; cbn; [constructor|]. by apply ins_sorted. Qed.

Lemma sorted_perm_unique l k :
  StronglySorted cle l → StronglySorted cle k → l ≡ₚ k → l = k.
Proof.
  intros Hl. revert k. induction Hl as [|x l Hl IH Hx]; intros k Hk Hp.
  - by apply Permutation_nil_l in Hp.
  - destruct k as [|y k]; [by apply Permutation_nil_r in Hp|].
    apply StronglySorted_inv in Hk as [Hk Hy].
    assert (x = y) as <-.
    { apply cle_antisym.
      - assert (y ∈ x :: l) as Hin by (rewrite Hp; left).
        apply elem_of_cons in Hin as [->|Hin]; [apply cle_spec; by right|].
        by rewrite Forall_forall in Hx; apply Hx.
      - assert (x ∈ y :: k) as Hin by (rewrite <-Hp; left).
        apply elem_of_cons in Hin as [->|Hin]; [apply cle_spec; by right|].
        by rewrite Forall_forall in Hy; apply Hy. }
    f_equal. apply IH; [done|]. by apply Permutation_cons_inv in Hp.
Qed.

Lemma isort_permutation l k : l ≡ₚ k → isort l = isort k.
Proof.
  intros Hp. apply sorted_perm_unique; [apply isort_sorted..|]. by rewrite !isort_perm.
Qed.
Lemma isort_id l : StronglySorted cle l → isort l = l.
Proof. intros. apply sorted_perm_unique; [apply isort_sorted|done|apply isort_perm]. Qed.

(** ** [BTreeSet] *)

Fixpoint bset_insert x l : list A :=
  match l with
  | [] => [x]
  | y :: l' =>
      match cmp x y with
      | Lt => x :: l
      | Eq => l
      | Gt => y :: bset_insert x l'
      end
  end.
Definition bset_of_list l : list A := foldl (λ s x, bset_insert x s) [] l.
(** [BTreeSet::contains] *)
Definition bset_contains l x : bool :=
  existsb (λ y, match cmp x y with Eq => true | _ => false end) l.

Definition bset_wf l : Prop := StronglySorted clt l.

Lemma elem_of_bset_insert x y l : y ∈ bset_insert x l ↔ y = x ∨ y ∈ l.
Proof.
  induction l as [|z l IH]; cbn; [set_solver|].
  destruct (cmp x z) eqn:E; rewrite ?elem_of_cons, ?IH; try naive_solver.
  apply cmp_eq in E as ->. naive_solver.
Qed.

Lemma bset_insert_wf x l : bset_wf l → bset_wf (bset_insert x l).
Proof.
  unfold bset_wf. induction 1 as [|y l Hl IH Hy]; cbn; [repeat constructor|].
  destruct (cmp x y) eqn:E.
  - by constructor.
  - constructor; [by constructor|]. constructor; [done|].
    eapply Forall_impl; [done|]. intros z ?. by etrans.
  - constructor; [done|]. apply Forall_forall. intros z Hz%elem_of_bset_insert.
    rewrite Forall_forall in Hy. destruct Hz as [->|Hz]; [|by apply Hy].
    by apply cmp_gt_lt.
Qed.

Lemma bset_foldl_wf l s : bset_wf s → bset_wf (foldl (λ s x, bset_insert x s) s l).
Proof. revert s. induction l; intros s Hs; cbn; [done|]. auto using bset_insert_wf. Qed.
Lemma bset_of_list_wf l : bset_wf (bset_of_list l).
Proof. apply bset_foldl_wf. constructor. Qed.

Lemma elem_of_bset_foldl l s x :
  x ∈ foldl (λ s x, bset_insert x s) s l ↔ x ∈ l ∨ x ∈ s.
Proof.
  revert s. induction l as [|y l IH]; intros s; cbn; [set_solver|].
  rewrite IH, elem_of_bset_insert. set_solver.
Qed.
Lemma elem_of_bset_of_list l x : x ∈ bset_of_list l ↔ x ∈ l.
Proof. unfold bset_of_list. rewrite elem_of_bset_foldl. set_solver. Qed.

Lemma bset_contains_spec l x : bset_contains l x = true ↔ x ∈ l.
Proof.
  unfold bset_contains. rewrite existsb_exists. split.
  - intros (y & Hy & E). destruct (cmp x y) eqn:Exy; try done.
    apply cmp_eq in Exy as ->. by apply list_elem_of_In.
  - intros Hx. exists x. split; [by apply list_elem_of_In|]. by rewrite cmp_refl.
Qed.

Lemma bset_wf_NoDup l : bset_wf l → NoDup l.
Proof.
  induction 1 as [|x l Hl IH Hx]; constructor; [|done].
  rewrite Forall_forall in Hx. intros Hin. by apply (clt_irrefl x), Hx.
Qed.
Lemma bset_wf_sorted l : bset_wf l → StronglySorted cle l.
Proof.
  induction 1 as [|x l Hl IH Hx]; constructor; [done|].
  eapply Forall_impl; [done|]. intros y ?. apply cle_spec. by left.
Qed.
Lemma bset_ext l k : bset_wf l → bset_wf k → (∀ x, x ∈ l ↔ x ∈ k) → l = k.
Proof.
  intros Hl Hk He. apply sorted_perm_unique; [by apply bset_wf_sorted..|].
  apply NoDup_Permutation; [by apply bset_wf_NoDup..|done].
Qed.
End order.

#[export] Hint Resolve bset_of_list_wf bset_wf_NoDup bset_wf_sorted isort_sorted : trinity.

(** ** [BTreeMap] *)

Section bmap.
Context `{CmpLaws K} {V : Type}.
Implicit Types (m : list (K * V)).

(** [BTreeMap::insert]: replace the value of an equal key, keep the order. *)
Fixpoint bmap_insert (k : K) (v : V) m : list (K * V) :=
  match m with
  | [] => [(k, v)]
  | (k', v') :: m' =>
      match cmp k k' with
      | Lt => (k, v) :: m
      | Eq => (k', v) :: m'
      | Gt => (k', v') :: bmap_insert k v m'
      end
  end.
(** [BTreeMap::get] *)
Fixpoint bmap_get (k : K) m : option V :=
  match m with
  | [] => None
  | (k', v) :: m => match cmp k k' with Eq => Some v | _ => bmap_get k m end
  end.

Definition bmap_wf m : Prop := StronglySorted clt m.*1.

Lemma bmap_get_insert_eq k v m : bmap_get k (bmap_insert k v m) = Some v.
Proof.
  induction m as [|[k' v'] m IH]; cbn.
  - by rewrite cmp_refl.
  - destruct (cmp k k') eqn:E; cbn; rewrite ?cmp_refl, ?E; done.
Qed.
Lemma bmap_get_insert_ne k k' v m :
  k ≠ k' → bmap_get k' (bmap_insert k v m) = bmap_get k' m.
Proof.
  intros Hne. assert (cmp k' k ≠ Eq) as Hc by (rewrite cmp_eq; congruence).
  induction m as [|[k1 v1] m IH]; cbn.
  - destruct (cmp k' k); naive_solver.
  - destruct (cmp k k1) eqn:E; cbn.
    + apply cmp_eq in E as ->. destruct (cmp k' k1); naive_solver.
    + destruct (cmp k' k) eqn:E'; naive_solver.
    + destruct (cmp k' k1); naive_solver.
Qed.
Lemma bmap_insert_elem k v m k' v' :
  (k', v') ∈ bmap_insert k v m → (k' = k ∧ v' = v) ∨ (k', v') ∈ m.
Proof.
  induction m as [|[k1 v1] m IH]; cbn; [set_solver|].
  destruct (cmp k k1) eqn:E.
  - apply cmp_eq in E as ->. set_solver.
  - set_solver.
  - set_solver.
Qed.
Lemma bmap_get_elem k v m : bmap_get k m = Some v → (k, v) ∈ m.
Proof.
  induction m as [|[k' v'] m IH]; cbn; [done|].
  destruct (cmp k k') eqn:E; try (intros; right; auto; done).
  apply cmp_eq in E as ->. intros [= ->]. left.
Qed.
End bmap.
