(* ===== verification/Types.v ===== *)
(** [trinity-types]: the value types every other crate exchanges.

    Key slots, word counts, networks, balances, BIP-32 fingerprints with their
    hex codec, the verdict of the independent verifier, addresses, send
    requests and extended keys with origin. A Rust [String] is its byte list;
    [SecretBytes] is the byte list it wraps (zero-on-drop has no functional
    content and is not modelled). *)
From S2P Require Import Prelude.

(** ** Key slots *)

Inductive KeySlot := SlotA | SlotB | SlotC.
#[global] Instance KeySlot_eq_dec : EqDecision KeySlot.
Proof. solve_decision. Defined.

Definition KeySlot_ALL : list KeySlot := [SlotA; SlotB; SlotC].

Definition slot_as_u8 (s : KeySlot) : Z :=
  match s with SlotA => 0 | SlotB => 1 | SlotC => 2 end.

Definition slot_from_u8 (v : Z) : option KeySlot :=
  if v =? 0 then Some SlotA
  else if v =? 1 then Some SlotB
  else if v =? 2 then Some SlotC
  else None.

Definition has_device_blob (s : KeySlot) : bool :=
  match s with SlotA | SlotB => true | SlotC => false end.

Definition KeySlot_display (s : KeySlot) : bytes :=
  match s with SlotA => str "A" | SlotB => str "B" | SlotC => str "C" end.

(** ** Word counts *)

Inductive WordCount := Words12 | Words24.
#[global] Instance WordCount_eq_dec : EqDecision WordCount.
Proof. solve_decision. Defined.

Definition words (w : WordCount) : Z := match w with Words12 => 12 | Words24 => 24 end.
Definition entropy_bytes (w : WordCount) : Z := match w with Words12 => 16 | Words24 => 32 end.
Definition quiz_sample_size (w : WordCount) : Z := match w with Words12 => 3 | Words24 => 4 end.
Definition from_words (n : Z) : option WordCount :=
  if n =? 12 then Some Words12 else if n =? 24 then Some Words24 else None.

(** ** Networks *)

Inductive Network := Bitcoin | Testnet | Signet | Regtest.
#[global] Instance Network_eq_dec : EqDecision Network.
Proof. solve_decision. Defined.

Definition coin_type (n : Network) : Z :=
  match n with Bitcoin => 0 | Testnet | Signet | Regtest => 1 end.
Definition is_test_network (n : Network) : bool :=
  match n with Bitcoin => false | _ => true end.
Definition Network_display (n : Network) : bytes :=
  match n with
  | Bitcoin => str "bitcoin"
  | Testnet => str "testnet"
  | Signet => str "signet"
  | Regtest => str "regtest"
  end.

(** ** Balances *)

Record Balance := mkBalance {
  confirmed_sats : Z;
  trusted_pending_sats : Z;
  untrusted_pending_sats : Z;
  immature_sats : Z
}.

Definition Balance_zero : Balance := mkBalance 0 0 0 0.

Definition spend_policy_reference_sats (b : Balance) : Z :=
  sat_add (confirmed_sats b) (trusted_pending_sats b).

Definition trusted_spendable_sats (b : Balance) : Z := spend_policy_reference_sats b.

Definition total_sats (b : Balance) : Z :=
  sat_add (sat_add (sat_add (confirmed_sats b) (trusted_pending_sats b))
                   (untrusted_pending_sats b))
          (immature_sats b).

Definition balance_wf (b : Balance) : Prop :=
  is_u64 (confirmed_sats b) ∧ is_u64 (trusted_pending_sats b) ∧
  is_u64 (untrusted_pending_sats b) ∧ is_u64 (immature_sats b).

Lemma spend_policy_reference_u64 b :
  balance_wf b → is_u64 (spend_policy_reference_sats b).
Proof. intros (? & ? & _). by apply sat_add_u64. Qed.
#[export] Hint Resolve spend_policy_reference_u64 : trinity.

(** ** Fingerprints *)

(** [Fingerprint([u8; 4])] *)
Definition Fingerprint := bytes.
Definition fingerprint_wf (fp : Fingerprint) : Prop := is_bytes fp ∧ length fp = 4%nat.

Inductive FingerprintParseError := InvalidLength | InvalidHex.

Definition hex_nibble (c : Z) : option Z :=
  if (48 <=? c) && (c <=? 57) then Some (c - 48)
  else if (97 <=? c) && (c <=? 102) then Some (c - 97 + 10)
  else if (65 <=? c) && (c <=? 70) then Some (c - 65 + 10)
  else None.

(** The body of [from_hex]'s loop over [chunks(2)]. *)
Fixpoint hex_pairs (s : bytes) : res FingerprintParseError bytes :=
  match s with
  | c1 :: c2 :: s =>
      hi ← ok_or (hex_nibble c1) InvalidHex;
      lo ← ok_or (hex_nibble c2) InvalidHex;
      rest ← hex_pairs s;
      Ok (Z.lor (Z.shiftl hi 4) lo :: rest)
  | [] => Ok []
  | [_] => Panic
  end.

Definition from_hex (s : bytes) : res FingerprintParseError Fingerprint :=
  if negb (length s =? 8)%nat then Err InvalidLength else hex_pairs s.

(** The [HEX] table: [b"0123456789abcdef"]. *)
Definition HEX : bytes := str "0123456789abcdef".
Definition hex_digit (n : Z) : Z := nth (Z.to_nat n) HEX 0.

Definition hex_encode (l : bytes) : bytes :=
  concat (map (λ b, [hex_digit (Z.shiftr b 4); hex_digit (Z.land b 15)]) l).

Definition to_hex (fp : Fingerprint) : bytes := hex_encode fp.

Arguments hex_digit : simpl never.
Arguments hex_nibble : simpl never.

Lemma hex_nibble_digit n : 0 ≤ n < 16 → hex_nibble (hex_digit n) = Some n.
Proof.
  intros Hn. assert (Forall (λ n, hex_nibble (hex_digit (Z.of_nat n)) = Some (Z.of_nat n)) (seq 0 16)) as Hf
    by (repeat constructor).
  rewrite Forall_forall in Hf. specialize (Hf (Z.to_nat n)).
  rewrite Z2Nat.id in Hf by lia. apply Hf. apply elem_of_seq. lia.
Qed.

Lemma nibbles_of_byte b :
  is_u8 b → 0 ≤ Z.shiftr b 4 < 16 ∧ 0 ≤ Z.land b 15 < 16 ∧
            Z.lor (Z.shiftl (Z.shiftr b 4) 4) (Z.land b 15) = b.
Proof.
  unfold is_u8, u8_max. intros Hb. change 15 with (Z.ones 4).
  rewrite Z.land_ones, Z.shiftr_div_pow2 by lia. split_and!.
  - apply Z.div_pos; lia.
  - apply Z.div_lt_upper_bound; lia.
  - apply Z.mod_pos_bound; lia.
  - apply Z.mod_pos_bound; lia.
  - rewrite <-Z.land_ones, <-Z.shiftr_div_pow2 by lia.
    apply Z.bits_inj'. intros n Hn.
    rewrite Z.lor_spec, Z.land_spec, Z.shiftl_spec, Z.testbit_ones by lia.
    destruct (decide (n < 4)).
    + rewrite (Z.testbit_neg_r _ (n - 4)) by lia. cbn.
      rewrite (proj2 (Z.leb_le 0 n)), (proj2 (Z.ltb_lt n 4)) by lia.
      by rewrite andb_true_r.
    + rewrite Z.shiftr_spec by lia. replace (n - 4 + 4) with n by lia.
      rewrite (proj2 (Z.ltb_ge n 4)) by lia. by rewrite !andb_false_r, orb_false_r.
Qed.

Lemma hex_pairs_encode l : is_bytes l → hex_pairs (hex_encode l) = Ok l.
Proof.
  unfold hex_encode. induction 1 as [|b l Hb Hl IH]; cbn; [done|].
  destruct (nibbles_of_byte b Hb) as (Hh & Hlo & Hb').
  rewrite !hex_nibble_digit by done. cbn. by rewrite IH, Hb'.
Qed.

Lemma length_hex_encode l : length (hex_encode l) = (2 * length l)%nat.
Proof. unfold hex_encode. induction l; cbn; lia. Qed.

(** ASCII lower-casing of one byte, [u8::to_ascii_lowercase]. *)
Definition to_lower (c : Z) : Z := if (65 <=? c) && (c <=? 90) then c + 32 else c.

Lemma hex_digit_nibble c n :
  hex_nibble c = Some n → 0 ≤ n < 16 ∧ hex_digit n = to_lower c.
Proof.
  unfold hex_nibble. intros H.
  assert (Forall (λ n, hex_digit (Z.of_nat n) = if (n <? 10)%nat then 48 + Z.of_nat n else 87 + Z.of_nat n)
            (seq 0 16)) as Hf by (repeat constructor).
  rewrite Forall_forall in Hf. specialize (Hf (Z.to_nat n)).
  unfold to_lower.
  repeat case_match; simplify_eq; bool_simp; split; try lia;
    rewrite Z2Nat.id in Hf by lia; rewrite Hf by (apply elem_of_seq; lia);
    repeat case_match; bool_simp; lia.
Qed.

Lemma hex_pairs_decode s fp :
  hex_pairs s = Ok fp → is_bytes fp ∧ hex_encode fp = map to_lower s ∧ length s = (2 * length fp)%nat.
Proof.
  revert fp. remember (length s) as n eqn:Hn. revert s Hn.
  induction (lt_wf n) as [n _ IH]. intros [|c1 [|c2 s]] Hn fp Hs; cbn in Hs.
  - injection Hs as <-. split; [constructor|]. done.
  - done.
  - apply bind_Ok in Hs as (hi & Hhi%ok_or_Ok & Hs).
    apply bind_Ok in Hs as (lo & Hlo%ok_or_Ok & Hs).
    apply bind_Ok in Hs as (rest & Hr & [= <-]).
    apply hex_digit_nibble in Hhi as [Hhb Hhd], Hlo as [Hlb Hld].
    cbn in Hn. destruct (IH (length s)) with (s := s) (fp := rest) as (Hb & He & Hlen); [lia|done|done|].
    assert (Z.lor (Z.shiftl hi 4) lo = hi * 16 + lo) as Hor.
    { rewrite Z.shiftl_mul_pow2 by lia. change (2 ^ 4) with 16. symmetry.
      apply Z.add_nocarry_lor. apply Z.bits_inj'. intros k Hk.
      change 16 with (2 ^ 4). rewrite Z.land_spec, Z.bits_0, <-Z.shiftl_mul_pow2, Z.shiftl_spec by lia.
      destruct (decide (k < 4)).
      - by rewrite Z.testbit_neg_r by lia.
      - rewrite (testbit_small lo 4 k) by lia. by rewrite andb_false_r. }
    rewrite Hor. split_and!.
    + constructor; [|done]. unfold is_u8, u8_max. lia.
    + unfold hex_encode. cbn. rewrite <-He, <-Hhd, <-Hld. change 15 with (Z.ones 4).
      rewrite Z.land_ones, Z.shiftr_div_pow2 by lia. change (2 ^ 4) with 16.
      rewrite Z.div_add_l, (Z.div_small lo), Z.add_0_r by lia.
      rewrite Z.add_comm, Z.mod_add, (Z.mod_small lo) by lia. done.
    + cbn. lia.
Qed.

(** The hex codec of a fingerprint is exact: the eight lowercase digits of
    any fingerprint parse back to it, and whatever parses prints as the
    lower-cased input, so two strings denote the same fingerprint only when
    they differ in letter case. *)
Lemma fingerprint_hex_roundtrip :
  (∀ fp, fingerprint_wf fp → from_hex (to_hex fp) = Ok fp) ∧
  (∀ s fp, from_hex s = Ok fp → fingerprint_wf fp ∧ to_hex fp = map to_lower s).
Proof.
  split.
  - intros fp [Hb Hl]. unfold from_hex, to_hex. rewrite length_hex_encode, Hl. cbn.
    by apply hex_pairs_encode.
  - intros s fp. unfold from_hex. destruct (length s =? 8)%nat eqn:E; cbn; [|done].
    bool_simp. intros (Hb & He & Hl)%hex_pairs_decode. split; [|done].
    split; [done|lia].
Qed.

(** Slot and word-count ordinals are inverse to their decoders. *)
Lemma slot_from_as_u8 s : slot_from_u8 (slot_as_u8 s) = Some s.
Proof. by destruct s. Qed.
Lemma slot_as_from_u8 v s : slot_from_u8 v = Some s → slot_as_u8 s = v.
Proof. unfold slot_from_u8. repeat case_match; bool_simp; naive_solver. Qed.
Lemma from_words_words w : from_words (words w) = Some w.
Proof. by destruct w. Qed.
Lemma words_from_words v w : from_words v = Some w → words w = v.
Proof. unfold from_words. repeat case_match; bool_simp; naive_solver. Qed.

(** ** Verdict, addresses, requests, extended keys *)

Record PsbtVerdict := mkVerdict {
  vd_ok : bool;
  vd_recipient : bytes;
  vd_amount_sats : Z;
  vd_change_sats : Z;
  vd_fee_sats : Z;
  vd_feerate_sat_vb : Z
}.

Inductive KeychainKind := KeychainExternal | KeychainInternal.
Definition is_internal (k : KeychainKind) : bool :=
  match k with KeychainInternal => true | KeychainExternal => false end.
Definition is_external (k : KeychainKind) : bool :=
  match k with KeychainExternal => true | KeychainInternal => false end.

Record AddressInfo := mkAddressInfo {
  ai_address : bytes;
  ai_index : Z;
  ai_keychain : KeychainKind
}.

Inductive FeeTarget := FeerateSatVb (v : Z) | AbsoluteSats (v : Z).
Definition is_feerate (t : FeeTarget) : bool :=
  match t with FeerateSatVb _ => true | AbsoluteSats _ => false end.
Definition is_absolute (t : FeeTarget) : bool :=
  match t with AbsoluteSats _ => true | FeerateSatVb _ => false end.

Record SendRequest := mkSendRequest {
  sr_recipient : bytes;
  sr_amount_sats : Z;
  sr_fee_target : FeeTarget
}.

Record XpubWithOrigin := mkXpubWithOrigin {
  xo_fingerprint : Fingerprint;
  xo_origin_path : bytes;
  xo_xpub : bytes
}.

(** [format!("[{}/{}]{}", fingerprint, origin_path, xpub)] *)
Definition key_origin_prefix (x : XpubWithOrigin) : bytes :=
  str "[" ++ to_hex (xo_fingerprint x) ++ str "/" ++ xo_origin_path x ++ str "]" ++ xo_xpub x.
