(* ===== verification/Limits.v ===== *)
(** [trinity-signer/src/limits.rs]: the spend policy and the clamp that turns a
    balance into the allowance of one window.

    A [Duration] is its number of nanoseconds. The policy's public fields may
    hold any value of their width; [validate] is the setter's filter and
    [allowance] is total on every policy, valid or not. *)
From S2P Require Import Prelude Types.

(** The errors this component can return; the signer's full error type embeds
    them ([Sign.SignError]). *)
Inductive PolicyError := FloorAboveCap | InvalidSpendPolicy | PolicyOutOfRange.
#[global] Instance PolicyError_eq_dec : EqDecision PolicyError.
Proof. solve_decision. Defined.

(** ** Ratio *)

Record Ratio := mkRatio { numer : Z; denom : Z }.

Definition Ratio_new (n d : Z) : option Ratio :=
  if d =? 0 then None else Some (mkRatio n d).

Definition PERCENT_20 : Ratio := mkRatio 1 5.

(** [floor(value * numer / denom)] with a saturating [u128] intermediate. *)
Definition Ratio_of (r : Ratio) (value : Z) : Z :=
  let n := Z.min (value * numer r) u128_max / denom r in
  if n >? u64_max then u64_max else n.

Definition ratio_wf (r : Ratio) : Prop := is_u64 (numer r) ∧ is_u64 (denom r) ∧ denom r ≠ 0.

(** ** Policy *)

Definition NANOS_PER_SEC : Z := 1000000000.
(** [Duration::from_secs], in nanoseconds. *)
Definition from_secs (s : Z) : Z := s * NANOS_PER_SEC.

Record SpendPolicy := mkSpendPolicy {
  window_fraction : option Ratio;
  window_floor_sat : option Z;
  window_cap_sat : option Z;
  window : Z;
  passphrase_on_first_use : bool
}.

Definition policy_standard : SpendPolicy :=
  mkSpendPolicy (Some PERCENT_20) (Some 200) (Some 500) (from_secs (24 * 60 * 60)) true.

Definition policy_off : SpendPolicy :=
  mkSpendPolicy None None None (from_secs (24 * 60 * 60)) true.

Definition policy_floor (p : SpendPolicy) : Z := default 0 (window_floor_sat p).
Definition policy_cap (p : SpendPolicy) : Z := default u64_max (window_cap_sat p).

Definition validate (p : SpendPolicy) : res PolicyError SpendPolicy :=
  if policy_floor p >? policy_cap p then Err FloorAboveCap
  else if negb (passphrase_on_first_use p) then Err InvalidSpendPolicy
  else
    _ ← match window_fraction p with
        | Some f =>
            if (numer f =? 0) || (numer f >? denom f) || (sat_mul (numer f) 100 <? denom f)
            then Err PolicyOutOfRange else Ok tt
        | None => Ok tt
        end;
    if (window p <? from_secs (60 * 60)) || (window p >? from_secs (7 * 24 * 60 * 60))
    then Err PolicyOutOfRange
    else Ok p.

Definition set_spend_policy (p : SpendPolicy) : res PolicyError SpendPolicy := validate p.

(** [Ord::clamp] *)
Definition clamp (v lo hi : Z) : Z := if v <? lo then lo else if v >? hi then hi else v.

Definition allowance (p : SpendPolicy) (balance_sat : Z) : Z :=
  let by_fraction := match window_fraction p with
                     | Some f => Ratio_of f balance_sat
                     | None => u64_max
                     end in
  let floor := policy_floor p in
  let cap := policy_cap p in
  if floor >? cap then 0 else Z.min (clamp by_fraction floor cap) balance_sat.

(** Field widths of a policy record. *)
Definition policy_wf (p : SpendPolicy) : Prop :=
  (∀ r, window_fraction p = Some r → ratio_wf r) ∧
  (∀ z, window_floor_sat p = Some z → is_u64 z) ∧
  (∀ z, window_cap_sat p = Some z → is_u64 z) ∧
  0 ≤ window p.

(** ** Theorems *)

Lemma policy_standard_wf : policy_wf policy_standard.
Proof.
  split_and!; cbn; intros ? [= <-] || idtac; repeat split; try discriminate; done.
Qed.

Lemma policy_floor_u64 p : policy_wf p → is_u64 (policy_floor p).
Proof.
  intros (_ & Hf & _). unfold policy_floor. destruct (window_floor_sat p); cbn; [by apply Hf|].
  mlia.
Qed.
Lemma policy_cap_u64 p : policy_wf p → is_u64 (policy_cap p).
Proof.
  intros (_ & _ & Hc & _). unfold policy_cap. destruct (window_cap_sat p); cbn; [by apply Hc|].
  mlia.
Qed.

Lemma Ratio_of_u64 r v : ratio_wf r → is_u64 v → is_u64 (Ratio_of r v).
Proof.
  intros ([Hn _] & [Hd _] & Hz) [Hv _]. unfold Ratio_of, is_u64. rewrite Z.gtb_ltb.
  assert (0 ≤ Z.min (v * numer r) u128_max / denom r).
  { apply Z.div_pos; [|lia]. unfold u128_max. nia. }
  destruct (_ <? _) eqn:E; bool_simp; unfold u64_max in *; lia.
Qed.
#[export] Hint Resolve policy_floor_u64 policy_cap_u64 Ratio_of_u64 : trinity.

(** The [u128] intermediate never saturates, so the share of a balance is
    the exact floor of the rational product, clipped at [u64::MAX]. *)
Lemma ratio_of_exact r v :
  ratio_wf r → is_u64 v →
  Ratio_of r v = Z.min (v * numer r / denom r) u64_max.
Proof.
  intros ([Hn Hn'] & [Hd _] & Hz) [Hv Hv']. unfold Ratio_of. rewrite Z.gtb_ltb.
  assert (v * numer r ≤ u128_max) as Hm.
  { unfold u64_max in *. trans ((2 ^ 64 - 1) * (2 ^ 64 - 1)); [nia|]. unfold u128_max. lia. }
  rewrite Z.min_l by done. destruct (_ <? _) eqn:E; bool_simp; lia.
Qed.

Lemma clamp_spec v lo hi : lo ≤ hi → clamp v lo hi = Z.max lo (Z.min v hi).
Proof. intros. unfold clamp. repeat case_match; bool_simp; rewrite ?Z.gtb_ltb in *; bool_simp; lia. Qed.

(** The share, before floor and cap. *)
Definition by_fraction (p : SpendPolicy) (b : Z) : Z :=
  match window_fraction p with Some f => Ratio_of f b | None => u64_max end.

Lemma allowance_unfold p b :
  policy_floor p ≤ policy_cap p →
  allowance p b = Z.min (Z.max (policy_floor p) (Z.min (by_fraction p b) (policy_cap p))) b.
Proof.
  intros Hle. unfold allowance. rewrite Z.gtb_ltb.
  destruct (_ <? _) eqn:E; bool_simp; [lia|]. by rewrite clamp_spec.
Qed.

Lemma by_fraction_u64 p b : policy_wf p → is_u64 b → is_u64 (by_fraction p b).
Proof.
  intros (Hr & _) Hb. unfold by_fraction. destruct (window_fraction p); [|mlia].
  apply Ratio_of_u64; [|done]. by apply Hr.
Qed.

Lemma allowance_u64 p b : policy_wf p → is_u64 b → is_u64 (allowance p b).
Proof.
  intros Hp Hb. pose proof (policy_floor_u64 p Hp). pose proof (policy_cap_u64 p Hp).
  pose proof (by_fraction_u64 p b Hp Hb).
  destruct (decide (policy_floor p ≤ policy_cap p)).
  - rewrite allowance_unfold by done. mlia.
  - unfold allowance. rewrite Z.gtb_ltb, (proj2 (Z.ltb_lt _ _)) by lia. mlia.
Qed.
#[export] Hint Resolve allowance_u64 : trinity.

(** C33: on every policy, set through the validator or not, the allowance of a
    window is at most the balance and at most the cap, and (when floor and cap
    are in order) at least the floor or the whole balance; out-of-order floor
    and cap give zero. With a share it is exact: the floor of the rational
    product, without overflow, clamped between floor and cap and to the
    balance. *)
Theorem allowance_bounds p b :
  policy_wf p → is_u64 b →
  0 ≤ allowance p b ≤ Z.min b (policy_cap p) ∧
  (policy_floor p ≤ policy_cap p → Z.min (policy_floor p) b ≤ allowance p b) ∧
  (policy_cap p < policy_floor p → allowance p b = 0) ∧
  (∀ r, policy_floor p ≤ policy_cap p → window_fraction p = Some r →
     allowance p b = Z.min (Z.max (policy_floor p) (Z.min (b * numer r / denom r) (policy_cap p))) b).
Proof.
  intros Hp Hb. pose proof (policy_floor_u64 p Hp). pose proof (policy_cap_u64 p Hp).
  pose proof (by_fraction_u64 p b Hp Hb).
  destruct (decide (policy_floor p ≤ policy_cap p)).
  - rewrite allowance_unfold by done. split_and!; [mlia..|intros; mlia|intros; mlia|].
    intros r _ Hf. unfold by_fraction. destruct Hp as (Hr & _). rewrite Hf, ratio_of_exact by eauto. mlia.
  - unfold allowance. rewrite Z.gtb_ltb, (proj2 (Z.ltb_lt _ _)) by lia. split_and!; intros; mlia.
Qed.

Lemma Ratio_of_mono r b b' :
  ratio_wf r → 0 ≤ b ≤ b' → Ratio_of r b ≤ Ratio_of r b'.
Proof.
  intros ([Hn _] & [Hd _] & Hz) Hb. unfold Ratio_of. rewrite !Z.gtb_ltb.
  assert (Z.min (b * numer r) u128_max / denom r ≤ Z.min (b' * numer r) u128_max / denom r).
  { apply Z.div_le_mono; [lia|]. nia. }
  repeat case_match; bool_simp; lia.
Qed.

(** The allowance never shrinks when the balance grows, and the balance
    reference ignores foreign unconfirmed money, so an unsolicited payment
    cannot change what may be spent without the passphrase. *)
Lemma allowance_monotone p b b' :
  policy_wf p → is_u64 b → is_u64 b' → b ≤ b' →
  allowance p b ≤ allowance p b' ∧
  (∀ c t u u' i i',
     allowance p (spend_policy_reference_sats (mkBalance c t u i)) =
     allowance p (spend_policy_reference_sats (mkBalance c t u' i'))).
Proof.
  intros Hp Hb Hb' Hle. split; [|done].
  destruct (decide (policy_floor p ≤ policy_cap p)).
  - rewrite !allowance_unfold by done.
    assert (by_fraction p b ≤ by_fraction p b').
    { unfold by_fraction. destruct Hp as (Hr & _). destruct (window_fraction p); [|lia].
      apply Ratio_of_mono; [by apply Hr|]. destruct Hb. lia. }
    lia.
  - unfold allowance. rewrite Z.gtb_ltb, (proj2 (Z.ltb_lt _ _)) by lia. lia.
Qed.

Lemma allowance_monotone_witness :
  allowance policy_standard 1500 ≤ allowance policy_standard 2501.
Proof.
  apply (allowance_monotone policy_standard 1500 2501); [apply policy_standard_wf|mlia..].
Defined.

(** The setter accepts exactly the policies with floor at most cap, the
    first-use passphrase on, a share between 1 % and 100 % (or none) and a
    window between one hour and seven days; it returns them unchanged. *)
Lemma validate_spec p :
  policy_wf p →
  (set_spend_policy p = Ok p ↔
    policy_floor p ≤ policy_cap p ∧ passphrase_on_first_use p = true ∧
    (∀ r, window_fraction p = Some r → denom r ≤ 100 * numer r ∧ numer r ≤ denom r) ∧
    3600 * NANOS_PER_SEC ≤ window p ≤ 604800 * NANOS_PER_SEC) ∧
  (∀ q, set_spend_policy p = Ok q → q = p) ∧ set_spend_policy p ≠ Panic.
Proof.
  intros (Hr & _). unfold set_spend_policy, validate. rewrite !Z.gtb_ltb.
  unfold from_secs. cbn.
  destruct (_ <? policy_floor p) eqn:E1; bool_simp; [naive_solver lia|].
  destruct (passphrase_on_first_use p) eqn:E2; cbn; [|naive_solver].
  destruct (window_fraction p) as [f|] eqn:Ef.
  - destruct (Hr f eq_refl) as ([Hn Hn'] & [Hd Hd'] & Hz). rewrite Z.gtb_ltb.
    unfold sat_mul, u64_max in *.
    destruct (_ || _ || _) eqn:E3.
    + cbn. split_and!; [|done..]. split; [done|]. intros (_ & _ & H & _).
      destruct (H f eq_refl). apply orb_true_iff in E3 as [E3|E3]; bool_simp; [|lia].
      apply orb_true_iff in E3 as [E3|E3]; bool_simp; lia.
    + cbn. apply orb_false_elim in E3 as [E3 ?]. apply orb_false_elim in E3 as [? ?]. bool_simp.
      destruct (_ || _) eqn:E4.
      * split_and!; [|done..]. split; [done|]. intros (_ & _ & _ & Hw).
        apply orb_true_iff in E4 as [E4|E4]; bool_simp; lia.
      * bool_simp. split_and!; [|naive_solver|done]. split; [|done]. intros _.
        split_and!; try done; try lia. intros r [= <-]. lia.
  - cbn. destruct (_ || _) eqn:E4.
    + split_and!; [|done..]. split; [done|]. intros (_ & _ & _ & Hw).
      apply orb_true_iff in E4 as [E4|E4]; bool_simp; lia.
    + bool_simp. split_and!; [|naive_solver|done]. split; [|done]. intros _. by split_and!.
Qed.

Lemma allowance_bounds_witness :
  0 ≤ allowance policy_standard 1500 ≤ Z.min 1500 (policy_cap policy_standard) ∧
  (policy_floor policy_standard ≤ policy_cap policy_standard →
   Z.min (policy_floor policy_standard) 1500 ≤ allowance policy_standard 1500) ∧
  (policy_cap policy_standard < policy_floor policy_standard → allowance policy_standard 1500 = 0) ∧
  (∀ r, policy_floor policy_standard ≤ policy_cap policy_standard → window_fraction policy_standard = Some r →
     allowance policy_standard 1500 =
     Z.min (Z.max (policy_floor policy_standard) (Z.min (1500 * numer r / denom r) (policy_cap policy_standard))) 1500).
Proof. apply (allowance_bounds policy_standard 1500); [apply policy_standard_wf|mlia]. Defined.

Lemma validate_spec_witness :
  (set_spend_policy policy_standard = Ok policy_standard ↔
    policy_floor policy_standard ≤ policy_cap policy_standard ∧ passphrase_on_first_use policy_standard = true ∧
    (∀ r, window_fraction policy_standard = Some r → denom r ≤ 100 * numer r ∧ numer r ≤ denom r) ∧
    3600 * NANOS_PER_SEC ≤ window policy_standard ≤ 604800 * NANOS_PER_SEC) ∧
  (∀ q, set_spend_policy policy_standard = Ok q → q = policy_standard) ∧ set_spend_policy policy_standard ≠ Panic.
Proof. apply (validate_spec policy_standard). apply policy_standard_wf. Defined.
