(* ===== verification/Bitcoin.v ===== *)
(** The part of the [bitcoin] crate the wallet works on.

    Data types (transactions, PSBT maps, derivation paths, sighash types) with
    the fields the wallet reads or writes, and the small pure functions of the
    crate it calls ([ChildNumber]/[DerivationPath] parsing, [Psbt::fee],
    [extract_tx_unchecked_fee_rate], [Builder::push_int]), translated from the
    vendored sources. Hash functions, elliptic-curve arithmetic, base58,
    bech32 and consensus validation are parameters, grouped in the classes
    [Hashes], [Secp], [Codec]; a theorem that needs one of their documented
    laws says so.

    A [secp256k1::PublicKey] is identified with its 33-byte compressed
    encoding, a [SecretKey] with its 32 bytes, an ECDSA signature with its
    64-byte compact form. *)
From S2P Require Import Prelude Ordered Types.

(** ** Transactions *)

Record OutPoint := mkOutPoint { op_txid : bytes; op_vout : Z }.
#[global] Instance OutPoint_eq_dec : EqDecision OutPoint.
Proof. solve_decision. Defined.
#[global] Instance OutPoint_countable : Countable OutPoint.
Proof.
  refine (inj_countable' (λ o, (op_txid o, op_vout o)) (λ p, mkOutPoint p.1 p.2) _).
  by intros [].
Defined.
(** The derived order: txid bytes first, then the output index. *)
#[global] Instance OutPoint_cmp : Cmp OutPoint := λ a b,
  cmp (op_txid a, op_vout a) (op_txid b, op_vout b).
#[global] Instance OutPoint_cmp_laws : CmpLaws OutPoint.
Proof.
  split; unfold cmp, OutPoint_cmp.
  - intros [] []. rewrite cmp_eq. cbn. naive_solver.
  - intros. apply cmp_opp.
  - intros x y z. apply cmp_lt_trans.
Qed.

Record TxOut := mkTxOut { txo_value : Z; txo_script : bytes }.
#[global] Instance TxOut_eq_dec : EqDecision TxOut.
Proof. solve_decision. Defined.

Record TxIn := mkTxIn {
  previous_output : OutPoint;
  script_sig : bytes;
  sequence : Z;
  witness : list bytes
}.

Record Transaction := mkTransaction {
  tx_version : Z;
  tx_lock_time : Z;
  tx_input : list TxIn;
  tx_output : list TxOut
}.

(** ** Derivation paths *)

Inductive ChildNumber := Normal (index : Z) | Hardened (index : Z).
#[global] Instance ChildNumber_eq_dec : EqDecision ChildNumber.
Proof. solve_decision. Defined.

Notation DerivationPath := (list ChildNumber).
Notation KeySource := (Fingerprint * DerivationPath)%type.

(** [str::split(c)]: always at least one piece. *)
Fixpoint split_on (c : Z) (s : bytes) : list bytes :=
  match s with
  | [] => [[]]
  | x :: s =>
      if x =? c then [] :: split_on c s
      else match split_on c s with
           | p :: ps => (x :: p) :: ps
           | [] => [[x]]
           end
  end.

(** [s.strip_prefix(p)] *)
Fixpoint strip_prefix (p s : bytes) : option bytes :=
  match p, s with
  | [], _ => Some s
  | x :: p, y :: s => if x =? y then strip_prefix p s else None
  | _ :: _, [] => None
  end.

Definition is_ascii_digit (c : Z) : bool := (48 <=? c) && (c <=? 57).

(** Decimal digits to a value; [None] on another character or past [limit]. *)
Fixpoint parse_digits (limit acc : Z) (s : bytes) : option Z :=
  match s with
  | [] => Some acc
  | c :: s =>
      if is_ascii_digit c && (acc * 10 + (c - 48) <=? limit)
      then parse_digits limit (acc * 10 + (c - 48)) s else None
  end.

(** [<unsigned>::from_str]: an optional plus sign, then one or more digits. *)
Definition parse_uint (limit : Z) (s : bytes) : option Z :=
  match s with
  | [] => None
  | c :: s' =>
      if c =? 43 then (if (length s' =? 0)%nat then None else parse_digits limit 0 s')
      else parse_digits limit 0 s
  end.

Definition HARDENED_IDX : Z := 2 ^ 31.

(** [impl FromStr for ChildNumber] *)
Definition ChildNumber_from_str (inp : bytes) : option ChildNumber :=
  match last inp with
  | Some c =>
      if (c =? 39) || (c =? 104) then
        i ← parse_uint u32_max (take (length inp - 1) inp);
        if i <? HARDENED_IDX then Some (Hardened i) else None
      else
        i ← parse_uint u32_max inp;
        if i <? HARDENED_IDX then Some (Normal i) else None
  | None =>
      i ← parse_uint u32_max inp;
      if i <? HARDENED_IDX then Some (Normal i) else None
  end.

(** [impl FromStr for DerivationPath] *)
Definition DerivationPath_from_str (path : bytes) : option DerivationPath :=
  if bool_decide (path = []) || bool_decide (path = str "m") || bool_decide (path = str "m/")
  then Some []
  else mapM ChildNumber_from_str (split_on 47 (default path (strip_prefix (str "m/") path))).

(** ** Signatures *)

Inductive EcdsaSighashType :=
  | SighashAll | SighashNone | SighashSingle
  | SighashAllAcp | SighashNoneAcp | SighashSingleAcp.
#[global] Instance EcdsaSighashType_eq_dec : EqDecision EcdsaSighashType.
Proof. solve_decision. Defined.

(** [PsbtSighashType::ecdsa_hash_ty] *)
Definition ecdsa_hash_ty (n : Z) : option EcdsaSighashType :=
  if n =? 1 then Some SighashAll
  else if n =? 2 then Some SighashNone
  else if n =? 3 then Some SighashSingle
  else if n =? 129 then Some SighashAllAcp
  else if n =? 130 then Some SighashNoneAcp
  else if n =? 131 then Some SighashSingleAcp
  else None.

Record EcdsaSignature := mkSig { sig_compact : bytes; sig_sighash : EcdsaSighashType }.

(** [bitcoin::PublicKey]: a compression flag and the point. *)
Notation BtcPublicKey := (bool * bytes)%type.
#[global] Instance bool_cmp : Cmp bool := λ a b,
  match a, b with false, true => Lt | true, false => Gt | _, _ => Eq end.
#[global] Instance bool_cmp_laws : CmpLaws bool.
Proof. split; unfold cmp, bool_cmp; intros; repeat case_match; naive_solver. Qed.

(** ** PSBT *)

Record PsbtInput := mkPsbtInput {
  non_witness_utxo : option Transaction;
  witness_utxo : option TxOut;
  partial_sigs : list (BtcPublicKey * EcdsaSignature);
  sighash_type : option Z;
  witness_script : option bytes;
  in_bip32_derivation : list (bytes * KeySource);
  final_script_sig : option bytes;
  final_script_witness : option (list bytes);
  in_proprietary : list (bytes * bytes)
}.

Record PsbtOutput := mkPsbtOutput {
  out_bip32_derivation : list (bytes * KeySource);
  out_proprietary : list (bytes * bytes)
}.

Record Psbt := mkPsbt {
  unsigned_tx : Transaction;
  psbt_inputs : list PsbtInput;
  psbt_outputs : list PsbtOutput;
  psbt_proprietary : list (bytes * bytes)
}.

(** The field widths every in-memory PSBT has. *)
Definition txout_wf (o : TxOut) : Prop := is_u64 (txo_value o).
Definition child_wf (c : ChildNumber) : Prop :=
  match c with Normal i | Hardened i => 0 ≤ i < 2 ^ 31 end.
Definition derivations_wf (l : list (bytes * KeySource)) : Prop :=
  Forall (λ e, Forall child_wf e.2.2) l ∧ NoDup l.*1.
Definition psbt_wf (p : Psbt) : Prop :=
  Forall txout_wf (tx_output (unsigned_tx p)) ∧
  Forall (λ i, derivations_wf (in_bip32_derivation i) ∧
            ∀ o, witness_utxo i = Some o → txout_wf o) (psbt_inputs p) ∧
  Forall (λ o, derivations_wf (out_bip32_derivation o)) (psbt_outputs p).

(** [Psbt::fee]: [None] for any of its errors, [Panic] for its length assert. *)
Definition funding_utxo (tx_in : TxIn) (i : PsbtInput) : option TxOut :=
  match witness_utxo i, non_witness_utxo i with
  | Some o, _ => Some o
  | None, Some t => tx_output t !! Z.to_nat (op_vout (previous_output tx_in))
  | None, None => None
  end.

Definition psbt_fee (p : Psbt) : res unit Z :=
  if negb (length (psbt_inputs p) =? length (tx_input (unsigned_tx p)))%nat then Panic else
  ins ← fold_res (λ acc ti,
          o ← ok_or (funding_utxo ti.1 ti.2) tt;
          ok_or (checked_add acc (txo_value o)) tt)
        0 (zip (tx_input (unsigned_tx p)) (psbt_inputs p));
  outs ← fold_res (λ acc o, ok_or (checked_add acc (txo_value o)) tt)
        0 (tx_output (unsigned_tx p));
  ok_or (checked_sub ins outs) tt.

(** [extract_tx_unchecked_fee_rate]: move the final scripts into the inputs. *)
Fixpoint fill_inputs (txins : list TxIn) (ins : list PsbtInput) : list TxIn :=
  match txins, ins with
  | t :: ts, i :: rest =>
      mkTxIn (previous_output t) (default [] (final_script_sig i)) (sequence t)
             (default [] (final_script_witness i)) :: fill_inputs ts rest
  | ts, _ => ts
  end.
Definition extract_tx (p : Psbt) : Transaction :=
  let tx := unsigned_tx p in
  mkTransaction (tx_version tx) (tx_lock_time tx)
    (fill_inputs (tx_input tx) (psbt_inputs p)) (tx_output tx).

(** [Builder::push_int] for the range the wallet uses, [1..=16]. *)
Definition push_int (n : Z) : bytes := [n - 1 + 81].
(** [Builder::push_slice] of up to 75 bytes. *)
Definition push_slice (b : bytes) : bytes := Z.of_nat (length b) :: b.
Definition OP_CHECKMULTISIG : Z := 174.

(** ** Third-party functions *)

Class Hashes := {
  hmac_sha512 : bytes → bytes → bytes;  (* key, message *)
  sha256 : bytes → bytes
}.

Class Secp := {
  (** [PublicKey::from_slice] succeeds on these 33 bytes. *)
  pubkey_valid : bytes → bool;
  (** [SecretKey::from_slice] succeeds on these 32 bytes. *)
  seckey_valid : bytes → bool;
  (** [PublicKey::add_exp_tweak]: [None] at the point at infinity. *)
  add_exp_tweak : bytes → bytes → option bytes;
  (** [PublicKey::from_secret_key] *)
  pubkey_of_seckey : bytes → bytes;
  (** [sign_ecdsa_low_r msg sk] *)
  sign_ecdsa_low_r : bytes → bytes → bytes;
  (** [verify_ecdsa msg sig pk] *)
  verify_ecdsa : bytes → bytes → bytes → bool;
  normalize_s : bytes → bytes
}.

Class Codec := {
  (** [Xpub::from_str]: chain code and compressed public key. *)
  xpub_from_str : bytes → option (bytes * bytes);
  (** [Address::from_script(script, network).to_string()] *)
  address_of_script : bytes → Network → option bytes;
  (** [Transaction::compute_txid] *)
  compute_txid : Transaction → bytes;
  (** [Transaction::vsize] *)
  tx_vsize : Transaction → Z;
  (** [SighashCache::p2wsh_signature_hash(i, script, value, All)] *)
  p2wsh_signature_hash : Transaction → nat → bytes → Z → option bytes;
  (** [bitcoinconsensus::verify_with_flags]: may input [i] of the transaction
      spend an output with this script and amount? *)
  verify_script : bytes → nat → Z → Transaction → bool;
  (** [secp256k1::ecdsa::Signature::serialize_der] *)
  serialize_der : bytes → bytes
}.

(** [EcdsaSighashType as u8] *)
Definition sighash_u8 (t : EcdsaSighashType) : Z :=
  match t with
  | SighashAll => 1 | SighashNone => 2 | SighashSingle => 3
  | SighashAllAcp => 129 | SighashNoneAcp => 130 | SighashSingleAcp => 131
  end.

Section Validation.
Context `{codec : Codec}.

(** [ecdsa::Signature::serialize], the element [push_ecdsa_signature] pushes. *)
Definition serialize_signature (s : EcdsaSignature) : bytes := serialize_der (sig_compact s) ++ [sighash_u8 (sig_sighash s)].

(** [Transaction::verify] called with [|op| spent.remove(op)]: each input takes
    its output out of the map, so no output can be spent twice. *)
Fixpoint verify_inputs (tx : Transaction) (idx : nat) (ins : list TxIn) (spent : gmap OutPoint TxOut) : bool :=
  match ins with
  | [] => true
  | input :: ins =>
      match spent !! previous_output input with
      | Some output =>
          verify_script (txo_script output) idx (txo_value output) tx &&
          verify_inputs tx (S idx) ins (delete (previous_output input) spent)
      | None => false
      end
  end.
Definition verify_transaction (tx : Transaction) (spent : gmap OutPoint TxOut) : bool :=
  verify_inputs tx 0 (tx_input tx) spent.
End Validation.
