(* ===== verification/Aead.v ===== *)
(** The authenticated encryption both sealed stores use.

    [Aead] is the interface of [XChaCha20Poly1305] as the two blob modules call
    it (key, 24-byte nonce, associated data, message); [AeadLaws] is its
    documented behaviour. [aead_open_tight] holds of every
    encrypt-then-MAC stream cipher: decryption recomputes the tag over the
    ciphertext, so an accepted ciphertext is the encryption of its plaintext.
    [ToyAead] is a concrete instance on which witnesses compute. *)
From S2P Require Import Prelude.

Definition TAG_LEN : nat := 16.
Definition NONCE_LEN : nat := 24.

Class Aead := {
  aead_encrypt : bytes → bytes → bytes → bytes → option bytes;
  aead_decrypt : bytes → bytes → bytes → bytes → option bytes
}.

(** Messages below ChaCha20's block-counter limit (2^32 blocks of 64 bytes). *)
Definition aead_msg_ok (m : bytes) : Prop := Z.of_nat (length m) < 2 ^ 38.

Class AeadLaws `{Aead} : Prop := {
  aead_encrypt_total k n a m : aead_msg_ok m → is_Some (aead_encrypt k n a m);
  aead_encrypt_length k n a m c :
    aead_encrypt k n a m = Some c → length c = (length m + TAG_LEN)%nat;
  aead_decrypt_encrypt k n a m c :
    aead_encrypt k n a m = Some c → aead_decrypt k n a c = Some m;
  aead_open_tight k n a m c :
    aead_decrypt k n a c = Some m → aead_encrypt k n a m = Some c;
  aead_decrypt_bytes k n a c m :
    is_bytes c → aead_decrypt k n a c = Some m → is_bytes m
}.

(** A keyed checksum in place of Poly1305 and no keystream: enough structure to
    run the blob code on concrete inputs. *)
Module ToyAead.
Definition mix (acc : Z) (l : bytes) : Z := foldl (λ a b, (a * 257 + b + 1) mod 2 ^ 128) acc l.
Definition tag (k n a m : bytes) : bytes := le_bytes 16 (mix (mix (mix (mix 7 k) n) a) m).
Definition enc (k n a m : bytes) : option bytes := Some (m ++ tag k n a m).
Definition dec (k n a c : bytes) : option bytes :=
  let m := take (length c - 16) c in
  if bool_decide (drop (length c - 16) c = tag k n a m) then Some m else None.

Definition aead : Aead := {| aead_encrypt := enc; aead_decrypt := dec |}.

Lemma laws : @AeadLaws aead.
Proof.
  split; cbn; unfold enc, dec.
  - intros. by eexists.
  - intros k n a m c [= <-]. rewrite length_app. unfold tag. by rewrite length_le_bytes.
  - intros k n a m c [= <-].
    assert (length (m ++ tag k n a m) - 16 = length m)%nat as ->
      by (rewrite length_app; unfold tag; rewrite length_le_bytes; lia).
    rewrite take_app_length, drop_app_length. by rewrite bool_decide_true.
  - intros k n a m c. case_bool_decide as Ht; [|done]. intros [= <-].
    by rewrite <-Ht, take_drop.
  - intros k n a c m Hc. case_bool_decide; [|done]. intros [= <-]. by apply Forall_take.
Qed.
End ToyAead.
