(* ===== verification/CoreState.v ===== *)
(** [trinity-signer/src/core_state.rs]: the sealed spend-window counter.

    [CoreState] is the plaintext record; [encode_plaintext] and
    [decode_plaintext] its byte layout (every slice and index written out, so
    that a read past the end is [Panic] and not a default value); [seal],
    [open], [encrypt_at_nonce], [encrypt], [decrypt] the TRCS version 1 blob
    over the [Aead] interface. Randomness ([getrandom::fill]) is an argument:
    [Some] bytes drawn, or [None] for its failure. Buffer zeroization has no
    functional content. *)
From S2P Require Import Prelude Ordered Types Bitcoin Aead.

Definition MAGIC : bytes := str "TRCS".
Definition VERSION : Z := 1.
Definition HEADER_LEN : nat := 32.
Definition VERSION_OFFSET : nat := 4.
Definition RESERVED_OFFSET : nat := 5.
Definition NONCE_OFFSET : nat := 8.
Definition RESERVED_LEN : nat := 3.
Definition UNKNOWN_U32 : Z := u32_max.
Definition UNKNOWN_U64 : Z := u64_max.
Definition MAX_BOOKINGS : nat := 256.
Definition MAX_INPUTS : nat := 100.

Inductive CoreStateError :=
  | Truncated | BadMagic | UnsupportedVersion (v : Z) | UnsupportedReserved
  | CsRng | AeadFailed | Plaintext.

Record BookedSpend := mkBookedSpend {
  bk_inputs : list OutPoint;
  bk_amount_sat : Z;
  bk_elapsed_at_ns : Z
}.

Record CoreState := mkCoreState {
  initialized : bool;
  monotonic_ns_at_anchor : Z;
  block_height_at_anchor : option Z;
  boot_id_at_anchor : option Z;
  wall_unix_ns_at_anchor : option Z;
  window_elapsed_ns : Z;
  window_start_elapsed_ns : Z;
  passphrase_used_since_install : bool;
  bookings : list BookedSpend
}.

Definition CoreState_empty : CoreState :=
  mkCoreState false 0 None None None 0 0 false [].

(** ** Plaintext codec *)

Definition opt_u32 (v : option Z) : Z := default UNKNOWN_U32 v.
Definition opt_u64 (v : option Z) : Z := default UNKNOWN_U64 v.
Definition from_opt_u32 (v : Z) : option Z := if v =? UNKNOWN_U32 then None else Some v.
Definition from_opt_u64 (v : Z) : option Z := if v =? UNKNOWN_U64 then None else Some v.

(** The inner loop over one booking's inputs. *)
Definition encode_inputs (ins : list OutPoint) : bytes :=
  concat (map (λ op, op_txid op ++ le_bytes 4 (op_vout op)) ins).

(** The body of the loop over bookings. *)
Definition encode_booking (b : BookedSpend) : res CoreStateError bytes :=
  if (MAX_INPUTS <? length (bk_inputs b))%nat || (length (bk_inputs b) =? 0)%nat
  then Err Plaintext else
  ni ← (if Z.of_nat (length (bk_inputs b)) <=? u16_max
        then Ok (Z.of_nat (length (bk_inputs b))) else Err Plaintext);
  Ok (le_bytes 8 (bk_elapsed_at_ns b) ++ le_bytes 8 (bk_amount_sat b) ++
      le_bytes 2 ni ++ encode_inputs (bk_inputs b)).

Definition encode_flags (s : CoreState) : Z :=
  Z.lor (if initialized s then 1 else 0)
        (if passphrase_used_since_install s then 2 else 0).

(** The 48 bytes before the bookings. *)
Definition encode_fixed (s : CoreState) (n : Z) : bytes :=
  le_bytes 8 (monotonic_ns_at_anchor s) ++
  le_bytes 4 (opt_u32 (block_height_at_anchor s)) ++
  le_bytes 8 (opt_u64 (boot_id_at_anchor s)) ++
  le_bytes 8 (opt_u64 (wall_unix_ns_at_anchor s)) ++
  le_bytes 8 (window_elapsed_ns s) ++
  le_bytes 8 (window_start_elapsed_ns s) ++
  [encode_flags s] ++ [0] ++ le_bytes 2 n.

Definition encode_plaintext (s : CoreState) : res CoreStateError bytes :=
  n ← (if Z.of_nat (length (bookings s)) <=? u16_max
       then Ok (Z.of_nat (length (bookings s))) else Err Plaintext);
  fold_res (λ out b, e ← encode_booking b; Ok (out ++ e)) (encode_fixed s n) (bookings s).

Fixpoint decode_inputs (ni : nat) (buf : bytes) (off : nat) :
    res CoreStateError (list OutPoint * nat) :=
  match ni with
  | O => Ok ([], off)
  | S ni =>
      txid ← slice off (off + 32) buf;
      vout ← slice (off + 32) (off + 36) buf;
      '(rest, off') ← decode_inputs ni buf (off + 36);
      Ok (mkOutPoint txid (le_Z vout) :: rest, off')
  end.

Fixpoint decode_bookings (n : nat) (buf : bytes) (off : nat) :
    res CoreStateError (list BookedSpend * nat) :=
  match n with
  | O => Ok ([], off)
  | S n =>
      if (length buf <? off + 18)%nat then Err Plaintext else
      elapsed ← slice off (off + 8) buf;
      amount ← slice (off + 8) (off + 16) buf;
      nib ← slice (off + 16) (off + 18) buf;
      let ni := Z.to_nat (le_Z nib) in
      if (ni =? 0)%nat || (MAX_INPUTS <? ni)%nat then Err Plaintext else
      let need := (ni * 36)%nat in
      if (length buf <? off + 18 + need)%nat then Err Plaintext else
      '(inputs, off') ← decode_inputs ni buf (off + 18);
      '(rest, off'') ← decode_bookings n buf off';
      Ok (mkBookedSpend inputs (le_Z amount) (le_Z elapsed) :: rest, off'')
  end.

Definition MIN_PLAINTEXT : nat := 48.

Definition decode_plaintext (buf : bytes) : res CoreStateError CoreState :=
  if (length buf <? MIN_PLAINTEXT)%nat then Err Plaintext else
  mono ← slice 0 8 buf;
  block_raw ← slice 8 12 buf;
  boot_raw ← slice 12 20 buf;
  wall_raw ← slice 20 28 buf;
  elapsed ← slice 28 36 buf;
  start ← slice 36 44 buf;
  flags ← index 44 buf;
  reserved ← index 45 buf;
  if negb (reserved =? 0) || negb (Z.land flags 252 =? 0) then Err Plaintext else
  nb ← slice 46 48 buf;
  let n := Z.to_nat (le_Z nb) in
  if (MAX_BOOKINGS <? n)%nat then Err Plaintext else
  '(bs, off) ← decode_bookings n buf 48;
  if negb (off =? length buf)%nat then Err Plaintext else
  Ok (mkCoreState (negb (Z.land flags 1 =? 0)) (le_Z mono)
        (from_opt_u32 (le_Z block_raw)) (from_opt_u64 (le_Z boot_raw))
        (from_opt_u64 (le_Z wall_raw)) (le_Z elapsed) (le_Z start)
        (negb (Z.land flags 2 =? 0)) bs).

(** ** Sealed blob *)

Definition encode_header (nonce : bytes) : bytes :=
  MAGIC ++ [VERSION] ++ replicate RESERVED_LEN 0 ++ nonce.

Definition parse_header (header : bytes) : res CoreStateError unit :=
  m ← slice 0 4 header;
  if negb (bool_decide (m = MAGIC)) then Err BadMagic else
  version ← index VERSION_OFFSET header;
  if negb (version =? VERSION) then Err (UnsupportedVersion version) else
  r ← slice RESERVED_OFFSET NONCE_OFFSET header;
  if negb (bool_decide (r = replicate RESERVED_LEN 0)) then Err UnsupportedReserved else
  Ok tt.

Definition nonce_from_header (header : bytes) : res CoreStateError bytes :=
  n ← slice NONCE_OFFSET (length header) header;
  if (length n =? NONCE_LEN)%nat then Ok n else Panic.

(** [draw_nonce_with] *)
Definition draw_nonce (rng : option bytes) : res CoreStateError bytes := ok_or rng CsRng.

Section blob.
Context {aead : Aead}.

Definition seal (kek header plaintext : bytes) : res CoreStateError bytes :=
  nonce ← nonce_from_header header;
  c ← expect (aead_encrypt kek nonce header plaintext);
  Ok (header ++ c).

Definition open (kek header body : bytes) : res CoreStateError bytes :=
  nonce ← nonce_from_header header;
  ok_or (aead_decrypt kek nonce header body) AeadFailed.

Definition encrypt_at_nonce (kek nonce : bytes) (s : CoreState) : res CoreStateError bytes :=
  if (MAX_BOOKINGS <? length (bookings s))%nat then Err Plaintext else
  plaintext ← encode_plaintext s;
  seal kek (encode_header nonce) plaintext.

Definition encrypt (rng : option bytes) (kek : bytes) (s : CoreState) : res CoreStateError bytes :=
  nonce ← draw_nonce rng;
  encrypt_at_nonce kek nonce s.

Definition decrypt (kek blob : bytes) : res CoreStateError CoreState :=
  if (length blob <? HEADER_LEN + TAG_LEN)%nat then Err Truncated else
  header ← slice 0 HEADER_LEN blob;
  _ ← parse_header header;
  body ← slice HEADER_LEN (length blob) blob;
  plaintext ← open kek header body;
  decode_plaintext plaintext.
End blob.

(** ** Well-formed states *)

Definition outpoint_wf (o : OutPoint) : Prop :=
  is_bytes (op_txid o) ∧ length (op_txid o) = 32%nat ∧ is_u32 (op_vout o).

Definition booking_wf (b : BookedSpend) : Prop :=
  (1 ≤ length (bk_inputs b) ≤ MAX_INPUTS)%nat ∧ Forall outpoint_wf (bk_inputs b) ∧
  is_u64 (bk_amount_sat b) ∧ is_u64 (bk_elapsed_at_ns b).

Definition opt_wf (P : Z → Prop) (o : option Z) : Prop := ∀ z, o = Some z → P z.

(** Field widths and the two table bounds. *)
Definition core_wf (s : CoreState) : Prop :=
  is_u64 (monotonic_ns_at_anchor s) ∧ opt_wf is_u32 (block_height_at_anchor s) ∧
  opt_wf is_u64 (boot_id_at_anchor s) ∧ opt_wf is_u64 (wall_unix_ns_at_anchor s) ∧
  is_u64 (window_elapsed_ns s) ∧ is_u64 (window_start_elapsed_ns s) ∧
  (length (bookings s) ≤ MAX_BOOKINGS)%nat ∧ Forall booking_wf (bookings s).

(** What a state reads back as: the all-ones sentinel means "unknown". *)
Definition normalize (s : CoreState) : CoreState :=
  mkCoreState (initialized s) (monotonic_ns_at_anchor s)
    (from_opt_u32 (opt_u32 (block_height_at_anchor s)))
    (from_opt_u64 (opt_u64 (boot_id_at_anchor s)))
    (from_opt_u64 (opt_u64 (wall_unix_ns_at_anchor s)))
    (window_elapsed_ns s) (window_start_elapsed_ns s)
    (passphrase_used_since_install s) (bookings s).

Definition no_sentinel (s : CoreState) : Prop :=
  block_height_at_anchor s ≠ Some UNKNOWN_U32 ∧
  boot_id_at_anchor s ≠ Some UNKNOWN_U64 ∧ wall_unix_ns_at_anchor s ≠ Some UNKNOWN_U64.

Lemma from_opt_u32_opt v : v ≠ Some UNKNOWN_U32 → from_opt_u32 (opt_u32 v) = v.
Proof.
  unfold from_opt_u32, opt_u32. destruct v as [v|]; cbn.
  - intros Hv. destruct (_ =? _) eqn:E; bool_simp; congruence.
  - done.
Qed.
Lemma from_opt_u64_opt v : v ≠ Some UNKNOWN_U64 → from_opt_u64 (opt_u64 v) = v.
Proof.
  unfold from_opt_u64, opt_u64. destruct v as [v|]; cbn.
  - intros Hv. destruct (_ =? _) eqn:E; bool_simp; congruence.
  - done.
Qed.
Lemma opt_from_opt_u32 v : opt_u32 (from_opt_u32 v) = v.
Proof. unfold from_opt_u32, opt_u32. destruct (_ =? _) eqn:E; bool_simp; cbn; congruence. Qed.
Lemma opt_from_opt_u64 v : opt_u64 (from_opt_u64 v) = v.
Proof. unfold from_opt_u64, opt_u64. destruct (_ =? _) eqn:E; bool_simp; cbn; congruence. Qed.

Lemma normalize_id s : no_sentinel s → normalize s = s.
Proof.
  intros (H1 & H2 & H3). destruct s; unfold normalize; cbn in *.
  by rewrite from_opt_u32_opt, !from_opt_u64_opt.
Qed.

(** ** Round trip *)

Lemma le_Z_u64 z : is_u64 z → le_Z (le_bytes 8 z) = z.
Proof. intros. apply le_Z_le_bytes. mlia. Qed.
Lemma le_Z_u32 z : is_u32 z → le_Z (le_bytes 4 z) = z.
Proof. intros. apply le_Z_le_bytes. mlia. Qed.
Lemma le_Z_u16 z : is_u16 z → le_Z (le_bytes 2 z) = z.
Proof. intros. apply le_Z_le_bytes. mlia. Qed.
Lemma opt_u32_wf v : opt_wf is_u32 v → is_u32 (opt_u32 v).
Proof. intros Hv. destruct v; cbn; [by apply Hv|]. unfold UNKNOWN_U32. mlia. Qed.
Lemma opt_u64_wf v : opt_wf is_u64 v → is_u64 (opt_u64 v).
Proof. intros Hv. destruct v; cbn; [by apply Hv|]. unfold UNKNOWN_U64. mlia. Qed.

Lemma length_encode_inputs ins :
  Forall outpoint_wf ins → length (encode_inputs ins) = (length ins * 36)%nat.
Proof.
  unfold encode_inputs. induction 1 as [|o ins (_ & Ho & _) Hi IH]; cbn; [done|].
  rewrite !length_app, Ho, length_le_bytes, IH. lia.
Qed.

Lemma decode_inputs_encode pre ins post :
  Forall outpoint_wf ins →
  decode_inputs (length ins) (pre ++ encode_inputs ins ++ post) (length pre) =
    Ok (ins, (length pre + length ins * 36)%nat).
Proof.
  intros Hi. revert pre. induction Hi as [|o ins (Hb & Hl & Hv) Hi IH]; intros pre; cbn [length decode_inputs].
  - do 2 f_equal. lia.
  - unfold encode_inputs. cbn [map concat]. fold (encode_inputs ins).
    rewrite <-(Nat.add_0_r (length pre)) at 1. rewrite !slice_pre by lia.
    rewrite <-!(assoc_L (++)). rewrite slice_here by done.
    rewrite (slice_skip _ _ 32) by (done || lia). read_fields.
    rewrite 2!(assoc_L (++)).
    replace (length pre + 36)%nat with (length ((pre ++ op_txid o) ++ le_bytes 4 (op_vout o)))
      by (rewrite !length_app, length_le_bytes; lia).
    rewrite IH. cbn. rewrite le_Z_u32 by done. rewrite !length_app, length_le_bytes, Hl.
    destruct o; cbn. do 2 f_equal. lia.
Qed.

(** The bytes of one well-formed booking. *)
Definition booking_bytes (b : BookedSpend) : bytes :=
  le_bytes 8 (bk_elapsed_at_ns b) ++ le_bytes 8 (bk_amount_sat b) ++
  le_bytes 2 (Z.of_nat (length (bk_inputs b))) ++ encode_inputs (bk_inputs b).
Definition bookings_bytes (bs : list BookedSpend) : bytes := concat (map booking_bytes bs).

Lemma encode_booking_wf b : booking_wf b → encode_booking b = Ok (booking_bytes b).
Proof.
  intros ((H1 & H2) & _). unfold encode_booking, MAX_INPUTS in *.
  rewrite (proj2 (Nat.ltb_ge _ _)), (proj2 (Nat.eqb_neq _ _)) by lia. cbn.
  by rewrite (proj2 (Z.leb_le _ _)) by (unfold u16_max; lia).
Qed.

Lemma length_booking_bytes b :
  booking_wf b → length (booking_bytes b) = (18 + length (bk_inputs b) * 36)%nat.
Proof.
  intros (_ & Hi & _). unfold booking_bytes.
  rewrite !length_app, !length_le_bytes, length_encode_inputs by done. lia.
Qed.

Lemma encode_bookings_fold out bs :
  Forall booking_wf bs →
  fold_res (λ out b, e ← encode_booking b; Ok (out ++ e)) out bs = Ok (out ++ bookings_bytes bs).
Proof.
  intros Hb. revert out. induction Hb as [|b bs Hb Hbs IH]; intros out; cbn.
  - by rewrite app_nil_r.
  - rewrite encode_booking_wf by done. cbn. rewrite IH. unfold bookings_bytes. cbn.
    by rewrite (assoc_L (++)).
Qed.

Lemma length_encode_fixed s n : length (encode_fixed s n) = 48%nat.
Proof. unfold encode_fixed. rewrite !length_app, !length_le_bytes. done. Qed.

Arguments encode_inputs : simpl never.
Arguments booking_bytes : simpl never.
Arguments bookings_bytes : simpl never.

Lemma booking_fields {E} b l :
  slice (E:=E) 0 8 (booking_bytes b ++ l) = Ok (le_bytes 8 (bk_elapsed_at_ns b)) ∧
  slice (E:=E) 8 16 (booking_bytes b ++ l) = Ok (le_bytes 8 (bk_amount_sat b)) ∧
  slice (E:=E) 16 18 (booking_bytes b ++ l) = Ok (le_bytes 2 (Z.of_nat (length (bk_inputs b)))).
Proof.
  unfold booking_bytes. rewrite <-!(assoc_L (++)). split_and!; by read_fields.
Qed.

Lemma decode_bookings_encode pre bs post :
  Forall booking_wf bs →
  decode_bookings (length bs) (pre ++ bookings_bytes bs ++ post) (length pre) =
    Ok (bs, (length pre + length (bookings_bytes bs))%nat).
Proof.
  intros Hb. revert pre. induction Hb as [|b bs Hb Hbs IH]; intros pre; cbn [length decode_bookings].
  - do 2 f_equal. unfold bookings_bytes. cbn. lia.
  - pose proof (length_booking_bytes b Hb) as Hlen.
    destruct Hb as ((Hn1 & Hn2) & Hi & Ha & He).
    unfold bookings_bytes. cbn [map concat]. fold (bookings_bytes bs).
    rewrite (proj2 (Nat.ltb_ge _ _)) by (rewrite !length_app, Hlen; lia).
    rewrite <-(Nat.add_0_r (length pre)) at 1.
    rewrite !slice_pre by lia. rewrite <-!(assoc_L (++)).
    destruct (booking_fields (E:=CoreStateError) b (bookings_bytes bs ++ post)) as (-> & -> & ->).
    cbn [mbind res_bind].
    rewrite le_Z_u16 by (unfold MAX_INPUTS in *; unfold is_u16, u16_max; lia).
    rewrite Nat2Z.id, (proj2 (Nat.eqb_neq _ _)), (proj2 (Nat.ltb_ge MAX_INPUTS _)) by lia.
    cbn [orb]. rewrite (proj2 (Nat.ltb_ge _ _)) by (rewrite !length_app, Hlen; lia).
    set (p3 := pre ++ le_bytes 8 (bk_elapsed_at_ns b) ++ le_bytes 8 (bk_amount_sat b) ++
      le_bytes 2 (Z.of_nat (length (bk_inputs b)))).
    replace (pre ++ booking_bytes b ++ bookings_bytes bs ++ post)
      with (p3 ++ encode_inputs (bk_inputs b) ++ bookings_bytes bs ++ post)
      by (unfold p3, booking_bytes; by rewrite <-!(assoc_L (++))).
    replace (length pre + 18)%nat with (length p3) by (unfold p3; rewrite !length_app, !length_le_bytes; lia).
    rewrite decode_inputs_encode by done. cbn [mbind res_bind].
    rewrite (assoc_L (++) p3), <-(length_encode_inputs (bk_inputs b)) by done.
    rewrite <-length_app, IH. cbn. rewrite !le_Z_u64 by done.
    destruct b; cbn in *. do 2 f_equal. unfold p3.
    rewrite !length_app, Hlen, !length_le_bytes, length_encode_inputs by done. lia.
Qed.

Lemma fixed_fields {E} s n l :
  let buf := encode_fixed s n ++ l in
  slice (E:=E) 0 8 buf = Ok (le_bytes 8 (monotonic_ns_at_anchor s)) ∧
  slice (E:=E) 8 12 buf = Ok (le_bytes 4 (opt_u32 (block_height_at_anchor s))) ∧
  slice (E:=E) 12 20 buf = Ok (le_bytes 8 (opt_u64 (boot_id_at_anchor s))) ∧
  slice (E:=E) 20 28 buf = Ok (le_bytes 8 (opt_u64 (wall_unix_ns_at_anchor s))) ∧
  slice (E:=E) 28 36 buf = Ok (le_bytes 8 (window_elapsed_ns s)) ∧
  slice (E:=E) 36 44 buf = Ok (le_bytes 8 (window_start_elapsed_ns s)) ∧
  index (E:=E) 44 buf = Ok (encode_flags s) ∧ index (E:=E) 45 buf = Ok 0 ∧
  slice (E:=E) 46 48 buf = Ok (le_bytes 2 n).
Proof.
  cbn zeta. unfold encode_fixed. rewrite <-!(assoc_L (++)). split_and!; by read_fields.
Qed.

Lemma flags_decode s :
  Z.land (encode_flags s) 252 = 0 ∧
  negb (Z.land (encode_flags s) 1 =? 0) = initialized s ∧
  negb (Z.land (encode_flags s) 2 =? 0) = passphrase_used_since_install s.
Proof. unfold encode_flags. by destruct (initialized s), (passphrase_used_since_install s). Qed.

(** The bytes of a well-formed state. *)
Definition plaintext_of (s : CoreState) : bytes :=
  encode_fixed s (Z.of_nat (length (bookings s))) ++ bookings_bytes (bookings s).

Lemma encode_plaintext_wf s : core_wf s → encode_plaintext s = Ok (plaintext_of s).
Proof.
  intros (_ & _ & _ & _ & _ & _ & Hn & Hb). unfold encode_plaintext, MAX_BOOKINGS in *.
  rewrite (proj2 (Z.leb_le _ _)) by (unfold u16_max; lia). by apply encode_bookings_fold.
Qed.

Lemma decode_plaintext_of s : core_wf s → decode_plaintext (plaintext_of s) = Ok (normalize s).
Proof.
  intros (Hm & Hh & Hbo & Hw & He & Hs & Hn & Hb). unfold decode_plaintext, plaintext_of.
  rewrite (proj2 (Nat.ltb_ge _ _)) by (rewrite length_app, length_encode_fixed; unfold MIN_PLAINTEXT; lia).
  destruct (fixed_fields (E:=CoreStateError) s (Z.of_nat (length (bookings s))) (bookings_bytes (bookings s)))
    as (-> & -> & -> & -> & -> & -> & -> & -> & ->).
  cbn [mbind res_bind]. destruct (flags_decode s) as (Hf & Hf1 & Hf2).
  rewrite Hf, Hf1, Hf2. cbn [Z.eqb negb orb].
  rewrite le_Z_u16, Nat2Z.id, (proj2 (Nat.ltb_ge _ _))
    by (unfold MAX_BOOKINGS in *; unfold is_u16, u16_max; lia).
  rewrite <-(app_nil_r (bookings_bytes _)).
  rewrite <-(length_encode_fixed s (Z.of_nat (length (bookings s)))) at 1.
  rewrite decode_bookings_encode by done. cbn [mbind res_bind].
  rewrite app_nil_r, length_app, Nat.eqb_refl. cbn.
  rewrite !le_Z_u64, le_Z_u32 by eauto using opt_u32_wf, opt_u64_wf. done.
Qed.

(** ** Canonical form *)

Lemma le_Z_u64_slice l : is_bytes l → length l = 8%nat → is_u64 (le_Z l) ∧ le_bytes 8 (le_Z l) = l.
Proof.
  intros Hb Hl. pose proof (le_Z_bound l Hb) as Hbd. rewrite Hl in Hbd. cbn in Hbd.
  split; [mlia|]. rewrite <-Hl at 1. by apply le_bytes_le_Z.
Qed.
Lemma le_Z_u32_slice l : is_bytes l → length l = 4%nat → is_u32 (le_Z l) ∧ le_bytes 4 (le_Z l) = l.
Proof.
  intros Hb Hl. pose proof (le_Z_bound l Hb) as Hbd. rewrite Hl in Hbd. cbn in Hbd.
  split; [mlia|]. rewrite <-Hl at 1. by apply le_bytes_le_Z.
Qed.
Lemma le_Z_u16_slice l : is_bytes l → length l = 2%nat → is_u16 (le_Z l) ∧ le_bytes 2 (le_Z l) = l.
Proof.
  intros Hb Hl. pose proof (le_Z_bound l Hb) as Hbd. rewrite Hl in Hbd. cbn in Hbd.
  split; [mlia|]. rewrite <-Hl at 1. by apply le_bytes_le_Z.
Qed.

Lemma decode_inputs_Ok ni buf off ins off' :
  is_bytes buf → decode_inputs ni buf off = Ok (ins, off') →
  drop off buf = encode_inputs ins ++ drop off' buf ∧ length ins = ni ∧
  Forall outpoint_wf ins ∧ off' = (off + ni * 36)%nat.
Proof.
  intros Hb. revert off ins. induction ni as [|ni IH]; intros off ins; cbn [decode_inputs].
  - intros [= <- <-]. unfold encode_inputs. cbn. by split_and!; try lia.
  - intros (txid & Ht & H)%bind_Ok. apply bind_Ok in H as (vout & Hv & H).
    apply bind_Ok in H as ([rest o'] & Hr & [= <- <-]).
    apply slice_Ok in Ht as (Ht & Htl & Hto & Htb), Hv as (Hv & Hvl & Hvo & Hvb).
    apply IH in Hr as (Hr & Hrl & Hrw & ->). unfold encode_inputs. cbn [map concat].
    fold (encode_inputs rest). cbn [op_txid op_vout].
    destruct (le_Z_u32_slice vout) as [Hvu Hve]; [auto|lia|]. rewrite Hve.
    split_and!.
    + rewrite Ht, Hv, Hr. by rewrite <-!(assoc_L (++)).
    + cbn. lia.
    + constructor; [|done]. split_and!; cbn; [auto|lia|done].
    + lia.
Qed.

Lemma decode_bookings_Ok n buf off bs off' :
  is_bytes buf → decode_bookings n buf off = Ok (bs, off') →
  drop off buf = bookings_bytes bs ++ drop off' buf ∧ length bs = n ∧ Forall booking_wf bs ∧
  (off ≤ length buf → off' ≤ length buf)%nat.
Proof.
  intros Hb. revert off bs. induction n as [|n IH]; intros off bs; cbn [decode_bookings].
  - intros [= <- <-]. unfold bookings_bytes. by split_and!.
  - destruct (_ <? _)%nat eqn:E1; [done|].
    intros (el & He & H)%bind_Ok. apply bind_Ok in H as (am & Ha & H).
    apply bind_Ok in H as (nib & Hn & H). cbn zeta in H.
    if_inv H E2. if_inv H E3.
    apply bind_Ok in H as ([ins o'] & Hi & H). apply bind_Ok in H as ([rest o''] & Hr & [= <- <-]).
    apply slice_Ok in He as (He & Hel & _ & Heb), Ha as (Ha & Hal & _ & Hab), Hn as (Hn & Hnl & _ & Hnb).
    apply decode_inputs_Ok in Hi as (Hi & Hil & Hiw & ->); [|done].
    apply IH in Hr as (Hr & Hrl & Hrw & Hro).
    destruct (le_Z_u64_slice el) as [Heu Hee]; [auto|lia|].
    destruct (le_Z_u64_slice am) as [Hau Hae]; [auto|lia|].
    destruct (le_Z_u16_slice nib) as [Hnu Hne]; [auto|lia|]. bool_simp.
    split_and!.
    + unfold bookings_bytes. cbn [map concat]. fold (bookings_bytes rest).
      unfold booking_bytes. cbn [bk_inputs bk_amount_sat bk_elapsed_at_ns].
      rewrite Hil, Z2Nat.id, Hee, Hae, Hne by (destruct Hnu; lia).
      rewrite He, Ha, Hn, Hi, Hr. by rewrite <-!(assoc_L (++)).
    + cbn. lia.
    + constructor; [|done]. split_and!; cbn; [lia|lia|done..].
    + intros. apply Hro. lia.
Qed.

Lemma encode_flags_decode f m h b w e st bs :
  is_u8 f → Z.land f 252 = 0 →
  encode_flags (mkCoreState (negb (Z.land f 1 =? 0)) m h b w e st (negb (Z.land f 2 =? 0)) bs) = f.
Proof.
  intros Hf. unfold encode_flags. cbn.
  assert (Forall (λ n, Z.land (Z.of_nat n) 252 = 0 →
    Z.lor (if negb (Z.land (Z.of_nat n) 1 =? 0) then 1 else 0)
          (if negb (Z.land (Z.of_nat n) 2 =? 0) then 2 else 0) = Z.of_nat n) (seq 0 256)) as Ha
    by (repeat constructor; done).
  rewrite Forall_forall in Ha. specialize (Ha (Z.to_nat f)).
  rewrite Z2Nat.id in Ha by (destruct Hf; lia). apply Ha, elem_of_seq. mlia.
Qed.

Lemma decode_plaintext_Ok buf s :
  is_bytes buf → decode_plaintext buf = Ok s → buf = plaintext_of s ∧ core_wf s ∧ no_sentinel s.
Proof.
  intros Hb. unfold decode_plaintext. destruct (_ <? _)%nat eqn:E0; [done|]. intros H.
  apply bind_Ok in H as (f1 & H1 & H). apply bind_Ok in H as (f2 & H2 & H).
  apply bind_Ok in H as (f3 & H3 & H). apply bind_Ok in H as (f4 & H4 & H).
  apply bind_Ok in H as (f5 & H5 & H). apply bind_Ok in H as (f6 & H6 & H).
  apply bind_Ok in H as (fl & H7 & H). apply bind_Ok in H as (rs & H8 & H).
  if_inv H E1. apply bind_Ok in H as (f9 & H9 & H). cbn zeta in H.
  if_inv H E2. apply bind_Ok in H as ([bs off] & H10 & H). if_inv H E3. injection H as <-. bool_simp. subst rs off.
  apply slice_Ok in H1 as (H1 & L1 & _ & B1), H2 as (H2 & L2 & _ & B2), H3 as (H3 & L3 & _ & B3),
    H4 as (H4 & L4 & _ & B4), H5 as (H5 & L5 & _ & B5), H6 as (H6 & L6 & _ & B6), H9 as (H9 & L9 & _ & B9).
  apply index_Ok in H7 as (H7 & I7), H8 as (H8 & I8).
  apply decode_bookings_Ok in H10 as (H10 & L10 & W10 & _); [|done].
  destruct (le_Z_u64_slice f1) as [U1 R1]; [auto|lia|]. destruct (le_Z_u32_slice f2) as [U2 R2]; [auto|lia|].
  destruct (le_Z_u64_slice f3) as [U3 R3]; [auto|lia|]. destruct (le_Z_u64_slice f4) as [U4 R4]; [auto|lia|].
  destruct (le_Z_u64_slice f5) as [U5 R5]; [auto|lia|]. destruct (le_Z_u64_slice f6) as [U6 R6]; [auto|lia|].
  destruct (le_Z_u16_slice f9) as [U9 R9]; [auto|lia|].
  assert (is_u8 fl) as Hfl by (rewrite <-(take_drop 44 buf), H7 in Hb; by apply Forall_app in Hb as [_ [? _]%Forall_cons]).
  assert (encode_flags (mkCoreState (negb (Z.land fl 1 =? 0)) (le_Z f1) (from_opt_u32 (le_Z f2))
    (from_opt_u64 (le_Z f3)) (from_opt_u64 (le_Z f4)) (le_Z f5) (le_Z f6)
    (negb (Z.land fl 2 =? 0)) bs) = fl) as Efl by (by apply encode_flags_decode).
  split_and!.
  - unfold plaintext_of, encode_fixed. rewrite Efl. cbn -[app drop].
    rewrite L10, Z2Nat.id, opt_from_opt_u32, !opt_from_opt_u64 by (destruct U9; lia).
    rewrite R1, R2, R3, R4, R5, R6, R9, <-!(assoc_L (++)).
    rewrite drop_all, app_nil_r in H10. rewrite <-H10, <-H9. cbn [app].
    rewrite <-H8, <-H7, <-H6, <-H5, <-H4, <-H3, <-H2, <-H1. by rewrite drop_0.
  - split_and!; cbn; unfold opt_wf; intros; try done; try lia;
      unfold from_opt_u32, from_opt_u64 in *; case_match; by simplify_eq.
  - split_and!; cbn; unfold from_opt_u32, from_opt_u64; case_match; bool_simp; congruence.
Qed.

(** ** No read past the end *)

Lemma decode_inputs_no_panic ni buf off :
  (off + ni * 36 ≤ length buf)%nat → decode_inputs ni buf off ≠ Panic.
Proof.
  revert off. induction ni as [|ni IH]; intros off Hl H; cbn [decode_inputs] in H; [done|].
  no_panic ltac:(fun H => apply IH in H; [done|lia]).
Qed.

Lemma decode_bookings_no_panic n buf off : decode_bookings n buf off ≠ Panic.
Proof.
  revert off. induction n as [|n IH]; intros off H; cbn [decode_bookings] in H; [done|].
  no_panic ltac:(fun H => first [by apply IH in H | apply decode_inputs_no_panic in H; [done|lia]]).
Qed.

Lemma decode_plaintext_no_panic buf : decode_plaintext buf ≠ Panic.
Proof.
  intros H. unfold decode_plaintext, MIN_PLAINTEXT in H.
  no_panic ltac:(fun H => by apply decode_bookings_no_panic in H).
Qed.

Lemma parse_header_no_panic h : length h = HEADER_LEN → parse_header h ≠ Panic.
Proof.
  unfold HEADER_LEN. intros Hl H. unfold parse_header, VERSION_OFFSET, RESERVED_OFFSET, NONCE_OFFSET in H.
  no_panic fail.
Qed.

Lemma nonce_from_header_ok h : length h = HEADER_LEN → nonce_from_header h = Ok (drop NONCE_OFFSET h).
Proof.
  unfold HEADER_LEN, nonce_from_header, NONCE_OFFSET, NONCE_LEN. intros Hl. rewrite slice_ok by lia.
  cbn [mbind res_bind]. rewrite take_ge by (rewrite length_drop; lia).
  by rewrite length_drop, Hl.
Qed.

Lemma parse_header_encode nonce : parse_header (encode_header nonce) = Ok tt.
Proof. done. Qed.
Lemma parse_header_Ok h :
  length h = HEADER_LEN → parse_header h = Ok tt → h = encode_header (drop NONCE_OFFSET h).
Proof.
  unfold HEADER_LEN. intros Hl H. unfold parse_header in H.
  apply bind_Ok in H as (m & Hm & H). if_inv H E1. apply bind_Ok in H as (v & Hv & H). if_inv H E2.
  apply bind_Ok in H as (r & Hr & H). if_inv H E3. bool_simp. subst.
  apply slice_Ok in Hm as (Hm & _), Hr as (Hr & _). apply index_Ok in Hv as (Hv & _).
  unfold encode_header. rewrite drop_0 in Hm. unfold NONCE_OFFSET, RESERVED_OFFSET, VERSION_OFFSET in *.
  rewrite Hm at 1. rewrite Hv, Hr. done.
Qed.

Lemma length_bookings_bytes bs :
  Forall booking_wf bs → (length (bookings_bytes bs) ≤ length bs * 3618)%nat.
Proof.
  unfold bookings_bytes. induction 1 as [|b bs Hb Hbs IH]; cbn [map concat length]; [lia|].
  rewrite length_app, length_booking_bytes by done. destruct Hb as ((_ & Hn) & _).
  unfold MAX_INPUTS in Hn. lia.
Qed.
Lemma plaintext_of_msg_ok s : core_wf s → aead_msg_ok (plaintext_of s).
Proof.
  intros (_ & _ & _ & _ & _ & _ & Hn & Hb). unfold aead_msg_ok, plaintext_of.
  pose proof (length_bookings_bytes _ Hb). rewrite length_app, length_encode_fixed.
  unfold MAX_BOOKINGS in Hn. lia.
Qed.

(** ** Properties *)

(** The plaintext codec is exact: a byte string decodes to a state exactly
    when the state is within its bounds, uses no sentinel as a value, and
    encodes to that byte string. No two plaintexts decode to the same state,
    and no trailing or reserved byte is ignored. *)
Lemma decode_plaintext_canonical buf s :
  is_bytes buf →
  decode_plaintext buf = Ok s ↔ core_wf s ∧ no_sentinel s ∧ encode_plaintext s = Ok buf.
Proof.
  intros Hb. split.
  - intros (-> & Hw & Hn)%decode_plaintext_Ok; [|done]. split_and!; [done..|].
    by apply encode_plaintext_wf.
  - intros (Hw & Hn & He). rewrite encode_plaintext_wf in He by done. injection He as <-.
    rewrite decode_plaintext_of by done. by rewrite normalize_id.
Qed.

Section blob_props.
Context {aead : Aead} {aead_laws : AeadLaws}.
Implicit Types (kek nonce blob : bytes) (s : CoreState).

Lemma encrypt_decrypt kek nonce s :
  core_wf s → length nonce = NONCE_LEN →
  ∃ blob, encrypt_at_nonce kek nonce s = Ok blob ∧ decrypt kek blob = Ok (normalize s).
Proof.
  intros Hw Hl. unfold encrypt_at_nonce.
  assert (length (encode_header nonce) = HEADER_LEN) as Hh
    by (unfold encode_header; rewrite !length_app, Hl; done).
  rewrite (proj2 (Nat.ltb_ge _ _)) by (by destruct Hw as (_ & _ & _ & _ & _ & _ & ? & _)).
  rewrite encode_plaintext_wf by done. cbn [mbind res_bind]. unfold seal.
  rewrite nonce_from_header_ok by done. cbn [mbind res_bind].
  destruct (aead_encrypt_total kek (drop NONCE_OFFSET (encode_header nonce)) (encode_header nonce)
    (plaintext_of s)) as [c Hc]; [by apply plaintext_of_msg_ok|].
  rewrite Hc. cbn [expect mbind res_bind]. eexists. split; [done|]. unfold decrypt.
  pose proof (aead_encrypt_length _ _ _ _ _ Hc) as Hcl.
  rewrite (proj2 (Nat.ltb_ge _ _)) by (rewrite length_app, Hcl, Hh; unfold TAG_LEN; lia).
  rewrite slice_here by done. cbn [mbind res_bind]. rewrite parse_header_encode. cbn [mbind res_bind].
  rewrite slice_ok by (rewrite length_app; lia). cbn [mbind res_bind].
  rewrite drop_app_length', take_ge by (rewrite ?length_app; lia). unfold open.
  rewrite nonce_from_header_ok by done. cbn [mbind res_bind].
  rewrite (aead_decrypt_encrypt _ _ _ _ _ Hc). cbn [ok_or mbind res_bind].
  by apply decode_plaintext_of.
Qed.

(** C27: sealing a state within its bounds always succeeds, and opening the blob
    under the same key returns the state (with the all-ones sentinels read as
    "unknown", so exactly the state when it holds none). *)
Theorem core_state_roundtrip kek nonce s :
  core_wf s → length nonce = NONCE_LEN →
  ∃ blob, encrypt (Some nonce) kek s = Ok blob ∧ decrypt kek blob = Ok (normalize s) ∧
          (no_sentinel s → decrypt kek blob = Ok s).
Proof.
  intros Hw Hl. destruct (encrypt_decrypt kek nonce s Hw Hl) as (blob & He & Hd).
  exists blob. split_and!; [done..|]. intros Hn. by rewrite Hd, normalize_id.
Qed.

(** C28: the only blobs that open under a key are those that sealing under that
    key produces: whatever decrypts re-encrypts, with the nonce it carries, to
    the very same bytes. *)
Theorem decrypt_only_sealed kek blob s :
  is_bytes blob → decrypt kek blob = Ok s →
  core_wf s ∧ ∃ nonce, length nonce = NONCE_LEN ∧ encrypt_at_nonce kek nonce s = Ok blob.
Proof.
  intros Hb H. unfold decrypt in H. if_inv H E0. bool_simp.
  apply bind_Ok in H as (h & Hh & H). apply bind_Ok in H as ([] & Hp & H).
  apply bind_Ok in H as (body & Hbody & H). apply bind_Ok in H as (pt & Ho & H).
  apply slice_Ok in Hh as (Hh & Hhl & _ & _), Hbody as (Hbo & _ & _ & Hbb).
  rewrite Nat.sub_0_r in Hhl. rewrite drop_0 in Hh. rewrite drop_all, app_nil_r in Hbo.
  unfold open in Ho. rewrite nonce_from_header_ok in Ho by done. cbn [mbind res_bind] in Ho.
  apply ok_or_Ok in Ho.
  apply decode_plaintext_Ok in H as (-> & Hw & _); [|eapply aead_decrypt_bytes; [exact (Hbb Hb)|exact Ho]].
  apply aead_open_tight in Ho. split; [done|]. exists (drop NONCE_OFFSET h).
  split; [rewrite length_drop, Hhl; done|]. unfold encrypt_at_nonce.
  rewrite (proj2 (Nat.ltb_ge _ _)) by (by destruct Hw as (_ & _ & _ & _ & _ & _ & ? & _)).
  rewrite encode_plaintext_wf by done. cbn [mbind res_bind].
  rewrite <-parse_header_Ok by done. unfold seal. rewrite nonce_from_header_ok by done. cbn [mbind res_bind].
  rewrite Ho. cbn. by rewrite Hh, Hbo.
Qed.

(** Opening a blob never panics, whatever its bytes and length. *)
Lemma decrypt_no_panic kek blob : decrypt kek blob ≠ Panic.
Proof.
  intros H. unfold decrypt in H. if_inv H E0. bool_simp. unfold HEADER_LEN, TAG_LEN in *.
  apply bind_Panic in H as [H|(h & Hh & H)]; [apply slice_Panic in H; lia|].
  apply slice_Ok in Hh as (_ & Hhl & _ & _).
  apply bind_Panic in H as [H|([] & _ & H)]; [by apply parse_header_no_panic in H|].
  apply bind_Panic in H as [H|(body & _ & H)]; [apply slice_Panic in H; lia|].
  apply bind_Panic in H as [H|(pt & _ & H)]; [|by apply decode_plaintext_no_panic in H].
  unfold open in H. rewrite nonce_from_header_ok in H by done. cbn [mbind res_bind] in H.
  by apply ok_or_Panic in H.
Qed.
End blob_props.

(** ** A concrete state, sealed with the toy cipher *)

Module Sample.
Definition kek : bytes := replicate 32 90.
Definition nonce : bytes := replicate 24 17.
Definition state : CoreState :=
  mkCoreState true 1000 (Some 800000) (Some 3) (Some 1700000000000000000) 5000 0 true
    [mkBookedSpend [mkOutPoint (replicate 32 7) 1] 42 10].

Lemma state_wf : core_wf state.
Proof.
  split_and!; unfold opt_wf; cbn; intros; simplify_eq; try mlia.
  - unfold MAX_BOOKINGS. lia.
  - repeat constructor; cbn; unfold MAX_INPUTS; try mlia; done.
Qed.
Lemma state_no_sentinel : no_sentinel state.
Proof. split_and!; discriminate. Qed.

Definition sealed : bytes :=
  match encrypt_at_nonce (aead:=ToyAead.aead) kek nonce state with Ok b => b | _ => [] end.
End Sample.

Lemma core_state_roundtrip_witness :
  ∃ blob, encrypt (aead:=ToyAead.aead) (Some Sample.nonce) Sample.kek Sample.state = Ok blob ∧
          decrypt (aead:=ToyAead.aead) Sample.kek blob = Ok Sample.state.
Proof.
  destruct (core_state_roundtrip (aead:=ToyAead.aead) (aead_laws:=ToyAead.laws)
    Sample.kek Sample.nonce Sample.state Sample.state_wf eq_refl) as (b & He & _ & Hd).
  exists b. split; [exact He|exact (Hd Sample.state_no_sentinel)].
Defined.

Lemma decode_plaintext_canonical_witness :
  decode_plaintext (plaintext_of Sample.state) = Ok Sample.state.
Proof.
  apply (decode_plaintext_canonical (plaintext_of Sample.state) Sample.state).
  - apply bytes_ok_spec. vm_compute. reflexivity.
  - split_and!; [exact Sample.state_wf|exact Sample.state_no_sentinel|vm_compute; reflexivity].
Defined.

Lemma decrypt_only_sealed_witness :
  ∃ nonce, length nonce = NONCE_LEN ∧
    encrypt_at_nonce (aead:=ToyAead.aead) Sample.kek nonce Sample.state = Ok Sample.sealed.
Proof.
  apply (decrypt_only_sealed (aead:=ToyAead.aead) (aead_laws:=ToyAead.laws)).
  - apply bytes_ok_spec. vm_compute. reflexivity.
  - vm_compute. reflexivity.
Defined.
