(* ===== verification/Clock.v ===== *)
(** [trinity-signer/src/clock.rs]: the injected clocks of the spend window.

    The traits [MonotonicClock] and [BlockHeightSource] are records of what one
    call of each method returns (a [Duration] is its nanoseconds). [FakeClock]
    is the implementation shipped with the [test-util] feature: two atomic
    cells, whose [advance] is a compare-and-swap loop; its concurrent behaviour
    is the step relation [Concurrent.step]. *)
From S2P Require Import Prelude.

Record MonotonicClock := mkClock { clock_now : Z; clock_boot_id : option Z }.
Record BlockHeightSource := mkBlocks { tip_height : option Z }.

Definition clock_wf (c : MonotonicClock) : Prop :=
  0 ≤ clock_now c ∧ ∀ b, clock_boot_id c = Some b → is_u64 b.
Definition blocks_wf (b : BlockHeightSource) : Prop :=
  ∀ h, tip_height b = Some h → is_u32 h.

(** ** [FakeClock], one caller at a time *)

Record FakeClock := mkFakeClock { fc_now_ns : Z; fc_boot_id : Z }.

Definition FakeClock_new : FakeClock := mkFakeClock 0 1.

(** [u64::try_from(d.as_nanos()).unwrap_or(u64::MAX)] *)
Definition clip_u64 (ns : Z) : Z := if ns <=? u64_max then ns else u64_max.

Definition FakeClock_set (now : Z) (c : FakeClock) : FakeClock :=
  mkFakeClock (clip_u64 now) (fc_boot_id c).

(** The uncontended run of [advance]: load, one successful swap. *)
Definition FakeClock_advance (delta : Z) (c : FakeClock) : FakeClock :=
  mkFakeClock (sat_add (fc_now_ns c) (clip_u64 delta)) (fc_boot_id c).

(** [fetch_add] wraps. *)
Definition FakeClock_reboot (c : FakeClock) : FakeClock :=
  mkFakeClock 0 ((fc_boot_id c + 1) mod 2 ^ 64).

(** [impl MonotonicClock for FakeClock] *)
Definition FakeClock_reading (c : FakeClock) : MonotonicClock :=
  mkClock (fc_now_ns c) (Some (fc_boot_id c)).

Record FakeBlockHeightSource := mkFakeBlocks { fb_tip : option Z }.
Definition FakeBlocks_set (tip : option Z) (b : FakeBlockHeightSource) : FakeBlockHeightSource :=
  mkFakeBlocks tip.
Definition FakeBlocks_reading (b : FakeBlockHeightSource) : BlockHeightSource :=
  mkBlocks (fb_tip b).

(** ** Concurrent [advance] *)

Module Concurrent.
(** Where a thread inside [advance] stands: before the load, about to swap
    against the value it last saw, returned. *)
Inductive pc := AtLoad | AtSwap (seen : Z) | Returned.

Record system := mkSystem { now_ns : Z; threads : list (Z * pc) }.

(** One atomic action of one thread; its increment is the first component. A
    weak compare-exchange may fail although the value matches. *)
Inductive step : system → system → Prop :=
  | step_load now ts i e :
      ts !! i = Some (e, AtLoad) →
      step (mkSystem now ts) (mkSystem now (<[i := (e, AtSwap now)]> ts))
  | step_swap now ts i e :
      ts !! i = Some (e, AtSwap now) →
      step (mkSystem now ts) (mkSystem (sat_add now e) (<[i := (e, Returned)]> ts))
  | step_retry now ts i e seen :
      ts !! i = Some (e, AtSwap seen) →
      step (mkSystem now ts) (mkSystem now (<[i := (e, AtSwap now)]> ts)).

(** Every thread is about to load. *)
Definition start (now : Z) (extras : list Z) : system :=
  mkSystem now (map (λ e, (e, AtLoad)) extras).

Definition done_amount (t : Z * pc) : Z :=
  match t.2 with Returned => t.1 | _ => 0 end.
Definition done_sum (ts : list (Z * pc)) : Z := sum_Z (map done_amount ts).

Lemma sum_Z_insert (l : list Z) i x y :
  l !! i = Some x → sum_Z (<[i:=y]> l) = sum_Z l - x + y.
Proof.
  revert i. induction l as [|z l IH]; intros [|i] H; cbn in H; simplify_eq; [cbn; lia|].
  change (sum_Z (z :: <[i:=y]> l) = sum_Z (z :: l) - x + y). cbn [sum_Z].
  rewrite (IH i) by done. lia.
Qed.
Lemma done_sum_insert ts i t t' :
  ts !! i = Some t → done_sum (<[i:=t']> ts) = done_sum ts - done_amount t + done_amount t'.
Proof.
  intros Hi. unfold done_sum.
  change (map done_amount (<[i:=t']> ts)) with (done_amount <$> <[i:=t']> ts).
  rewrite list_fmap_insert. apply sum_Z_insert. change (map done_amount ts) with (done_amount <$> ts).
  by rewrite list_lookup_fmap, Hi.
Qed.

Lemma map_fst_insert (ts : list (Z * pc)) i e p p' :
  ts !! i = Some (e, p) → map fst (<[i:=(e, p')]> ts) = map fst ts.
Proof.
  intros Hi. change (map fst (<[i:=(e, p')]> ts)) with (fst <$> <[i:=(e, p')]> ts).
  rewrite list_fmap_insert. apply list_insert_id. change (map fst ts) with (fst <$> ts).
  by rewrite list_lookup_fmap, Hi.
Qed.

(** The clock holds exactly what the finished threads added, saturated. *)
Definition inv (init : Z) (extras : list Z) (s : system) : Prop :=
  now_ns s = Z.min (init + done_sum (threads s)) u64_max ∧ map fst (threads s) = extras.

Lemma inv_start init extras : is_u64 init → inv init extras (start init extras).
Proof.
  intros Hi. split; unfold start; cbn [now_ns threads].
  - assert (done_sum (map (λ e, (e, AtLoad)) extras) = 0) as ->.
    { induction extras as [|e l IH]; [done|]. unfold done_sum in *. cbn. lia. }
    mlia.
  - induction extras; cbn; congruence.
Qed.

Lemma done_sum_nonneg ts : Forall (λ e, 0 ≤ e) (map fst ts) → 0 ≤ done_sum ts.
Proof.
  unfold done_sum. induction ts as [|[e p] ts IH]; cbn; [lia|].
  intros [He Hts]%Forall_cons. specialize (IH Hts). unfold done_amount at 1. destruct p; cbn in *; lia.
Qed.

Lemma inv_step init extras s s' :
  Forall (λ e, 0 ≤ e) extras → inv init extras s → step s s' → inv init extras s'.
Proof.
  intros He [Hn Hf] Hs. unfold inv. inversion Hs as [now ts i e Hi|now ts i e Hi|now ts i e seen Hi];
    subst; cbn [now_ns threads] in *; rewrite (done_sum_insert _ _ _ _ Hi), (map_fst_insert _ _ _ _ _ Hi);
    (split; [|done]); cbn [done_amount fst snd]; try lia.
  assert (0 ≤ e).
  { rewrite Forall_forall in He. apply He. change (map fst ts) with (fst <$> ts).
    apply list_elem_of_fmap. exists (e, AtSwap now). split; [done|]. by eapply list_elem_of_lookup_2. }
  unfold sat_add. lia.
Qed.
End Concurrent.

(** However the load, swap and retry steps of concurrent [advance] calls
    interleave, the clock always shows the start value plus the increments of
    the calls that returned, saturated at [u64::MAX]: no increment is lost or
    applied twice, and the clock never wraps backwards. In particular, once all
    calls have returned, the total is exact. *)
Lemma concurrent_advance_exact init extras s :
  is_u64 init → Forall (λ e, 0 ≤ e) extras →
  rtc Concurrent.step (Concurrent.start init extras) s →
  Concurrent.now_ns s = Z.min (init + Concurrent.done_sum (Concurrent.threads s)) u64_max ∧
  init ≤ Concurrent.now_ns s ∧
  (Forall (λ t, t.2 = Concurrent.Returned) (Concurrent.threads s) →
   Concurrent.now_ns s = Z.min (init + sum_Z extras) u64_max).
Proof.
  intros Hi He Hr.
  assert (Concurrent.inv init extras s) as [Hn Hf].
  { revert Hr. apply (rtc_ind_r (Concurrent.inv init extras)); [by apply Concurrent.inv_start|].
    intros. by eapply Concurrent.inv_step. }
  split; [done|]. split.
  - rewrite Hn. pose proof (Concurrent.done_sum_nonneg (Concurrent.threads s)) as Hd.
    rewrite Hf in Hd. specialize (Hd He). mlia.
  - intros Ha. rewrite Hn. do 2 f_equal. rewrite <-Hf. unfold Concurrent.done_sum. f_equal.
    clear -Ha. induction Ha as [|[e p] ts Hp Hts IH]; cbn in *; [done|]. subst p. by rewrite IH.
Qed.

(** Two threads near the top of the range, with a retry in between. *)
Lemma concurrent_advance_exact_witness :
  Concurrent.now_ns (Concurrent.mkSystem u64_max
     [(10, Concurrent.Returned); (10, Concurrent.Returned)]) = u64_max.
Proof.
  assert (Forall (λ e, 0 ≤ e) [10; 10]) as H10 by (repeat constructor; lia).
  apply (concurrent_advance_exact (u64_max - 5) [10; 10]); [mlia|exact H10| |repeat constructor].
  eapply rtc_l; [eapply (Concurrent.step_load _ _ 0); reflexivity|].
  eapply rtc_l; [eapply (Concurrent.step_load _ _ 1); reflexivity|].
  eapply rtc_l; [eapply (Concurrent.step_swap _ _ 0); reflexivity|].
  eapply rtc_l; [eapply (Concurrent.step_retry _ _ 1); reflexivity|].
  eapply rtc_l; [eapply (Concurrent.step_swap _ _ 1); reflexivity|].
  apply rtc_refl.
Defined.
