(* ===== verification/Checksum.v ===== *)
(** [trinity-verify/src/checksum.rs]: the BIP-380 descriptor checksum.

    [expand], [polymod], [verify_checksum] and [create_checksum] follow the
    source loop by loop. The theory below is the coding-theory argument behind
    the checksum: [polymod] is linear over GF(2), its state update is injective
    on 40-bit states, and a burst of at most eight symbols cannot cancel. *)
From S2P Require Import Prelude.

(** Hard parse failures, [error.rs]; shared with the descriptor parser. *)
Inductive ParseError :=
  | MissingChecksum | MalformedChecksum | InvalidChecksum | InvalidCharset
  | WrongTopLevel | ExpectedSortedMulti | WrongThreshold (k : bytes) | WrongKeyCount (n : nat)
  | MalformedFingerprint | MalformedOriginPath (p : bytes) | InvalidOriginPath (p : bytes)
  | MultipathForbidden | MalformedXpub | PrivateKeyForbidden | MalformedDerivation
  | MalformedKeyExpression | TrailingGarbage | UnexpectedEof.

Definition INPUT_CHARSET : bytes :=
  str "0123456789()[],'/*abcdefgh@:$%{}" ++
  str "IJKLMNOPQRSTUVWXYZ&+-.;<=>?!^_|~" ++
  str "ijklmnopqrstuvwxyzABCDEFGH`#" ++ [34; 92; 32].

Definition CHECKSUM_CHARSET : bytes := str "qpzry9x8gf2tvdw0s3jn54khce6mua7l".

Definition GENERATOR : list Z :=
  [0x00f5dee51989; 0x00a9fdca3312; 0x001bab10e32d; 0x003706b1677a; 0x00644d626ffd].

(** [iter().position(|&x| x == c)] *)
Fixpoint position (c : Z) (l : bytes) : option nat :=
  match l with
  | [] => None
  | x :: l => if x =? c then Some O else S <$> position c l
  end.

(** One character of [descsum_expand]'s loop; the state is (groups, symbols). *)
Definition expand_step (st : list Z * list Z) (c : Z) : res ParseError (list Z * list Z) :=
  i ← ok_or (position c INPUT_CHARSET) InvalidCharset;
  let v := Z.of_nat i in
  let symbols := st.2 ++ [Z.land v 31] in
  match st.1 ++ [Z.shiftr v 5] with
  | [g0; g1; g2] => Ok ([], symbols ++ [g0 * 9 + g1 * 3 + g2])
  | groups => Ok (groups, symbols)
  end.

(** What is left of the last group after the loop. *)
Definition expand_rest (st : list Z * list Z) : list Z :=
  match st.1 with
  | [g0] => st.2 ++ [g0]
  | [g0; g1] => st.2 ++ [g0 * 3 + g1]
  | _ => st.2
  end.

Definition expand (s : bytes) : res ParseError (list Z) :=
  st ← fold_res expand_step ([], []) s;
  Ok (expand_rest st).

(** The generator loop of one [polymod] step. *)
Fixpoint apply_gens (gens : list Z) (i : Z) (top chk : Z) : Z :=
  match gens with
  | [] => chk
  | g :: gens =>
      apply_gens gens (i + 1) top
        (if Z.land (Z.shiftr top i) 1 =? 1 then Z.lxor chk g else chk)
  end.

Definition polymod_step (chk value : Z) : Z :=
  let top := Z.shiftr chk 35 in
  apply_gens GENERATOR 0 top (Z.lxor (Z.shiftl (Z.land chk 0x7ffffffff) 5) value).

Definition polymod (symbols : list Z) : Z := foldl polymod_step 1 symbols.

Definition in_checksum_charset (c : Z) : bool :=
  match position c CHECKSUM_CHARSET with Some _ => true | None => false end.

Definition verify_checksum (s : bytes) : res ParseError unit :=
  if (length s <? 10)%nat then Err MissingChecksum else
  let hash_pos := (length s - 9)%nat in
  h ← index hash_pos s;
  if negb (h =? 35) then Err MissingChecksum else
  checksum ← slice (hash_pos + 1) (length s) s;
  _ ← for_each (λ c, ensure (in_checksum_charset c) MalformedChecksum) checksum;
  payload ← slice 0 hash_pos s;
  symbols ← expand payload;
  symbols ← fold_res (λ acc c,
      i ← expect (position c CHECKSUM_CHARSET);
      Ok (acc ++ [Z.of_nat i])) symbols checksum;
  if negb (polymod symbols =? 1) then Err InvalidChecksum else Ok tt.

(** [create_checksum] (compiled for the crate's tests only). *)
Definition checksum_chars (val : Z) : bytes :=
  map (λ i, nth (Z.to_nat (Z.land (Z.shiftr val (5 * (7 - Z.of_nat i))) 31)) CHECKSUM_CHARSET 0)
      (seq 0 8).
Definition create_checksum (script : bytes) : res ParseError bytes :=
  symbols ← expand script;
  let val := Z.lxor (polymod (symbols ++ replicate 8 0)) 1 in
  Ok (script ++ str "#" ++ checksum_chars val).

Arguments polymod_step : simpl never.

(** ** Linearity *)

(** The linear part of a step, as an explicit sum of generators. *)
Definition gen_bit (top i g : Z) : Z := if Z.testbit top i then g else 0.
Definition gen_sum (top : Z) : Z :=
  Z.lxor (gen_bit top 0 0x00f5dee51989) (Z.lxor (gen_bit top 1 0x00a9fdca3312)
    (Z.lxor (gen_bit top 2 0x001bab10e32d) (Z.lxor (gen_bit top 3 0x003706b1677a)
      (gen_bit top 4 0x00644d626ffd)))).
Definition lin (chk : Z) : Z :=
  Z.lxor (Z.shiftl (Z.land chk 0x7ffffffff) 5) (gen_sum (Z.shiftr chk 35)).

Arguments lin : simpl never.
Arguments gen_sum : simpl never.

Lemma land_1_testbit x i : 0 ≤ i → (Z.land (Z.shiftr x i) 1 =? 1) = Z.testbit x i.
Proof.
  intros Hi. change 1 with (Z.ones 1). rewrite Z.land_ones by lia.
  change (2 ^ 1) with 2. rewrite <-Z.bit0_mod, Z.shiftr_spec, Z.add_0_l by lia.
  by destruct (Z.testbit x i).
Qed.

Lemma apply_gens_step g gens i top chk :
  0 ≤ i →
  apply_gens (g :: gens) i top chk = apply_gens gens (i + 1) top (Z.lxor chk (gen_bit top i g)).
Proof.
  intros Hi. cbn [apply_gens]. rewrite land_1_testbit by done. unfold gen_bit.
  destruct (Z.testbit top i); [done|]. by rewrite Z.lxor_0_r.
Qed.

Lemma polymod_step_lin chk v : polymod_step chk v = Z.lxor (lin chk) v.
Proof.
  unfold polymod_step, GENERATOR, lin.
  rewrite !apply_gens_step by lia. cbn [apply_gens Z.add Pos.add Pos.succ].
  rewrite (Z.lxor_assoc _ (gen_sum _) v), (Z.lxor_comm (gen_sum _) v), <-Z.lxor_assoc.
  unfold gen_sum. by rewrite !Z.lxor_assoc.
Qed.

Lemma gen_bit_lxor x y i g : gen_bit (Z.lxor x y) i g = Z.lxor (gen_bit x i g) (gen_bit y i g).
Proof.
  unfold gen_bit. rewrite Z.lxor_spec.
  destruct (Z.testbit x i), (Z.testbit y i); cbn [xorb];
    rewrite ?Z.lxor_nilpotent, ?Z.lxor_0_r, ?Z.lxor_0_l; done.
Qed.

(** Exchange the middle terms of a sum of two sums. *)
Lemma lxor_swap a b c d : Z.lxor (Z.lxor a b) (Z.lxor c d) = Z.lxor (Z.lxor a c) (Z.lxor b d).
Proof.
  rewrite !Z.lxor_assoc. f_equal. rewrite <-!Z.lxor_assoc. f_equal. apply Z.lxor_comm.
Qed.

Lemma gen_sum_lxor x y : gen_sum (Z.lxor x y) = Z.lxor (gen_sum x) (gen_sum y).
Proof.
  unfold gen_sum. rewrite !gen_bit_lxor. 
  do 4 (etrans; [|symmetry; apply lxor_swap]; f_equal).
Qed.

Lemma land_lxor_distr x y m : Z.land (Z.lxor x y) m = Z.lxor (Z.land x m) (Z.land y m).
Proof.
  apply Z.bits_inj'. intros n Hn. rewrite !Z.lxor_spec, !Z.land_spec, Z.lxor_spec.
  by destruct (Z.testbit x n), (Z.testbit y n), (Z.testbit m n).
Qed.

Lemma lin_lxor x y : lin (Z.lxor x y) = Z.lxor (lin x) (lin y).
Proof.
  unfold lin. rewrite Z.shiftr_lxor, gen_sum_lxor, land_lxor_distr, Z.shiftl_lxor. apply lxor_swap.
Qed.

(** The effect of an error pattern on the state. *)
Definition err_fold (d : Z) (es : list Z) : Z := foldl (λ d e, Z.lxor (lin d) e) d es.

Lemma polymod_fold_lxor vs es c d :
  length vs = length es →
  foldl polymod_step (Z.lxor c d) (zip_with Z.lxor vs es) =
    Z.lxor (foldl polymod_step c vs) (err_fold d es).
Proof.
  revert es c d. induction vs as [|v vs IH]; intros [|e es] c d Hl; cbn [length foldl zip_with err_fold] in *; try lia.
  rewrite !polymod_step_lin, lin_lxor, lxor_swap. rewrite <-polymod_step_lin. apply IH. lia.
Qed.

Lemma err_fold_app d es fs : err_fold d (es ++ fs) = err_fold (err_fold d es) fs.
Proof. unfold err_fold. apply foldl_app. Qed.

(** ** Injectivity of the state update *)

Lemma lin_0 : lin 0 = 0.
Proof. reflexivity. Qed.
Lemma err_fold_zeros_0 n : err_fold 0 (replicate n 0) = 0.
Proof. induction n; cbn; [done|]. by rewrite lin_0. Qed.

Lemma lin_small d : 0 ≤ d < 2 ^ 35 → lin d = Z.shiftl d 5.
Proof.
  intros Hd. unfold lin. change 0x7ffffffff with (Z.ones 35).
  rewrite Z.land_ones, Z.mod_small, Z.shiftr_div_pow2, Z.div_small by lia.
  by rewrite Z.lxor_0_r.
Qed.

Lemma lxor_bound x y n : 0 ≤ n → 0 ≤ x < 2 ^ n → 0 ≤ y < 2 ^ n → 0 ≤ Z.lxor x y < 2 ^ n.
Proof.
  intros Hn Hx Hy. assert (0 ≤ Z.lxor x y) as H0 by (apply Z.lxor_nonneg; lia). split; [done|].
  destruct (Z.eq_dec (Z.lxor x y) 0) as [->|Hne]; [lia|].
  apply Z.log2_lt_pow2; [lia|]. apply Z.nle_gt. intros Hl.
  assert (Z.testbit (Z.lxor x y) (Z.log2 (Z.lxor x y)) = true) as Hb by (apply Z.bit_log2; lia).
  rewrite Z.lxor_spec, (testbit_small x n), (testbit_small y n) in Hb by lia. done.
Qed.

Lemma gen_sum_bound t : 0 ≤ gen_sum t < 2 ^ 40.
Proof.
  unfold gen_sum. repeat apply lxor_bound; unfold gen_bit; try destruct (Z.testbit _ _); lia.
Qed.

Lemma lin_bound d : 0 ≤ lin d < 2 ^ 40.
Proof.
  unfold lin. apply lxor_bound; [lia| |apply gen_sum_bound].
  change 0x7ffffffff with (Z.ones 35). rewrite Z.land_ones, Z.shiftl_mul_pow2 by lia.
  pose proof (Z.mod_pos_bound d (2 ^ 35)). lia.
Qed.

(** The low five bits of the generator sum determine the top five bits. *)
Lemma gen_sum_low t : 0 ≤ t < 32 → Z.land (gen_sum t) 31 = 0 → t = 0.
Proof.
  intros Ht. assert (Forall (λ n, Z.land (gen_sum (Z.of_nat n)) 31 = 0 → n = O) (seq 0 32)) as Hf.
  { repeat (constructor; [vm_compute; congruence|]). constructor. }
  rewrite Forall_forall in Hf. specialize (Hf (Z.to_nat t)).
  rewrite Z2Nat.id in Hf by lia. intros H0. apply Hf in H0; [lia|]. apply elem_of_seq. lia.
Qed.

Lemma lin_eq_0 d : 0 ≤ d < 2 ^ 40 → lin d = 0 → d = 0.
Proof.
  intros Hd H0. unfold lin in H0. apply Z.lxor_eq in H0.
  change 0x7ffffffff with (Z.ones 35) in H0. rewrite Z.land_ones in H0 by lia.
  assert (Z.shiftr d 35 = 0) as Ht.
  { apply gen_sum_low.
    - rewrite Z.shiftr_div_pow2 by lia. split; [apply Z.div_pos; lia|].
      apply Z.div_lt_upper_bound; lia.
    - rewrite <-H0. change 31 with (Z.ones 5). rewrite Z.land_ones by lia.
      rewrite Z.shiftl_mul_pow2 by lia. apply Z.mod_mul. lia. }
  rewrite Ht in H0. change (gen_sum 0) with 0 in H0. rewrite Z.shiftl_mul_pow2 in H0 by lia.
  rewrite Z.shiftr_div_pow2 in Ht by lia. pose proof (Z.div_mod d (2 ^ 35)). lia.
Qed.

Lemma err_fold_zeros d n : 0 ≤ d < 2 ^ 40 → d ≠ 0 → err_fold d (replicate n 0) ≠ 0.
Proof.
  revert d. induction n as [|n IH]; intros d Hd Hne; cbn; [done|].
  rewrite Z.lxor_0_r. apply IH; [apply lin_bound|]. intros H. by apply lin_eq_0 in H.
Qed.

(** A burst of at most eight symbols packs into the state without feedback. *)
Definition symbol_ok (e : Z) : Prop := 0 ≤ e < 32.

Lemma shiftl_lxor_small d e :
  0 ≤ d → symbol_ok e → Z.lxor (Z.shiftl d 5) e = d * 32 + e.
Proof.
  intros Hd He. rewrite Z.shiftl_mul_pow2 by lia. change (2 ^ 5) with 32.
  rewrite <-Z.add_nocarry_lxor; [done|]. apply Z.bits_inj'. intros k Hk.
  change 32 with (2 ^ 5). rewrite Z.land_spec, Z.bits_0, <-Z.shiftl_mul_pow2, Z.shiftl_spec by lia.
  destruct (decide (k < 5)).
  - by rewrite Z.testbit_neg_r by lia.
  - rewrite (testbit_small e 5 k) by (unfold symbol_ok in He; lia). by rewrite andb_false_r.
Qed.

(** Base-32 value of a symbol string. *)
Fixpoint pack (acc : Z) (es : list Z) : Z :=
  match es with [] => acc | e :: es => pack (acc * 32 + e) es end.

Lemma err_fold_pack d es k :
  Forall symbol_ok es → (k + length es ≤ 8)%nat → 0 ≤ d < 32 ^ Z.of_nat k →
  err_fold d es = pack d es ∧ 0 ≤ pack d es < 2 ^ 40.
Proof.
  intros He. revert d k. induction He as [|e es He Hes IH]; intros d k Hk Hd; cbn [err_fold foldl pack length] in *.
  - split; [done|]. split; [lia|]. eapply Z.lt_le_trans; [apply Hd|].
    change (2 ^ 40) with (32 ^ 8). apply Z.pow_le_mono_r; lia.
  - assert (d < 2 ^ 35).
    { eapply Z.lt_le_trans; [apply Hd|]. change (2 ^ 35) with (32 ^ 7). apply Z.pow_le_mono_r; lia. }
    rewrite lin_small, shiftl_lxor_small by (done || lia). apply (IH _ (S k)); [lia|].
    rewrite Nat2Z.inj_succ, Z.pow_succ_r by lia. unfold symbol_ok in He. lia.
Qed.

Lemma pack_nonzero d es :
  0 ≤ d → Forall symbol_ok es → (d ≠ 0 ∨ Exists (λ e, e ≠ 0) es) → pack d es ≠ 0.
Proof.
  intros Hd He. revert d Hd. induction He as [|e es He Hes IH]; intros d Hd Hn; cbn.
  - destruct Hn as [?|Hn]; [done|]. by apply Exists_nil in Hn.
  - unfold symbol_ok in He. apply IH; [lia|]. rewrite Exists_cons in Hn. destruct Hn as [?|[?|?]]; [lia..|by right].
Qed.

(** A non-zero burst of at most eight symbols changes the checksum. *)
Lemma burst_detected n es m :
  Forall symbol_ok es → (length es ≤ 8)%nat → Exists (λ e, e ≠ 0) es →
  err_fold 0 (replicate n 0 ++ es ++ replicate m 0) ≠ 0.
Proof.
  intros He Hl Hn. rewrite !err_fold_app, err_fold_zeros_0.
  destruct (err_fold_pack 0 es 0) as [-> Hb]; [done|lia|lia|].
  apply err_fold_zeros; [done|]. apply pack_nonzero; [lia|done|by right].
Qed.

(** Two equally long words with the same checksum differ by a code word. *)
Lemma polymod_diff vs ws :
  length vs = length ws → polymod vs = polymod ws → err_fold 0 (zip_with Z.lxor vs ws) = 0.
Proof.
  intros Hl Heq.
  assert (zip_with Z.lxor vs (zip_with Z.lxor vs ws) = ws) as Hx.
  { clear Heq. revert ws Hl. induction vs as [|v vs IH]; intros [|w ws] Hl; cbn in *; try lia; [done|].
    rewrite IH by lia. by rewrite <-Z.lxor_assoc, Z.lxor_nilpotent, Z.lxor_0_l. }
  pose proof (polymod_fold_lxor vs (zip_with Z.lxor vs ws) 1 0) as H.
  rewrite Hx, Z.lxor_0_r in H. unfold polymod in Heq. rewrite <-Heq in H.
  specialize (H ltac:(rewrite length_zip_with; lia)). apply (f_equal (Z.lxor (foldl polymod_step 1 vs))) in H.
  by rewrite <-Z.lxor_assoc, Z.lxor_nilpotent, Z.lxor_0_l in H.
Qed.

Lemma zip_with_lxor_same vs : zip_with Z.lxor vs vs = replicate (length vs) 0.
Proof. induction vs; cbn; [done|]. by rewrite Z.lxor_nilpotent, IHvs. Qed.

(** Words that agree outside a window of at most eight symbols have different
    checksums. *)
Lemma polymod_window a x y b :
  Forall symbol_ok x → Forall symbol_ok y → length x = length y → (length x ≤ 8)%nat → x ≠ y →
  polymod (a ++ x ++ b) ≠ polymod (a ++ y ++ b).
Proof.
  intros Hx Hy Hl H8 Hne Heq. apply polymod_diff in Heq; [|rewrite !length_app; lia].
  rewrite !zip_with_app, !zip_with_lxor_same in Heq by done. revert Heq. apply burst_detected.
  - clear Hne H8. revert y Hy Hl. induction Hx as [|u x Hu Hx IH]; intros [|w y] Hy Hl; cbn; constructor.
    + inversion Hy; subst. unfold symbol_ok in *. change 32 with (2 ^ 5) in *. apply lxor_bound; lia.
    + apply IH; [by inversion Hy|cbn in Hl; lia].
  - rewrite length_zip_with. lia.
  - clear H8 Hx Hy. revert y Hl Hne. induction x as [|u x IH]; intros [|w y] Hl Hne; cbn in *; try lia; [done|].
    destruct (decide (u = w)) as [->|]; [apply Exists_cons_tl, IH; [lia|congruence]|].
    apply Exists_cons_hd. intros ?%Z.lxor_eq. done.
Qed.

(** ** [expand], block by block *)

Definition value_ok (v : Z) : Prop := 0 ≤ v < 96.

Fixpoint expand_vals (vs : list Z) : list Z :=
  match vs with
  | [] => []
  | [a] => [Z.land a 31; Z.shiftr a 5]
  | [a; b] => [Z.land a 31; Z.land b 31; Z.shiftr a 5 * 3 + Z.shiftr b 5]
  | a :: b :: c :: vs =>
      Z.land a 31 :: Z.land b 31 :: Z.land c 31 ::
        Z.shiftr a 5 * 9 + Z.shiftr b 5 * 3 + Z.shiftr c 5 :: expand_vals vs
  end.

Lemma position_Some c l i : position c l = Some i → l !! i = Some c.
Proof.
  revert i. induction l as [|x l IH]; intros i; cbn; [done|].
  destruct (x =? c) eqn:E; bool_simp.
  - intros [= <-]. by subst.
  - intros (j & Hj & ->)%fmap_Some. cbn. by apply IH.
Qed.

(** The value of a descriptor character, and of a checksum character. *)
Definition char_value (c : Z) : option Z := Z.of_nat <$> position c INPUT_CHARSET.
Definition check_value (c : Z) : option Z := Z.of_nat <$> position c CHECKSUM_CHARSET.

Lemma char_value_ok c v : char_value c = Some v → value_ok v.
Proof.
  unfold char_value. intros (i & Hi%position_Some & ->)%fmap_Some.
  apply lookup_lt_Some in Hi. change (length INPUT_CHARSET) with 95%nat in Hi. unfold value_ok. lia.
Qed.
Lemma check_value_ok c v : check_value c = Some v → symbol_ok v.
Proof.
  unfold check_value. intros (i & Hi%position_Some & ->)%fmap_Some.
  apply lookup_lt_Some in Hi. change (length CHECKSUM_CHARSET) with 32%nat in Hi. unfold symbol_ok. lia.
Qed.
Lemma value_inj cs c d v : Z.of_nat <$> position c cs = Some v → Z.of_nat <$> position d cs = Some v → c = d.
Proof.
  intros (i & Hi%position_Some & ->)%fmap_Some (j & Hj%position_Some & Hv)%fmap_Some.
  apply Nat2Z.inj in Hv as ->. congruence.
Qed.
Lemma values_inj cs l k vs :
  mapM (λ c, Z.of_nat <$> position c cs) l = Some vs →
  mapM (λ c, Z.of_nat <$> position c cs) k = Some vs → l = k.
Proof.
  rewrite !mapM_Some. intros Hl Hk. revert k Hk. induction Hl as [|c v l vs Hc Hl IH]; intros k Hk.
  - by inversion Hk.
  - inversion Hk; subst. f_equal; [by eapply value_inj|by apply IH].
Qed.
Lemma values_Forall cs (P : Z → Prop) l vs :
  (∀ c v, Z.of_nat <$> position c cs = Some v → P v) →
  mapM (λ c, Z.of_nat <$> position c cs) l = Some vs → Forall P vs.
Proof. intros HP. rewrite mapM_Some. induction 1; constructor; eauto. Qed.


Lemma expand_step_value st c v :
  char_value c = Some v →
  expand_step st c =
    match st.1 ++ [Z.shiftr v 5] with
    | [g0; g1; g2] => Ok ([], (st.2 ++ [Z.land v 31]) ++ [g0 * 9 + g1 * 3 + g2])
    | groups => Ok (groups, st.2 ++ [Z.land v 31])
    end.
Proof.
  unfold char_value, expand_step. intros (i & -> & ->)%fmap_Some. cbn [ok_or mbind res_bind]. done.
Qed.

Lemma expand_from acc s vs :
  mapM char_value s = Some vs →
  (st ← fold_res expand_step ([], acc) s; Ok (expand_rest st)) = Ok (acc ++ expand_vals vs).
Proof.
  revert vs acc. induction s as [|a|a b|a b c s IH] using list_ind3; intros vs acc H%mapM_Some.
  - inversion H; subst. cbn. by rewrite app_nil_r.
  - inversion H as [|? v ? ? Hv Ht]; inversion Ht; simplify_eq.
    cbn [fold_res]. rewrite (expand_step_value _ _ v Hv). cbn. by rewrite <-!app_assoc.
  - inversion H as [|? v ? ? Hv Ht]; inversion Ht as [|? w ? ? Hw Hn]; inversion Hn; subst.
    cbn [fold_res]. rewrite (expand_step_value _ _ v Hv). cbn [mbind res_bind app fst snd].
    rewrite (expand_step_value _ _ w Hw). cbn. by rewrite <-!app_assoc.
  - inversion H as [|? v ? ? Hv Ht]; inversion Ht as [|? w ? ? Hw Hn]; inversion Hn as [|? u ? us Hu Hr]; subst.
    cbn [fold_res]. rewrite (expand_step_value _ _ v Hv). cbn [mbind res_bind app fst snd].
    rewrite (expand_step_value _ _ w Hw). cbn [mbind res_bind app fst snd].
    rewrite (expand_step_value _ _ u Hu). cbn [mbind res_bind app fst snd].
    rewrite (IH us) by (by apply mapM_Some). cbn [expand_vals]. by rewrite <-!app_assoc.
Qed.
Lemma expand_ok s vs : mapM char_value s = Some vs → expand s = Ok (expand_vals vs).
Proof. apply (expand_from []). Qed.

Lemma expand_step_Ok st c r : expand_step st c = Ok r → is_Some (char_value c).
Proof.
  unfold expand_step, char_value. intros (i & Hi & _)%bind_Ok. apply ok_or_Ok in Hi as ->. by eexists.
Qed.
Lemma expand_inv s r : expand s = Ok r → ∃ vs, mapM char_value s = Some vs.
Proof.
  unfold expand. intros (x & Hx & _)%bind_Ok. revert x Hx. generalize (@nil Z, @nil Z) as st.
  induction s as [|c s IH]; intros st x Hx; [by eexists|]. cbn in Hx.
  apply bind_Ok in Hx as (st' & Hst & Hx). apply expand_step_Ok in Hst as [v Hv].
  apply IH in Hx as [vs Hvs]. exists (v :: vs). cbn. by rewrite Hv, Hvs.
Qed.
Lemma expand_no_panic s : expand s ≠ Panic.
Proof.
  unfold expand. intros [H|(st & _ & H)]%bind_Panic; [|done].
  apply fold_res_no_panic in H; [done|]. intros st c _ Hp. unfold expand_step in Hp.
  apply bind_Panic in Hp as [Hp|(i & _ & Hp)]; [by apply ok_or_Panic in Hp|].
  by destruct (st.1 ++ _) as [|? [|? [|? [|? ?]]]].
Qed.

(** [expand] distributes over whole groups of three characters. *)
Lemma expand_vals_app a b : (length a mod 3 = 0)%nat → expand_vals (a ++ b) = expand_vals a ++ expand_vals b.
Proof.
  induction a as [|x|x y|x y z a IH] using list_ind3; cbn [length app expand_vals]; try done.
  intros H. rewrite IH; [done|].
  replace (S (S (S (length a)))) with (length a + 1 * 3)%nat in H by lia. by rewrite Nat.Div0.mod_add in H.
Qed.
Lemma expand_vals_length a : (3 * length (expand_vals a) ≤ 4 * length a + 2)%nat.
Proof. induction a as [|x|x y|x y z a IH] using list_ind3; cbn [length expand_vals]; lia. Qed.
Lemma expand_vals_length_eq a b : length a = length b → length (expand_vals a) = length (expand_vals b).
Proof.
  revert b. induction a as [|x|x y|x y z a IH] using list_ind3; intros b Hl;
    (destruct b as [|? [|? [|? b]]]; cbn in Hl; try lia); cbn; try done.
  do 4 f_equal. apply IH. lia.
Qed.

Lemma value_parts v : value_ok v → 0 ≤ Z.land v 31 < 32 ∧ 0 ≤ Z.shiftr v 5 < 3 ∧ v = Z.shiftr v 5 * 32 + Z.land v 31.
Proof.
  unfold value_ok. intros Hv. change 31 with (Z.ones 5). rewrite Z.land_ones, Z.shiftr_div_pow2 by lia.
  change (2 ^ 5) with 32. pose proof (Z.mod_pos_bound v 32). pose proof (Z.div_mod v 32). lia.
Qed.
Lemma expand_vals_ok vs : Forall value_ok vs → Forall symbol_ok (expand_vals vs).
Proof.
  induction vs as [|x|x y|x y z a IH] using list_ind3; intros H; cbn [expand_vals]; rewrite ?Forall_cons in H;
    destruct_and?; repeat match goal with H : value_ok _ |- _ => apply value_parts in H end;
    repeat constructor; try lia; auto.
Qed.
Lemma expand_vals_inj vs ws :
  Forall value_ok vs → Forall value_ok ws → length vs = length ws → expand_vals vs = expand_vals ws → vs = ws.
Proof.
  revert ws. induction vs as [|x|x y|x y z a IH] using list_ind3; intros ws Hv Hw Hl Heq;
    (destruct ws as [|x' [|y' [|z' b]]]; cbn in Hl; try lia); cbn [expand_vals] in Heq;
    rewrite ?Forall_cons in Hv, Hw; destruct_and?; simplify_eq;
    repeat match goal with H : value_ok _ |- _ => apply value_parts in H end; repeat f_equal; try lia.
  apply IH; done || lia.
Qed.

(** ** What [verify_checksum] accepts *)

Lemma push_checks cs acc ks :
  mapM check_value cs = Some ks →
  fold_res (λ acc c, i ← expect (position c CHECKSUM_CHARSET); Ok (acc ++ [Z.of_nat i])) acc cs
    = Ok (E:=ParseError) (acc ++ ks).
Proof.
  rewrite mapM_Some. intros H. revert acc. induction H as [|c v cs ks Hc H IH]; intros acc; cbn [fold_res].
  - by rewrite app_nil_r.
  - unfold check_value in Hc. apply fmap_Some in Hc as (i & -> & ->). cbn [expect mbind res_bind].
    by rewrite IH, <-app_assoc.
Qed.

Lemma checks_in_charset cs :
  for_each (λ c, ensure (in_checksum_charset c) MalformedChecksum) cs = Ok tt ↔ is_Some (mapM check_value cs).
Proof.
  rewrite for_each_Ok, mapM_is_Some, Forall_forall. unfold in_checksum_charset, check_value, is_Some, compose.
  setoid_rewrite ensure_Ok. split; intros H c Hc; specialize (H c Hc); destruct (position c _); (done || by eexists || by destruct H).
Qed.

Lemma verify_split (p cs : bytes) :
  p ≠ [] → length cs = 8%nat →
  verify_checksum (p ++ [35] ++ cs) =
    (_ ← for_each (λ c, ensure (in_checksum_charset c) MalformedChecksum) cs;
     symbols ← expand p;
     symbols ← fold_res (λ acc c,
       i ← expect (position c CHECKSUM_CHARSET); Ok (acc ++ [Z.of_nat i])) symbols cs;
     if negb (polymod symbols =? 1) then Err InvalidChecksum else Ok tt).
Proof.
  intros Hp Hc. assert (0 < length p)%nat by (destruct p; [done|cbn; lia]).
  assert (length (p ++ [35] ++ cs) = (length p + 9)%nat) as Hlen by (rewrite !length_app; cbn; lia).
  unfold verify_checksum. rewrite Hlen. rewrite (proj2 (Nat.ltb_ge _ _)) by lia.
  replace (length p + 9 - 9)%nat with (length p) by lia.
  rewrite index_skip with (n := length p) by (done || lia). rewrite Nat.sub_diag. cbn [index lookup expect].
  unfold index. cbn [app lookup list_lookup expect mbind res_bind Z.eqb Pos.eqb negb].
  rewrite slice_here by done. change (p ++ 35 :: cs) with (p ++ [35] ++ cs). rewrite app_assoc.
  rewrite <-(app_nil_r ((p ++ [35]) ++ cs)), <-app_assoc.
  rewrite slice_app by (rewrite ?length_app; cbn; lia). done.
Qed.

(** The strings [verify_checksum] accepts: a non-empty payload, a hash sign and
    eight checksum characters that complete the payload to a code word. *)
Lemma verify_checksum_Ok s :
  verify_checksum s = Ok tt ↔
  ∃ p cs vs ks, s = p ++ [35] ++ cs ∧ p ≠ [] ∧ length cs = 8%nat ∧ mapM char_value p = Some vs ∧
    mapM check_value cs = Some ks ∧ polymod (expand_vals vs ++ ks) = 1.
Proof.
  split.
  - intros H. assert (∃ p cs, s = p ++ [35] ++ cs ∧ p ≠ [] ∧ length cs = 8%nat) as (p & cs & -> & Hp & Hc).
    { unfold verify_checksum in H. if_inv H E1. bool_simp. apply bind_Ok in H as (h & Hh & H). if_inv H E2.
      bool_simp. subst. apply index_Ok in Hh as [Hd Hi].
      exists (take (length s - 9) s), (drop (S (length s - 9)) s). split_and!.
      - rewrite <-(take_drop (length s - 9) s) at 1. by rewrite Hd.
      - intros Hn. apply (f_equal length) in Hn. rewrite length_take in Hn. cbn in Hn. lia.
      - rewrite length_drop. lia. }
    rewrite verify_split in H by done. apply bind_Ok in H as ([] & Hf & H).
    apply checks_in_charset in Hf as [ks Hks]. apply bind_Ok in H as (ss & Hs & H).
    destruct (expand_inv _ _ Hs) as [vs Hvs]. rewrite (expand_ok _ _ Hvs) in Hs. injection Hs as <-.
    rewrite (push_checks _ _ _ Hks) in H. cbn [mbind res_bind] in H. if_inv H E. bool_simp.
    by exists p, cs, vs, ks.
  - intros (p & cs & vs & ks & -> & Hp & Hc & Hvs & Hks & H1). rewrite verify_split by done.
    rewrite (proj2 (checks_in_charset cs)) by (by eexists). rewrite (expand_ok _ _ Hvs). cbn [mbind res_bind].
    rewrite (push_checks _ _ _ Hks). cbn [mbind res_bind]. by rewrite H1.
Qed.

(** Recover the parts of an accepted string from its shape. *)
Lemma verify_checksum_parts p cs :
  length cs = 8%nat → verify_checksum (p ++ [35] ++ cs) = Ok tt →
  ∃ vs ks, mapM char_value p = Some vs ∧ mapM check_value cs = Some ks ∧ polymod (expand_vals vs ++ ks) = 1.
Proof.
  intros Hc (p' & cs' & vs & ks & Heq & _ & Hc' & Hvs & Hks & H1)%verify_checksum_Ok.
  rewrite !app_assoc in Heq. apply app_inj_2 in Heq as [Heq ->]; [|lia].
  apply app_inj_2 in Heq as [-> _]; [|reflexivity]. by exists vs, ks.
Qed.

Lemma digit_step v j k :
  0 ≤ k → j = k + 1 → Z.shiftr v (5 * j) * 32 + Z.land (Z.shiftr v (5 * k)) 31 = Z.shiftr v (5 * k).
Proof.
  intros Hk ->. replace (5 * (k + 1)) with (5 * k + 5) by lia. rewrite <-Z.shiftr_shiftr by lia.
  generalize (Z.shiftr v (5 * k)) as w. intros w. change 31 with (Z.ones 5).
  rewrite Z.land_ones, Z.shiftr_div_pow2 by lia. change (2 ^ 5) with 32. pose proof (Z.div_mod w 32). lia.
Qed.

Definition digits (v : Z) : list Z :=
  map (λ i, Z.land (Z.shiftr v (5 * (7 - Z.of_nat i))) 31) (seq 0 8).

Lemma pack_digits v : 0 ≤ v < 2 ^ 40 → pack 0 (digits v) = v.
Proof.
  intros Hv. change (digits v) with (map (λ k, Z.land (Z.shiftr v (5 * k)) 31) [7; 6; 5; 4; 3; 2; 1; 0]).
  cbn [map pack]. assert (0 = Z.shiftr v (5 * 8)) as H0.
  { rewrite Z.shiftr_div_pow2 by lia. symmetry. apply Z.div_small. lia. }
  rewrite H0 at 1. rewrite !digit_step by lia. apply Z.shiftr_0_r.
Qed.

Lemma digits_ok v : Forall symbol_ok (digits v).
Proof.
  unfold digits. apply Forall_map, Forall_true. intros i. unfold symbol_ok. change 31 with (Z.ones 5).
  rewrite Z.land_ones by lia. apply Z.mod_pos_bound. lia.
Qed.

Lemma check_value_nth d : symbol_ok d → check_value (nth (Z.to_nat d) CHECKSUM_CHARSET 0) = Some d.
Proof.
  unfold symbol_ok. intros Hd.
  assert (Forall (λ n, check_value (nth n CHECKSUM_CHARSET 0) = Some (Z.of_nat n)) (seq 0 32)) as Hf.
  { repeat (constructor; [vm_compute; reflexivity|]). constructor. }
  rewrite Forall_forall in Hf. rewrite Hf by (apply elem_of_seq; lia). f_equal. lia.
Qed.
Lemma checksum_chars_values v : mapM check_value (checksum_chars v) = Some (digits v).
Proof.
  apply mapM_Some. pose proof (digits_ok v) as H. unfold checksum_chars, digits in *.
  induction (seq 0 8) as [|i l IH]; [constructor|]. cbn in H. apply Forall_cons in H as [Hi Hl].
  constructor; [by apply check_value_nth|by apply IH].
Qed.

Lemma polymod_bound ss : Forall symbol_ok ss → 0 ≤ polymod ss < 2 ^ 40.
Proof.
  intros H. unfold polymod. assert (0 ≤ 1 < 2 ^ 40) as H1 by lia. revert H1. generalize 1 as c.
  induction H as [|e ss He H IH]; intros c Hc; cbn [foldl]; [done|]. apply IH. rewrite polymod_step_lin.
  apply lxor_bound; [lia|apply lin_bound|]. unfold symbol_ok in He. lia.
Qed.

(** Replacing eight zero symbols by the digits of a word adds the word. *)
Lemma polymod_append ss ds :
  Forall symbol_ok ds → length ds = 8%nat →
  polymod (ss ++ ds) = Z.lxor (polymod (ss ++ replicate 8 0)) (pack 0 ds).
Proof.
  intros Hd Hl. unfold polymod. rewrite !foldl_app. set (c := foldl polymod_step 1 ss).
  pose proof (polymod_fold_lxor (replicate 8 0) ds c 0) as H. rewrite Z.lxor_0_r in H.
  destruct (err_fold_pack 0 ds 0) as [<- _]; [done|lia|lia|]. rewrite <-H by done. f_equal.
  clear -Hl. do 9 (destruct ds as [|? ds]; cbn in Hl; try lia). cbn. by rewrite ?Z.lxor_0_l.
Qed.

Lemma create_then_verify script :
  script ≠ [] → Forall (λ c, c ∈ INPUT_CHARSET) script →
  ∃ cs, create_checksum script = Ok (script ++ [35] ++ cs) ∧ length cs = 8%nat ∧
    verify_checksum (script ++ [35] ++ cs) = Ok tt.
Proof.
  intros Hne Hs. assert (∃ vs, mapM char_value script = Some vs) as [vs Hvs].
  { apply mapM_is_Some. eapply Forall_impl; [exact Hs|]. intros c Hc. unfold compose, char_value.
    apply fmap_is_Some. clear -Hc. induction Hc as [c l|c d l Hc IH]; cbn.
    - rewrite Z.eqb_refl. by eexists.
    - destruct (d =? c); [by eexists|by apply fmap_is_Some]. }
  unfold create_checksum. rewrite (expand_ok _ _ Hvs). cbn [mbind res_bind].
  set (val := Z.lxor _ 1). exists (checksum_chars val). split; [done|]. split; [done|]. apply verify_checksum_Ok.
  exists script, (checksum_chars val), vs, (digits val). split_and!; try done; [apply checksum_chars_values|].
  assert (Forall symbol_ok (expand_vals vs)) as Hok.
  { apply expand_vals_ok. eapply (values_Forall INPUT_CHARSET); [apply char_value_ok|exact Hvs]. }
  rewrite polymod_append, pack_digits by (done || apply digits_ok || (apply lxor_bound; [lia| |lia];
    apply polymod_bound, Forall_app; split; [done|repeat constructor; lia])).
  unfold val. by rewrite <-Z.lxor_assoc, Z.lxor_nilpotent, Z.lxor_0_l.
Qed.

(** Every script made of BIP-380 descriptor characters receives a checksum
    from [create_checksum], and [verify_checksum] accepts the result. *)
Lemma checksum_roundtrip script :
  script ≠ [] → Forall (λ c, c ∈ INPUT_CHARSET) script →
  ∃ t, create_checksum script = Ok t ∧ verify_checksum t = Ok tt.
Proof.
  intros Hne Hs. destruct (create_then_verify script Hne Hs) as (cs & ? & _ & ?). eauto.
Qed.

Definition sample_script : bytes := str "raw(deadbeef)".
Lemma checksum_roundtrip_witness :
  sample_script ≠ [] ∧ create_checksum sample_script = Ok (str "raw(deadbeef)#89f8spxm") ∧
  ∃ t, create_checksum sample_script = Ok t ∧ verify_checksum t = Ok tt.
Proof.
  split; [discriminate|]. split; [vm_compute; reflexivity|].
  apply (checksum_roundtrip sample_script); [discriminate|].
  repeat (constructor; [apply (bool_decide_eq_true_1 _); vm_compute; reflexivity|]). constructor.
Defined.

Lemma mapM_Some_app {A B} (f : A → option B) l k vs :
  mapM f (l ++ k) = Some vs → ∃ v w, vs = v ++ w ∧ mapM f l = Some v ∧ mapM f k = Some w.
Proof.
  rewrite mapM_Some. intros (v & w & Hv & Hw & ->)%Forall2_app_inv_l. exists v, w.
  by rewrite !mapM_Some.
Qed.

(** A window of at most four characters touches at most two groups. *)
Lemma expand_window p m q n :
  length m = n → (n ≤ 4)%nat →
  ∃ p1 p2 q1 q2, p = p1 ++ p2 ∧ q = q1 ++ q2 ∧ (length (p2 ++ m ++ q1) ≤ 6)%nat ∧
    ∀ m', length m' = n →
      expand_vals (p ++ m' ++ q) = expand_vals p1 ++ expand_vals (p2 ++ m' ++ q1) ++ expand_vals q2.
Proof.
  intros Hm Hn. set (k := (length p / 3 * 3)%nat). set (r := (6 - (length p - k + n))%nat).
  assert (k ≤ length p < k + 3)%nat as Hk.
  { unfold k. pose proof (Nat.div_mod_eq (length p) 3). pose proof (Nat.mod_upper_bound (length p) 3). lia. }
  exists (take k p), (drop k p), (take r q), (drop r q).
  assert (length (take k p) = k) as Hl by (rewrite length_take; lia).
  split_and!; [by rewrite take_drop..| |].
  - rewrite !length_app, length_drop, length_take. lia.
  - intros m' Hm'. rewrite <-(take_drop k p) at 1. rewrite <-app_assoc.
    rewrite expand_vals_app by (rewrite Hl; apply Nat.Div0.mod_mul). f_equal.
    rewrite <-(take_drop r q) at 1. rewrite (app_assoc m'), (app_assoc (drop k p)).
    destruct (decide (length q ≤ r)%nat) as [Hq|Hq].
    + rewrite (drop_ge q) by done. by rewrite !app_nil_r.
    + rewrite expand_vals_app; [done|]. rewrite !length_app, length_drop, length_take.
      replace (_ + _)%nat with 6%nat by lia. done.
Qed.

(** C26: a descriptor string accepted by [verify_checksum] stops being accepted
    when up to four consecutive payload characters are replaced by others. *)
Theorem checksum_detects_burst p m m' q cs :
  length cs = 8%nat → length m' = length m → (length m ≤ 4)%nat → m' ≠ m →
  verify_checksum ((p ++ m ++ q) ++ [35] ++ cs) = Ok tt →
  verify_checksum ((p ++ m' ++ q) ++ [35] ++ cs) ≠ Ok tt.
Proof.
  intros Hc Hl H4 Hne H H'. apply verify_checksum_parts in H as (vs & ks & Hv & Hk & H1); [|done].
  apply verify_checksum_parts in H' as (ws & ks' & Hw & Hk' & H1'); [|done].
  rewrite Hk in Hk'. injection Hk' as <-. rewrite <-H1' in H1.
  apply mapM_Some_app in Hv as (vp & vmq & -> & Hp & (vm & vq & -> & Hm & Hq)%mapM_Some_app).
  apply mapM_Some_app in Hw as (wp & wmq & -> & Hp' & (wm & wq & -> & Hm' & Hq')%mapM_Some_app).
  rewrite Hp in Hp'. rewrite Hq in Hq'. injection Hp' as <-. injection Hq' as <-.
  assert (∀ l k, mapM char_value l = Some k → length k = length l) as Hlen
    by (intros l k E; symmetry; by eapply length_mapM).
  assert (∀ l k, mapM char_value l = Some k → Forall value_ok k) as Hok
    by (intros l k E; eapply (values_Forall INPUT_CHARSET); [apply char_value_ok|exact E]).
  destruct (expand_window vp vm vq (length m)) as (p1 & p2 & q1 & q2 & -> & -> & H6 & Hx); [by apply Hlen|lia|].
  rewrite (Hx vm), (Hx wm), <-!app_assoc in H1 by ((by apply Hlen) || (rewrite <-Hl; by apply Hlen)).
  revert H1. apply Hok in Hp, Hq. rewrite !Forall_app in Hp, Hq. destruct Hp as [_ Hp2], Hq as [Hq1 _].
  assert (Forall value_ok (p2 ++ vm ++ q1) ∧ Forall value_ok (p2 ++ wm ++ q1)) as [Ho1 Ho2]
    by (split; (apply Forall_app_2; [exact Hp2|apply Forall_app_2; [|exact Hq1]]);
      [exact (Hok _ _ Hm)|exact (Hok _ _ Hm')]).
  assert (length (p2 ++ vm ++ q1) = length (p2 ++ wm ++ q1)) as Hll
    by (rewrite !length_app, (Hlen _ _ Hm), (Hlen _ _ Hm'), Hl; done).
  apply polymod_window; [by apply expand_vals_ok..|by apply expand_vals_length_eq| |].
  - pose proof (expand_vals_length (p2 ++ vm ++ q1)). lia.
  - intros Heq. apply expand_vals_inj in Heq; [|done..]. apply app_inv_head, app_inv_tail in Heq.
    subst wm. apply Hne. by eapply (values_inj INPUT_CHARSET).
Qed.

Lemma checksum_detects_burst_witness :
  verify_checksum (str "raw(deadbeef)#89f8spxm") = Ok tt ∧
  verify_checksum (str "raw(dfabbeef)#89f8spxm") ≠ Ok tt.
Proof.
  split; [vm_compute; reflexivity|].
  apply (checksum_detects_burst (str "raw(d") (str "ead") (str "fab") (str "beef)") (str "89f8spxm"));
    [reflexivity|reflexivity|vm_compute; lia|discriminate|vm_compute; reflexivity].
Defined.

(** A payload has at most one accepted checksum, so every corruption
    confined to the eight checksum characters is rejected. *)
Lemma checksum_unique p cs cs' :
  length cs = 8%nat → length cs' = 8%nat →
  verify_checksum (p ++ [35] ++ cs) = Ok tt → verify_checksum (p ++ [35] ++ cs') = Ok tt → cs = cs'.
Proof.
  intros Hc Hc' H H'. apply verify_checksum_parts in H as (vs & ks & Hv & Hk & H1); [|done].
  apply verify_checksum_parts in H' as (ws & ks' & Hw & Hk' & H1'); [|done].
  rewrite Hv in Hw. injection Hw as <-. rewrite <-H1' in H1.
  assert (ks = ks') as <-; [|by eapply (values_inj CHECKSUM_CHARSET)].
  apply length_mapM in Hk as Hlk. apply length_mapM in Hk' as Hlk'.
  destruct (decide (ks = ks')) as [|Hne]; [done|exfalso]. revert H1.
  rewrite <-(app_nil_r ks), <-(app_nil_r ks'). apply polymod_window; try lia; [..|done];
    eapply (values_Forall CHECKSUM_CHARSET); (apply check_value_ok || eassumption).
Qed.

(** No string makes [verify_checksum] panic. *)
Lemma verify_checksum_no_panic s : verify_checksum s ≠ Panic.
Proof.
  unfold verify_checksum. intros H. if_inv H E1. bool_simp.
  apply bind_Panic in H as [H|(h & Hh & H)]; [read_panic H|]. if_inv H E2.
  apply bind_Panic in H as [H|(cs & Hcs & H)]; [read_panic H|].
  apply bind_Panic in H as [H|([] & Hf & H)].
  { apply for_each_no_panic in H; [done|]. intros c _ Hc. by apply ensure_Panic in Hc. }
  apply bind_Panic in H as [H|(p & Hp & H)]; [read_panic H|].
  apply bind_Panic in H as [H|(ss & Hs & H)]; [by apply expand_no_panic in H|].
  apply checks_in_charset in Hf as [ks Hks]. rewrite (push_checks _ _ _ Hks) in H.
  cbn [mbind res_bind] in H. by if_inv H E3.
Qed.
