(* ===== verification/Parse.v ===== *)
(** [trinity-verify/src/parse.rs] and [types.rs]: the descriptor parser.

    The grammar-only parser for [wsh(sortedmulti(2,k,k,k))#checksum], function
    by function. A [Cursor] is the unread suffix of its string; an [advance]
    past the end is a panic. The checksum test comes first and accepts only
    one-byte characters, so positions in bytes and in characters agree.

    [parse_spec] characterises the accepted language and the parsed value
    completely; [origin_path_accepted] lists the accepted origins. *)
From S2P Require Import Prelude Types Bitcoin Checksum.

(** ** Parsed descriptors, [types.rs] *)

Inductive DerivationBranch := External | Internal.
#[global] Instance DerivationBranch_eq_dec : EqDecision DerivationBranch.
Proof. solve_decision. Defined.

Record KeyExpr := mkKeyExpr {
  fingerprint : Fingerprint;
  origin_path : bytes;
  xpub : bytes;
  derivation : DerivationBranch
}.
#[global] Instance KeyExpr_eq_dec : EqDecision KeyExpr.
Proof. solve_decision. Defined.

(** [keys] is the array of three key expressions. *)
Record ParsedDescriptor := mkDescriptor {
  desc_k : Z;
  key0 : KeyExpr;
  key1 : KeyExpr;
  key2 : KeyExpr
}.
Definition desc_keys (d : ParsedDescriptor) : list KeyExpr := [key0 d; key1 d; key2 d].

Definition uniform_derivation (d : ParsedDescriptor) : option DerivationBranch :=
  let b0 := derivation (key0 d) in
  if bool_decide (derivation (key1 d) = b0) && bool_decide (derivation (key2 d) = b0)
  then Some b0 else None.

(** ** String primitives *)

Definition starts_with (lit s : bytes) : bool :=
  match strip_prefix lit s with Some _ => true | None => false end.
Definition ends_with (lit s : bytes) : bool :=
  bool_decide (length lit ≤ length s)%nat && bool_decide (drop (length s - length lit) s = lit).
(** [s.find(p)] for a character predicate, and [s.rfind(c)]. *)
Fixpoint find_pos (p : Z → bool) (s : bytes) : option nat :=
  match s with
  | [] => None
  | c :: s => if p c then Some O else S <$> find_pos p s
  end.
Fixpoint rfind (c : Z) (s : bytes) : option nat :=
  match s with
  | [] => None
  | x :: s =>
      match rfind c s with
      | Some i => Some (S i)
      | None => if x =? c then Some O else None
      end
  end.

(** ** Cursor *)

Definition Cursor := bytes.

Definition advance (n : nat) (p : Cursor) : res ParseError Cursor :=
  if (n <=? length p)%nat then Ok (drop n p) else Panic.

Definition expect_char (c : Z) (p : Cursor) : res ParseError Cursor :=
  match p with
  | x :: p' => if x =? c then Ok p' else Err TrailingGarbage
  | [] => Err UnexpectedEof
  end.

Definition take_until_char (c : Z) (p : Cursor) : res ParseError (bytes * Cursor) :=
  match find_pos (λ x, x =? c) p with
  | Some i => Ok (take i p, drop i p)
  | None => Err UnexpectedEof
  end.

Definition take_while (pred : Z → bool) (p : Cursor) : res ParseError (bytes * Cursor) :=
  let e := default (length p) (find_pos (λ x, negb (pred x)) p) in
  Ok (take e p, drop e p).

(** ** Origin paths *)

Definition multipath_char (b : Z) : bool := (b =? 60) || (b =? 59) || (b =? 42).

(** One segment of the origin path: its index. *)
Definition origin_segment (path part : bytes) : res ParseError Z :=
  let bad := MalformedOriginPath path in
  if bool_decide (part = []) then Err bad else
  num_str ← match last part with
            | Some c => if (c =? 39) || (c =? 104) then slice 0 (length part - 1) part else Err bad
            | None => Err bad
            end;
  if bool_decide (num_str = []) then Err bad else
  _ ← for_each (λ c, ensure (is_ascii_digit c) bad) num_str;
  first ← index 0 num_str;
  if (1 <? length num_str)%nat && (first =? 48) then Err bad else
  n ← ok_or (parse_uint u64_max num_str) bad;
  if HARDENED_IDX <=? n then Err bad else Ok n.

Definition validate_origin_path (path : bytes) : res ParseError unit :=
  _ ← for_each (λ b, ensure (negb (multipath_char b)) MultipathForbidden) path;
  let trimmed := default path (strip_prefix (str "m/") path) in
  let segments := split_on 47 trimmed in
  if negb (length segments =? 4)%nat then
    (if (length segments <? 4)%nat then Err (MalformedOriginPath path)
     else Err (InvalidOriginPath path))
  else
  indices ← fold_res (λ acc part, n ← origin_segment path part; Ok (acc ++ [n])) [] segments;
  i0 ← index 0 indices;
  i1 ← index 1 indices;
  i2 ← index 2 indices;
  i3 ← index 3 indices;
  if (i0 =? 48) && (i2 =? 0) && (i3 =? 2) && (i1 <=? 1) then Ok tt
  else Err (InvalidOriginPath path).

(** ** Key expressions *)

Definition split_xpub_and_derivation (rest : bytes)
    : res ParseError (bytes * DerivationBranch * nat) :=
  let e := default (length rest) (find_pos (λ c, (c =? 44) || (c =? 41)) rest) in
  let token := take e rest in
  if (length token <? 4)%nat then Err MalformedKeyExpression else
  branch ← (if ends_with (str "/0/*") token then Ok External
            else if ends_with (str "/1/*") token then Ok Internal
            else
              _ ← for_each (λ b, ensure (negb ((b =? 60) || (b =? 59))) MultipathForbidden) token;
              Err MalformedDerivation);
  xpub ← slice 0 (length token - 4) token;
  if bool_decide (xpub = []) then Err MalformedXpub else
  Ok (xpub, branch, length token).

Section Parser.
Context `{codec : Codec}.

Definition parse_keyexpr (p : Cursor) : res ParseError (KeyExpr * Cursor) :=
  p ← map_err (λ _, MalformedKeyExpression) (expect_char 91 p);
  '(fp_str, p) ← take_while (λ c, negb (c =? 47) && negb (c =? 93)) p;
  if negb (length fp_str =? 8)%nat then Err MalformedFingerprint else
  fp ← map_err (λ _, MalformedFingerprint) (from_hex fp_str);
  if negb (starts_with (str "/") p) then Err MalformedKeyExpression else
  p ← advance 1 p;
  '(origin, p) ← take_while (λ c, negb (c =? 93) && negb (c =? 44) && negb (c =? 41)) p;
  if negb (starts_with (str "]") p) then Err MalformedKeyExpression else
  if bool_decide (origin = []) then Err (MalformedOriginPath (str "empty")) else
  _ ← validate_origin_path origin;
  p ← advance 1 p;
  '(x, branch, consumed) ← split_xpub_and_derivation p;
  p ← advance consumed p;
  if starts_with (str "xprv") x || starts_with (str "tprv") x then Err PrivateKeyForbidden else
  if negb (starts_with (str "xpub") x || starts_with (str "tpub") x) then Err MalformedXpub else
  _ ← for_each (λ b, ensure (negb (multipath_char b)) MultipathForbidden) x;
  match xpub_from_str x with
  | None => Err MalformedXpub
  | Some _ => Ok (mkKeyExpr fp origin x branch, p)
  end.

(** The loop that counts surplus key expressions. *)
Fixpoint count_extra (fuel : nat) (p : Cursor) (extra : nat) : res ParseError nat :=
  match fuel with
  | O => Ok extra
  | S fuel =>
      if starts_with (str ",") p then
        p ← advance 1 p;
        '(_, p) ← take_while (λ c, negb (c =? 44) && negb (c =? 41)) p;
        count_extra fuel p (S extra)
      else Ok extra
  end.

(** The grammar part of [parse], after the checksum has been split off. *)
Definition parse_body (p : Cursor) : res ParseError ParsedDescriptor :=
  if negb (starts_with (str "wsh(") p) then Err WrongTopLevel else
  p ← advance 4 p;
  if negb (starts_with (str "sortedmulti(") p) then Err ExpectedSortedMulti else
  p ← advance 12 p;
  '(k_token, p) ← take_until_char 44 p;
  if negb (bool_decide (k_token = str "2")) then Err (WrongThreshold k_token) else
  p ← expect_char 44 p;
  '(k0, p) ← parse_keyexpr p;
  p ← expect_char 44 p;
  '(k1, p) ← parse_keyexpr p;
  p ← expect_char 44 p;
  '(k2, p) ← parse_keyexpr p;
  if starts_with (str ",") p then
    extra ← count_extra (length p) p 0;
    Err (WrongKeyCount (3 + extra))
  else
  p ← expect_char 41 p;
  p ← expect_char 41 p;
  if negb (bool_decide (p = [])) then Err TrailingGarbage else
  Ok (mkDescriptor 2 k0 k1 k2).

Definition parse (descriptor : bytes) : res ParseError ParsedDescriptor :=
  _ ← verify_checksum descriptor;
  hash_pos ← expect (rfind 35 descriptor);
  body ← slice 0 hash_pos descriptor;
  parse_body body.

Definition parse_trinity_descriptor := parse.

End Parser.

(** ** What the string primitives do *)

Lemma strip_prefix_spec lit s r : strip_prefix lit s = Some r ↔ s = lit ++ r.
Proof.
  revert s. induction lit as [|x lit IH]; intros s; cbn; [naive_solver|].
  destruct s as [|y s]; [naive_solver|]. destruct (x =? y) eqn:E; bool_simp; [|naive_solver].
  subst. rewrite IH. naive_solver.
Qed.
Lemma starts_with_spec lit s : starts_with lit s = true ↔ ∃ r, s = lit ++ r.
Proof.
  unfold starts_with. setoid_rewrite <-strip_prefix_spec. destruct (strip_prefix lit s); naive_solver.
Qed.
Lemma starts_with_app lit r : starts_with lit (lit ++ r) = true.
Proof. apply starts_with_spec. eauto. Qed.
Lemma ends_with_spec lit s : ends_with lit s = true ↔ ∃ r, s = r ++ lit.
Proof.
  unfold ends_with. rewrite andb_true_iff, !bool_decide_eq_true. split.
  - intros [Hl Hd]. exists (take (length s - length lit) s). rewrite <-Hd at 2. by rewrite take_drop.
  - intros [r ->]. rewrite length_app. split; [lia|].
    replace (_ + _ - _)%nat with (length r) by lia. by rewrite drop_app_length.
Qed.

(** The maximal prefix of characters that satisfy [pred]. *)
Definition head_stops (pred : Z → bool) (s : bytes) : Prop :=
  match s with [] => True | c :: _ => pred c = false end.

Lemma find_pos_split pred s a b :
  let e := default (length s) (find_pos (λ x, negb (pred x)) s) in
  (take e s = a ∧ drop e s = b) ↔
  s = a ++ b ∧ Forall (λ c, pred c = true) a ∧ head_stops pred b.
Proof.
  cbn zeta. revert a b. induction s as [|c s IH]; intros a b.
  { cbn. split; [intros [<- <-]; cbn; auto|]. intros (H & _). by destruct a, b. }
  cbn [find_pos]. destruct (pred c) eqn:E; cbn [negb default].
  - assert (default (length (c :: s)) (S <$> find_pos (λ x, negb (pred x)) s) =
      S (default (length s) (find_pos (λ x, negb (pred x)) s))) as -> by (by destruct (find_pos _ s)).
    cbn [take drop firstn skipn]. split.
    + intros [<- <-]. destruct (proj1 (IH _ _) (conj eq_refl eq_refl)) as (H1 & H2 & H3).
      cbn. rewrite <-H1. auto.
    + intros (H & Ha & Hb). destruct a as [|x a]; cbn in H.
      * subst b. cbn in Hb. congruence.
      * injection H as <- H. apply Forall_cons in Ha as [_ Ha]. destruct (proj2 (IH a b)) as [-> ->]; auto.
  - cbn. split; [intros [<- <-]; cbn; auto|]. intros (H & Ha & Hb).
    destruct a as [|x a]; [cbn in H; auto|]. injection H as <- H. apply Forall_cons in Ha as [? _]. congruence.
Qed.

Lemma take_while_spec pred p a b :
  take_while pred p = Ok (a, b) ↔ p = a ++ b ∧ Forall (λ c, pred c = true) a ∧ head_stops pred b.
Proof.
  rewrite <-find_pos_split. unfold take_while. cbn zeta. split; [by intros [= <- <-]|by intros [-> ->]].
Qed.
Lemma take_until_char_spec c p a b :
  take_until_char c p = Ok (a, c :: b) ↔ p = a ++ c :: b ∧ c ∉ a.
Proof.
  unfold take_until_char. split.
  - pose proof (find_pos_split (λ x, negb (x =? c)) p) as Hs. cbn beta zeta in Hs.
    destruct (find_pos (λ x, x =? c) p) as [i|] eqn:E; [|done]. intros [= Ha Hb].
    assert (find_pos (λ x, negb (negb (x =? c))) p = Some i) as E'.
    { rewrite <-E. clear. induction p as [|x p IH]; cbn; [done|]. by rewrite negb_involutive, IH. }
    rewrite E' in Hs. destruct (proj1 (Hs _ _) (conj Ha Hb)) as (Hp & Hf & _). split; [done|].
    rewrite Forall_forall in Hf. intros Hc%Hf. by rewrite Z.eqb_refl in Hc.
  - intros [-> Hc]. assert (find_pos (λ x, x =? c) (a ++ c :: b) = Some (length a)) as ->.
    { induction a as [|x a IH]; cbn; [by rewrite Z.eqb_refl|]. rewrite not_elem_of_cons in Hc.
      rewrite (proj2 (Z.eqb_neq x c)) by naive_solver. by rewrite IH by naive_solver. }
    by rewrite take_app_length, drop_app_length.
Qed.
Lemma take_until_char_Ok c p r : take_until_char c p = Ok r → ∃ b, r.2 = c :: b.
Proof.
  unfold take_until_char. destruct (find_pos (λ x, x =? c) p) as [i|] eqn:E; [|done].
  intros [= <-]. cbn. revert i E. induction p as [|x p IH]; intros i; cbn; [done|].
  destruct (x =? c) eqn:Ex; bool_simp; [intros [= <-]; subst; by eexists|].
  intros (j & Hj & ->)%fmap_Some. cbn. by apply IH.
Qed.
Lemma expect_char_spec c p q : expect_char c p = Ok q ↔ p = c :: q.
Proof. destruct p as [|x p]; cbn; [done|]. destruct (x =? c) eqn:E; bool_simp; naive_solver. Qed.
Lemma advance_spec n p q : advance n p = Ok q ↔ ∃ a, p = a ++ q ∧ length a = n.
Proof.
  unfold advance. destruct (n <=? length p)%nat eqn:E; bool_simp.
  - split.
    + intros [= <-]. exists (take n p). rewrite take_drop, length_take. split; [done|lia].
    + intros (a & -> & <-). by rewrite drop_app_length.
  - split; [done|]. intros (a & -> & <-). rewrite length_app in E. lia.
Qed.

Lemma rfind_last c p q : c ∉ q → rfind c (p ++ c :: q) = Some (length p).
Proof.
  intros Hq. assert (rfind c q = None) as Hn.
  { induction q as [|x q IH]; cbn; [done|]. rewrite not_elem_of_cons in Hq.
    rewrite IH by naive_solver. by rewrite (proj2 (Z.eqb_neq x c)) by naive_solver. }
  induction p as [|x p IH]; cbn; [by rewrite Hn, Z.eqb_refl|]. by rewrite IH.
Qed.

(** ** The accepted origins *)

(** The strings [48'/c'/0'/2'] with [c] in 0, 1, either hardened marker in each
    segment, and an optional [m/] in front. *)
Definition origin_paths : list bytes :=
  pre ← [[]; str "m/"]; c ← [str "0"; str "1"];
  x0 ← [str "'"; str "h"]; x1 ← [str "'"; str "h"]; x2 ← [str "'"; str "h"]; x3 ← [str "'"; str "h"];
  [pre ++ str "48" ++ x0 ++ str "/" ++ c ++ x1 ++ str "/0" ++ x2 ++ str "/2" ++ x3].

Lemma parse_digits_lower limit acc s n :
  0 ≤ acc → parse_digits limit acc s = Some n → acc * 10 ^ Z.of_nat (length s) ≤ n.
Proof.
  revert acc. induction s as [|c s IH]; intros acc Hacc; cbn [parse_digits length].
  - intros [= <-]. lia.
  - destruct (_ && _) eqn:E; [|done]. unfold is_ascii_digit in E. bool_simp. intros Hn%IH; [|lia].
    rewrite Nat2Z.inj_succ, Z.pow_succ_r by lia.
    pose proof (Z.pow_pos_nonneg 10 (Z.of_nat (length s))). nia.
Qed.

Lemma parse_uint_nonneg limit s n : parse_uint limit s = Some n → 0 ≤ n.
Proof.
  unfold parse_uint. destruct s as [|c s]; [done|]. repeat case_match; try done;
    intros ?%parse_digits_lower; lia.
Qed.

(** A decimal numeral without leading zeros is determined by a value below 100. *)
Definition numeral (n : Z) : bytes := if n <? 10 then [48 + n] else [48 + n / 10; 48 + n mod 10].
Lemma numeral_unique limit num n :
  num ≠ [] → Forall (λ c, is_ascii_digit c = true) num → num !! 0%nat ≠ Some 48 ∨ (length num ≤ 1)%nat →
  parse_uint limit num = Some n → n < 100 → num = numeral n.
Proof.
  intros Hne Hd Hz Hp Hn. destruct num as [|c1 num]; [done|]. apply Forall_cons in Hd as [H1 Hd].
  unfold is_ascii_digit in H1. bool_simp. unfold parse_uint in Hp.
  rewrite (proj2 (Z.eqb_neq c1 43)) in Hp by lia. cbn [parse_digits] in Hp.
  destruct (_ && _); [|done]. unfold numeral. destruct num as [|c2 num].
  { cbn in Hp. injection Hp as <-. rewrite (proj2 (Z.ltb_lt _ _)) by lia. f_equal. lia. }
  assert (c1 ≠ 48) as H48 by (cbn in Hz; destruct Hz; [congruence|lia]).
  apply Forall_cons in Hd as [H2 Hd]. unfold is_ascii_digit in H2. bool_simp.
  cbn [parse_digits] in Hp. destruct (_ && _); [|done]. destruct num as [|c3 num].
  { cbn in Hp. injection Hp as <-. rewrite (proj2 (Z.ltb_ge _ _)) by lia.
    match goal with |- _ = [48 + ?n / 10; _] =>
      pose proof (Z.div_mod n 10); pose proof (Z.mod_pos_bound n 10) end.
    f_equal; [lia|f_equal; lia]. }
  apply Forall_cons in Hd as [H3 _]. unfold is_ascii_digit in H3. bool_simp.
  apply parse_digits_lower in Hp; [|lia]. cbn [length] in Hp.
  rewrite Nat2Z.inj_succ, Z.pow_succ_r in Hp by lia.
  pose proof (Z.pow_pos_nonneg 10 (Z.of_nat (length num))). nia.
Qed.

Lemma origin_segment_Ok path part n :
  origin_segment path part = Ok n → n < 100 →
  0 ≤ n ∧ part ∈ [numeral n ++ str "'"; numeral n ++ str "h"].
Proof.
  unfold origin_segment. intros H Hn. if_inv H E0. apply bind_Ok in H as (num & Hnum & H).
  destruct (last part) as [x|] eqn:El; [|done]. if_inv Hnum Ex. apply last_Some in El as [l ->].
  rewrite length_app in Hnum. cbn [length] in Hnum. rewrite Nat.add_sub, slice_here in Hnum by done.
  injection Hnum as <-. if_inv H E1. apply bind_Ok in H as ([] & Hd & H).
  apply bind_Ok in H as (c0 & Hc0 & H). apply expect_Ok in Hc0. if_inv H E2.
  apply bind_Ok in H as (m & Hm & H). apply ok_or_Ok in Hm. if_inv H E3. injection H as <-. bool_simp.
  rewrite for_each_Ok in Hd. assert (l = numeral m) as <-.
  { eapply numeral_unique; [done| | |done..].
    - apply Forall_forall. intros c Hc%Hd. by apply ensure_Ok in Hc.
    - rewrite Hc0. apply andb_false_iff in E2 as []; bool_simp; [right; lia|left; congruence]. }
  split; [by eapply parse_uint_nonneg|].
  apply orb_true_iff in Ex as [->%Z.eqb_eq| ->%Z.eqb_eq]; repeat constructor.
Qed.

Lemma split_on_ne c s : split_on c s ≠ [].
Proof. destruct s as [|x s]; cbn; [done|]. by destruct (x =? c), (split_on c s). Qed.
Lemma split_on_cons c s p ps :
  split_on c s = p :: ps → (ps = [] ∧ s = p) ∨ ∃ r, s = p ++ c :: r ∧ split_on c r = ps.
Proof.
  revert p ps. induction s as [|x s IH]; intros p ps; cbn.
  - intros [= <- <-]. by left.
  - destruct (x =? c) eqn:E; bool_simp.
    + intros [= <- <-]. subst. right. by exists s.
    + destruct (split_on c s) as [|q qs] eqn:Es; intros [= <- <-].
      * by apply split_on_ne in Es.
      * destruct (IH q qs eq_refl) as [[-> ->]|(r & -> & <-)]; [by left|right]. by exists r.
Qed.

(** [validate_origin_path] accepts exactly the 64 BIP-48 origins
    [[m/]48x/cx/0x/2x] with [c] in 0, 1 and each [x] a quote or an [h]; every
    other string, of any length, is an error. *)
Lemma origin_path_accepted path :
  validate_origin_path path = Ok tt ↔ path ∈ origin_paths.
Proof.
  split.
  - unfold validate_origin_path. intros ([] & _ & H)%bind_Ok. cbn zeta in H.
    revert H. destruct (split_on 47 _) as [|s0 [|s1 [|s2 [|s3 [|]]]]] eqn:Es; intros H; try done.
    cbn [length Nat.eqb negb] in H.
    apply bind_Ok in H as (idx & Hidx & H). cbn [fold_res] in Hidx.
    apply bind_Ok in Hidx as (? & (n0 & H0 & [= <-])%bind_Ok & Hidx).
    apply bind_Ok in Hidx as (? & (n1 & H1 & [= <-])%bind_Ok & Hidx).
    apply bind_Ok in Hidx as (? & (n2 & H2 & [= <-])%bind_Ok & Hidx).
    apply bind_Ok in Hidx as (? & (n3 & H3 & [= <-])%bind_Ok & [= <-]).
    cbn in H. if_inv H Ei. bool_simp. subst. apply origin_segment_Ok in H0, H1, H2, H3; [|lia..].
    assert (path = default path (strip_prefix (str "m/") path) ∨
            path = str "m/" ++ default path (strip_prefix (str "m/") path)) as Hpath.
    { destruct (strip_prefix _ _) as [r|] eqn:Er; [right|by left]. by apply strip_prefix_spec in Er. }
    revert Hpath Es. generalize (default path (strip_prefix (str "m/") path)) as t. intros t Hpath Es.
    apply split_on_cons in Es as [[? _]|(r & -> & Es)]; [done|].
    apply split_on_cons in Es as [[? _]|(r1 & -> & Es)]; [done|].
    apply split_on_cons in Es as [[? _]|(r2 & -> & Es)]; [done|].
    apply split_on_cons in Es as [[_ ->]|(r3 & _ & Es)]; [|by apply split_on_ne in Es].
    destruct H0 as [_ H0], H1 as [? H1], H2 as [_ H2], H3 as [_ H3].
    assert (n1 = 0 ∨ n1 = 1) as [-> | ->] by lia.
    all: rewrite !elem_of_cons, !elem_of_nil in H0, H1, H2, H3; destruct_or!; try done; subst.
    all: apply (bool_decide_eq_true_1 _); vm_compute; reflexivity.
  - assert (forallb (λ o, is_ok (validate_origin_path o)) origin_paths = true) as Hb by (vm_compute; reflexivity).
    rewrite forallb_forall in Hb. intros Ho%list_elem_of_In%Hb.
    by destruct (validate_origin_path path) as [[]| |].
Qed.

(** ** The accepted language *)

Definition render_branch (b : DerivationBranch) : bytes :=
  match b with External => str "/0/*" | Internal => str "/1/*" end.
(** A key expression as written; [fps] is the fingerprint in hex of either case. *)
Definition render_keyexpr (fps : bytes) (k : KeyExpr) : bytes :=
  str "[" ++ fps ++ str "/" ++ origin_path k ++ str "]" ++ xpub k ++ render_branch (derivation k).

Definition key_delim (c : Z) : bool := (c =? 44) || (c =? 41).

Section Language.
Context `{codec : Codec}.

Record keyexpr_ok (fps : bytes) (k : KeyExpr) : Prop := {
  ke_fps : from_hex fps = Ok (fingerprint k);
  ke_origin : origin_path k ∈ origin_paths;
  ke_prefix : starts_with (str "xpub") (xpub k) = true ∨ starts_with (str "tpub") (xpub k) = true;
  ke_chars : Forall (λ c, key_delim c = false ∧ multipath_char c = false) (xpub k);
  ke_xpub : is_Some (xpub_from_str (xpub k))
}.

Lemma hex_pairs_chars s r : hex_pairs s = Ok r → Forall (λ c, is_Some (hex_nibble c)) s.
Proof.
  revert r. cut (∀ n s r, (length s ≤ n)%nat → hex_pairs s = Ok r → Forall (λ c, is_Some (hex_nibble c)) s); [eauto|].
  clear s. induction n as [|n IH]; intros [|c1 [|c2 s]] r Hl H; cbn in Hl; try lia; try done; [constructor..|].
  cbn [hex_pairs] in H. apply bind_Ok in H as (hi & H1%ok_or_Ok & H). apply bind_Ok in H as (lo & H2%ok_or_Ok & H).
  apply bind_Ok in H as (rest & Hr & _). repeat constructor; [by eexists..|]. eapply IH; [|done]. lia.
Qed.
Lemma from_hex_chars s fp :
  from_hex s = Ok fp → length s = 8%nat ∧ Forall (λ c, negb (c =? 47) && negb (c =? 93) = true) s.
Proof.
  unfold from_hex. intros H. if_inv H E. bool_simp. split; [done|]. apply hex_pairs_chars in H.
  eapply Forall_impl; [done|]. cbn. intros c [v Hv]. unfold hex_nibble in Hv.
  destruct (c =? 47) eqn:E1; [apply Z.eqb_eq in E1 as ->; done|].
  destruct (c =? 93) eqn:E2; [apply Z.eqb_eq in E2 as ->; done|]. done.
Qed.
Lemma origin_paths_chars o :
  o ∈ origin_paths → o ≠ [] ∧ Forall (λ c, negb (c =? 93) && negb (c =? 44) && negb (c =? 41) = true) o.
Proof.
  revert o. apply Forall_forall. vm_compute.
  repeat (constructor; [split; [discriminate|repeat constructor]|]). constructor.
Qed.

Lemma find_key_delim s :
  find_pos (λ c, negb (negb (key_delim c))) s = find_pos (λ c, (c =? 44) || (c =? 41)) s.
Proof. induction s as [|c s IH]; cbn; [done|]. by rewrite negb_involutive, IH. Qed.
Lemma split_xpub_spec rest x b n q :
  Forall (λ c, key_delim c = false) x → x ≠ [] → head_stops (λ c, negb (key_delim c)) q →
  rest = x ++ render_branch b ++ q → n = length (x ++ render_branch b) →
  split_xpub_and_derivation rest = Ok (x, b, n).
Proof.
  intros Hx Hne Hq -> ->. unfold split_xpub_and_derivation.
  pose proof (find_pos_split (λ c, negb (key_delim c)) (x ++ render_branch b ++ q) (x ++ render_branch b) q) as Hs.
  cbn beta zeta in Hs.
  rewrite find_key_delim in Hs. destruct Hs as [_ Hs]. destruct Hs as [-> _].
  { rewrite app_assoc. split_and!; [done| |done]. apply Forall_app_2; [|by destruct b; repeat constructor].
    eapply Forall_impl; [exact Hx|]. by intros c ->. }
  rewrite length_app. assert (length (render_branch b) = 4%nat) as Hb by by destruct b.
  rewrite Hb, (proj2 (Nat.ltb_ge _ _)) by lia. rewrite Nat.add_sub, slice_here by done.
  destruct b; cbn [render_branch].
  - rewrite (proj2 (ends_with_spec (str "/0/*") _)) by eauto.
    cbn [mbind res_bind]. by rewrite bool_decide_false.
  - rewrite (proj2 (ends_with_spec (str "/1/*") _)) by eauto.
    destruct (ends_with (str "/0/*") _) eqn:E; [|cbn [mbind res_bind]; by rewrite bool_decide_false].
    apply ends_with_spec in E as [r Hr]. apply app_inj_2 in Hr as [_ ?]; [discriminate|done].
Qed.
Lemma split_xpub_Ok rest x b n :
  split_xpub_and_derivation rest = Ok (x, b, n) →
  ∃ q, rest = (x ++ render_branch b) ++ q ∧ x ≠ [] ∧ n = length (x ++ render_branch b) ∧
    Forall (λ c, key_delim c = false) x ∧ head_stops (λ c, negb (key_delim c)) q.
Proof.
  unfold split_xpub_and_derivation. set (e := default _ _). cbn zeta. intros H.
  pose proof (find_pos_split (λ c, negb (key_delim c)) rest (take e rest) (drop e rest)) as Hs. cbn beta zeta in Hs.
  rewrite find_key_delim in Hs. fold e in Hs. destruct (proj1 Hs (conj eq_refl eq_refl)) as (Hr & Ht & Hq). clear Hs.
  revert H Hr Ht. generalize (take e rest) as token. intros token H Hr Ht. if_inv H E1. bool_simp.
  apply bind_Ok in H as (b' & Hb & H). apply bind_Ok in H as (x' & Hx & H). if_inv H E2. bool_simp.
  injection H as <- <- <-.
  assert (∃ y, token = y ++ render_branch b') as [y ->].
  { destruct (ends_with (str "/0/*") token) eqn:E3; [injection Hb as <-; by apply ends_with_spec in E3|].
    destruct (ends_with (str "/1/*") token) eqn:E4; [injection Hb as <-; by apply ends_with_spec in E4|].
    by apply bind_Ok in Hb as (? & _ & ?). }
  assert (length (render_branch b') = 4%nat) as H4 by by destruct b'.
  rewrite length_app, H4, Nat.add_sub, slice_here in Hx by done. injection Hx as <-.
  exists (drop e rest). split_and!; try done. apply Forall_app in Ht as [Ht _].
  eapply Forall_impl; [exact Ht|]. intros c. apply negb_true_iff.
Qed.

Lemma xpub_not_prv x :
  starts_with (str "xpub") x = true ∨ starts_with (str "tpub") x = true →
  starts_with (str "xprv") x || starts_with (str "tprv") x = false ∧
  starts_with (str "xpub") x || starts_with (str "tpub") x = true.
Proof. intros [[r ->]%starts_with_spec|[r ->]%starts_with_spec]; vm_compute; done. Qed.

Lemma no_multipath x :
  for_each (E:=ParseError) (λ b, ensure (negb (multipath_char b)) MultipathForbidden) x = Ok tt ↔
  Forall (λ c, multipath_char c = false) x.
Proof. rewrite for_each_Ok, Forall_forall. setoid_rewrite ensure_Ok. by setoid_rewrite negb_true_iff. Qed.

(** [parse_keyexpr] reads exactly one rendered key expression. *)
Lemma parse_keyexpr_Ok p k q :
  parse_keyexpr p = Ok (k, q) →
  ∃ fps, p = render_keyexpr fps k ++ q ∧ keyexpr_ok fps k ∧ head_stops (λ c, negb (key_delim c)) q.
Proof.
  unfold parse_keyexpr. intros H. apply bind_Ok in H as (p1 & H1 & H).
  apply map_err_Ok, expect_char_spec in H1 as ->. apply bind_Ok in H as ([fps p2] & H2 & H).
  apply take_while_spec in H2 as (-> & _ & _). if_inv H E1. apply bind_Ok in H as (fp & Hfp & H).
  apply map_err_Ok in Hfp. if_inv H E2. bool_simp. apply starts_with_spec in E2 as [p3 ->].
  apply bind_Ok in H as (p4 & Hp4 & H). change (Ok (E:=ParseError) p3 = Ok p4) in Hp4. injection Hp4 as <-. apply bind_Ok in H as ([o p5] & H5 & H).
  apply take_while_spec in H5 as (-> & _ & _). if_inv H E3. bool_simp. apply starts_with_spec in E3 as [p6 ->].
  if_inv H E4. apply bind_Ok in H as ([] & Ho & H). apply origin_path_accepted in Ho.
  apply bind_Ok in H as (p7 & Hp7 & H). change (Ok (E:=ParseError) p6 = Ok p7) in Hp7. injection Hp7 as <-.
  apply bind_Ok in H as ([[x b] n] & Hx & H). apply split_xpub_Ok in Hx as (r & -> & Hne & -> & Hdel & Hr).
  apply bind_Ok in H as (p8 & Hp8 & H). apply advance_spec in Hp8 as (a & Ha & Hla).
  apply app_inj_1 in Ha as [<- <-]; [|done]. if_inv H E5. if_inv H E6.
  apply bind_Ok in H as ([] & Hm & H). apply no_multipath in Hm.
  destruct (xpub_from_str x) as [xk|] eqn:Exk; [|done]. injection H as <- <-.
  exists fps. split_and!; [|split; cbn; try done|done].
  + unfold render_keyexpr. cbn [origin_path xpub derivation]. by rewrite <-!app_assoc.
  + apply negb_false_iff, orb_true_iff in E6. exact E6.
  + rewrite Forall_forall in Hdel, Hm |- *. eauto.
Qed.
Lemma parse_keyexpr_render fps k q :
  keyexpr_ok fps k → head_stops (λ c, negb (key_delim c)) q →
  parse_keyexpr (render_keyexpr fps k ++ q) = Ok (k, q).
Proof.
  intros [Hf Ho Hp Hc Hx] Hq. unfold parse_keyexpr, render_keyexpr.
  destruct (from_hex_chars _ _ Hf) as [H8 Hfc]. destruct (origin_paths_chars _ Ho) as [Hone Hoc].
  rewrite <-!app_assoc. rewrite (proj2 (expect_char_spec 91 _ _)) by reflexivity. cbn [map_err mbind res_bind].
  rewrite (proj2 (take_while_spec _ _ fps _)) by (split_and!; [reflexivity|done|done]).
  cbn [mbind res_bind]. rewrite H8. cbn [Nat.eqb negb]. rewrite Hf. cbn [map_err mbind res_bind].
  rewrite starts_with_app. cbn [negb]. rewrite (proj2 (advance_spec 1 _ _)) by (eexists; split; reflexivity).
  cbn [mbind res_bind]. rewrite (proj2 (take_while_spec _ _ (origin_path k) _)) by (split_and!; [reflexivity|done|done]).
  cbn [mbind res_bind]. rewrite starts_with_app. cbn [negb]. rewrite bool_decide_false by done.
  rewrite (proj2 (origin_path_accepted _)) by done. cbn [mbind res_bind].
  rewrite (proj2 (advance_spec 1 _ _)) by (eexists; split; reflexivity). cbn [mbind res_bind].
  destruct (xpub_not_prv _ Hp) as [Hn1 Hn2].
  rewrite (split_xpub_spec _ (xpub k) (derivation k) (length (xpub k ++ render_branch (derivation k))) q); try done.
  2: { eapply Forall_impl; [exact Hc|]. by intros c [? _]. }
  2: { intros E. by rewrite E in Hn2. }
  cbn [mbind res_bind]. rewrite (proj2 (advance_spec _ _ q)) by (eexists; split; [by rewrite app_assoc|done]).
  cbn [mbind res_bind]. rewrite Hn1, Hn2. cbn [negb]. rewrite (proj2 (no_multipath _)).
  2: { eapply Forall_impl; [exact Hc|]. by intros c [_ ?]. }
  cbn [mbind res_bind]. destruct Hx as [xk ->]. by destruct k.
Qed.

(** The body of a descriptor with its three key expressions as written. *)
Definition render_body (f0 f1 f2 : bytes) (d : ParsedDescriptor) : bytes :=
  str "wsh(" ++ str "sortedmulti(" ++ str "2" ++ str "," ++ render_keyexpr f0 (key0 d) ++ str "," ++
  render_keyexpr f1 (key1 d) ++ str "," ++ render_keyexpr f2 (key2 d) ++ str ")" ++ str ")".

Definition desc_ok (f0 f1 f2 : bytes) (d : ParsedDescriptor) : Prop :=
  desc_k d = 2 ∧ keyexpr_ok f0 (key0 d) ∧ keyexpr_ok f1 (key1 d) ∧ keyexpr_ok f2 (key2 d).

Lemma parse_body_Ok p d :
  parse_body p = Ok d → ∃ f0 f1 f2, p = render_body f0 f1 f2 d ∧ desc_ok f0 f1 f2 d.
Proof.
  unfold parse_body. intros H. if_inv H E1. bool_simp. apply starts_with_spec in E1 as [p1 ->].
  apply bind_Ok in H as (p2 & H2 & H). apply advance_spec in H2 as (a & Ha & Hl).
  apply app_inj_1 in Ha as [<- <-]; [|done]. if_inv H E2. bool_simp. apply starts_with_spec in E2 as [p2 ->].
  apply bind_Ok in H as (p3 & H3 & H). apply advance_spec in H3 as (a & Ha & Hl2).
  apply app_inj_1 in Ha as [<- <-]; [|done]. apply bind_Ok in H as ([kt p3] & H3 & H).
  destruct (take_until_char_Ok _ _ _ H3) as [p4 Hp4]. cbn in Hp4. subst p3.
  apply take_until_char_spec in H3 as [-> _]. if_inv H E3. bool_simp. subst kt.
  apply bind_Ok in H as (p5 & H5 & H). apply expect_char_spec in H5 as [= <-].
  apply bind_Ok in H as ([k0 p6] & (f0 & -> & Hk0 & _)%parse_keyexpr_Ok & H).
  apply bind_Ok in H as (p7 & ->%expect_char_spec & H).
  apply bind_Ok in H as ([k1 p8] & (f1 & -> & Hk1 & _)%parse_keyexpr_Ok & H).
  apply bind_Ok in H as (p9 & ->%expect_char_spec & H).
  apply bind_Ok in H as ([k2 p10] & (f2 & -> & Hk2 & _)%parse_keyexpr_Ok & H).
  if_inv H E4. { by apply bind_Ok in H as (? & _ & ?). }
  apply bind_Ok in H as (p11 & ->%expect_char_spec & H). apply bind_Ok in H as (p12 & ->%expect_char_spec & H).
  if_inv H E5. bool_simp. subst. injection H as <-. exists f0, f1, f2. split; [|done].
  unfold render_body. cbn [key0 key1 key2]. done.
Qed.

Lemma parse_body_render f0 f1 f2 d : desc_ok f0 f1 f2 d → parse_body (render_body f0 f1 f2 d) = Ok d.
Proof.
  intros (Hk & H0 & H1 & H2). unfold parse_body, render_body.
  rewrite starts_with_app. cbn [negb]. rewrite (proj2 (advance_spec 4 _ _)) by (eexists; split; reflexivity).
  cbn [mbind res_bind]. rewrite starts_with_app. cbn [negb].
  rewrite (proj2 (advance_spec 12 _ _)) by (eexists; split; reflexivity). cbn [mbind res_bind].
  rewrite (proj2 (take_until_char_spec 44 _ (str "2") _)) by (split; [reflexivity|by apply (bool_decide_eq_true_1 _)]).
  cbn [mbind res_bind]. rewrite bool_decide_true by done. cbn [negb].
  rewrite (proj2 (expect_char_spec 44 _ _)) by reflexivity. cbn [mbind res_bind].
  rewrite parse_keyexpr_render by done. cbn [mbind res_bind].
  rewrite (proj2 (expect_char_spec 44 _ _)) by reflexivity. cbn [mbind res_bind].
  rewrite parse_keyexpr_render by done. cbn [mbind res_bind].
  rewrite (proj2 (expect_char_spec 44 _ _)) by reflexivity. cbn [mbind res_bind].
  rewrite parse_keyexpr_render by done. cbn. destruct d; cbn in *. by subst.
Qed.

Lemma parse_checked p cs :
  length cs = 8%nat → verify_checksum (p ++ [35] ++ cs) = Ok tt → parse (p ++ [35] ++ cs) = parse_body p.
Proof.
  intros Hc Hv. unfold parse. rewrite Hv. cbn [mbind res_bind].
  destruct (verify_checksum_parts _ _ Hc Hv) as (_ & ks & _ & Hks & _).
  cbn [app]. rewrite rfind_last. { cbn [expect mbind res_bind]. by rewrite slice_here. }
  intros Hin. rewrite mapM_Some in Hks. apply list_elem_of_lookup in Hin as [i Hi].
  destruct (Forall2_lookup_l _ _ _ _ _ Hks Hi) as (k & _ & Hk). by vm_compute in Hk.
Qed.

(** The accepted strings and what they parse to. *)
Lemma parse_accepts s d :
  parse s = Ok d ↔
  ∃ f0 f1 f2 cs, s = render_body f0 f1 f2 d ++ [35] ++ cs ∧ length cs = 8%nat ∧
    verify_checksum s = Ok tt ∧ desc_ok f0 f1 f2 d.
Proof.
  split.
  - intros H. assert (verify_checksum s = Ok tt) as Hv.
    { unfold parse in H. by apply bind_Ok in H as ([] & ? & _). }
    destruct (proj1 (verify_checksum_Ok _) Hv) as (p & cs & _ & _ & -> & _ & Hc & _).
    rewrite parse_checked in H by done. apply parse_body_Ok in H as (f0 & f1 & f2 & -> & Hd).
    by exists f0, f1, f2, cs.
  - intros (f0 & f1 & f2 & cs & -> & Hc & Hv & Hd). rewrite parse_checked by done. by apply parse_body_render.
Qed.

(** C10: the language of [parse]. A string is accepted with result [d] exactly
    when it is [wsh(sortedmulti(2,k0,k1,k2))#c] for the key expressions of [d]
    as written, with a BIP-48 origin and a decodable extended public key each,
    and the checksum [c] is the one of the body. *)
Theorem parse_spec s d :
  parse s = Ok d ↔
  ∃ f0 f1 f2 cs, s = render_body f0 f1 f2 d ++ [35] ++ cs ∧ length cs = 8%nat ∧
    verify_checksum s = Ok tt ∧ desc_ok f0 f1 f2 d.
Proof. apply parse_accepts. Qed.

(** ** No panic *)

Lemma from_hex_no_panic s : from_hex s ≠ Panic.
Proof.
  unfold from_hex. destruct (length s =? 8)%nat eqn:E; [|done]. cbn [negb]. bool_simp. intros H.
  assert (∀ n s, length s = (2 * n)%nat → hex_pairs s ≠ Panic) as Hn; [|by apply (Hn 4%nat s)]. clear.
  induction n as [|n IH]; intros [|c1 [|c2 s]] Hl H; cbn in Hl; try lia; [done|].
  cbn [hex_pairs] in H. no_panic ltac:(fun H => apply (IH s); [lia|exact H]).
Qed.

Lemma take_while_no_panic pred p : take_while pred p ≠ Panic.
Proof. done. Qed.
Lemma expect_char_no_panic c p : expect_char c p ≠ Panic.
Proof. destruct p; cbn; [done|]. by case_match. Qed.
Lemma take_until_char_no_panic c p : take_until_char c p ≠ Panic.
Proof. unfold take_until_char. by case_match. Qed.
Lemma advance_lit_no_panic lit n p : starts_with lit p = true → (n ≤ length lit)%nat → advance n p ≠ Panic.
Proof.
  intros [r ->]%starts_with_spec Hn. unfold advance. rewrite (proj2 (Nat.leb_le _ _)); [done|].
  rewrite length_app. lia.
Qed.

Lemma origin_segment_no_panic path part : origin_segment path part ≠ Panic.
Proof.
  unfold origin_segment. intros H. if_inv H E1. apply bind_Panic in H as [H|(num & Hn & H)].
  { destruct (last part); [|done]. if_inv H E2. apply slice_Panic in H. lia. }
  if_inv H E2. bool_simp. apply bind_Panic in H as [H|([] & _ & H)].
  { apply for_each_no_panic in H; [done|]. intros c _ Hc. by apply ensure_Panic in Hc. }
  apply bind_Panic in H as [H|(c0 & _ & H)].
  { apply index_Panic in H. destruct num; cbn in H; [done|lia]. }
  if_inv H E3. apply bind_Panic in H as [H|(n & _ & H)]; [by apply ok_or_Panic in H|]. by if_inv H E4.
Qed.

Lemma fold_push_length {A} (f : A → res ParseError Z) l acc r :
  fold_res (λ acc x, n ← f x; Ok (acc ++ [n])) acc l = Ok r → length r = (length acc + length l)%nat.
Proof.
  revert acc. induction l as [|x l IH]; intros acc; cbn [fold_res length].
  - intros [= <-]. lia.
  - intros (acc' & (n & _ & [= <-])%bind_Ok & H)%bind_Ok. rewrite (IH _ H), length_app. cbn. lia.
Qed.

Lemma validate_origin_path_no_panic path : validate_origin_path path ≠ Panic.
Proof.
  unfold validate_origin_path. intros H. apply bind_Panic in H as [H|([] & _ & H)].
  { apply for_each_no_panic in H; [done|]. intros c _ Hc. by apply ensure_Panic in Hc. }
  cbn zeta in H. if_inv H E; [by if_inv H E'|]. bool_simp. apply bind_Panic in H as [H|(idx & Hi & H)].
  { apply fold_res_no_panic in H; [done|]. intros b x _ Hp. apply bind_Panic in Hp as [Hp|(? & _ & Hp)]; [|done].
    by apply origin_segment_no_panic in Hp. }
  apply fold_push_length in Hi. cbn in Hi. rewrite E in Hi. no_panic idtac.
Qed.

Lemma split_xpub_no_panic p : split_xpub_and_derivation p ≠ Panic.
Proof.
  unfold split_xpub_and_derivation. cbn zeta. intros H. if_inv H E1.
  apply bind_Panic in H as [H|(b & _ & H)].
  { if_inv H E2. if_inv H E3. apply bind_Panic in H as [H|(? & _ & ?)]; [|done].
    apply for_each_no_panic in H; [done|]. intros c _ Hc. by apply ensure_Panic in Hc. }
  apply bind_Panic in H as [H|(x & _ & H)]; [apply slice_Panic in H; lia|]. by if_inv H E2.
Qed.

Lemma advance_consumed_no_panic p x b n :
  split_xpub_and_derivation p = Ok (x, b, n) → advance n p ≠ Panic.
Proof.
  intros (q & -> & _ & -> & _)%split_xpub_Ok. by rewrite (proj2 (advance_spec _ _ q)) by eauto.
Qed.
Lemma no_multipath_no_panic x :
  for_each (E:=ParseError) (λ b, ensure (negb (multipath_char b)) MultipathForbidden) x ≠ Panic.
Proof. apply for_each_no_panic. intros c _ Hc. by apply ensure_Panic in Hc. Qed.

Lemma parse_keyexpr_no_panic p : parse_keyexpr p ≠ Panic.
Proof.
  unfold parse_keyexpr. intros H.
  no_panic ltac:(fun H => first
    [ apply map_err_Panic, expect_char_no_panic in H; exact H
    | apply take_while_no_panic in H; exact H
    | apply map_err_Panic, from_hex_no_panic in H; exact H
    | apply validate_origin_path_no_panic in H; exact H
    | apply split_xpub_no_panic in H; exact H
    | eapply advance_lit_no_panic in H; [exact H|eassumption|vm_compute; lia]
    | eapply advance_consumed_no_panic in H; [exact H|eassumption]
    | apply no_multipath_no_panic in H; exact H ]).
Qed.

Lemma count_extra_no_panic fuel p n : count_extra fuel p n ≠ Panic.
Proof.
  revert p n. induction fuel as [|fuel IH]; intros p n H; cbn [count_extra] in H; [done|]. if_inv H E.
  no_panic ltac:(fun H => first
    [ eapply advance_lit_no_panic in H; [exact H|eassumption|vm_compute; lia]
    | apply take_while_no_panic in H; exact H ]).
  by apply IH in H.
Qed.

(** [parse] returns a descriptor or an error on every string; no slice,
    index, cursor move or [expect] of the parser can abort. *)
Lemma parse_no_panic s : parse s ≠ Panic.
Proof.
  destruct (verify_checksum s) as [[]|e|] eqn:Hv; [|by unfold parse; rewrite Hv|by apply verify_checksum_no_panic in Hv].
  destruct (proj1 (verify_checksum_Ok _) Hv) as (p & cs & _ & _ & -> & _ & Hc & _).
  rewrite parse_checked by done. unfold parse_body. intros H.
  no_panic ltac:(fun H => first
    [ apply expect_char_no_panic in H; exact H
    | apply take_until_char_no_panic in H; exact H
    | apply parse_keyexpr_no_panic in H; exact H
    | apply count_extra_no_panic in H; exact H
    | eapply advance_lit_no_panic in H; [exact H|eassumption|vm_compute; lia] ]).
Qed.

Definition in_charset (s : bytes) : bool := forallb (λ c, bool_decide (c ∈ INPUT_CHARSET)) s.
Lemma in_charset_spec s : in_charset s = true ↔ Forall (λ c, c ∈ INPUT_CHARSET) s.
Proof.
  unfold in_charset. rewrite forallb_forall, Forall_forall. setoid_rewrite bool_decide_eq_true.
  by setoid_rewrite list_elem_of_In.
Qed.
Lemma hex_char_in_charset c : is_Some (hex_nibble c) → c ∈ INPUT_CHARSET.
Proof.
  intros [v Hv]. assert (48 ≤ c < 103) as Hc.
  { unfold hex_nibble in Hv. repeat case_match; bool_simp; try done; lia. }
  assert (Forall (λ n, is_Some (hex_nibble (Z.of_nat n)) → bool_decide (Z.of_nat n ∈ INPUT_CHARSET) = true) (seq 48 55)) as Hf.
  { repeat (constructor; [vm_compute; first [done|by intros [? [=]]]|]). constructor. }
  rewrite Forall_forall in Hf. specialize (Hf (Z.to_nat c)). rewrite Z2Nat.id in Hf by lia.
  apply (bool_decide_eq_true_1 (c ∈ INPUT_CHARSET)), Hf; [apply elem_of_seq; lia|by eexists].
Qed.
Lemma render_keyexpr_charset fps k :
  keyexpr_ok fps k → in_charset (xpub k) = true → Forall (λ c, c ∈ INPUT_CHARSET) (render_keyexpr fps k).
Proof.
  intros [Hf Ho _ _ _] Hx%in_charset_spec. unfold render_keyexpr.
  repeat apply Forall_app_2; try done; try (apply in_charset_spec; by destruct (derivation k)).
  - unfold from_hex in Hf. if_inv Hf E. apply hex_pairs_chars in Hf.
    eapply Forall_impl; [exact Hf|apply hex_char_in_charset].
  - apply in_charset_spec. assert (forallb in_charset origin_paths = true) as Hb by (vm_compute; reflexivity).
    rewrite forallb_forall in Hb. by apply Hb, list_elem_of_In.
Qed.

(** What the checksum accepts is in its character set. *)
Lemma parse_charset s d : parse s = Ok d → Forall (λ k, in_charset (xpub k) = true) (desc_keys d).
Proof.
  intros (f0 & f1 & f2 & cs & -> & Hc & Hv & _)%parse_accepts.
  apply verify_checksum_Ok in Hv as (p & cs' & vs & ks & He & _ & Hc' & Hvs & _).
  apply app_inj_2 in He as [<- _]; [|cbn; by rewrite Hc, Hc'].
  assert (Forall (λ c, c ∈ INPUT_CHARSET) (render_body f0 f1 f2 d)) as Hall.
  { apply Forall_forall. intros c Hin. apply list_elem_of_lookup in Hin as [i Hi]. apply mapM_Some in Hvs.
    eapply Forall2_lookup_l in Hvs as (v & _ & Hvv); [|exact Hi]. unfold char_value in Hvv.
    apply fmap_Some in Hvv as (j & Hj%position_Some & _). apply list_elem_of_lookup. exists j. tauto. }
  unfold render_body, render_keyexpr in Hall. rewrite !Forall_app in Hall. destruct_and!.
  repeat constructor; by apply in_charset_spec.
Qed.

Lemma print_then_parse f0 f1 f2 d :
  desc_ok f0 f1 f2 d → Forall (λ k, in_charset (xpub k) = true) (desc_keys d) →
  ∃ cs, create_checksum (render_body f0 f1 f2 d) = Ok (render_body f0 f1 f2 d ++ [35] ++ cs) ∧
    length cs = 8%nat ∧ parse (render_body f0 f1 f2 d ++ [35] ++ cs) = Ok d.
Proof.
  intros Hd Hx. destruct (create_then_verify (render_body f0 f1 f2 d)) as (cs & Hc & Hl & Hv); [done| |].
  { destruct Hd as (_ & H0 & H1 & H2). unfold desc_keys in Hx. rewrite !Forall_cons in Hx. destruct_and!.
    unfold render_body. repeat first [by apply render_keyexpr_charset|apply Forall_app_2];
      apply in_charset_spec; reflexivity. }
  exists cs. split_and!; [exact Hc|done|]. apply parse_accepts. by exists f0, f1, f2, cs.
Qed.

(** Parse inverts print. A descriptor value whose key expressions are
    printable is rendered, checksummed and parsed back to itself. *)
Lemma descriptor_roundtrip f0 f1 f2 d :
  desc_ok f0 f1 f2 d → Forall (λ k, in_charset (xpub k) = true) (desc_keys d) →
  ∃ s, create_checksum (render_body f0 f1 f2 d) = Ok s ∧ parse s = Ok d.
Proof. intros Hd Hx. destruct (print_then_parse _ _ _ _ Hd Hx) as (cs & ? & _ & ?). eauto. Qed.

(** The surplus-key loop has enough fuel: each round consumes a comma. *)
Lemma count_extra_fuel n fuel p e :
  (length p ≤ fuel)%nat → count_extra (fuel + n) p e = count_extra fuel p e.
Proof.
  revert p e. induction fuel as [|fuel IH]; intros p e Hl.
  - destruct p; cbn in Hl; [|lia]. by destruct n.
  - cbn [count_extra Nat.add]. destruct (starts_with _ p) eqn:E; [|done].
    apply starts_with_spec in E as [r ->]. change (advance 1 (str "," ++ r)) with (Ok (E:=ParseError) r).
    cbn [mbind res_bind]. unfold take_while. cbn [mbind res_bind]. apply IH.
    rewrite length_app in Hl. change (length (str ",")) with 1%nat in Hl. rewrite length_drop. lia.
Qed.
End Language.
