(* ===== verification/Derive.v ===== *)
(** [trinity-verify]: CKDpub ([ckd.rs]), BIP-67 sorting ([bip67.rs]), witness
    scripts ([witness.rs]) and their combination ([derive.rs]).

    The wallet derives keys itself instead of calling the [bitcoin] crate;
    [derive_child_agrees] compares it with a translation of the vendored
    [Xpub::derive_pub]: same keys, same failures, up to the depth limit that only
    the vendored one has. *)
From S2P Require Import Prelude Ordered Types Bitcoin Checksum Parse.

Inductive DeriveError :=
  | HardenedIndex (i : Z) | InvalidPublicKey | InvalidTweak | DMalformedXpub
  | InvalidMultisigParams (k n : Z) | InvalidCompressedPubkey (i : nat).

(** Type invariants of the third-party key types: an HMAC-SHA512 tag has 64
    bytes; a [PublicKey], decoded or computed, is a compressed point. *)
Class SecpLaws `{hashes : Hashes, secp : Secp, codec : Codec} : Prop := {
  hmac_length k m : length (hmac_sha512 k m) = 64%nat;
  sha256_length m : length (sha256 m) = 32%nat;
  xpub_key_valid s c pk : xpub_from_str s = Some (c, pk) → pubkey_valid pk = true;
  tweak_valid pk t q : pubkey_valid pk = true → add_exp_tweak pk t = Some q → pubkey_valid q = true;
  pubkey_compressed pk :
    pubkey_valid pk = true → length pk = 33%nat ∧ (hd 0 pk = 2 ∨ hd 0 pk = 3)
}.

Definition MAX_NON_HARDENED_INDEX : Z := 0x7fffffff.
Definition HARDENED_BIT : Z := 0x80000000.

Record ChildKey := mkChild { ck_chain_code : bytes; ck_public_key : bytes }.

(** ** BIP-67 *)

Definition sort_pubkeys (keys : list bytes) : list bytes := isort keys.
Definition sort_three (keys : list bytes) : list bytes := sort_pubkeys keys.

(** ** Witness scripts *)

Definition build_checkmultisig_script (k : Z) (sorted_pubkeys : list bytes) : res DeriveError bytes :=
  let n := Z.of_nat (length sorted_pubkeys) in
  if negb ((1 <=? k) && (k <=? 16)) || negb ((1 <=? n) && (n <=? 16)) || (n <? k)
  then Err (InvalidMultisigParams k n) else
  _ ← for_eachi (λ i pk,
        t ← index 0 pk;
        if negb (t =? 2) && negb (t =? 3) then Err (InvalidCompressedPubkey i) else Ok tt)
      0 sorted_pubkeys;
  Ok (push_int k ++ concat (map push_slice sorted_pubkeys) ++ push_int n ++ [OP_CHECKMULTISIG]).

Definition witness_script_2of3 (sorted : list bytes) : res DeriveError bytes :=
  build_checkmultisig_script 2 sorted.

Section Derive.
Context `{hashes : Hashes, secp : Secp, codec : Codec}.

(** [to_p2wsh]: [OP_0] and a push of the script hash. *)
Definition p2wsh_script_pubkey (witness_script : bytes) : bytes :=
  0 :: push_slice (sha256 witness_script).

(** ** CKDpub *)

Definition parse_il (il : bytes) : res DeriveError bytes :=
  if seckey_valid il then Ok il else Err InvalidTweak.

Definition tweak_add_parent (parent il : bytes) : res DeriveError bytes :=
  ok_or (add_exp_tweak parent il) InvalidTweak.

Definition ckd_pub (parent_chain_code parent_pubkey : bytes) (index : Z) : res DeriveError ChildKey :=
  if negb (Z.land index HARDENED_BIT =? 0) then Err (HardenedIndex index) else
  _ ← ensure (pubkey_valid parent_pubkey) InvalidPublicKey;
  let i := hmac_sha512 parent_chain_code (parent_pubkey ++ be_bytes 4 index) in
  il ← parse_il (take 32 i);
  let ir := drop 32 i in
  child_pk ← tweak_add_parent parent_pubkey il;
  Ok (mkChild ir child_pk).

(** ** Outputs *)

Record DerivedChild := mkDerived {
  dc_fingerprint : Fingerprint;
  dc_branch : DerivationBranch;
  dc_address_index : Z;
  dc_public_key : bytes;
  dc_chain_code : bytes
}.

Record DerivedOutput := mkOutput {
  children : list DerivedChild;
  sorted_pubkeys : list bytes;
  do_witness_script : bytes;
  do_script_pubkey : bytes
}.

Definition decode_xpub (x : bytes) : res DeriveError (bytes * bytes) :=
  ok_or (xpub_from_str x) DMalformedXpub.

Definition branch_index (b : DerivationBranch) : Z :=
  match b with External => 0 | Internal => 1 end.

Definition derive_child (key : KeyExpr) (address_index : Z) : res DeriveError DerivedChild :=
  if MAX_NON_HARDENED_INDEX <? address_index then Err (HardenedIndex address_index) else
  '(chain0, pk0) ← decode_xpub (xpub key);
  mid ← ckd_pub chain0 pk0 (branch_index (derivation key));
  child ← ckd_pub (ck_chain_code mid) (ck_public_key mid) address_index;
  _ ← ensure (pubkey_valid (ck_public_key child)) InvalidPublicKey;
  Ok (mkDerived (fingerprint key) (derivation key) address_index (ck_public_key child) (ck_chain_code child)).

Definition derive_at (descriptor : ParsedDescriptor) (address_index : Z) : res DeriveError DerivedOutput :=
  c0 ← derive_child (key0 descriptor) address_index;
  c1 ← derive_child (key1 descriptor) address_index;
  c2 ← derive_child (key2 descriptor) address_index;
  let cs := [c0; c1; c2] in
  let sorted := sort_three (map dc_public_key cs) in
  ws ← witness_script_2of3 sorted;
  Ok (mkOutput cs sorted ws (p2wsh_script_pubkey ws)).

(** ** The vendored derivation, [vendor/bitcoin/src/bip32.rs] *)

Record Xpub := mkXpub { xp_depth : Z; xp_public_key : bytes; xp_chain_code : bytes }.

Inductive Bip32Error := CannotDeriveFromHardenedKey | Secp256k1 | MaximumDepthExceeded.

Definition vendor_ckd_pub_tweak (x : Xpub) (i : ChildNumber) : res Bip32Error (bytes * bytes) :=
  match i with
  | Hardened _ => Err CannotDeriveFromHardenedKey
  | Normal n =>
      let hmac_result := hmac_sha512 (xp_chain_code x) (xp_public_key x ++ be_bytes 4 n) in
      if seckey_valid (take 32 hmac_result) then Ok (take 32 hmac_result, drop 32 hmac_result)
      else Err Secp256k1
  end.
Definition vendor_ckd_pub (x : Xpub) (i : ChildNumber) : res Bip32Error Xpub :=
  '(sk, chain_code) ← vendor_ckd_pub_tweak x i;
  tweaked ← ok_or (add_exp_tweak (xp_public_key x) sk) Secp256k1;
  depth ← (if xp_depth x + 1 <=? u8_max then Ok (xp_depth x + 1) else Err MaximumDepthExceeded);
  Ok (mkXpub depth tweaked chain_code).
Definition vendor_derive_pub (x : Xpub) (path : DerivationPath) : res Bip32Error Xpub :=
  fold_res vendor_ckd_pub x path.

End Derive.

(** ** Scripts *)

(** The bytes of [OP_k <pk1> ... <pkn> OP_n OP_CHECKMULTISIG]. *)
Definition multisig_bytes (k : Z) (keys : list bytes) : bytes :=
  [80 + k] ++ concat (map (λ pk, Z.of_nat (length pk) :: pk) keys) ++
  [80 + Z.of_nat (length keys); 174].

Definition compressed (pk : bytes) : Prop := length pk = 33%nat ∧ (hd 0 pk = 2 ∨ hd 0 pk = 3).

Lemma build_checkmultisig_Ok k keys s :
  build_checkmultisig_script k keys = Ok s →
  s = multisig_bytes k keys ∧ 1 ≤ k ≤ Z.of_nat (length keys) ∧ (length keys ≤ 16)%nat ∧
  Forall (λ pk, hd 0 pk = 2 ∨ hd 0 pk = 3) keys.
Proof.
  unfold build_checkmultisig_script. intros H. if_inv H E. bool_simp.
  apply bind_Ok in H as ([] & Hf & [= <-]). rewrite for_eachi_Ok in Hf. split_and!; try lia.
  - unfold multisig_bytes, push_int, push_slice, OP_CHECKMULTISIG. cbn [app]. f_equal; [lia|].
    do 2 f_equal. lia.
  - apply Forall_lookup. intros i pk Hi. apply Hf in Hi. apply bind_Ok in Hi as (t & Ht & Hi).
    apply expect_Ok in Ht. destruct pk as [|t' pk]; [done|]. injection Ht as <-. cbn.
    destruct (t' =? 2) eqn:E2; bool_simp; [by left|]. destruct (t' =? 3) eqn:E3; bool_simp; [by right|done].
Qed.

Lemma build_checkmultisig_ok k keys :
  1 ≤ k ≤ Z.of_nat (length keys) → (length keys ≤ 16)%nat → Forall compressed keys →
  build_checkmultisig_script k keys = Ok (multisig_bytes k keys).
Proof.
  intros Hk Hn Hc. unfold build_checkmultisig_script.
  rewrite !(proj2 (Z.leb_le _ _)), (proj2 (Z.ltb_ge _ _)) by lia. cbn [andb negb orb].
  rewrite (proj2 (for_eachi_Ok _ _ _)).
  - cbn [mbind res_bind]. unfold multisig_bytes, push_int, push_slice, OP_CHECKMULTISIG.
    replace (k - 1 + 81) with (80 + k) by lia. by replace (_ - 1 + 81) with (80 + Z.of_nat (length keys)) by lia.
  - intros i pk Hi. eapply Forall_lookup_1 in Hc as [Hl Ht]; [|exact Hi].
    destruct pk as [|t pk]; [done|]. cbn in Ht |- *. by destruct Ht as [-> | ->].
Qed.

Lemma build_checkmultisig_no_panic k keys :
  Forall (λ pk, pk ≠ []) keys → build_checkmultisig_script k keys ≠ Panic.
Proof.
  intros Hne. unfold build_checkmultisig_script. intros H. if_inv H E.
  apply bind_Panic in H as [H|(? & _ & H)]; [|done]. apply for_eachi_no_panic in H; [done|].
  intros i pk Hi. eapply Forall_lookup_1 in Hne; [|exact Hi]. destruct pk; [done|]. cbn. by case_match.
Qed.

Lemma multisig_bytes_inj k k' keys keys' :
  Forall (λ pk, length pk = 33%nat) keys → Forall (λ pk, length pk = 33%nat) keys' →
  length keys = length keys' →
  multisig_bytes k keys = multisig_bytes k' keys' → k = k' ∧ keys = keys'.
Proof.
  unfold multisig_bytes. intros Hl Hl' Hn Heq. injection Heq as Hk Heq. split; [lia|].
  rewrite <-Hn in Heq. apply app_inv_tail in Heq. clear Hk. revert keys' Hl' Hn Heq.
  induction Hl as [|pk keys Hpk Hl IH]; intros [|pk' keys'] Hl' Hn Heq; try done.
  apply Forall_cons in Hl' as [Hpk' Hl']. cbn in Heq. injection Heq as _ Heq.
  apply app_inj_1 in Heq as [-> Heq]; [|lia]. f_equal. apply IH; [done|cbn in Hn; lia|done].
Qed.

(** The multisig script determines threshold and keys. Two scripts built
    for the same number of 33-byte keys are equal only if threshold and key
    list are. *)
Lemma checkmultisig_injective k k' keys keys' s :
  Forall (λ pk, length pk = 33%nat) keys → Forall (λ pk, length pk = 33%nat) keys' →
  length keys = length keys' →
  build_checkmultisig_script k keys = Ok s → build_checkmultisig_script k' keys' = Ok s →
  k = k' ∧ keys = keys'.
Proof.
  intros Hl Hl' Hn (-> & _)%build_checkmultisig_Ok (Heq & _)%build_checkmultisig_Ok.
  by apply multisig_bytes_inj.
Qed.

Section Theorems.
Context `{hashes : Hashes, secp : Secp, codec : Codec}.

Lemma derive_child_index key i c : derive_child key i = Ok c → i ≤ MAX_NON_HARDENED_INDEX.
Proof. unfold derive_child. intros H. if_inv H E. by bool_simp. Qed.

Lemma derive_child_fields key i c :
  derive_child key i = Ok c →
  dc_fingerprint c = fingerprint key ∧ dc_branch c = derivation key ∧ dc_address_index c = i ∧
  pubkey_valid (dc_public_key c) = true.
Proof.
  unfold derive_child. intros H. if_inv H E. apply bind_Ok in H as ([chain pk] & _ & H).
  apply bind_Ok in H as (mid & _ & H). apply bind_Ok in H as (child & _ & H).
  apply bind_Ok in H as ([] & Hv%ensure_Ok & [= <-]). done.
Qed.

Lemma derive_at_Ok d i o :
  derive_at d i = Ok o ↔
  ∃ c0 c1 c2, derive_child (key0 d) i = Ok c0 ∧ derive_child (key1 d) i = Ok c1 ∧
    derive_child (key2 d) i = Ok c2 ∧ children o = [c0; c1; c2] ∧
    sorted_pubkeys o = isort (map dc_public_key [c0; c1; c2]) ∧
    witness_script_2of3 (sorted_pubkeys o) = Ok (do_witness_script o) ∧
    do_script_pubkey o = p2wsh_script_pubkey (do_witness_script o).
Proof.
  unfold derive_at. split.
  - intros (c0 & H0 & (c1 & H1 & (c2 & H2 & (ws & Hw & [= <-])%bind_Ok)%bind_Ok)%bind_Ok)%bind_Ok.
    by exists c0, c1, c2.
  - intros (c0 & c1 & c2 & -> & -> & -> & Hc & Hs & Hw & Hp). cbn [mbind res_bind]. unfold sort_three, sort_pubkeys.
    rewrite <-Hs, Hw. cbn [mbind res_bind]. rewrite <-Hc, <-Hp. by destruct o.
Qed.

(** The spending script does not depend on the order in which a descriptor
    lists its keys: two descriptors with the same key expressions derive the
    same sorted keys, witness script and output script at every index. *)
Lemma derive_at_key_order d d' i o :
  desc_keys d ≡ₚ desc_keys d' → derive_at d i = Ok o →
  ∃ o', derive_at d' i = Ok o' ∧ sorted_pubkeys o' = sorted_pubkeys o ∧
    do_witness_script o' = do_witness_script o ∧ do_script_pubkey o' = do_script_pubkey o.
Proof.
  intros Hp (c0 & c1 & c2 & H0 & H1 & H2 & Hc & Hs & Hw & Hspk)%derive_at_Ok.
  assert (Forall (λ k, is_Some (match derive_child k i with Ok c => Some c | _ => None end)) (desc_keys d')) as Hall.
  { rewrite <-Hp. unfold desc_keys. repeat constructor; rewrite ?H0, ?H1, ?H2; by eexists. }
  unfold desc_keys in Hall. rewrite !Forall_cons in Hall.
  destruct Hall as ([e0 E0] & [e1 E1] & [e2 E2] & _).
  destruct (derive_child (key0 d') i) as [e0'| |] eqn:E0'; simplify_eq.
  destruct (derive_child (key1 d') i) as [e1'| |] eqn:E1'; simplify_eq.
  destruct (derive_child (key2 d') i) as [e2'| |] eqn:E2'; simplify_eq.
  assert (map dc_public_key [e0; e1; e2] ≡ₚ map dc_public_key [c0; c1; c2]) as Hpk.
  { set (f k := match derive_child k i with Ok c => dc_public_key c | _ => [] end).
    apply (Permutation_map f) in Hp. unfold desc_keys, f in Hp. cbn in Hp.
    rewrite H0, H1, H2, E0', E1', E2' in Hp. by symmetry. }
  exists (mkOutput [e0; e1; e2] (sorted_pubkeys o) (do_witness_script o) (do_script_pubkey o)).
  split; [|done]. apply derive_at_Ok. exists e0, e1, e2. split_and!; try done. cbn [sorted_pubkeys].
  rewrite Hs. apply isort_permutation. by symmetry.
Qed.
End Theorems.

Section Laws.
Context `{laws : SecpLaws}.

Lemma hardened_bit_clear i : 0 ≤ i ≤ MAX_NON_HARDENED_INDEX → (Z.land i HARDENED_BIT =? 0) = true.
Proof.
  unfold MAX_NON_HARDENED_INDEX, HARDENED_BIT. intros Hi. apply Z.eqb_eq. apply Z.bits_inj'. intros n Hn.
  change 0x80000000 with (2 ^ 31). rewrite Z.land_spec, Z.bits_0, Z.pow2_bits_eqb by lia.
  destruct (31 =? n) eqn:E; bool_simp; [subst|by rewrite andb_false_r].
  rewrite (testbit_small i 31) by lia. done.
Qed.

Lemma ckd_pub_valid c pk i ch :
  ckd_pub c pk i = Ok ch → pubkey_valid (ck_public_key ch) = true.
Proof.
  unfold ckd_pub. intros H. if_inv H E. apply bind_Ok in H as ([] & Hv%ensure_Ok & H). cbn zeta in H.
  apply bind_Ok in H as (il & _ & H). apply bind_Ok in H as (q & Hq%ok_or_Ok & [= <-]).
  cbn. by eapply tweak_valid.
Qed.

Lemma ckd_pub_no_panic c pk i : ckd_pub c pk i ≠ Panic.
Proof.
  unfold ckd_pub. intros H. if_inv H E. apply bind_Panic in H as [H|(? & _ & H)]; [by apply ensure_Panic in H|].
  cbn zeta in H. unfold parse_il, tweak_add_parent in H.
  destruct (seckey_valid _); cbn [mbind res_bind] in H; [|done]. by destruct (add_exp_tweak _ _).
Qed.

(** One step computes what the vendored one does; the vendored one also counts
    the depth, and gives up at 255. *)
Lemma ckd_pub_agrees x i :
  0 ≤ i ≤ MAX_NON_HARDENED_INDEX → pubkey_valid (xp_public_key x) = true →
  vendor_ckd_pub x (Normal i) =
  match ckd_pub (xp_chain_code x) (xp_public_key x) i with
  | Ok ch =>
      if xp_depth x + 1 <=? u8_max then Ok (mkXpub (xp_depth x + 1) (ck_public_key ch) (ck_chain_code ch))
      else Err MaximumDepthExceeded
  | _ => Err Secp256k1
  end.
Proof.
  intros Hi Hv. unfold ckd_pub, vendor_ckd_pub, vendor_ckd_pub_tweak.
  rewrite hardened_bit_clear, Hv by done. cbn [negb ensure mbind res_bind]. unfold parse_il.
  destruct (seckey_valid _); cbn [mbind res_bind]; [|done]. unfold tweak_add_parent.
  destruct (add_exp_tweak _ _) as [q|]; cbn [ok_or mbind res_bind]; [|done]. by destruct (_ <=? _).
Qed.

(** C30: the wallet's own child derivation against the vendored
    [Xpub::derive_pub], for every account key, every non-hardened index and
    every depth the account key may state. Where the wallet derives a key, the
    vendored derivation of the path [branch/i] gives the same key and chain
    code, except that from depth 254 on it fails with its depth error; the
    wallet does not look at the depth. Where the wallet fails, the vendored
    derivation fails: on the same curve error, or from depth 254 on with the
    depth error. The wallet's derivation never panics. *)
Theorem derive_child_agrees key i depth chain pk :
  0 ≤ i ≤ MAX_NON_HARDENED_INDEX → xpub_from_str (xpub key) = Some (chain, pk) → 0 ≤ depth ≤ u8_max →
  let vendored := vendor_derive_pub (mkXpub depth pk chain) [Normal (branch_index (derivation key)); Normal i] in
  match derive_child key i with
  | Ok c =>
      vendored = if depth + 2 <=? u8_max then Ok (mkXpub (depth + 2) (dc_public_key c) (dc_chain_code c))
                 else Err MaximumDepthExceeded
  | Err _ => vendored = Err Secp256k1 ∨ u8_max < depth + 2 ∧ vendored = Err MaximumDepthExceeded
  | Panic => False
  end.
Proof.
  intros Hi Hx Hd. pose proof (xpub_key_valid _ _ _ Hx) as Hv. unfold derive_child, decode_xpub.
  rewrite Hx, (proj2 (Z.ltb_ge _ _)) by lia. cbn [ok_or mbind res_bind vendor_derive_pub fold_res]. cbn zeta.
  rewrite ckd_pub_agrees by (first [exact Hv|destruct (derivation key); cbv; done]).
  cbn [xp_chain_code xp_public_key xp_depth].
  destruct (ckd_pub chain pk _) as [mid|e|] eqn:Em; cbn [mbind res_bind]; [|by left|by apply ckd_pub_no_panic in Em].
  pose proof (ckd_pub_valid _ _ _ _ Em) as Hm.
  destruct (ckd_pub (ck_chain_code mid) _ i) as [ch|e|] eqn:Ec; cbn [mbind res_bind]; [| |by apply ckd_pub_no_panic in Ec].
  - rewrite (ckd_pub_valid _ _ _ _ Ec). cbn [ensure mbind res_bind dc_public_key dc_chain_code].
    destruct (Z.leb_spec (depth + 1) u8_max); cbn [mbind res_bind]; [|by rewrite (proj2 (Z.leb_gt _ _)) by lia].
    rewrite ckd_pub_agrees by done. cbn [xp_chain_code xp_public_key xp_depth]. rewrite Ec.
    replace (depth + 1 + 1) with (depth + 2) by lia. by destruct (depth + 2 <=? u8_max).
  - destruct (Z.leb_spec (depth + 1) u8_max); cbn [mbind res_bind]; [|right; split; [lia|done]].
    rewrite ckd_pub_agrees by done. cbn [xp_chain_code xp_public_key xp_depth]. rewrite Ec. by left.
Qed.
Lemma derive_child_no_panic key i : derive_child key i ≠ Panic.
Proof.
  unfold derive_child. intros H. if_inv H E. apply bind_Panic in H as [H|([c pk] & _ & H)]; [by apply ok_or_Panic in H|].
  apply bind_Panic in H as [H|(m & _ & H)]; [by apply ckd_pub_no_panic in H|].
  apply bind_Panic in H as [H|(ch & _ & H)]; [by apply ckd_pub_no_panic in H|].
  apply bind_Panic in H as [H|(? & _ & H)]; [by apply ensure_Panic in H|done].
Qed.

Lemma child_compressed key i c : derive_child key i = Ok c → compressed (dc_public_key c).
Proof. intros (_ & _ & _ & Hv)%derive_child_fields. by apply pubkey_compressed. Qed.

Lemma children_compressed d i c0 c1 c2 :
  derive_child (key0 d) i = Ok c0 → derive_child (key1 d) i = Ok c1 → derive_child (key2 d) i = Ok c2 →
  Forall compressed (isort (map dc_public_key [c0; c1; c2])).
Proof.
  intros H0%child_compressed H1%child_compressed H2%child_compressed. rewrite isort_perm.
  do 3 (apply Forall_cons_2; [done|]). apply Forall_nil_2.
Qed.

Lemma derive_at_no_panic d i : derive_at d i ≠ Panic.
Proof.
  unfold derive_at. intros H. apply bind_Panic in H as [H|(c0 & H0 & H)]; [by apply derive_child_no_panic in H|].
  apply bind_Panic in H as [H|(c1 & H1 & H)]; [by apply derive_child_no_panic in H|].
  apply bind_Panic in H as [H|(c2 & H2 & H)]; [by apply derive_child_no_panic in H|]. cbn zeta in H.
  apply bind_Panic in H as [H|(? & _ & H)]; [|done]. revert H. apply build_checkmultisig_no_panic.
  eapply Forall_impl; [by eapply children_compressed|]. by intros [|? ?] [Hl _].
Qed.

(** When the three child keys derive, [derive_at] returns the 2-of-3
    P2WSH output over them: the keys sorted bytewise, the 105-byte script
    [OP_2 <pk> <pk> <pk> OP_3 OP_CHECKMULTISIG], and [OP_0 <sha256(script)>]. *)
Lemma derive_at_script d i c0 c1 c2 :
  derive_child (key0 d) i = Ok c0 → derive_child (key1 d) i = Ok c1 → derive_child (key2 d) i = Ok c2 →
  ∃ o, derive_at d i = Ok o ∧ children o = [c0; c1; c2] ∧
    sorted_pubkeys o ≡ₚ map dc_public_key (children o) ∧ StronglySorted cle (sorted_pubkeys o) ∧
    do_witness_script o = multisig_bytes 2 (sorted_pubkeys o) ∧ length (do_witness_script o) = 105%nat ∧
    do_script_pubkey o = 0 :: 32 :: sha256 (do_witness_script o).
Proof.
  intros H0 H1 H2. pose proof (children_compressed d i c0 c1 c2 H0 H1 H2) as Hc.
  set (sorted := isort (map dc_public_key [c0; c1; c2])) in *.
  assert (sorted ≡ₚ map dc_public_key [c0; c1; c2]) as Hp by apply isort_perm.
  assert (length sorted = 3%nat) as H3 by (by rewrite Hp).
  exists (mkOutput [c0; c1; c2] sorted (multisig_bytes 2 sorted) (p2wsh_script_pubkey (multisig_bytes 2 sorted))).
  cbn [children sorted_pubkeys do_witness_script do_script_pubkey]. split_and!; try done.
  - apply derive_at_Ok. exists c0, c1, c2. split_and!; try done. cbn [sorted_pubkeys do_witness_script].
    apply build_checkmultisig_ok; [lia|lia|done].
  - apply isort_sorted.
  - clear Hp. destruct sorted as [|a [|b [|e [|]]]]; try done. rewrite !Forall_cons in Hc.
    destruct Hc as ([Ha _] & [Hb _] & [He _] & _). unfold multisig_bytes.
    cbn [app map concat length]. do 4 (rewrite ?length_app; cbn [length app]). lia.
  - unfold p2wsh_script_pubkey, push_slice. by rewrite sha256_length.
Qed.
End Laws.
