(* ===== verification/Verify.v ===== *)
(** [trinity-verify/src/verify.rs] and [policy.rs]: the independent PSBT
    verifier, checks V1 to V10.

    Every check is a definition of the same name; [verify] runs them in the
    order of the source. [known_utxos] is a finite map; a [bip32_derivation] or
    [partial_sigs] map is its list of entries in key order. *)
From S2P Require Import Prelude Ordered Types Bitcoin Checksum Parse Derive.

Record VerifyPolicy := mkPolicy {
  declared_recipients : list bytes;
  declared_amount_sats : Z;
  max_absolute_fee : Z;
  max_feerate : Z;
  declared_fee_sats : option Z;
  gap_limit : Z;
  known_utxos : gmap OutPoint TxOut;
  change_descriptor : option bytes;
  policy_network : Network
}.

Inductive VerifyError :=
  | VDescriptor (e : ParseError) | VDerive (e : DeriveError)
  | ForeignInput (input_index : nat) | ForeignChangeOutput (output_index : nat)
  | MismatchedDerivation (output_index : nat)
  | FeeNonPositive | FeeTooHigh (fee_sats max_sats : Z)
  | FeerateTooHigh (feerate_sat_vb max_sat_vb : Z) | FeeMismatch (actual_sats expected_sats : Z)
  | AmountMismatch (actual_sats expected_sats : Z)
  | UnknownInput (input_index : nat) | MismatchedUtxo (input_index : nat)
  | InconsistentPsbt (detail : bytes) | TooManyInputsOutputs (detail : bytes) | ProprietaryField
  | MissingWitnessUtxo (input_index : nat) | NonWitnessUtxoOnly (input_index : nat)
  | BadSignature (input_index : nat) | NonSighashAll (input_index : nat)
  | PsbtDecode | InvalidOutputAddress (output_index : nat).

Definition MAX_PSBT_INS_OR_OUTS : nat := 100.

Record ClassifiedOutput := mkClassified { is_change : bool; amount_sats : Z; co_address : bytes }.

(** ** V8, V9, V7 *)

Definition check_v8 (psbt : Psbt) : res VerifyError unit :=
  let tx := unsigned_tx psbt in
  if negb (length (psbt_inputs psbt) =? length (tx_input tx))%nat
  then Err (InconsistentPsbt (str "input map length ≠ unsigned_tx.input length")) else
  if negb (length (psbt_outputs psbt) =? length (tx_output tx))%nat
  then Err (InconsistentPsbt (str "output map length ≠ unsigned_tx.output length")) else
  if (length (tx_input tx) =? 0)%nat
  then Err (InconsistentPsbt (str "unsigned_tx has no inputs")) else
  if (MAX_PSBT_INS_OR_OUTS <? length (tx_input tx))%nat
  then Err (TooManyInputsOutputs (str "input count exceeds MAX_PSBT_INS_OR_OUTS")) else
  if (MAX_PSBT_INS_OR_OUTS <? length (tx_output tx))%nat
  then Err (TooManyInputsOutputs (str "output count exceeds MAX_PSBT_INS_OR_OUTS")) else
  _ ← for_each (λ txin,
        if negb (length (script_sig txin) =? 0)%nat
        then Err (InconsistentPsbt (str "unsigned_tx input has non-empty script_sig")) else
        if negb (length (witness txin) =? 0)%nat
        then Err (InconsistentPsbt (str "unsigned_tx input has non-empty witness")) else Ok tt)
      (tx_input tx);
  if negb (length (psbt_proprietary psbt) =? 0)%nat then Err ProprietaryField else
  _ ← for_each (λ i, ensure (length (in_proprietary i) =? 0)%nat ProprietaryField) (psbt_inputs psbt);
  for_each (λ o, ensure (length (out_proprietary o) =? 0)%nat ProprietaryField) (psbt_outputs psbt).

Definition check_v9 (psbt : Psbt) : res VerifyError unit :=
  for_eachi (λ i input,
    match witness_utxo input, non_witness_utxo input with
    | Some _, _ => Ok tt
    | None, Some _ => Err (NonWitnessUtxoOnly i)
    | None, None => Err (MissingWitnessUtxo i)
    end) 0 (psbt_inputs psbt).

Definition check_v7 (psbt : Psbt) (policy : VerifyPolicy) : res VerifyError unit :=
  for_eachi (λ i ti,
    known ← ok_or (known_utxos policy !! previous_output ti.1) (UnknownInput i);
    utxo ← expect (witness_utxo ti.2);
    if negb (txo_value utxo =? txo_value known) || negb (bool_decide (txo_script utxo = txo_script known))
    then Err (MismatchedUtxo i) else Ok tt)
    0 (zip (tx_input (unsigned_tx psbt)) (psbt_inputs psbt)).

(** ** V2 *)

(** The loop of [bip32_index_hint]; the outer [None] is its early return. *)
Fixpoint hint_loop (entries : list (bytes * KeySource)) (hint : option Z) : option (option Z) :=
  match entries with
  | [] => Some hint
  | (_, (_, path)) :: entries =>
      match last path with
      | None => None
      | Some (Hardened _) => None
      | Some (Normal idx) =>
          match hint with
          | None => hint_loop entries (Some idx)
          | Some h => if negb (h =? idx) then None else hint_loop entries hint
          end
      end
  end.
Definition bip32_index_hint (derivation : list (bytes * KeySource)) : option Z :=
  hint ← hint_loop derivation None;
  h ← hint;
  if negb (length derivation =? 0)%nat then Some h else None.

Section Verify.
Context `{hashes : Hashes, secp : Secp, codec : Codec}.

(** [for i in 0..gap_limit] of [find_index_matching], over the given indices. *)
Fixpoint scan_indices (script_pubkey : bytes) (descriptor : ParsedDescriptor) (hint : option Z)
    (indices : list Z) : res VerifyError (option Z) :=
  match indices with
  | [] => Ok None
  | i :: indices =>
      if bool_decide (hint = Some i) then scan_indices script_pubkey descriptor hint indices else
      derived ← map_err VDerive (derive_at descriptor i);
      if bool_decide (do_script_pubkey derived = script_pubkey) then Ok (Some i)
      else scan_indices script_pubkey descriptor hint indices
  end.

Definition find_index_matching (script_pubkey : bytes) (descriptor : ParsedDescriptor)
    (gap : Z) (hint : option Z) : res VerifyError (option Z) :=
  hit ← match hint with
        | Some h =>
            if h <? gap then
              derived ← map_err VDerive (derive_at descriptor h);
              if bool_decide (do_script_pubkey derived = script_pubkey) then Ok (Some h) else Ok None
            else Ok None
        | None => Ok None
        end;
  match hit with
  | Some h => Ok (Some h)
  | None => scan_indices script_pubkey descriptor hint (seqZ 0 gap)
  end.

Definition matches_any_derived (script_pubkey : bytes) (receive : ParsedDescriptor)
    (change : option ParsedDescriptor) (gap : Z) (hint : option Z) : res VerifyError bool :=
  r ← find_index_matching script_pubkey receive gap hint;
  if bool_decide (is_Some r) then Ok true else
  match change with
  | Some chg => r ← find_index_matching script_pubkey chg gap hint; Ok (bool_decide (is_Some r))
  | None => Ok false
  end.

Definition check_v2 (psbt : Psbt) (receive : ParsedDescriptor) (change : option ParsedDescriptor)
    (policy : VerifyPolicy) : res VerifyError unit :=
  for_eachi (λ i input,
    utxo ← expect (witness_utxo input);
    m ← matches_any_derived (txo_script utxo) receive change (gap_limit policy)
          (bip32_index_hint (in_bip32_derivation input));
    if negb m then Err (ForeignInput i) else Ok tt)
    0 (psbt_inputs psbt).

(** ** V3 and V4 *)

Definition address_from_script (script : bytes) (network : Network) (output_index : nat)
    : res VerifyError bytes :=
  ok_or (address_of_script script network) (InvalidOutputAddress output_index).

(** [eq_ignore_ascii_case] *)
Definition addresses_equal (a b : bytes) : bool := bool_decide (map to_lower a = map to_lower b).

Definition key_expr_for_fingerprint (desc : ParsedDescriptor) (fp : bytes) : option KeyExpr :=
  List.find (λ k, bool_decide (fingerprint k = fp)) (desc_keys desc).

(** Reads the prefix only after [path_is_change_at] has checked the length. *)
Definition origin_matches_prefix (path : DerivationPath) (origin_path : bytes) : res unit bool :=
  origin ← expect (DerivationPath_from_str (str "m/" ++ origin_path));
  fold_res (λ acc i,
    if negb acc then Ok false else
    p ← index i path; o ← index i origin; Ok (bool_decide (p = o)))
    true [0; 1; 2; 3]%nat.

Definition path_is_change_at (path : DerivationPath) (key : KeyExpr) (idx : Z) : res unit bool :=
  if negb (length path =? 6)%nat then Ok false else
  p4 ← index 4 path;
  p5 ← index 5 path;
  match p4, p5 with
  | Normal b, Normal i =>
      if (b =? 1) && (i =? idx) then origin_matches_prefix path (origin_path key) else Ok false
  | _, _ => Ok false
  end.

(** The loop of [check_v4_change] over the derivation map. *)
Definition v4_entry (chg : ParsedDescriptor) (idx : Z) (st : list bytes * list bytes)
    (entry : bytes * KeySource) : res unit (list bytes * list bytes) :=
  let '(pk, (fp, path)) := entry in
  if bset_contains st.1 fp then Err tt else
  key ← ok_or (key_expr_for_fingerprint chg fp) tt;
  ok ← path_is_change_at path key idx;
  if negb ok then Err tt else
  Ok (bset_insert fp st.1, st.2 ++ [pk]).

Definition check_v4_change (output : PsbtOutput) (change_desc : ParsedDescriptor) (idx : Z)
    : res unit unit :=
  derived ← map_err (λ _, tt) (derive_at change_desc idx);
  if negb (length (out_bip32_derivation output) =? 3)%nat then Err tt else
  '(seen_fps, map_pubkeys_vec) ←
    fold_res (v4_entry change_desc idx) ([], []) (out_bip32_derivation output);
  let derived_set := bset_of_list (map dc_public_key (children derived)) in
  let map_set := bset_of_list map_pubkeys_vec in
  if negb (bool_decide (derived_set = map_set)) then Err tt else
  k0 ← index 0 map_pubkeys_vec;
  k1 ← index 1 map_pubkeys_vec;
  k2 ← index 2 map_pubkeys_vec;
  let _sorted := sort_three [k0; k1; k2] in
  Ok tt.

Definition classify_output (psbt : Psbt) (change : option ParsedDescriptor) (policy : VerifyPolicy)
    (i : nat) (txout : TxOut) : res VerifyError ClassifiedOutput :=
  address ← address_from_script (txo_script txout) (policy_network policy) i;
  if existsb (λ r, addresses_equal address r) (declared_recipients policy)
  then Ok (mkClassified false (txo_value txout) address) else
  chg ← ok_or change (ForeignChangeOutput i);
  output ← index i (psbt_outputs psbt);
  let hint := bip32_index_hint (out_bip32_derivation output) in
  found ← find_index_matching (txo_script txout) chg (gap_limit policy) hint;
  idx ← ok_or found (ForeignChangeOutput i);
  _ ← map_err (λ _, MismatchedDerivation i) (check_v4_change output chg idx);
  Ok (mkClassified true (txo_value txout) address).

Definition classify_outputs (psbt : Psbt) (change : option ParsedDescriptor) (policy : VerifyPolicy)
    : res VerifyError (list ClassifiedOutput) :=
  fold_resi (λ out i txout, c ← classify_output psbt change policy i txout; Ok (out ++ [c]))
    [] 0 (tx_output (unsigned_tx psbt)).

(** ** V5, V6, V10 *)

Definition check_v5 (psbt : Psbt) (policy : VerifyPolicy) : res VerifyError (Z * Z) :=
  sum_in ← fold_res (λ sum input,
      utxo ← expect (witness_utxo input);
      ok_or (checked_add sum (txo_value utxo)) FeeNonPositive) 0 (psbt_inputs psbt);
  sum_out ← fold_res (λ sum txout, ok_or (checked_add sum (txo_value txout)) FeeNonPositive)
      0 (tx_output (unsigned_tx psbt));
  fee_sats ← ok_or (checked_sub sum_in sum_out) FeeNonPositive;
  if fee_sats =? 0 then Err FeeNonPositive else
  if max_absolute_fee policy <? fee_sats then Err (FeeTooHigh fee_sats (max_absolute_fee policy)) else
  _ ← match declared_fee_sats policy with
      | Some expected => if negb (fee_sats =? expected) then Err (FeeMismatch fee_sats expected) else Ok tt
      | None => Ok tt
      end;
  let vsize := Z.max (tx_vsize (unsigned_tx psbt)) 1 in
  let feerate_sat_vb := div_ceil fee_sats vsize in
  if max_feerate policy <? feerate_sat_vb then Err (FeerateTooHigh feerate_sat_vb (max_feerate policy)) else
  Ok (fee_sats, feerate_sat_vb).

Definition check_v6 (classified : list ClassifiedOutput) (policy : VerifyPolicy) : res VerifyError unit :=
  let actual := sat_sum (map amount_sats (List.filter (λ c, negb (is_change c)) classified)) in
  if negb (actual =? declared_amount_sats policy)
  then Err (AmountMismatch actual (declared_amount_sats policy)) else Ok tt.

Definition is_sighash_all (sht : Z) : bool :=
  match ecdsa_hash_ty sht with Some SighashAll => true | _ => false end.

Definition check_v10 (psbt : Psbt) : res VerifyError unit :=
  for_eachi (λ i input,
    _ ← match sighash_type input with
        | Some sht => if negb (is_sighash_all sht) then Err (NonSighashAll i) else Ok tt
        | None => Ok tt
        end;
    for_each (λ e,
      let sig := snd e in
      if negb (bool_decide (sig_sighash sig = SighashAll)) then Err (NonSighashAll i) else
      if negb (bool_decide (normalize_s (sig_compact sig) = sig_compact sig)) then Err (BadSignature i)
      else Ok tt) (partial_sigs input))
    0 (psbt_inputs psbt).

(** ** The verifier *)

(** The verdict loop; the state is (amount, change, recipient). *)
Definition verdict_step (st : Z * Z * bytes) (c : ClassifiedOutput) : Z * Z * bytes :=
  let '(amount, change, recipient) := st in
  if is_change c then (amount, sat_add change (amount_sats c), recipient)
  else (sat_add amount (amount_sats c), change,
        if bool_decide (recipient = []) then co_address c else recipient).

Definition verify (psbt : Psbt) (descriptor : bytes) (policy : VerifyPolicy) : res VerifyError PsbtVerdict :=
  receive ← map_err VDescriptor (parse descriptor);
  change ← match change_descriptor policy with
           | Some s => Some <$> map_err VDescriptor (parse s)
           | None => Ok None
           end;
  _ ← check_v8 psbt;
  _ ← check_v9 psbt;
  _ ← check_v7 psbt policy;
  _ ← check_v2 psbt receive change policy;
  classified ← classify_outputs psbt change policy;
  '(fee_sats, feerate_sat_vb) ← check_v5 psbt policy;
  _ ← check_v6 classified policy;
  _ ← check_v10 psbt;
  let '(amount, chg, recipient) := foldl verdict_step (0, 0, []) classified in
  let recipient := match declared_recipients policy with decl :: _ => decl | [] => recipient end in
  Ok (mkVerdict true recipient amount chg fee_sats feerate_sat_vb).

(** [verify_psbt], over the decoder [Psbt::from_str]. *)
Definition verify_psbt (psbt_from_str : bytes → option Psbt) (psbt_b64 descriptor : bytes)
    (policy : VerifyPolicy) : res VerifyError PsbtVerdict :=
  psbt ← ok_or (psbt_from_str psbt_b64) PsbtDecode;
  verify psbt descriptor policy.

End Verify.

(** ** The index search *)

Section Search.
Context `{hashes : Hashes, secp : Secp, codec : Codec}.

(** [script] is the descriptor's output script at index [i] of the window. *)
Definition derived_at (d : ParsedDescriptor) (gap : Z) (script : bytes) (i : Z) : Prop :=
  0 ≤ i < gap ∧ ∃ o, derive_at d i = Ok o ∧ do_script_pubkey o = script.

Lemma hint_loop_wf l h r :
  Forall (λ e, Forall child_wf e.2.2) l → (∀ z, h = Some z → 0 ≤ z) →
  hint_loop l h = Some r → ∀ z, r = Some z → 0 ≤ z.
Proof.
  intros Hl. revert h. induction Hl as [|[pk [fp path]] l Hp Hl IH]; intros h0 Hh; cbn; [by intros [= <-]|].
  destruct (last path) as [[idx|idx]|] eqn:E; try done.
  assert (0 ≤ idx) as Hi.
  { apply last_Some_elem_of in E. rewrite Forall_forall in Hp. apply Hp in E. cbn in E. lia. }
  destruct h0 as [h0|]; [destruct (h0 =? idx); cbn; [|done]|]; apply IH; naive_solver.
Qed.
Lemma hint_nonneg l h : derivations_wf l → bip32_index_hint l = Some h → 0 ≤ h.
Proof.
  intros [Hl _]. unfold bip32_index_hint. intros (r & Hr & (z & -> & Hz)%bind_Some)%bind_Some.
  case_match; simplify_eq. by eapply (hint_loop_wf l None).
Qed.

Lemma scan_indices_spec script d hint l r :
  scan_indices script d hint l = Ok r →
  match r with
  | Some i => i ∈ l ∧ ∃ o, derive_at d i = Ok o ∧ do_script_pubkey o = script
  | None => ∀ i, i ∈ l → hint ≠ Some i → ∃ o, derive_at d i = Ok o ∧ do_script_pubkey o ≠ script
  end.
Proof.
  induction l as [|i l IH]; cbn [scan_indices]; [intros [= <-]; set_solver|].
  destruct (bool_decide (hint = Some i)) eqn:Eh; bool_simp.
  - intros H%IH. destruct r; [set_solver|]. intros j [->|Hj]%elem_of_cons Hh; [done|by apply H].
  - intros (o & Ho%map_err_Ok & H)%bind_Ok. if_inv H E; bool_simp.
    + injection H as <-. split; [set_solver|eauto].
    + apply IH in H. destruct r; [set_solver|]. intros j [->|Hj]%elem_of_cons Hh; [eauto|by apply H].
Qed.

(** What a search result means, whatever the hint. *)
Lemma find_index_spec script d gap hint r :
  (∀ h, hint = Some h → 0 ≤ h) → find_index_matching script d gap hint = Ok r →
  match r with
  | Some i => derived_at d gap script i
  | None => ∀ i, 0 ≤ i < gap → ∃ o, derive_at d i = Ok o ∧ do_script_pubkey o ≠ script
  end.
Proof.
  intros Hh. unfold find_index_matching, derived_at. intros (hit & Hhit & H)%bind_Ok.
  destruct hit as [h'|].
  - injection H as <-. destruct hint as [h|]; [|done]. specialize (Hh h eq_refl). if_inv Hhit E. bool_simp.
    apply bind_Ok in Hhit as (o & Ho%map_err_Ok & Hhit). if_inv Hhit E2. bool_simp. injection Hhit as <-.
    eauto with lia.
  - apply scan_indices_spec in H. destruct r as [i|].
    + destruct H as [Hi ?]. apply elem_of_seqZ in Hi. split; [lia|done].
    + intros i Hi. destruct (decide (hint = Some i)) as [->|Hne]; [|apply H; [apply elem_of_seqZ; lia|done]].
      rewrite (proj2 (Z.ltb_lt _ _)) in Hhit by lia. apply bind_Ok in Hhit as (o & Ho%map_err_Ok & Hhit).
      if_inv Hhit E2. bool_simp. eauto.
Qed.

Lemma find_index_no_panic `{laws : !SecpLaws} script d gap hint : find_index_matching script d gap hint ≠ Panic.
Proof.
  assert (∀ i, map_err VDerive (derive_at d i) ≠ Panic) as Hd
    by (intros i Hp; by apply map_err_Panic, derive_at_no_panic in Hp).
  unfold find_index_matching. intros [H|([?|] & _ & H)]%bind_Panic; [|done|].
  - destruct hint as [h|]; [|done]. if_inv H E. apply bind_Panic in H as [H|(? & _ & H)]; [by apply Hd in H|].
    by if_inv H E2.
  - revert H. induction (seqZ 0 gap) as [|i l IH]; cbn [scan_indices]; [done|]. intros H. if_inv H E; [auto|].
    apply bind_Panic in H as [H|(? & _ & H)]; [by apply Hd in H|]. if_inv H E2. auto.
Qed.

(** The derivation-path hint is only an optimisation. Whatever
    non-negative hints two searches start from, when both complete they agree
    on whether the script belongs to the descriptor's gap window. *)
Lemma find_index_hint_irrelevant script d gap h h' r r' :
  (∀ z, h = Some z → 0 ≤ z) → (∀ z, h' = Some z → 0 ≤ z) →
  find_index_matching script d gap h = Ok r → find_index_matching script d gap h' = Ok r' →
  (is_Some r ↔ ∃ i, derived_at d gap script i) ∧ (is_Some r ↔ is_Some r').
Proof.
  intros Hh Hh' Hr Hr'. apply find_index_spec in Hr; [|done]. apply find_index_spec in Hr'; [|done].
  destruct r as [i|], r' as [i'|]; split; split; intros [j Hj]; try done; eauto.
  - destruct Hr as (Hi & o & Ho & Hs). destruct (Hr' _ Hi) as (o' & Ho' & Hs'). congruence.
  - destruct Hj as (Hi & o & Ho & Hs). destruct (Hr _ Hi) as (o' & Ho' & Hs'). congruence.
  - destruct Hr' as (Hi & o & Ho & Hs). destruct (Hr _ Hi) as (o' & Ho' & Hs'). congruence.
  - destruct Hj as (Hi & o & Ho & Hs). destruct (Hr _ Hi) as (o' & Ho' & Hs'). congruence.
Qed.
End Search.

(** ** V4 *)

Section ChangeOutputs.
Context `{hashes : Hashes, secp : Secp, codec : Codec}.

(** Prefixing [m/] to an accepted origin gives a path of four hardened steps,
    unless the origin already starts with [m/]. *)
Definition origin_renders (o : bytes) : bool :=
  match DerivationPath_from_str (str "m/" ++ o) with
  | Some p => (length p =? 4)%nat && negb (starts_with (str "m/") o)
  | None => starts_with (str "m/") o
  end.
Lemma origin_paths_render o : o ∈ origin_paths → origin_renders o = true.
Proof.
  assert (forallb origin_renders origin_paths = true) as H by (vm_compute; reflexivity).
  rewrite forallb_forall in H. intros Ho%list_elem_of_In. by apply H.
Qed.

(** The change path of a key: its origin, then [1/idx]. *)
Definition change_path (key : KeyExpr) (idx : Z) : option DerivationPath :=
  (λ o, o ++ [Normal 1; Normal idx]) <$> DerivationPath_from_str (str "m/" ++ origin_path key).

Lemma origin_matches_prefix_true path o :
  o ∈ origin_paths → length path = 6%nat → origin_matches_prefix path o = Ok true →
  DerivationPath_from_str (str "m/" ++ o) = Some (take 4 path).
Proof.
  intros Ho%origin_paths_render Hl. unfold origin_matches_prefix, origin_renders in *.
  intros (or & Hor%expect_Ok & H)%bind_Ok. rewrite Hor in *. bool_simp.
  destruct or as [|o0 [|o1 [|o2 [|o3 [|]]]]]; try done.
  destruct path as [|p0 [|p1 [|p2 [|p3 [|p4 path]]]]]; try done. revert H. unfold index. cbn.
  repeat (case_bool_decide; cbn); try done. intros _. by subst.
Qed.
Lemma path_is_change_at_true path key idx :
  origin_path key ∈ origin_paths → path_is_change_at path key idx = Ok true →
  change_path key idx = Some path.
Proof.
  intros Ho H. unfold path_is_change_at in H. if_inv H E. bool_simp.
  apply bind_Ok in H as (p4 & H4%expect_Ok & H). apply bind_Ok in H as (p5 & H5%expect_Ok & H).
  destruct p4 as [b|]; [|done]. destruct p5 as [i|]; [|done]. if_inv H E2. bool_simp. subst.
  apply origin_matches_prefix_true in H; [|done..]. unfold change_path. rewrite H. cbn. f_equal.
  do 7 (destruct path as [|? path]; try done). cbn in *. congruence.
Qed.
Lemma path_is_change_at_no_panic path key idx :
  origin_path key ∈ origin_paths → starts_with (str "m/") (origin_path key) = false →
  path_is_change_at path key idx ≠ Panic.
Proof.
  intros Ho%origin_paths_render Hm H. unfold path_is_change_at in H. if_inv H E. bool_simp.
  do 7 (destruct path as [|? path]; try done). unfold index in H. cbn in H.
  repeat case_match; try done. unfold origin_renders in Ho. rewrite Hm in Ho. revert H.
  unfold origin_matches_prefix. destruct (DerivationPath_from_str _) as [o|]; [|done]. bool_simp.
  destruct o as [|o0 [|o1 [|o2 [|o3 [|]]]]]; try done. cbn. by repeat (case_bool_decide; cbn).
Qed.

Definition origins_ok (d : ParsedDescriptor) : Prop :=
  Forall (λ k, origin_path k ∈ origin_paths) (desc_keys d).

Lemma key_expr_for_fingerprint_Some d fp key :
  key_expr_for_fingerprint d fp = Some key → key ∈ desc_keys d ∧ fingerprint key = fp.
Proof.
  unfold key_expr_for_fingerprint. intros [Hin%list_elem_of_In Heq]%find_some. by bool_simp.
Qed.

(** An entry of the map that is bound to its own key expression. *)
Definition entry_bound (chg : ParsedDescriptor) (idx : Z) (e : bytes * KeySource) : Prop :=
  ∃ key, key ∈ desc_keys chg ∧ fingerprint key = e.2.1 ∧ change_path key idx = Some e.2.2.

Lemma v4_loop_Ok chg idx l st r :
  origins_ok chg → fold_res (v4_entry chg idx) st l = Ok r →
  r.2 = st.2 ++ l.*1 ∧ Forall (entry_bound chg idx) l ∧ NoDup (map (λ e, e.2.1) l) ∧
  (∀ e, e ∈ l → e.2.1 ∉ st.1).
Proof.
  intros Ho. revert st. induction l as [|[pk [fp path]] l IH]; intros st; cbn [fold_res].
  - intros [= <-]. rewrite app_nil_r. repeat split; try constructor. set_solver.
  - intros (st' & H & Hr)%bind_Ok. unfold v4_entry in H. if_inv H E.
    apply bind_Ok in H as (key & Hkey%ok_or_Ok%key_expr_for_fingerprint_Some & H).
    apply bind_Ok in H as (ok & Hok & H). if_inv H E2. bool_simp. subst ok. injection H as <-.
    destruct Hkey as [Hk Hfp]. apply path_is_change_at_true in Hok; [|by eapply Forall_forall in Ho].
    apply IH in Hr as (-> & Hall & Hnd & Hfresh). cbn [fst snd] in *.
    assert (fp ∉ st.1) as Hnew by (intros Hin; by rewrite (proj2 (bset_contains_spec _ _) Hin) in E).
    split_and!.
    + by rewrite <-app_assoc.
    + constructor; [|done]. by exists key.
    + cbn. constructor; [|done]. intros ([? [? ?]] & He & Hin)%list_elem_of_fmap. cbn in He. subst.
      eapply Hfresh; [exact Hin|]. apply elem_of_bset_insert. by left.
    + intros e [->|He]%elem_of_cons; [done|]. intros Hin. eapply Hfresh; [exact He|].
      apply elem_of_bset_insert. by right.
Qed.

(** What V4 establishes for a change output at [idx]. *)
Record v4_ok (output : PsbtOutput) (chg : ParsedDescriptor) (idx : Z) (o : DerivedOutput) : Prop := {
  v4_derived : derive_at chg idx = Ok o;
  v4_three : length (out_bip32_derivation output) = 3%nat;
  v4_fingerprints : NoDup (map (λ e, e.2.1) (out_bip32_derivation output));
  v4_bound : Forall (entry_bound chg idx) (out_bip32_derivation output);
  v4_keys : (out_bip32_derivation output).*1 ≡ₚ map dc_public_key (children o)
}.

Lemma NoDup_same_elements {A} (l k : list A) :
  NoDup l → length k = length l → (∀ x, x ∈ l → x ∈ k) → l ≡ₚ k.
Proof.
  intros Hl Hlen Hin. apply submseteq_length_Permutation; [|lia]. by apply NoDup_submseteq.
Qed.

Lemma check_v4_Ok output chg idx :
  origins_ok chg → derivations_wf (out_bip32_derivation output) →
  check_v4_change output chg idx = Ok tt → ∃ o, v4_ok output chg idx o.
Proof.
  intros Ho [_ Hnd]. unfold check_v4_change. intros (o & Hd%map_err_Ok & H)%bind_Ok. if_inv H E. bool_simp.
  apply bind_Ok in H as ([fps pks] & Hloop & H). cbn zeta in H. if_inv H E2. bool_simp. clear H.
  apply v4_loop_Ok in Hloop as (Hpks & Hall & Hfps & _); [|done]. cbn in Hpks. subst pks.
  exists o. split; try done. apply NoDup_same_elements; [done| |].
  - apply derive_at_Ok in Hd as (c0 & c1 & c2 & _ & _ & _ & -> & _). rewrite length_map, length_fmap. done.
  - intros x Hx. apply elem_of_bset_of_list. rewrite E2. by apply elem_of_bset_of_list.
Qed.

Lemma check_v4_no_panic `{laws : !SecpLaws} output chg idx :
  origins_ok chg → Forall (λ k, starts_with (str "m/") (origin_path k) = false) (desc_keys chg) →
  check_v4_change output chg idx ≠ Panic.
Proof.
  intros Ho Hm. unfold check_v4_change. intros [H|(o & Hd & H)]%bind_Panic.
  { by apply map_err_Panic, derive_at_no_panic in H. }
  if_inv H E. bool_simp. apply bind_Panic in H as [H|([fps pks] & Hloop & H)].
  - apply fold_res_no_panic in H; [done|]. intros st [pk [fp path]] _ Hp. unfold v4_entry in Hp. if_inv Hp E1.
    apply bind_Panic in Hp as [Hp|(key & Hkey%ok_or_Ok & Hp)]; [by apply ok_or_Panic in Hp|].
    apply key_expr_for_fingerprint_Some in Hkey as [Hin _]. unfold origins_ok in Ho. rewrite Forall_forall in Ho, Hm.
    apply bind_Panic in Hp as [Hp|(ok & _ & Hp)]; [|by if_inv Hp E2].
    apply path_is_change_at_no_panic in Hp; auto.
  - apply v4_loop_Ok in Hloop as (Hpks & _); [|done]. cbn in Hpks. subst pks. cbn zeta in H. if_inv H E2.
    assert (length (out_bip32_derivation output).*1 = 3%nat) by (by rewrite length_fmap).
    no_panic ltac:(fun H => apply index_Panic in H; lia).
Qed.
End ChangeOutputs.

(** ** What an accepted PSBT satisfies *)

Section Sound.
Context `{hashes : Hashes, secp : Secp, codec : Codec}.

(** [script] is an output script of one of the wallet's descriptors. *)
Definition owned (receive : ParsedDescriptor) (change : option ParsedDescriptor) (gap : Z)
    (script : bytes) : Prop :=
  ∃ d i, (d = receive ∨ change = Some d) ∧ derived_at d gap script i.

Definition input_value (i : PsbtInput) : Z := match witness_utxo i with Some o => txo_value o | None => 0 end.
Definition total_in (p : Psbt) : Z := sum_Z (map input_value (psbt_inputs p)).
Definition total_out (p : Psbt) : Z := sum_Z (map txo_value (tx_output (unsigned_tx p))).

Definition declared (policy : VerifyPolicy) (address : bytes) : Prop :=
  ∃ r, r ∈ declared_recipients policy ∧ addresses_equal address r = true.

Lemma check_v8_Ok p :
  check_v8 p = Ok tt →
  length (psbt_inputs p) = length (tx_input (unsigned_tx p)) ∧
  length (psbt_outputs p) = length (tx_output (unsigned_tx p)) ∧
  (0 < length (tx_input (unsigned_tx p)) ≤ 100)%nat ∧ (length (tx_output (unsigned_tx p)) ≤ 100)%nat ∧
  Forall (λ t, script_sig t = [] ∧ witness t = []) (tx_input (unsigned_tx p)).
Proof.
  unfold check_v8, MAX_PSBT_INS_OR_OUTS. intros H. if_inv H E1. if_inv H E2. if_inv H E3. if_inv H E4. if_inv H E5.
  apply bind_Ok in H as ([] & Hf & _). bool_simp. split_and!; try (done || lia).
  apply Forall_forall. intros t Ht. rewrite for_each_Ok in Hf. specialize (Hf t Ht).
  if_inv Hf E6. if_inv Hf E7. bool_simp. by split; apply nil_length_inv.
Qed.

Lemma check_v9_Ok p : check_v9 p = Ok tt → Forall (λ i, is_Some (witness_utxo i)) (psbt_inputs p).
Proof.
  unfold check_v9. rewrite for_eachi_Ok. intros H. apply Forall_lookup. intros i x Hx.
  apply H in Hx. destruct (witness_utxo x); [by eexists|]. by destruct (non_witness_utxo x).
Qed.

Lemma check_v7_Ok p policy :
  check_v7 p policy = Ok tt → ∀ i t x,
  tx_input (unsigned_tx p) !! i = Some t → psbt_inputs p !! i = Some x →
  ∃ utxo, witness_utxo x = Some utxo ∧ known_utxos policy !! previous_output t = Some utxo.
Proof.
  unfold check_v7. rewrite for_eachi_Ok. intros H i t x Ht Hx.
  specialize (H i (t, x)). rewrite lookup_zip_with_Some in H. specialize (H ltac:(by exists t, x)). cbn in H.
  apply bind_Ok in H as (known & Hk%ok_or_Ok & H). apply bind_Ok in H as (utxo & Hu%expect_Ok & H).
  if_inv H E. bool_simp. exists utxo. split; [done|]. rewrite Hk. destruct known, utxo; cbn in *. congruence.
Qed.

Lemma matches_any_derived_true script receive change gap hint :
  (∀ h, hint = Some h → 0 ≤ h) → matches_any_derived script receive change gap hint = Ok true →
  owned receive change gap script.
Proof.
  intros Hh. unfold matches_any_derived. intros (r & Hr & H)%bind_Ok. apply find_index_spec in Hr; [|done].
  destruct r as [i|]; [exists receive, i; auto|]. cbn in H. destruct change as [chg|]; [|done].
  apply bind_Ok in H as (r & Hr' & H). apply find_index_spec in Hr'; [|done].
  destruct r as [i|]; [exists chg, i; auto|done].
Qed.

Lemma check_v2_Ok p receive change policy :
  psbt_wf p → check_v2 p receive change policy = Ok tt →
  Forall (λ x, ∃ utxo, witness_utxo x = Some utxo ∧ owned receive change (gap_limit policy) (txo_script utxo))
    (psbt_inputs p).
Proof.
  intros (_ & Hwf & _). unfold check_v2. rewrite for_eachi_Ok. intros H. apply Forall_lookup. intros i x Hx.
  eapply Forall_lookup_1 in Hwf as [Hd _]; [|exact Hx]. apply H in Hx.
  apply bind_Ok in Hx as (utxo & Hu%expect_Ok & Hx). apply bind_Ok in Hx as (m & Hm & Hx).
  destruct m; [|done]. exists utxo. split; [done|]. eapply matches_any_derived_true; [|exact Hm].
  intros h Hh. by eapply hint_nonneg.
Qed.

(** An output paid back to the wallet at index [idx] of the change window. *)
Definition change_output (p : Psbt) (change : option ParsedDescriptor) (policy : VerifyPolicy)
    (i : nat) (script : bytes) : Prop :=
  ∃ chg idx output o, change = Some chg ∧ psbt_outputs p !! i = Some output ∧
    0 ≤ idx < gap_limit policy ∧ v4_ok output chg idx o ∧ do_script_pubkey o = script.

Lemma classify_output_Ok p change policy i o c :
  psbt_wf p → (∀ chg, change = Some chg → origins_ok chg) →
  classify_output p change policy i o = Ok c →
  amount_sats c = txo_value o ∧ address_of_script (txo_script o) (policy_network policy) = Some (co_address c) ∧
  (if is_change c then change_output p change policy i (txo_script o) else declared policy (co_address c)).
Proof.
  intros (_ & _ & Hwf) Hor. unfold classify_output. intros (a & Ha%ok_or_Ok & H)%bind_Ok. if_inv H E.
  - injection H as <-. cbn. split_and!; try done. apply existsb_exists in E as (r & Hr%list_elem_of_In & He). by exists r.
  - apply bind_Ok in H as (chg & Hc%ok_or_Ok & H). apply bind_Ok in H as (output & Ho%expect_Ok & H).
    cbn zeta in H. apply bind_Ok in H as (found & Hf & H). apply bind_Ok in H as (idx & Hi%ok_or_Ok & H).
    apply bind_Ok in H as ([] & H4%map_err_Ok & [= <-]). cbn. split_and!; try done. subst found change.
    eapply Forall_lookup_1 in Hwf as Hd; [|exact Ho].
    apply check_v4_Ok in H4 as (o' & Hv4); [|by apply Hor|done].
    apply find_index_spec in Hf as (Hr & o'' & Ho' & Hs); [|intros h Hh; by eapply hint_nonneg].
    exists chg, idx, output, o'. split_and!; try done; try lia. rewrite (v4_derived _ _ _ _ Hv4) in Ho'. congruence.
Qed.

Lemma fold_resi_push {E A B} (f : nat → A → res E B) acc i l r :
  fold_resi (λ acc i x, c ← f i x; Ok (acc ++ [c])) acc i l = Ok r →
  ∃ cs, r = acc ++ cs ∧ Forall2 (λ '(k, x) c, f k x = Ok c) (imap (λ k x, ((i + k)%nat, x)) l) cs.
Proof.
  revert acc i. induction l as [|x l IH]; intros acc i; cbn [fold_resi].
  - intros [= <-]. exists []. by rewrite app_nil_r.
  - intros (acc' & (c & Hc & [= <-])%bind_Ok & H)%bind_Ok. apply IH in H as (cs & -> & Hcs).
    exists (c :: cs). split; [by rewrite <-app_assoc|]. cbn. constructor; [by rewrite Nat.add_0_r|].
    erewrite imap_ext; [exact Hcs|]. intros k y _. cbn. f_equal. lia.
Qed.

Lemma fold_checked_add {E A} (f : A → res E Z) (g : A → Z) (e : E) l a s :
  (∀ x z, f x = Ok z → z = g x) →
  fold_res (λ acc x, v ← f x; ok_or (checked_add acc v) e) a l = Ok s → a ≤ u64_max →
  s = a + sum_Z (map g l) ∧ s ≤ u64_max.
Proof.
  intros Hf. revert a. induction l as [|x l IH]; intros a; cbn [fold_res map sum_Z].
  - intros [= <-]. lia.
  - intros (a' & (v & Hv & Ha%ok_or_Ok)%bind_Ok & H)%bind_Ok Hle. apply checked_add_Some in Ha as [-> Hle'].
    apply Hf in Hv as ->. apply IH in H as [-> ?]; [|done]. lia.
Qed.

Lemma check_v5_Ok p policy fee rate :
  check_v5 p policy = Ok (fee, rate) →
  total_in p = total_out p + fee ∧ total_in p ≤ u64_max ∧
  0 < fee ≤ max_absolute_fee policy ∧ (∀ z, declared_fee_sats policy = Some z → fee = z) ∧
  rate = div_ceil fee (Z.max (tx_vsize (unsigned_tx p)) 1) ∧ rate ≤ max_feerate policy.
Proof.
  unfold check_v5. intros (si & Hi & H)%bind_Ok.
  assert (si = total_in p ∧ si ≤ u64_max) as [-> Hmax].
  { eapply (fold_checked_add (λ x, utxo ← expect (witness_utxo x); Ok (txo_value utxo)) input_value FeeNonPositive _ 0).
    - intros x z (u & Hu%expect_Ok & [= <-])%bind_Ok. unfold input_value. by rewrite Hu.
    - rewrite <-Hi. clear. generalize 0 as a. induction (psbt_inputs p) as [|x l IH]; intros a; cbn; [done|].
      destruct (witness_utxo x); cbn; [|done]. destruct (checked_add a _); cbn; auto.
    - done. }
  apply bind_Ok in H as (so & Ho & H).
  apply (fold_checked_add (λ o, Ok (txo_value o)) txo_value) in Ho as [-> Ho]; [|by intros ? ? [= <-]|done].
  apply bind_Ok in H as (f & [-> Hle]%ok_or_Ok%checked_sub_Some & H). if_inv H E1. if_inv H E2.
  apply bind_Ok in H as ([] & Hdecl & H). cbn zeta in H. if_inv H E3. injection H as <- <-. bool_simp.
  fold (total_out p) in *. split_and!; try (done || lia).
  intros z Hz. rewrite Hz in Hdecl. if_inv Hdecl E4. by bool_simp.
Qed.

Definition sum_where (b : bool) (cs : list ClassifiedOutput) : Z :=
  sum_Z (map amount_sats (List.filter (λ c, eqb (is_change c) b) cs)).

Lemma sum_where_split cs : sum_where false cs + sum_where true cs = sum_Z (map amount_sats cs).
Proof. unfold sum_where. induction cs as [|[[] ? ?] cs IH]; cbn in *; lia. Qed.

Lemma sum_where_nonneg b cs : Forall (λ c, 0 ≤ amount_sats c) cs → 0 ≤ sum_where b cs.
Proof.
  intros Hp. apply sum_Z_nonneg, Forall_map. rewrite Forall_forall in Hp |- *.
  intros y [Hy _]%list_elem_of_In%filter_In. by apply Hp, list_elem_of_In.
Qed.

Lemma verdict_fold cs a c r :
  Forall (λ c, 0 ≤ amount_sats c) cs → 0 ≤ a ≤ u64_max → 0 ≤ c ≤ u64_max →
  a + sum_where false cs ≤ u64_max → c + sum_where true cs ≤ u64_max →
  ∃ r', foldl verdict_step (a, c, r) cs = (a + sum_where false cs, c + sum_where true cs, r').
Proof.
  intros Hp. revert a c r. induction Hp as [|[[] v ad] cs Hx Hp IH]; intros a c r Ha Hc Hsa Hsc.
  - exists r. unfold sum_where. cbn. by rewrite !Z.add_0_r.
  - unfold sum_where in *. cbn in Hsa, Hsc, Hx |- *.
    pose proof (sum_where_nonneg true cs Hp) as Hn. unfold sum_where in Hn.
    rewrite (Z.add_assoc c). unfold sat_add. rewrite Z.min_l by lia. apply IH; lia.
  - unfold sum_where in *. cbn in Hsa, Hsc, Hx |- *.
    pose proof (sum_where_nonneg false cs Hp) as Hn. unfold sum_where in Hn.
    rewrite (Z.add_assoc a). unfold sat_add. rewrite Z.min_l by lia. apply IH; lia.
Qed.

Lemma classify_outputs_Ok p change policy cs :
  psbt_wf p → (∀ chg, change = Some chg → origins_ok chg) →
  classify_outputs p change policy = Ok cs →
  map amount_sats cs = map txo_value (tx_output (unsigned_tx p)) ∧
  ∀ i o, tx_output (unsigned_tx p) !! i = Some o → ∃ c, cs !! i = Some c ∧
    address_of_script (txo_script o) (policy_network policy) = Some (co_address c) ∧
    (if is_change c then change_output p change policy i (txo_script o) else declared policy (co_address c)).
Proof.
  intros Hwf Hor (cs' & Hcs & H)%fold_resi_push. cbn in Hcs. subst cs'.
  assert (∀ i o, tx_output (unsigned_tx p) !! i = Some o → ∃ c, cs !! i = Some c ∧
    classify_output p change policy i o = Ok c) as Hl.
  { intros i o Ho. eapply Forall2_lookup_l in H as (c & Hc & Hf); [|rewrite list_lookup_imap, Ho; done].
    by exists c. }
  split.
  - apply Forall2_length in H. rewrite length_imap in H. apply list_eq_same_length with (n := length cs);
      [rewrite length_map; lia|by rewrite length_map|].
    intros i x y Hi Hx Hy. rewrite (list_lookup_fmap amount_sats) in Hx. rewrite (list_lookup_fmap txo_value) in Hy.
    apply fmap_Some in Hx as (c & Hc & ->). apply fmap_Some in Hy as (o & Ho & ->).
    destruct (Hl i o Ho) as (c' & Hc' & Hcl). rewrite Hc in Hc'. injection Hc' as <-.
    by apply classify_output_Ok in Hcl as [-> _].
  - intros i o Ho. destruct (Hl i o Ho) as (c & Hc & Hcl). apply classify_output_Ok in Hcl as (_ & ? & ?); eauto.
Qed.

Lemma check_v6_Ok cs policy :
  Forall (λ c, 0 ≤ amount_sats c) cs → sum_where false cs ≤ u64_max →
  check_v6 cs policy = Ok tt → sum_where false cs = declared_amount_sats policy.
Proof.
  intros Hpos Hle H. unfold check_v6 in H. cbn zeta in H. if_inv H E. bool_simp.
  assert (List.filter (λ c, negb (is_change c)) cs = List.filter (λ c, eqb (is_change c) false) cs) as Hf
    by (apply List.filter_ext; by intros [[] ? ?]).
  rewrite Hf, sat_sum_spec in E; [unfold sum_where in *; lia|].
  apply Forall_map. rewrite Forall_forall in Hpos |- *. intros y [Hy _]%list_elem_of_In%filter_In.
  by apply Hpos, list_elem_of_In.
Qed.

(** The facts a verdict attests. [amount], [change] and [fee] are true sums of
    the transaction, not saturated ones. *)
Record attested (p : Psbt) (receive : ParsedDescriptor) (change : option ParsedDescriptor)
    (policy : VerifyPolicy) (v : PsbtVerdict) : Prop := {
  at_inputs : ∀ i t x, tx_input (unsigned_tx p) !! i = Some t → psbt_inputs p !! i = Some x →
    ∃ utxo, witness_utxo x = Some utxo ∧ known_utxos policy !! previous_output t = Some utxo ∧
      owned receive change (gap_limit policy) (txo_script utxo);
  at_shape : length (psbt_inputs p) = length (tx_input (unsigned_tx p)) ∧
    length (psbt_outputs p) = length (tx_output (unsigned_tx p)) ∧ tx_input (unsigned_tx p) ≠ [];
  at_outputs : ∀ i o, tx_output (unsigned_tx p) !! i = Some o →
    (∃ a, address_of_script (txo_script o) (policy_network policy) = Some a ∧ declared policy a) ∨
    change_output p change policy i (txo_script o);
  at_conservation : total_in p = vd_amount_sats v + vd_change_sats v + vd_fee_sats v;
  at_amount : vd_amount_sats v = declared_amount_sats policy;
  at_fee : 0 < vd_fee_sats v ≤ max_absolute_fee policy ∧
    ∀ z, declared_fee_sats policy = Some z → vd_fee_sats v = z;
  at_feerate : vd_feerate_sat_vb v = div_ceil (vd_fee_sats v) (Z.max (tx_vsize (unsigned_tx p)) 1) ∧
    vd_feerate_sat_vb v ≤ max_feerate policy;
  at_sighash : Forall (λ x, Forall (λ e, sig_sighash e.2 = SighashAll) (partial_sigs x) ∧
    ∀ z, sighash_type x = Some z → ecdsa_hash_ty z = Some SighashAll) (psbt_inputs p)
}.

Lemma check_v10_Ok p :
  check_v10 p = Ok tt →
  Forall (λ x, Forall (λ e, sig_sighash e.2 = SighashAll) (partial_sigs x) ∧
    ∀ z, sighash_type x = Some z → ecdsa_hash_ty z = Some SighashAll) (psbt_inputs p).
Proof.
  unfold check_v10. rewrite for_eachi_Ok. intros H. apply Forall_lookup. intros i x Hx. apply H in Hx.
  apply bind_Ok in Hx as ([] & Hs & Hx). split.
  - rewrite for_each_Ok in Hx. apply Forall_forall. intros e He. specialize (Hx e He). cbn zeta in Hx.
    if_inv Hx E. by bool_simp.
  - intros z Hz. rewrite Hz in Hs. if_inv Hs E. bool_simp. unfold is_sighash_all in E.
    destruct (ecdsa_hash_ty z) as [[]|]; done.
Qed.

Lemma parse_origins_ok s d : parse s = Ok d → origins_ok d.
Proof.
  intros (f0 & f1 & f2 & cs & _ & _ & _ & _ & H0 & H1 & H2)%parse_accepts. unfold origins_ok, desc_keys.
  do 3 (apply Forall_cons_2; [by eapply ke_origin|]). apply Forall_nil_2.
Qed.

Lemma parse_change_Ok policy change :
  match change_descriptor policy with
  | Some s => Some <$> map_err VDescriptor (parse s)
  | None => Ok None
  end = Ok change →
  (∀ s, change_descriptor policy = Some s → ∃ d, change = Some d ∧ parse s = Ok d) ∧
  (change_descriptor policy = None → change = None) ∧ (∀ chg, change = Some chg → origins_ok chg).
Proof.
  destruct (change_descriptor policy) as [s|].
  - destruct (parse s) as [d| |] eqn:Ep; try done. intros [= <-]. apply parse_origins_ok in Ep as Ho.
    split_and!; naive_solver.
  - intros [= <-]. split_and!; naive_solver.
Qed.

(** C1: soundness of the verifier. A PSBT that [verify] accepts spends only
    known coins of the wallet, pays only declared recipients or the wallet's
    own change keys with a matching derivation map, conserves value, and stays
    within the declared amount and the fee caps; only SIGHASH_ALL occurs. *)
Theorem verify_sound p descriptor policy v :
  psbt_wf p → verify p descriptor policy = Ok v →
  ∃ receive change, parse descriptor = Ok receive ∧
    (∀ s, change_descriptor policy = Some s → ∃ d, change = Some d ∧ parse s = Ok d) ∧
    (change_descriptor policy = None → change = None) ∧
    attested p receive change policy v.
Proof.
  intros Hwf. unfold verify. intros (receive & Hr%map_err_Ok & H)%bind_Ok. apply bind_Ok in H as (change & Hc & H).
  apply parse_change_Ok in Hc as (Hc1 & Hc2 & Hor).
  apply bind_Ok in H as ([] & H8 & H). apply bind_Ok in H as ([] & H9 & H). apply bind_Ok in H as ([] & H7 & H).
  apply bind_Ok in H as ([] & H2 & H). apply bind_Ok in H as (cs & Hcs & H). apply bind_Ok in H as ([fee rate] & H5 & H).
  apply bind_Ok in H as ([] & H6 & H). apply bind_Ok in H as ([] & H10 & H).
  apply check_v8_Ok in H8 as (Hl1 & Hl2 & Hl3 & _ & _). apply check_v2_Ok in H2; [|done].
  apply classify_outputs_Ok in Hcs as [Hsum Hcs]; [|done..].
  apply check_v5_Ok in H5 as (Hcons & Hmax & Hfee & Hdecl & Hrate & Hratemax). apply check_v10_Ok in H10.
  assert (Forall (λ c, 0 ≤ amount_sats c) cs) as Hpos.
  { rewrite <-(Forall_map amount_sats (λ z, 0 ≤ z)), Hsum, Forall_map. destruct Hwf as [Hwf _].
    eapply Forall_impl; [exact Hwf|]. cbn. unfold txout_wf. intros o ?. mlia. }
  pose proof (sum_where_split cs) as Hsplit. rewrite Hsum in Hsplit. fold (total_out p) in Hsplit.
  pose proof (sum_where_nonneg true cs Hpos). pose proof (sum_where_nonneg false cs Hpos).
  destruct (verdict_fold cs 0 0 [] Hpos) as [r Hfold]; [unfold u64_max; lia..|lia|lia|].
  rewrite Hfold in H. cbn zeta in H. injection H as <-. exists receive, change. split_and!; try done.
  split; cbn [vd_amount_sats vd_change_sats vd_fee_sats vd_feerate_sat_vb]; try (done || lia).
  - intros i t x Ht Hx. destruct (check_v7_Ok _ _ H7 i t x Ht Hx) as (utxo & Hu & Hk).
    eapply Forall_lookup_1 in H2 as (u' & Hu' & Ho); [|exact Hx]. rewrite Hu in Hu'. injection Hu' as <-. eauto.
  - split_and!; try done. intros Hn. rewrite Hn in Hl3. cbn in Hl3. lia.
  - intros i o Ho. destruct (Hcs i o Ho) as (c & _ & Ha & Hcl). destruct (is_change c); [by right|left; eauto].
  - apply check_v6_Ok in H6; [|done|lia]. lia.
Qed.
End Sound.

(** ** Panics *)

Section NoPanic.
Context `{laws : SecpLaws}.

Definition plain_origins (d : ParsedDescriptor) : Prop :=
  Forall (λ k, starts_with (str "m/") (origin_path k) = false) (desc_keys d).

Lemma check_v8_no_panic p : check_v8 p ≠ Panic.
Proof.
  unfold check_v8. cbn zeta. intros H. do 5 (let E := fresh in if_inv H E).
  apply bind_Panic in H as [H|(? & _ & H)].
  { apply for_each_no_panic in H; [done|]. intros t _ Ht. do 2 (let E := fresh in if_inv Ht E). }
  let E := fresh in if_inv H E. apply bind_Panic in H as [H|(? & _ & H)];
    (apply for_each_no_panic in H; [done|]); intros ? _ Hx; by apply ensure_Panic in Hx.
Qed.
Lemma check_v9_no_panic p : check_v9 p ≠ Panic.
Proof. apply for_eachi_no_panic. intros k x _. by destruct (witness_utxo x), (non_witness_utxo x). Qed.
Lemma check_v7_no_panic p policy :
  Forall (λ i, is_Some (witness_utxo i)) (psbt_inputs p) → check_v7 p policy ≠ Panic.
Proof.
  intros H9. apply for_eachi_no_panic. intros k [t x] Hx. apply lookup_zip_with_Some in Hx as (? & ? & [= <- <-] & _ & Hx).
  eapply Forall_lookup_1 in H9 as [u Hu]; [|exact Hx]. cbn. rewrite Hu.
  destruct (known_utxos policy !! previous_output t); cbn; [|done]. by case_match.
Qed.
Lemma check_v2_no_panic p receive change policy :
  Forall (λ i, is_Some (witness_utxo i)) (psbt_inputs p) → check_v2 p receive change policy ≠ Panic.
Proof.
  intros H9. apply for_eachi_no_panic. intros k x Hx. eapply Forall_lookup_1 in H9 as [u Hu]; [|exact Hx].
  rewrite Hu. cbn [expect mbind res_bind]. intros [H|(m & _ & H)]%bind_Panic; [|by destruct m].
  unfold matches_any_derived in H. apply bind_Panic in H as [H|(r & _ & H)]; [by apply find_index_no_panic in H|].
  if_inv H E. destruct change; [|done]. apply bind_Panic in H as [H|(? & _ & H)]; [by apply find_index_no_panic in H|done].
Qed.

Lemma fold_resi_no_panic {E A B} (f : B → nat → A → res E B) b i l :
  (∀ b k x, l !! k = Some x → f b (i + k)%nat x ≠ Panic) → fold_resi f b i l ≠ Panic.
Proof.
  revert b i. induction l as [|x l IH]; intros b i Hf; cbn [fold_resi]; [done|].
  intros [H|(b' & _ & H)]%bind_Panic.
  - apply (Hf b O x eq_refl). by rewrite Nat.add_0_r.
  - apply IH in H; [done|]. intros b'' k y Hy. rewrite Nat.add_succ_comm. by apply (Hf b'' (S k)).
Qed.

Lemma classify_outputs_no_panic p change policy :
  length (psbt_outputs p) = length (tx_output (unsigned_tx p)) →
  (∀ chg, change = Some chg → origins_ok chg ∧ plain_origins chg) → classify_outputs p change policy ≠ Panic.
Proof.
  intros Hl Hc. apply fold_resi_no_panic. intros acc i o Ho [H|(? & _ & H)]%bind_Panic; [|done].
  apply lookup_lt_Some in Ho. unfold classify_output in H.
  apply bind_Panic in H as [H|(a & _ & H)]; [by apply ok_or_Panic in H|]. if_inv H E.
  apply bind_Panic in H as [H|(chg & Hchg%ok_or_Ok & H)]; [by apply ok_or_Panic in H|].
  apply bind_Panic in H as [H|(out & _ & H)]; [apply index_Panic in H; cbn in H; lia|]. cbn zeta in H.
  apply bind_Panic in H as [H|(f & _ & H)]; [by apply find_index_no_panic in H|].
  apply bind_Panic in H as [H|(idx & _ & H)]; [by apply ok_or_Panic in H|].
  apply bind_Panic in H as [H|(? & _ & H)]; [|done]. destruct (Hc _ Hchg).
  by apply map_err_Panic, check_v4_no_panic in H.
Qed.

Lemma check_v5_no_panic p policy :
  Forall (λ i, is_Some (witness_utxo i)) (psbt_inputs p) → check_v5 p policy ≠ Panic.
Proof.
  intros H9. unfold check_v5. intros [H|(si & _ & H)]%bind_Panic.
  { apply fold_res_no_panic in H; [done|]. intros b x Hx. rewrite Forall_forall in H9. destruct (H9 x Hx) as [u ->].
    cbn. intros Hp. by apply ok_or_Panic in Hp. }
  apply bind_Panic in H as [H|(so & _ & H)].
  { apply fold_res_no_panic in H; [done|]. intros b x _ Hp. by apply ok_or_Panic in Hp. }
  apply bind_Panic in H as [H|(f & _ & H)]; [by apply ok_or_Panic in H|]. if_inv H E1. if_inv H E2.
  apply bind_Panic in H as [H|(? & _ & H)]; [destruct (declared_fee_sats policy); [by if_inv H E|done]|].
  cbn zeta in H. by if_inv H E3.
Qed.

Lemma check_v10_no_panic p : check_v10 p ≠ Panic.
Proof.
  apply for_eachi_no_panic. intros k x _ [H|(? & _ & H)]%bind_Panic.
  - destruct (sighash_type x); [by if_inv H E|done].
  - apply for_each_no_panic in H; [done|]. intros e _ He. cbn zeta in He. if_inv He E1. by if_inv He E2.
Qed.

(** C34: the verifier returns a verdict or an error on every PSBT, for change
    descriptors whose origins are written without a leading [m/]. *)
Theorem verify_no_panic p descriptor policy :
  (∀ s d, change_descriptor policy = Some s → parse s = Ok d → plain_origins d) →
  verify p descriptor policy ≠ Panic.
Proof.
  intros Hplain. unfold verify. intros [H|(receive & _ & H)]%bind_Panic; [by apply map_err_Panic, parse_no_panic in H|].
  apply bind_Panic in H as [H|(change & Hc & H)].
  { destruct (change_descriptor policy) as [s|]; [|done]. destruct (parse s) eqn:E; try done. by apply parse_no_panic in E. }
  apply parse_change_Ok in Hc as (Hc1 & Hc2 & Hor).
  apply bind_Panic in H as [H|([] & H8 & H)]; [by apply check_v8_no_panic in H|].
  apply bind_Panic in H as [H|([] & H9 & H)]; [by apply check_v9_no_panic in H|]. apply check_v9_Ok in H9.
  apply check_v8_Ok in H8 as (_ & Hl & _).
  apply bind_Panic in H as [H|([] & _ & H)]; [by apply check_v7_no_panic in H|].
  apply bind_Panic in H as [H|([] & _ & H)]; [by apply check_v2_no_panic in H|].
  apply bind_Panic in H as [H|(cs & _ & H)].
  { apply classify_outputs_no_panic in H; [done..|]. intros chg ->. split; [auto|].
    destruct (change_descriptor policy) as [s|] eqn:Es; [|by specialize (Hc2 eq_refl)].
    destruct (Hc1 s eq_refl) as (d & [= <-] & Hp). by eapply Hplain. }
  apply bind_Panic in H as [H|([fee rate] & _ & H)]; [by apply check_v5_no_panic in H|].
  apply bind_Panic in H as [H|([] & _ & H)]; [unfold check_v6 in H; cbn zeta in H; by if_inv H E|].
  apply bind_Panic in H as [H|([] & _ & H)]; [by apply check_v10_no_panic in H|].
  by destruct (foldl _ _ _) as [[? ?] ?].
Qed.
End NoPanic.
