(* ===== verification/Accept.v ===== *)
(** What [verify] accepts, exactly.

    [verify_sound] says what follows from a verdict; here the other direction is
    added: [acceptable] lists the conditions on a PSBT in terms of the wallet
    (its coins, its scripts, its change keys), without the order, the loops, the
    index hints and the saturating sums of the code, and [verify] returns a
    verdict if and only if they hold. The last section is about origins written
    with a leading [m/], which the parser reads and the verifier panics on. *)
From S2P Require Import Prelude Ordered Types Bitcoin Checksum Parse Derive Verify.

(** ** The specification *)

Section Spec.
Context `{hashes : Hashes, secp : Secp, codec : Codec}.

(** Every index of the gap window can be derived; for real keys this fails with
    negligible probability. *)
Definition window_derives (d : ParsedDescriptor) (gap : Z) : Prop :=
  ∀ i, 0 ≤ i < gap → ∃ o, derive_at d i = Ok o.

(** The output goes to an address the user declared. *)
Definition declared_output (policy : VerifyPolicy) (o : TxOut) : bool :=
  match address_of_script (txo_script o) (policy_network policy) with
  | Some a => existsb (λ r, addresses_equal a r) (declared_recipients policy)
  | None => false
  end.
Definition value_of_outputs (f : TxOut → bool) (p : Psbt) : Z :=
  sum_Z (map txo_value (List.filter f (tx_output (unsigned_tx p)))).
Definition paid (policy : VerifyPolicy) (p : Psbt) : Z := value_of_outputs (declared_output policy) p.
Definition returned (policy : VerifyPolicy) (p : Psbt) : Z := value_of_outputs (λ o, negb (declared_output policy o)) p.
Definition fee_of (p : Psbt) : Z := total_in p - total_out p.
Definition feerate_of (p : Psbt) : Z := div_ceil (fee_of p) (Z.max (tx_vsize (unsigned_tx p)) 1).

(** An unsigned PSBT within the size limits, without foreign data. *)
Record v8_shape (p : Psbt) : Prop := {
  sh_inputs : length (psbt_inputs p) = length (tx_input (unsigned_tx p));
  sh_outputs : length (psbt_outputs p) = length (tx_output (unsigned_tx p));
  sh_ins : (0 < length (tx_input (unsigned_tx p)) ≤ 100)%nat;
  sh_outs : (length (tx_output (unsigned_tx p)) ≤ 100)%nat;
  sh_unsigned : Forall (λ t, script_sig t = [] ∧ witness t = []) (tx_input (unsigned_tx p));
  sh_proprietary : psbt_proprietary p = [];
  sh_in_proprietary : Forall (λ i, in_proprietary i = []) (psbt_inputs p);
  sh_out_proprietary : Forall (λ o, out_proprietary o = []) (psbt_outputs p)
}.

(** The coin of input [x] is the one the wallet knows under its outpoint, and
    its script is the wallet's. *)
Definition own_coin (receive : ParsedDescriptor) (change : option ParsedDescriptor) (policy : VerifyPolicy)
    (t : TxIn) (x : PsbtInput) : Prop :=
  ∃ utxo, witness_utxo x = Some utxo ∧ known_utxos policy !! previous_output t = Some utxo ∧
    owned receive change (gap_limit policy) (txo_script utxo).

(** Only SIGHASH_ALL, only signatures in low-S form. *)
Definition sighash_ok (x : PsbtInput) : Prop :=
  (∀ z, sighash_type x = Some z → ecdsa_hash_ty z = Some SighashAll) ∧
  Forall (λ e, sig_sighash e.2 = SighashAll ∧ normalize_s (sig_compact e.2) = sig_compact e.2) (partial_sigs x).

Record acceptable (p : Psbt) (receive : ParsedDescriptor) (change : option ParsedDescriptor)
    (policy : VerifyPolicy) : Prop := {
  ac_shape : v8_shape p;
  ac_inputs : Forall2 (own_coin receive change policy) (tx_input (unsigned_tx p)) (psbt_inputs p);
  ac_outputs : ∀ i o, tx_output (unsigned_tx p) !! i = Some o →
    is_Some (address_of_script (txo_script o) (policy_network policy)) ∧
    (declared_output policy o = true ∨ change_output p change policy i (txo_script o));
  ac_fits : total_in p ≤ u64_max;
  ac_fee : 0 < fee_of p ≤ max_absolute_fee policy;
  ac_declared_fee : ∀ z, declared_fee_sats policy = Some z → fee_of p = z;
  ac_feerate : feerate_of p ≤ max_feerate policy;
  ac_amount : paid policy p = declared_amount_sats policy;
  ac_sighash : Forall sighash_ok (psbt_inputs p)
}.

Definition verdict_of (p : Psbt) (policy : VerifyPolicy) : PsbtVerdict :=
  mkVerdict true (default [] (head (declared_recipients policy))) (paid policy p) (returned policy p)
    (fee_of p) (feerate_of p).
End Spec.

(** ** The checks, one by one *)

Lemma check_v8_iff p : check_v8 p = Ok tt ↔ v8_shape p.
Proof.
  unfold check_v8, MAX_PSBT_INS_OR_OUTS. cbv zeta. split.
  - intros H. pose proof (check_v8_Ok p H) as (? & ? & ? & ? & ?).
    do 5 (let E := fresh in if_inv H E; clear E). apply bind_Ok in H as ([] & _ & H). if_inv H E.
    apply bind_Ok in H as ([] & Hi & Ho). rewrite for_each_Ok in Hi. rewrite for_each_Ok in Ho. bool_simp.
    split; try done; [by apply nil_length_inv|apply Forall_forall; intros x Hx..];
      [apply Hi in Hx|apply Ho in Hx]; apply ensure_Ok in Hx; bool_simp; by apply nil_length_inv.
  - intros [H1 H2 [H3 H3'] H4 H5 H6 H7 H8]. rewrite H1, H2, !Nat.eqb_refl, H6. cbn [negb length Nat.eqb].
    rewrite (proj2 (Nat.eqb_neq _ _)) by lia. rewrite !(proj2 (Nat.ltb_ge _ _)) by lia.
    rewrite (proj2 (for_each_Ok _ (tx_input (unsigned_tx p)))).
    2:{ intros t Ht. rewrite Forall_forall in H5. by destruct (H5 t Ht) as [-> ->]. }
    cbn [mbind res_bind]. rewrite Forall_forall in H7. rewrite Forall_forall in H8.
    rewrite (proj2 (for_each_Ok _ (psbt_inputs p))) by (intros x Hx; by rewrite (H7 x Hx)).
    cbn [mbind res_bind]. apply for_each_Ok. intros x Hx. by rewrite (H8 x Hx).
Qed.

Lemma check_v9_iff p : check_v9 p = Ok tt ↔ Forall (λ i, is_Some (witness_utxo i)) (psbt_inputs p).
Proof.
  split; [apply check_v9_Ok|]. intros H. apply for_eachi_Ok. intros k x Hx.
  eapply Forall_lookup_1 in H as [u Hu]; [|exact Hx]. by rewrite Hu.
Qed.

Lemma check_v7_complete p policy :
  Forall2 (λ t x, ∃ utxo, witness_utxo x = Some utxo ∧ known_utxos policy !! previous_output t = Some utxo)
    (tx_input (unsigned_tx p)) (psbt_inputs p) →
  check_v7 p policy = Ok tt.
Proof.
  intros H. apply for_eachi_Ok. intros k [t x] (t' & x' & [= <- <-] & Ht & Hx)%lookup_zip_with_Some.
  destruct (Forall2_lookup_lr _ _ _ _ _ _ H Ht Hx) as (u & Hu & Hk). cbn. rewrite Hk, Hu. cbn.
  by rewrite Z.eqb_refl, bool_decide_true by done.
Qed.

(** ** The index search always answers *)

Section Search.
Context `{hashes : Hashes, secp : Secp, codec : Codec}.

Lemma scan_indices_total script d hint l :
  (∀ i, i ∈ l → ∃ o, derive_at d i = Ok o) → ∃ r, scan_indices script d hint l = Ok r.
Proof.
  induction l as [|i l IH]; intros Hd; cbn [scan_indices]; [eauto|]. case_bool_decide; [apply IH; set_solver|].
  destruct (Hd i) as [o ->]; [set_solver|]. cbn. case_bool_decide; [eauto|]. apply IH. set_solver.
Qed.

Lemma find_index_total script d gap hint :
  window_derives d gap → (∀ h, hint = Some h → 0 ≤ h) → ∃ r, find_index_matching script d gap hint = Ok r.
Proof.
  intros Hw Hh. unfold find_index_matching.
  assert (∃ r, scan_indices script d hint (seqZ 0 gap) = Ok r) as [r Hr].
  { apply scan_indices_total. intros i Hi%elem_of_seqZ. apply Hw. lia. }
  destruct hint as [h|]; [|cbn; eauto]. specialize (Hh h eq_refl). destruct (Z.ltb_spec h gap) as [Hlt|]; [|cbn; eauto].
  destruct (Hw h) as [o ->]; [lia|]. cbn. case_bool_decide; cbn; eauto.
Qed.

(** A script of the window is found; under the hint of its own index, there. *)
Lemma find_index_found script d gap hint i :
  window_derives d gap → (∀ h, hint = Some h → 0 ≤ h) → derived_at d gap script i →
  ∃ j, find_index_matching script d gap hint = Ok (Some j).
Proof.
  intros Hw Hh (Hi & o & Ho & Hs). destruct (find_index_total script d gap hint Hw Hh) as [[j|] Hr]; [eauto|].
  pose proof (find_index_spec _ _ _ _ _ Hh Hr) as Hn. destruct (Hn i Hi) as (o' & Ho' & Hne). congruence.
Qed.
Lemma find_index_hinted script d gap i :
  derived_at d gap script i → find_index_matching script d gap (Some i) = Ok (Some i).
Proof.
  intros ([_ Hi] & o & Ho & Hs). unfold find_index_matching. rewrite (proj2 (Z.ltb_lt _ _) Hi), Ho. cbn.
  by rewrite bool_decide_true.
Qed.

Lemma matches_any_derived_complete script receive change gap hint :
  window_derives receive gap → (∀ chg, change = Some chg → window_derives chg gap) →
  (∀ h, hint = Some h → 0 ≤ h) → owned receive change gap script →
  matches_any_derived script receive change gap hint = Ok true.
Proof.
  intros Hr Hc Hh (d & i & Hd & Hi). unfold matches_any_derived.
  destruct (find_index_total script receive gap hint Hr Hh) as [r Hfr]. rewrite Hfr. cbn [mbind res_bind].
  destruct r as [j|]; [done|]. cbn. destruct Hd as [->|Hd].
  - destruct (find_index_found script receive gap hint i Hr Hh Hi) as [j Hj]. congruence.
  - rewrite Hd. destruct (find_index_found script d gap hint i (Hc d Hd) Hh Hi) as [j ->]. done.
Qed.

Lemma check_v2_complete p receive change policy :
  psbt_wf p → window_derives receive (gap_limit policy) → (∀ chg, change = Some chg → window_derives chg (gap_limit policy)) →
  Forall (λ x, ∃ utxo, witness_utxo x = Some utxo ∧ owned receive change (gap_limit policy) (txo_script utxo)) (psbt_inputs p) →
  check_v2 p receive change policy = Ok tt.
Proof.
  intros (_ & Hwf & _) Hr Hc H. apply for_eachi_Ok. intros k x Hx.
  eapply Forall_lookup_1 in H as (u & Hu & Ho); [|exact Hx]. eapply Forall_lookup_1 in Hwf as [Hd _]; [|exact Hx].
  rewrite Hu. cbn [expect mbind res_bind]. rewrite matches_any_derived_complete; try done.
  intros h. by apply hint_nonneg.
Qed.

(** ** Change outputs *)

(** Entries that end in [Normal idx] hint at [idx]. *)
Lemma hint_loop_same l idx h :
  Forall (λ e, last e.2.2 = Some (Normal idx)) l → (h = None ∨ h = Some idx) →
  hint_loop l h = Some (if decide (l = []) then h else Some idx).
Proof.
  intros Hl. revert h. induction Hl as [|[pk [fp path]] l He Hl IH]; intros h Hh; [by destruct h|].
  cbn in He. cbn [hint_loop]. rewrite He. destruct Hh as [-> | ->].
  - rewrite IH by auto. cbn. by case_decide.
  - rewrite Z.eqb_refl. cbn. rewrite IH by auto. by case_decide.
Qed.
Lemma hint_same l idx :
  l ≠ [] → Forall (λ e, last e.2.2 = Some (Normal idx)) l → bip32_index_hint l = Some idx.
Proof.
  intros Hne Hl. unfold bip32_index_hint. rewrite (hint_loop_same l idx None Hl) by auto.
  rewrite decide_False by done. cbn. by destruct l.
Qed.

Lemma entry_bound_last chg idx e : entry_bound chg idx e → last e.2.2 = Some (Normal idx).
Proof.
  intros (key & _ & _ & H). unfold change_path in H. apply fmap_Some in H as (o & _ & ->).
  by rewrite last_app.
Qed.
End Search.

Section Change.
Context `{hashes : Hashes, secp : Secp, codec : Codec}.

Lemma path_is_change_at_complete path key idx :
  origin_path key ∈ origin_paths → starts_with (str "m/") (origin_path key) = false →
  change_path key idx = Some path → path_is_change_at path key idx = Ok true.
Proof.
  intros Ho%origin_paths_render Hm H. unfold change_path in H. apply fmap_Some in H as (o & Hor & ->).
  unfold origin_renders in Ho. rewrite Hor in Ho. bool_simp.
  destruct o as [|o0 [|o1 [|o2 [|o3 [|]]]]]; try done. unfold path_is_change_at, index, origin_matches_prefix. cbn.
  rewrite Z.eqb_refl, Hor. cbn. by rewrite !bool_decide_true.
Qed.

(** Three distinct fingerprints in the map leave none to share in the
    descriptor, so that every fingerprint finds its own key. *)
Lemma fingerprints_distinct chg idx (l : list (bytes * KeySource)) :
  length l = 3%nat → NoDup (map (λ e, e.2.1) l) → Forall (entry_bound chg idx) l →
  NoDup (map fingerprint (desc_keys chg)).
Proof.
  intros Hl Hn Hb. assert (map (λ e, e.2.1) l ≡ₚ map fingerprint (desc_keys chg)) as <-; [|done].
  apply NoDup_same_elements; [done|by rewrite !length_map, Hl|].
  intros fp (e & -> & He)%list_elem_of_fmap. rewrite Forall_forall in Hb. destruct (Hb e He) as (key & Hk & <- & _).
  by apply list_elem_of_fmap_2.
Qed.
Lemma key_expr_found chg key :
  NoDup (map fingerprint (desc_keys chg)) → key ∈ desc_keys chg →
  key_expr_for_fingerprint chg (fingerprint key) = Some key.
Proof.
  unfold key_expr_for_fingerprint. induction (desc_keys chg) as [|k l IH]; cbn; [set_solver|].
  intros [Hk Hn]%NoDup_cons [<-|Hin]%elem_of_cons; [by rewrite bool_decide_true|].
  rewrite bool_decide_false; [by auto|]. intros He. apply Hk. rewrite He. by apply list_elem_of_fmap_2.
Qed.

Lemma v4_loop_complete chg idx l st :
  origins_ok chg → plain_origins chg → NoDup (map fingerprint (desc_keys chg)) → Forall (entry_bound chg idx) l →
  NoDup (map (λ e, e.2.1) l) → (∀ e, e ∈ l → e.2.1 ∉ st.1) →
  ∃ fps, fold_res (v4_entry chg idx) st l = Ok (fps, st.2 ++ l.*1).
Proof.
  intros Ho Hm Hd Hl. revert st. induction Hl as [|[pk [fp path]] l (key & Hk & Hfp & Hp) Hl IH]; intros [fps pks] Hn Hf.
  { exists fps. cbn. by rewrite app_nil_r. }
  cbn [fst snd] in Hfp, Hp. subst fp. apply NoDup_cons in Hn as [Hnew Hn].
  cbn [fold_res v4_entry fst snd].
  assert (bset_contains fps (fingerprint key) = false) as ->.
  { apply not_true_iff_false. rewrite bset_contains_spec. apply (Hf _ (list_elem_of_here _ _)). }
  rewrite key_expr_found by done. cbn [ok_or mbind res_bind].
  unfold origins_ok in Ho. unfold plain_origins in Hm. rewrite Forall_forall in Ho. rewrite Forall_forall in Hm.
  rewrite path_is_change_at_complete by auto. cbn [mbind res_bind negb].
  destruct (IH (bset_insert (fingerprint key) fps, pks ++ [pk])) as [fps' Hr]; [done|..].
  - intros e He. cbn. rewrite elem_of_bset_insert. intros [Heq|Hin]; [|by apply (Hf e); [by right|]].
    apply Hnew. cbn. rewrite <-Heq. by apply (list_elem_of_fmap_2 (λ e, e.2.1) l e).
  - exists fps'. rewrite Hr. cbn. by rewrite <-app_assoc.
Qed.

Lemma check_v4_complete output chg idx o :
  origins_ok chg → plain_origins chg → v4_ok output chg idx o → check_v4_change output chg idx = Ok tt.
Proof.
  intros Ho Hm [Hd Hl Hn Hb Hk]. unfold check_v4_change. rewrite Hd. cbn [map_err mbind res_bind].
  rewrite Hl. cbn [Nat.eqb negb].
  destruct (v4_loop_complete chg idx (out_bip32_derivation output) ([], [])) as [fps ->]; try done.
  { by eapply fingerprints_distinct. }
  { set_solver. }
  cbn [mbind res_bind app snd]. rewrite bool_decide_true.
  2:{ apply bset_ext; [apply bset_of_list_wf..|]. intros x. by rewrite !elem_of_bset_of_list, Hk. }
  cbn [negb]. destruct (out_bip32_derivation output) as [|e0 [|e1 [|e2 [|]]]]; done.
Qed.

(** An output that may pass, with what it is classified as. *)
Definition classified (policy : VerifyPolicy) (o : TxOut) : ClassifiedOutput :=
  mkClassified (negb (declared_output policy o)) (txo_value o)
    (default [] (address_of_script (txo_script o) (policy_network policy))).

Lemma classify_output_iff p change policy i o c :
  psbt_wf p → length (psbt_outputs p) = length (tx_output (unsigned_tx p)) → tx_output (unsigned_tx p) !! i = Some o →
  (∀ chg, change = Some chg → origins_ok chg ∧ plain_origins chg ∧ window_derives chg (gap_limit policy)) →
  classify_output p change policy i o = Ok c ↔
  c = classified policy o ∧ is_Some (address_of_script (txo_script o) (policy_network policy)) ∧
  (declared_output policy o = true ∨ change_output p change policy i (txo_script o)).
Proof.
  intros Hwf Hlen Hi Hc. unfold classified, declared_output. split.
  - intros H. pose proof (classify_output_Ok _ _ _ _ _ _ Hwf ltac:(intros chg Hchg; by destruct (Hc chg Hchg)) H)
      as (Hv & Ha & Hcl). rewrite Ha. split_and!; [|done|].
    + unfold classify_output, address_from_script in H. rewrite Ha in H. cbn in H. if_inv H E; [by injection H as <-|].
      do 4 (let y := fresh in apply bind_Ok in H as (y & _ & H)). by apply bind_Ok in H as ([] & _ & [= <-]).
    + destruct (is_change c); [by right|left]. apply existsb_exists. destruct Hcl as (r & Hr%list_elem_of_In & He). eauto.
  - intros (-> & [a Ha] & H). unfold classify_output, address_from_script. rewrite Ha in *. cbn [ok_or mbind res_bind default].
    destruct (existsb _ _) eqn:E; [done|]. destruct H as [|(chg & idx & output & o' & -> & Hout & Hidx & Hv4 & Hs)]; [done|].
    cbn [ok_or mbind res_bind]. unfold index. rewrite Hout. cbn [expect mbind res_bind].
    destruct (Hc chg eq_refl) as (Ho & Hm & Hw).
    rewrite (hint_same _ idx).
    + rewrite find_index_hinted. 2:{ split; [done|]. exists o'. split; [|done]. by apply v4_derived in Hv4. }
      cbn [mbind res_bind ok_or]. by rewrite (check_v4_complete _ _ _ o').
    + intros Hn. destruct Hv4 as [_ Hl _ _ _]. by rewrite Hn in Hl.
    + eapply Forall_impl; [by eapply v4_bound|]. intros e. apply entry_bound_last.
Qed.

Lemma fold_resi_push_map {E A B} (f : nat → A → res E B) (g : A → B) acc i l :
  (∀ k x, l !! k = Some x → f (i + k)%nat x = Ok (g x)) →
  fold_resi (λ acc i x, c ← f i x; Ok (acc ++ [c])) acc i l = Ok (acc ++ map g l).
Proof.
  revert acc i. induction l as [|x l IH]; intros acc i Hf; cbn [fold_resi map]; [by rewrite app_nil_r|].
  specialize (Hf O x eq_refl) as H0. rewrite Nat.add_0_r in H0. rewrite H0. cbn [mbind res_bind].
  rewrite IH; [by rewrite <-app_assoc|]. intros k y Hy. rewrite Nat.add_succ_comm. by apply (Hf (S k)).
Qed.

Lemma classify_outputs_iff p change policy cs :
  psbt_wf p → length (psbt_outputs p) = length (tx_output (unsigned_tx p)) →
  (∀ chg, change = Some chg → origins_ok chg ∧ plain_origins chg ∧ window_derives chg (gap_limit policy)) →
  classify_outputs p change policy = Ok cs ↔
  cs = map (classified policy) (tx_output (unsigned_tx p)) ∧
  ∀ i o, tx_output (unsigned_tx p) !! i = Some o →
    is_Some (address_of_script (txo_script o) (policy_network policy)) ∧
    (declared_output policy o = true ∨ change_output p change policy i (txo_script o)).
Proof.
  intros Hwf Hlen Hc. split.
  - intros (cs' & Hcs & H)%fold_resi_push. cbn in Hcs. subst cs'.
    assert (∀ i o, tx_output (unsigned_tx p) !! i = Some o → ∃ c, cs !! i = Some c ∧ classify_output p change policy i o = Ok c) as Hl.
    { intros i o Ho. eapply Forall2_lookup_l in H as (c & Hcc & Hf); [|rewrite list_lookup_imap, Ho; done]. by exists c. }
    split.
    + apply Forall2_length in H. rewrite length_imap in H. apply list_eq. intros i.
      rewrite (list_lookup_fmap (classified policy)). destruct (tx_output (unsigned_tx p) !! i) as [o|] eqn:Eo; cbn.
      * destruct (Hl i o Eo) as (c & -> & Hcl). by apply classify_output_iff in Hcl as [-> _].
      * apply lookup_ge_None in Eo. apply lookup_ge_None. lia.
    + intros i o Ho. destruct (Hl i o Ho) as (c & _ & Hcl). by apply classify_output_iff in Hcl as [_ ?].
  - intros [-> H]. apply (fold_resi_push_map (classify_output p change policy) _ []). intros i o Ho.
    apply classify_output_iff; auto.
Qed.
End Change.

(** ** Sums and signatures *)

Lemma fold_checked_total {E A} (f : A → res E Z) (g : A → Z) (e : E) (step : Z → A → res E Z) l :
  (∀ acc x, x ∈ l → step acc x = v ← f x; ok_or (checked_add acc v) e) →
  (∀ x, x ∈ l → f x = Ok (g x) ∧ 0 ≤ g x) → sum_Z (map g l) ≤ u64_max →
  fold_res step 0 l = Ok (sum_Z (map g l)).
Proof.
  intros Hs Hf Hm. apply (checked_sum_spec f e); [done|]. exists (map g l). split_and!; [| |lia].
  - clear -Hf. induction l as [|x l IH]; constructor; [apply Hf; set_solver|]. apply IH. set_solver.
  - apply sums_fit_total; [|lia]. apply Forall_map, Forall_forall. intros x Hx. by apply Hf.
Qed.

Section Sums.
Context `{hashes : Hashes, secp : Secp, codec : Codec}.

Lemma total_out_nonneg p : psbt_wf p → 0 ≤ total_out p.
Proof.
  intros [Hw _]. apply sum_Z_nonneg, Forall_map. eapply Forall_impl; [exact Hw|]. cbn. unfold txout_wf. intros. mlia.
Qed.

Lemma check_v5_iff p policy fee rate :
  psbt_wf p → Forall (λ i, is_Some (witness_utxo i)) (psbt_inputs p) →
  check_v5 p policy = Ok (fee, rate) ↔
  fee = fee_of p ∧ rate = feerate_of p ∧ total_in p ≤ u64_max ∧ 0 < fee_of p ≤ max_absolute_fee policy ∧
  (∀ z, declared_fee_sats policy = Some z → fee_of p = z) ∧ feerate_of p ≤ max_feerate policy.
Proof.
  intros Hwf H9. unfold feerate_of, fee_of. split.
  - intros (Hc & Hm & Hf & Hd & -> & Hr)%check_v5_Ok. replace (total_in p - total_out p) with fee by lia. done.
  - intros (-> & -> & Hm & Hf & Hd & Hr). unfold check_v5. destruct Hwf as (Hwo & Hwi & _).
    rewrite (fold_checked_total (λ x, u ← expect (witness_utxo x); Ok (txo_value u)) input_value FeeNonPositive); [|..|exact Hm].
    2:{ intros acc x _. by destruct (witness_utxo x). }
    2:{ intros x Hx. unfold input_value. rewrite Forall_forall in H9. destruct (H9 x Hx) as [u Hu]. rewrite Hu.
        rewrite Forall_forall in Hwi. destruct (Hwi x Hx) as [_ Hu']. specialize (Hu' u Hu). split; [done|].
        unfold txout_wf in Hu'. mlia. }
    fold (total_in p). cbn [mbind res_bind].
    rewrite (fold_checked_total (λ o, Ok (txo_value o)) txo_value FeeNonPositive); [|done|..].
    2:{ intros x Hx. rewrite Forall_forall in Hwo. specialize (Hwo x Hx). unfold txout_wf in Hwo. split; [done|mlia]. }
    2:{ fold (total_out p). lia. }
    fold (total_out p). cbn [mbind res_bind]. rewrite (proj2 (checked_sub_Some _ _ (total_in p - total_out p))) by lia.
    cbn [ok_or mbind res_bind]. rewrite (proj2 (Z.eqb_neq _ _)) by lia. rewrite (proj2 (Z.ltb_ge _ _)) by lia.
    destruct (declared_fee_sats policy) as [z|]; cbn [mbind res_bind];
      [rewrite (Hd z eq_refl), Z.eqb_refl; cbn [negb mbind res_bind]; rewrite <-(Hd z eq_refl)|];
      by rewrite (proj2 (Z.ltb_ge _ _)) by lia.
Qed.

Lemma classified_sums (policy : VerifyPolicy) l :
  sum_where false (map (classified policy) l) = sum_Z (map txo_value (List.filter (declared_output policy) l)) ∧
  sum_where true (map (classified policy) l) = sum_Z (map txo_value (List.filter (λ o, negb (declared_output policy o)) l)).
Proof.
  unfold sum_where. induction l as [|o l [IH1 IH2]]; [done|]. cbn [map List.filter is_change classified].
  destruct (declared_output policy o); cbn; by rewrite ?IH1, ?IH2.
Qed.

Lemma check_v6_iff p policy :
  psbt_wf p → total_out p ≤ u64_max →
  check_v6 (map (classified policy) (tx_output (unsigned_tx p))) policy = Ok tt ↔ paid policy p = declared_amount_sats policy.
Proof.
  intros [Hw _] Hle. set (cs := map _ _).
  assert (Forall (λ c, 0 ≤ amount_sats c) cs) as Hp.
  { apply Forall_map. eapply Forall_impl; [exact Hw|]. cbn. unfold txout_wf. intros. mlia. }
  assert (sum_where false cs = paid policy p) as Hs by apply classified_sums.
  pose proof (sum_where_split cs) as Hsp. unfold cs in Hsp. rewrite map_map in Hsp. fold cs in Hsp.
  change (sum_where false cs + sum_where true cs = total_out p) in Hsp.
  pose proof (sum_where_nonneg true cs Hp). split; [rewrite <-Hs; apply check_v6_Ok; [done|lia]|].
  intros Hd. unfold check_v6. cbv zeta.
  rewrite (List.filter_ext _ (λ c, eqb (is_change c) false)) by (by intros [[] ? ?]).
  rewrite sat_sum_spec.
  - fold (sum_where false cs). rewrite Hs, Hd, Z.min_l, Z.eqb_refl by lia. done.
  - apply Forall_map. rewrite Forall_forall in Hp |- *. intros c [Hc _]%list_elem_of_In%filter_In. by apply Hp, list_elem_of_In.
Qed.

Lemma check_v10_iff p : check_v10 p = Ok tt ↔ Forall sighash_ok (psbt_inputs p).
Proof.
  unfold check_v10. rewrite for_eachi_Ok, Forall_lookup. apply forall_proper. intros i. apply forall_proper. intros x.
  apply forall_proper. intros _. unfold sighash_ok, is_sighash_all. split.
  - intros ([] & Hs & H)%bind_Ok. rewrite for_each_Ok in H. split.
    + intros z Hz. rewrite Hz in Hs. if_inv Hs E. bool_simp. destruct (ecdsa_hash_ty z) as [[]|]; done.
    + apply Forall_forall. intros e He. specialize (H e He). cbv zeta in H. if_inv H E1. if_inv H E2. by bool_simp.
  - intros [Hs H]. destruct (sighash_type x) as [z|]; [rewrite (Hs z eq_refl)|]; cbn [negb mbind res_bind];
      apply for_each_Ok; intros e He; rewrite Forall_forall in H; destruct (H e He) as [H1 H2];
      by rewrite !bool_decide_true.
Qed.
End Sums.

(** ** The verifier decides the specification *)

Section Decides.
Context `{hashes : Hashes, secp : Secp, codec : Codec}.

(** With no recipient declared, no output is a recipient's. *)
Lemma verdict_fold_recipient (policy : VerifyPolicy) l a c r :
  declared_recipients policy = [] → (foldl verdict_step (a, c, r) (map (classified policy) l)).2 = r.
Proof.
  intros Hd. revert a c. induction l as [|o l IH]; intros a c; [done|]. cbn.
  assert (declared_output policy o = false) as -> by (unfold declared_output; rewrite Hd; by case_match). cbn. apply IH.
Qed.

Lemma verdict_fold_classified p policy :
  psbt_wf p → total_out p ≤ u64_max →
  ∃ r, foldl verdict_step (0, 0, []) (map (classified policy) (tx_output (unsigned_tx p))) =
    (paid policy p, returned policy p, r) ∧
    match declared_recipients policy with decl :: _ => decl | [] => r end = default [] (head (declared_recipients policy)).
Proof.
  intros [Hw _] Hle. set (cs := map _ _).
  assert (Forall (λ c, 0 ≤ amount_sats c) cs) as Hp.
  { apply Forall_map. eapply Forall_impl; [exact Hw|]. cbn. unfold txout_wf. intros. mlia. }
  pose proof (sum_where_split cs) as Hsp. unfold cs in Hsp. rewrite map_map in Hsp. fold cs in Hsp.
  change (sum_where false cs + sum_where true cs = total_out p) in Hsp.
  pose proof (sum_where_nonneg true cs Hp). pose proof (sum_where_nonneg false cs Hp).
  destruct (verdict_fold cs 0 0 [] Hp) as [r Hr]; [unfold u64_max; lia..|lia|lia|]. exists r. split.
  - rewrite Hr. destruct (classified_sums policy (tx_output (unsigned_tx p))) as [H1 H2]. fold cs in H1, H2. by rewrite H1, H2.
  - destruct (declared_recipients policy) as [|x l] eqn:Ed; [|done]. cbn [head default].
    pose proof (verdict_fold_recipient policy (tx_output (unsigned_tx p)) 0 0 [] Ed) as Hq. fold cs in Hq. by rewrite Hr in Hq.
Qed.

Lemma check_v7_v2_iff p receive change policy :
  psbt_wf p → length (psbt_inputs p) = length (tx_input (unsigned_tx p)) →
  window_derives receive (gap_limit policy) → (∀ chg, change = Some chg → window_derives chg (gap_limit policy)) →
  check_v7 p policy = Ok tt ∧ check_v2 p receive change policy = Ok tt ↔
  Forall2 (own_coin receive change policy) (tx_input (unsigned_tx p)) (psbt_inputs p).
Proof.
  intros Hwf Hl Hr Hc. split.
  - intros [H7 H2]. apply check_v2_Ok in H2; [|done]. apply Forall2_same_length_lookup. split; [done|].
    intros i t x Ht Hx. destruct (check_v7_Ok _ _ H7 i t x Ht Hx) as (u & Hu & Hk).
    eapply Forall_lookup_1 in H2 as (u' & Hu' & Ho); [|exact Hx]. exists u. split_and!; [done..|]. congruence.
  - intros H. split.
    + apply check_v7_complete. eapply Forall2_impl; [exact H|]. intros t x (u & ? & ? & _). eauto.
    + apply check_v2_complete; [done..|]. apply Forall_lookup. intros i x Hx.
      destruct (Forall2_lookup_r _ _ _ _ _ H Hx) as (t & _ & u & ? & _ & ?). eauto.
Qed.

Lemma parse_change_eq policy change :
  match change_descriptor policy with Some s => ∃ d, parse s = Ok d ∧ change = Some d | None => change = None end →
  match change_descriptor policy with Some s => Some <$> map_err VDescriptor (parse s) | None => Ok None end = Ok change.
Proof. destruct (change_descriptor policy) as [s|]; [|by intros ->]. intros (d & Hd & ->). by rewrite Hd. Qed.

(** Every honest spend passes. *)
Lemma verify_complete p descriptor policy receive change :
  psbt_wf p → parse descriptor = Ok receive →
  match change_descriptor policy with Some s => ∃ d, parse s = Ok d ∧ change = Some d | None => change = None end →
  window_derives receive (gap_limit policy) →
  (∀ chg, change = Some chg → plain_origins chg ∧ window_derives chg (gap_limit policy)) →
  acceptable p receive change policy → verify p descriptor policy = Ok (verdict_of p policy).
Proof.
  intros Hwf Hr Hch%parse_change_eq Hwr Hwc [H8 Hin Ho Hm Hf Hd Hrt Ha H10]. unfold verify. rewrite Hr, Hch.
  cbn [map_err mbind res_bind]. apply parse_change_Ok in Hch as (_ & _ & Hor).
  assert (Forall (λ i, is_Some (witness_utxo i)) (psbt_inputs p)) as H9.
  { apply Forall_lookup. intros i x Hx. destruct (Forall2_lookup_r _ _ _ _ _ Hin Hx) as (t & _ & u & -> & _). done. }
  apply check_v7_v2_iff in Hin as [H7 H2]; [|done|by apply sh_inputs|done|intros chg Hchg; by destruct (Hwc chg Hchg)].
  assert (total_out p ≤ u64_max) as Hto by (unfold fee_of in Hf; lia).
  rewrite (proj2 (check_v8_iff p)), (proj2 (check_v9_iff p)) by done. cbn [mbind res_bind]. rewrite H7, H2. cbn [mbind res_bind].
  rewrite (proj2 (classify_outputs_iff p change policy _ Hwf (sh_outputs _ H8)
    ltac:(intros chg Hchg; destruct (Hwc chg Hchg); auto))) by done. cbn [mbind res_bind].
  rewrite (proj2 (check_v5_iff p policy (fee_of p) (feerate_of p) Hwf H9)) by done. cbn [mbind res_bind].
  rewrite (proj2 (check_v6_iff p policy Hwf Hto)), (proj2 (check_v10_iff p)) by done. cbn [mbind res_bind].
  destruct (verdict_fold_classified p policy Hwf Hto) as (r & -> & Hrec). cbv zeta. by rewrite Hrec.
Qed.

(** C2: the verifier decides the specification. For descriptors that parse,
    with a change origin written without [m/] and windows that can be derived,
    [verify] returns a verdict exactly on the [acceptable] PSBTs, and the
    verdict is the one they determine: every honest spend passes, whatever the
    order of the checks, the index hints and the saturation of the sums. *)
Theorem verify_decides p descriptor policy receive change v :
  psbt_wf p → parse descriptor = Ok receive →
  match change_descriptor policy with Some s => ∃ d, parse s = Ok d ∧ change = Some d | None => change = None end →
  window_derives receive (gap_limit policy) →
  (∀ chg, change = Some chg → plain_origins chg ∧ window_derives chg (gap_limit policy)) →
  verify p descriptor policy = Ok v ↔ acceptable p receive change policy ∧ v = verdict_of p policy.
Proof.
  intros Hwf Hr Hc Hwr Hwc. split; [|intros [Ha ->]; by apply (verify_complete p descriptor policy receive change)].
  pose proof (parse_change_eq _ _ Hc) as Hch. unfold verify. rewrite Hr, Hch. cbn [map_err mbind res_bind].
  apply parse_change_Ok in Hch as (_ & _ & Hor).
  intros ([] & H8%check_v8_iff & ([] & H9%check_v9_iff & ([] & H7 & ([] & H2 & (cs & Hcs & H)%bind_Ok)%bind_Ok)%bind_Ok)%bind_Ok)%bind_Ok.
  apply classify_outputs_iff in Hcs as [-> Ho]; [|done|by apply sh_outputs|intros chg Hchg; destruct (Hwc chg Hchg); auto].
  apply bind_Ok in H as ([fee rate] & (-> & -> & Hm & Hf & Hd & Hrt)%check_v5_iff & H); [|done..].
  apply bind_Ok in H as ([] & H6 & ([] & H10%check_v10_iff & H)%bind_Ok).
  assert (total_out p ≤ u64_max) as Hto by (unfold fee_of in Hf; lia). apply check_v6_iff in H6; [|done..].
  destruct (verdict_fold_classified p policy Hwf Hto) as (r & Hfold & Hrec). rewrite Hfold in H. cbv zeta in H.
  rewrite Hrec in H. injection H as <-. split; [|done]. split; try done.
  apply check_v7_v2_iff; try done; [by apply sh_inputs|intros chg Hchg; by destruct (Hwc chg Hchg)].
Qed.
End Decides.

(** ** Origins written with a leading [m/] *)

Section MPrefix.
Context `{hashes : Hashes, secp : Secp, codec : Codec}.

(** The same descriptor, each origin path [o] written [m/o]. *)
Definition m_origin (k : KeyExpr) : KeyExpr :=
  mkKeyExpr (fingerprint k) (str "m/" ++ origin_path k) (xpub k) (derivation k).
Definition m_origins (d : ParsedDescriptor) : ParsedDescriptor :=
  mkDescriptor (desc_k d) (m_origin (key0 d)) (m_origin (key1 d)) (m_origin (key2 d)).
Definition with_change_descriptor (s : bytes) (policy : VerifyPolicy) : VerifyPolicy :=
  mkPolicy (declared_recipients policy) (declared_amount_sats policy) (max_absolute_fee policy) (max_feerate policy)
    (declared_fee_sats policy) (gap_limit policy) (known_utxos policy) (Some s) (policy_network policy).

(** The parser reads it. *)
Lemma m_origin_path o : o ∈ origin_paths → starts_with (str "m/") o = false → str "m/" ++ o ∈ origin_paths.
Proof.
  assert (forallb (λ o, starts_with (str "m/") o || bool_decide (str "m/" ++ o ∈ origin_paths)) origin_paths = true) as H
    by (vm_compute; reflexivity).
  rewrite forallb_forall in H. intros Ho%list_elem_of_In Hm. apply H in Ho. rewrite Hm in Ho.
  by apply (bool_decide_eq_true_1 (str "m/" ++ o ∈ origin_paths)).
Qed.
Lemma m_origins_parse s d :
  parse s = Ok d → plain_origins d → ∃ s', parse s' = Ok (m_origins d).
Proof.
  intros Hp Hm. pose proof (parse_charset _ _ Hp) as Hx.
  apply parse_accepts in Hp as (f0 & f1 & f2 & cs & _ & _ & _ & Hk & H0 & H1 & H2).
  unfold plain_origins, desc_keys in *. rewrite !Forall_cons in Hm. rewrite !Forall_cons in Hx. destruct_and!.
  assert (∀ f k, keyexpr_ok f k → starts_with (str "m/") (origin_path k) = false → keyexpr_ok f (m_origin k)) as Hok.
  { intros f k [? ? ? ? ?] ?. split; try done. by apply m_origin_path. }
  destruct (descriptor_roundtrip f0 f1 f2 (m_origins d)) as (s' & _ & Hs'); [|by repeat constructor|eauto].
  split_and!; [done|..]; by apply Hok.
Qed.

(** Derivation does not look at origins. *)
Lemma m_origins_derive d i : derive_at (m_origins d) i = derive_at d i.
Proof. reflexivity. Qed.
Lemma m_origins_find script d gap hint :
  find_index_matching script (m_origins d) gap hint = find_index_matching script d gap hint.
Proof.
  assert (∀ l, scan_indices script (m_origins d) hint l = scan_indices script d hint l) as Hs.
  { intros l. induction l as [|i l IH]; cbn [scan_indices]; [done|]. by rewrite IH, m_origins_derive. }
  unfold find_index_matching. rewrite Hs. destruct hint as [h|]; [|done]. by rewrite m_origins_derive.
Qed.
Lemma m_origins_v2 p receive d s policy :
  check_v2 p receive (Some d) policy = Ok tt →
  check_v2 p receive (Some (m_origins d)) (with_change_descriptor s policy) = Ok tt.
Proof.
  unfold check_v2. rewrite !for_eachi_Ok. intros H i x Hx. specialize (H i x Hx). revert H.
  destruct (witness_utxo x) as [u|]; [|done]. unfold matches_any_derived.
  cbn [gap_limit with_change_descriptor expect mbind res_bind].
  destruct (find_index_matching _ receive _ _) as [r| |]; [|done..]. cbn [mbind res_bind]. by rewrite m_origins_find.
Qed.

(** A key that V4 accepts for a path is the one that the prefixed descriptor
    also finds, and there the rendered origin [m/m/...] is not a path. *)
Lemma m_origins_key d fp key :
  key_expr_for_fingerprint d fp = Some key → key_expr_for_fingerprint (m_origins d) fp = Some (m_origin key).
Proof. unfold key_expr_for_fingerprint. cbn. by repeat (case_bool_decide; [by intros [= <-]|]). Qed.
Lemma m_origin_path_panics path key idx :
  origin_path (m_origin key) ∈ origin_paths → path_is_change_at path key idx = Ok true →
  path_is_change_at path (m_origin key) idx = Panic.
Proof.
  intros Hm%origin_paths_render H. unfold path_is_change_at in *. if_inv H E.
  apply bind_Ok in H as (p4 & -> & H). apply bind_Ok in H as (p5 & -> & H). cbn [mbind res_bind].
  destruct p4 as [b|]; [|done]. destruct p5 as [i|]; [|done]. if_inv H E2. unfold origin_matches_prefix.
  unfold origin_renders in Hm. destruct (DerivationPath_from_str _); [|done]. by rewrite andb_false_r in Hm.
Qed.
Lemma m_origins_v4_panics output d idx :
  origins_ok (m_origins d) → check_v4_change output d idx = Ok tt → check_v4_change output (m_origins d) idx = Panic.
Proof.
  intros Ho. unfold check_v4_change. rewrite m_origins_derive. intros (o & -> & H)%bind_Ok. cbn [mbind res_bind].
  if_inv H E. apply bind_Ok in H as (r & Hr & _).
  destruct (out_bip32_derivation output) as [|[pk [fp path]] l]; [done|]. cbn [fold_res] in *.
  apply bind_Ok in Hr as (st & H & _). unfold v4_entry in *. cbn [fst snd] in *. if_inv H E1.
  apply bind_Ok in H as (key & Hk%ok_or_Ok & H). apply bind_Ok in H as (ok & Hok & H). if_inv H E2. bool_simp. subst ok.
  pose proof (m_origins_key _ _ _ Hk) as Hk'. rewrite Hk'. cbn [ok_or mbind res_bind].
  apply key_expr_for_fingerprint_Some in Hk' as [Hin _]. unfold origins_ok in Ho. rewrite Forall_forall in Ho.
  by rewrite (m_origin_path_panics _ _ _ (Ho _ Hin) Hok).
Qed.

(** An output that went through as change makes the classification panic. *)
Lemma m_origins_classify p d s policy i o c :
  origins_ok (m_origins d) → classify_output p (Some d) policy i o = Ok c →
  classify_output p (Some (m_origins d)) (with_change_descriptor s policy) i o =
    if declared_output policy o then Ok c else Panic.
Proof.
  intros Ho. unfold classify_output, declared_output. intros (a & Ha & H)%bind_Ok.
  change (policy_network (with_change_descriptor s policy)) with (policy_network policy). rewrite Ha.
  apply ok_or_Ok in Ha. rewrite Ha. cbn [mbind res_bind].
  change (declared_recipients (with_change_descriptor s policy)) with (declared_recipients policy).
  destruct (existsb _ _); [done|]. cbn [ok_or mbind res_bind] in *. apply bind_Ok in H as (output & -> & H).
  cbn [mbind res_bind] in *. cbn zeta in *. rewrite m_origins_find. cbn [gap_limit with_change_descriptor].
  apply bind_Ok in H as (found & -> & H). cbn [mbind res_bind]. apply bind_Ok in H as (idx & -> & H). cbn [mbind res_bind].
  apply bind_Ok in H as ([] & H%map_err_Ok & _). by rewrite (m_origins_v4_panics _ _ _ Ho H).
Qed.

Lemma fold_resi_panics {E A B} (f g : nat → A → res E B) (P : A → bool) acc acc' i l r :
  (∀ k x c, l !! k = Some x → f (i + k)%nat x = Ok c → g (i + k)%nat x = if P x then Ok c else Panic) →
  fold_resi (λ acc i x, c ← f i x; Ok (acc ++ [c])) acc i l = Ok r → existsb (λ x, negb (P x)) l = true →
  fold_resi (λ acc i x, c ← g i x; Ok (acc ++ [c])) acc' i l = Panic.
Proof.
  revert acc acc' i. induction l as [|x l IH]; intros acc acc' i Hf; cbn [fold_resi existsb]; [done|].
  intros (a & (c & Hc & _)%bind_Ok & H)%bind_Ok. pose proof (Hf O x c eq_refl) as H0. rewrite Nat.add_0_r in H0.
  rewrite (H0 Hc). destruct (P x); cbn [negb orb mbind res_bind]; [|done]. intros He. eapply IH; [|exact H|exact He].
  intros k y d Hy. rewrite Nat.add_succ_comm. by apply (Hf (S k)).
Qed.

(** A change output that was accepted had all origins written plainly. *)
Lemma change_output_plain p d policy i script :
  origins_ok d → change_output p (Some d) policy i script → plain_origins d.
Proof.
  intros Ho (? & idx & output & o & [= <-] & _ & _ & [_ Hl Hn Hb _] & _).
  pose proof (fingerprints_distinct _ _ _ Hl Hn Hb) as Hd.
  assert (map (λ e, e.2.1) (out_bip32_derivation output) ≡ₚ map fingerprint (desc_keys d)) as Hp.
  { apply NoDup_same_elements; [done|by rewrite !length_map, Hl|].
    intros fp (e & -> & He)%list_elem_of_fmap. rewrite Forall_forall in Hb. destruct (Hb e He) as (key & Hk & <- & _).
    by apply list_elem_of_fmap_2. }
  unfold plain_origins, origins_ok in *. rewrite Forall_forall in Ho. rewrite Forall_forall in Hb.
  apply Forall_forall. intros key Hk.
  assert (fingerprint key ∈ map (λ e, e.2.1) (out_bip32_derivation output)) as (e & He & Hin)%list_elem_of_fmap
    by (rewrite Hp; by apply list_elem_of_fmap_2).
  destruct (Hb e Hin) as (key' & Hk' & Hfp & Hpath).
  assert (key' = key) as ->.
  { pose proof (key_expr_found d key Hd Hk) as H1. pose proof (key_expr_found d key' Hd Hk') as H2. congruence. }
  unfold change_path in Hpath. apply fmap_Some in Hpath as (or & Hor & _).
  pose proof (origin_paths_render _ (Ho _ Hk)) as Hr. unfold origin_renders in Hr. rewrite Hor in Hr. by bool_simp.
Qed.

(** C35: an origin with a leading [m/] passes the parser and aborts the
    verifier. Take any PSBT that [verify] accepts with a change output, and
    write the three origins [o] of the change descriptor as [m/o], which names
    the same keys: a text of that descriptor parses, and with every such text
    [verify] panics on the same PSBT, in V4, where the origin is rendered as
    [m/m/o], which is not a derivation path. *)
Theorem verify_panics_on_m_prefix p descriptor policy v s d i o :
  psbt_wf p → verify p descriptor policy = Ok v → change_descriptor policy = Some s → parse s = Ok d →
  tx_output (unsigned_tx p) !! i = Some o → declared_output policy o = false →
  (∃ s', parse s' = Ok (m_origins d)) ∧
  ∀ s', parse s' = Ok (m_origins d) → verify p descriptor (with_change_descriptor s' policy) = Panic.
Proof.
  intros Hwf H Hs Hd Ho Hdecl. unfold verify in *. apply bind_Ok in H as (receive & Hr & H).
  rewrite Hs, Hd in H. cbn [map_err fmap res_fmap mbind res_bind] in H.
  apply bind_Ok in H as ([] & H8 & H). apply bind_Ok in H as ([] & H9 & H). apply bind_Ok in H as ([] & H7 & H).
  apply bind_Ok in H as ([] & H2 & H). apply bind_Ok in H as (cs & Hcs & _).
  pose proof (parse_origins_ok _ _ Hd) as Hor. split.
  - apply (m_origins_parse s); [done|]. apply fold_resi_push in Hcs as (cs' & _ & Hcl).
    eapply Forall2_lookup_l in Hcl as (c & _ & Hc); [|rewrite list_lookup_imap, Ho; done]. cbn in Hc.
    apply classify_output_Ok in Hc as (_ & Ha & Hc); [|done|by intros ? [= <-]].
    destruct (is_change c); [by eapply change_output_plain|]. destruct Hc as (r & Hr'%list_elem_of_In & He).
    unfold declared_output in Hdecl. rewrite Ha in Hdecl. apply not_true_iff_false in Hdecl. destruct Hdecl.
    apply existsb_exists. eauto.
  - intros s' Hs'. rewrite Hr. cbn [change_descriptor with_change_descriptor mbind res_bind]. rewrite Hs'.
    cbn [map_err fmap res_fmap mbind res_bind]. rewrite H8, H9. cbn [mbind res_bind].
    change (check_v7 p (with_change_descriptor s' policy)) with (check_v7 p policy). rewrite H7.
    rewrite (m_origins_v2 _ _ _ s' _ H2). cbn [mbind res_bind].
    assert (classify_outputs p (Some (m_origins d)) (with_change_descriptor s' policy) = Panic) as ->; [|done].
    eapply (fold_resi_panics (classify_output p (Some d) policy) _ (declared_output policy)); [|exact Hcs|].
    + intros k x c _ Hc. apply m_origins_classify; [by eapply parse_origins_ok|done].
    + apply existsb_exists. exists o. split; [by apply list_elem_of_In, (list_elem_of_lookup_2 _ i)|by rewrite Hdecl].
Qed.
End MPrefix.
