(* ===== verification/Toy.v ===== *)
(** Concrete stand-ins for the cryptographic parameters.

    Executable functions that satisfy the laws the theorems assume, so that
    witnesses can run the wallet's code on concrete inputs. They model no real
    cryptography: hashes are a polynomial rolling hash, a public key is its
    secret key behind a tag byte, a signature is message and key side by side. *)
From S2P Require Import Prelude Ordered Types Bitcoin Checksum Parse Derive.

Module Toy.

Definition roll (l : bytes) : Z := foldl (λ acc b, (acc * 3 + b + 1) mod 65521) 7 l.
Definition toy_sha256 (l : bytes) : bytes := le_bytes 32 (roll l).

Definition hashes : Hashes := {|
  hmac_sha512 k m := toy_sha256 (k ++ m) ++ toy_sha256 (m ++ k);
  sha256 := toy_sha256
|}.

Definition add_bytes (a b : bytes) : bytes := 
  zip_with (λ x y, (x + y) mod 256) a (b ++ replicate (length a) 0).

Definition secp : Secp := {|
  pubkey_valid pk := (length pk =? 33)%nat && match pk with t :: _ => (t =? 2) || (t =? 3) | [] => false end;
  seckey_valid sk := (length sk =? 32)%nat;
  add_exp_tweak pk t := match pk with tag :: x => Some (tag :: add_bytes x t) | [] => None end;
  pubkey_of_seckey sk := 2 :: sk;
  sign_ecdsa_low_r msg sk := msg ++ sk;
  verify_ecdsa msg sig pk := bool_decide (sig = msg ++ drop 1 pk);
  normalize_s sig := sig
|}.

Definition flat_txin (i : TxIn) : bytes :=
  op_txid (previous_output i) ++ [op_vout (previous_output i); sequence i].
Definition flat_tx (t : Transaction) : bytes :=
  [tx_version t; tx_lock_time t] ++ concat (map flat_txin (tx_input t)) ++
  concat (map (λ o, txo_value o :: txo_script o) (tx_output t)).

(** Fourth character as key, fifth as chain code. *)
Definition toy_xpub (s : bytes) : option (bytes * bytes) :=
  match drop 4 s with
  | k :: c :: _ => Some (replicate 32 c, 2 :: replicate 32 k)
  | _ => None
  end.

Definition codec : Codec := {|
  xpub_from_str := toy_xpub;
  address_of_script s _ := Some (hex_encode s);
  compute_txid t := toy_sha256 (flat_tx t);
  tx_vsize t := 100 * Z.of_nat (length (tx_input t)) + 31 * Z.of_nat (length (tx_output t));
  p2wsh_signature_hash t i s v := Some (toy_sha256 (flat_tx t ++ [Z.of_nat i; v] ++ s));
  verify_script _ _ _ _ := true;
  serialize_der s := s
|}.

#[global] Instance toy_laws : @SecpLaws hashes secp codec.
Proof.
  split.
  - intros k m. cbn. rewrite length_app. unfold toy_sha256. by rewrite !length_le_bytes.
  - intros m. cbn. unfold toy_sha256. by rewrite length_le_bytes.
  - intros s c pk. cbn. unfold toy_xpub. destruct (drop 4 s) as [|k [|c' l]]; try done. by intros [= <- <-].
  - intros pk t q Hv. cbn in *. destruct pk as [|tag x]; [done|]. intros [= <-]. cbn [length] in *.
    unfold add_bytes. rewrite length_zip_with, length_app, length_replicate, Nat.min_l by lia. done.
  - intros pk Hv. cbn in Hv. bool_simp. split; [done|]. destruct pk as [|tag x]; [done|]. cbn in *.
    apply orb_true_iff in H0 as [?%Z.eqb_eq|?%Z.eqb_eq]; auto.
Qed.

(** ** A sample descriptor pair *)

Definition key (fp : Z) (origin x : bytes) (b : DerivationBranch) : KeyExpr :=
  mkKeyExpr [fp; 0; 0; 1] origin x b.
Definition desc (origin : bytes) (b : DerivationBranch) : ParsedDescriptor :=
  mkDescriptor 2 (key 10 origin (str "tpubA1x") b) (key 11 origin (str "tpubB2x") b) (key 12 origin (str "tpubC3x") b).
Definition origin : bytes := str "48'/1'/0'/2'".

Lemma key_ok fp x b o :
  o ∈ origin_paths → fp ∈ [10; 11; 12] → x ∈ [str "tpubA1x"; str "tpubB2x"; str "tpubC3x"] →
  @keyexpr_ok codec (to_hex [fp; 0; 0; 1]) (key fp o x b).
Proof.
  intros Ho Hf Hx. rewrite !elem_of_cons, elem_of_nil in Hf. rewrite !elem_of_cons, elem_of_nil in Hx.
  split; cbn -[origin_paths]; [|done|..].
  - destruct_or!; try done; subst; reflexivity.
  - right. destruct_or!; try done; subst; reflexivity.
  - destruct_or!; try done; subst; vm_compute; repeat constructor.
  - destruct_or!; try done; subst; vm_compute; by eexists.
Qed.

(** The descriptor string of [desc], checksummed. *)
Definition desc_string (o : bytes) (b : DerivationBranch) : bytes :=
  match create_checksum (render_body (to_hex [10; 0; 0; 1]) (to_hex [11; 0; 0; 1]) (to_hex [12; 0; 0; 1]) (desc o b)) with
  | Ok s => s
  | _ => []
  end.
Definition derived (o : bytes) (b : DerivationBranch) (i : Z) : DerivedOutput :=
  match @derive_at hashes secp codec (desc o b) i with
  | Ok d => d
  | _ => mkOutput [] [] [] []
  end.

Lemma descriptor_roundtrip_witness :
  ∃ s, create_checksum (render_body (to_hex [10; 0; 0; 1]) (to_hex [11; 0; 0; 1]) (to_hex [12; 0; 0; 1])
         (desc origin External)) = Ok s ∧ @parse codec s = Ok (desc origin External).
Proof.
  apply (@descriptor_roundtrip codec).
  - assert (origin ∈ origin_paths) by (apply (bool_decide_eq_true_1 _); vm_compute; reflexivity).
    split_and!; [done|..]; apply key_ok; first [done|repeat constructor].
  - repeat (constructor; [vm_compute; reflexivity|]). constructor.
Defined.

End Toy.
