(* ===== verification/VerifySamples.v ===== *)
(** Concrete runs of the verifier.

    A spend of one coin to one recipient with change, verified end to end with
    the stand-in cryptography of [Toy]; the hypotheses of the verifier's
    theorems hold on it. *)
From S2P Require Import Prelude Ordered Types Bitcoin Checksum Parse Derive Verify Accept Toy.
Import Toy.
#[local] Existing Instances hashes secp codec.

Definition coin : OutPoint := mkOutPoint (replicate 32 7) 1.
Definition coin_utxo (o : bytes) : TxOut := mkTxOut 100000 (do_script_pubkey (derived o External 0)).
Definition recipient_script : bytes := [0; 1; 2].

Definition change_path_of (idx : Z) : DerivationPath :=
  [Hardened 48; Hardened 1; Hardened 0; Hardened 2; Normal 1; Normal idx].
Definition change_map (o : bytes) (idx : Z) : list (bytes * KeySource) :=
  map (λ c, (dc_public_key c, (dc_fingerprint c, change_path_of idx))) (children (derived o Internal idx)).

Definition sample_tx (o : bytes) : Transaction :=
  mkTransaction 2 0 [mkTxIn coin [] 0xfffffffd []]
    [mkTxOut 60000 recipient_script; mkTxOut 39000 (do_script_pubkey (derived o Internal 2))].
Definition sample_psbt (o : bytes) : Psbt :=
  mkPsbt (sample_tx o)
    [mkPsbtInput None (Some (coin_utxo o)) [] None None [] None None []]
    [mkPsbtOutput [] []; mkPsbtOutput (change_map o 2) []] [].
Definition sample_policy (o : bytes) : VerifyPolicy :=
  mkPolicy [hex_encode recipient_script] 60000 5000 50 None 5
    {[coin := coin_utxo o]} (Some (desc_string o Internal)) Testnet.

Notation run_sample o := (@verify hashes secp codec (sample_psbt o) (desc_string o External) (sample_policy o)).

Definition sample_verdict : PsbtVerdict := mkVerdict true (hex_encode recipient_script) 60000 39000 1000 7.

Lemma run_ok : run_sample origin = Ok sample_verdict.
Proof. vm_compute. reflexivity. Qed.

Lemma forallb_Forall {A} (f : A → bool) (P : A → Prop) l :
  (∀ x, f x = true → P x) → forallb f l = true → Forall P l.
Proof. intros Hf. rewrite forallb_forall, Forall_forall. intros H x Hx%list_elem_of_In. auto. Qed.

Definition child_ok (c : ChildNumber) : bool :=
  match c with Normal i | Hardened i => (0 <=? i) && (i <? 2 ^ 31) end.
Lemma child_ok_wf c : child_ok c = true → child_wf c.
Proof. unfold child_ok, child_wf. destruct c; intros; bool_simp; lia. Qed.

(** [psbt_wf], decided. *)
Definition txout_okb (o : TxOut) : bool := (0 <=? txo_value o) && (txo_value o <=? u64_max).
Definition derivations_okb (l : list (bytes * KeySource)) : bool :=
  forallb (λ e, forallb child_ok e.2.2) l && bool_decide (NoDup l.*1).
Definition psbt_okb (p : Psbt) : bool :=
  forallb txout_okb (tx_output (unsigned_tx p)) &&
  forallb (λ i, derivations_okb (in_bip32_derivation i) && match witness_utxo i with Some o => txout_okb o | None => true end)
    (psbt_inputs p) &&
  forallb (λ o, derivations_okb (out_bip32_derivation o)) (psbt_outputs p).

Lemma derivations_okb_wf l : derivations_okb l = true → derivations_wf l.
Proof.
  unfold derivations_okb. intros [H Hn%bool_decide_eq_true]%andb_prop. split; [|done].
  revert H. apply forallb_Forall. intros e. apply forallb_Forall, child_ok_wf.
Qed.
Lemma txout_okb_wf o : txout_okb o = true → txout_wf o.
Proof. unfold txout_okb. intros. bool_simp. done. Qed.
Lemma psbt_okb_wf p : psbt_okb p = true → psbt_wf p.
Proof.
  unfold psbt_okb. intros [[H1 H2]%andb_prop H3]%andb_prop. split_and!.
  - revert H1. apply forallb_Forall, txout_okb_wf.
  - revert H2. apply forallb_Forall. intros i [Hd%derivations_okb_wf Ho]%andb_prop. split; [done|].
    intros o Hi. rewrite Hi in Ho. by apply txout_okb_wf.
  - revert H3. apply forallb_Forall. intros o. apply derivations_okb_wf.
Qed.

Lemma sample_psbt_wf : psbt_wf (sample_psbt origin).
Proof. apply psbt_okb_wf. vm_compute. reflexivity. Qed.

Lemma verify_sound_witness :
  run_sample origin = Ok sample_verdict ∧
  ∃ receive change, parse (desc_string origin External) = Ok receive ∧
    (∀ s, change_descriptor (sample_policy origin) = Some s → ∃ d, change = Some d ∧ parse s = Ok d) ∧
    (change_descriptor (sample_policy origin) = None → change = None) ∧
    @attested hashes secp codec (sample_psbt origin) receive change (sample_policy origin) sample_verdict.
Proof.
  split; [exact run_ok|].
  exact (@verify_sound hashes secp codec (sample_psbt origin) (desc_string origin External) (sample_policy origin) sample_verdict
    sample_psbt_wf run_ok).
Defined.

(** Every index of the sample's window can be derived. *)
Definition window_okb (d : ParsedDescriptor) (gap : Z) : bool :=
  forallb (λ i, is_ok (@derive_at hashes secp codec d i)) (seqZ 0 gap).
Lemma window_okb_derives d gap : window_okb d gap = true → @window_derives hashes secp codec d gap.
Proof.
  unfold window_okb. rewrite forallb_forall. intros H i Hi.
  assert (i ∈ seqZ 0 gap) as Hin%list_elem_of_In by (apply elem_of_seqZ; lia). specialize (H i Hin).
  destruct (derive_at d i) eqn:E; [eauto|done..].
Qed.
Lemma sample_plain b : plain_origins (desc origin b).
Proof.
  apply (forallb_Forall (λ k, negb (starts_with (str "m/") (origin_path k)))); [|by destruct b].
  intros k. apply negb_true_iff.
Qed.

Lemma verify_decides_witness :
  run_sample origin = Ok sample_verdict ↔
  @acceptable hashes secp codec (sample_psbt origin) (desc origin External) (Some (desc origin Internal)) (sample_policy origin) ∧
  sample_verdict = @verdict_of codec (sample_psbt origin) (sample_policy origin).
Proof.
  apply (@verify_decides hashes secp codec).
  - exact sample_psbt_wf.
  - vm_compute. reflexivity.
  - exists (desc origin Internal). split; [vm_compute; reflexivity|done].
  - apply window_okb_derives. vm_compute. reflexivity.
  - intros chg [= <-]. split; [exact (sample_plain Internal)|]. apply window_okb_derives. vm_compute. reflexivity.
Defined.

Lemma verify_no_panic_witness : run_sample origin ≠ Panic.
Proof.
  apply (@verify_no_panic hashes secp codec toy_laws). intros s d [= <-] Hd.
  assert (parse (desc_string origin Internal) = Ok (desc origin Internal)) as Hp by (vm_compute; reflexivity).
  rewrite Hp in Hd. injection Hd as <-. exact (sample_plain Internal).
Defined.

(** The sample spend, its change descriptor written with [m/48'/...]. *)
Lemma verify_panics_on_m_prefix_witness :
  (∃ s', @parse codec s' = Ok (m_origins (desc origin Internal))) ∧
  ∀ s', @parse codec s' = Ok (m_origins (desc origin Internal)) →
    @verify hashes secp codec (sample_psbt origin) (desc_string origin External)
      (with_change_descriptor s' (sample_policy origin)) = Panic.
Proof.
  apply (@verify_panics_on_m_prefix hashes secp codec (sample_psbt origin) (desc_string origin External) (sample_policy origin)
    sample_verdict (desc_string origin Internal) (desc origin Internal) 1%nat
    (mkTxOut 39000 (do_script_pubkey (derived origin Internal 2)))).
  - exact sample_psbt_wf.
  - exact run_ok.
  - reflexivity.
  - vm_compute. reflexivity.
  - reflexivity.
  - vm_compute. reflexivity.
Defined.

(** The change map with the fingerprints of its first two keys exchanged. *)
Definition swap_fingerprints (l : list (bytes * KeySource)) : list (bytes * KeySource) :=
  match l with
  | (k0, (f0, p0)) :: (k1, (f1, p1)) :: l => (k0, (f1, p0)) :: (k1, (f0, p1)) :: l
  | _ => l
  end.
Definition swapped_psbt : Psbt :=
  mkPsbt (sample_tx origin) (psbt_inputs (sample_psbt origin))
    [mkPsbtOutput [] []; mkPsbtOutput (swap_fingerprints (change_map origin 2)) []] [].

(** V4 compares the public keys of a change map as a set: a map that attributes
    two of the keys to each other's fingerprint, so that the listed paths do not
    derive the listed keys, is accepted. *)
Lemma verify_accepts_swapped_fingerprints :
  swap_fingerprints (change_map origin 2) ≠ change_map origin 2 ∧
  verify swapped_psbt (desc_string origin External) (sample_policy origin) = Ok sample_verdict.
Proof. split; [vm_compute; discriminate|vm_compute; reflexivity]. Qed.

Lemma find_index_hint_irrelevant_witness :
  let script := do_script_pubkey (derived origin Internal 2) in
  (is_Some (Some 2) ↔ ∃ i, @derived_at hashes secp codec (desc origin Internal) 5 script i) ∧
  (is_Some (Some 2) ↔ is_Some (Some 2)).
Proof.
  cbn zeta. apply (find_index_hint_irrelevant _ _ _ None (Some 4) (Some 2) (Some 2)).
  - discriminate.
  - intros z [= <-]. discriminate.
  - vm_compute. reflexivity.
  - vm_compute. reflexivity.
Defined.

(** Witnesses of the derivation theorems. *)

Definition child_of (k : KeyExpr) (i : Z) : DerivedChild :=
  match @derive_child hashes secp codec k i with Ok c => c | _ => mkDerived [] External 0 [] [] end.

Lemma derive_at_key_order_witness :
  let d := desc origin External in
  let d' := mkDescriptor 2 (key2 d) (key0 d) (key1 d) in
  ∃ o', @derive_at hashes secp codec d' 3 = Ok o' ∧ sorted_pubkeys o' = sorted_pubkeys (derived origin External 3) ∧
    do_witness_script o' = do_witness_script (derived origin External 3) ∧
    do_script_pubkey o' = do_script_pubkey (derived origin External 3).
Proof.
  cbn zeta. apply (derive_at_key_order (desc origin External)).
  - unfold desc_keys. cbn [key0 key1 key2]. apply (Permutation_app_comm [key 10 _ _ _; _] [_]).
  - vm_compute. reflexivity.
Defined.

Lemma derive_child_agrees_witness :
  let vendored := vendor_derive_pub (mkXpub 4 (2 :: replicate 32 65) (replicate 32 49))
    [Normal (branch_index (derivation (key0 (desc origin Internal)))); Normal 3] in
  match @derive_child hashes secp codec (key0 (desc origin Internal)) 3 with
  | Ok c =>
      vendored = if 4 + 2 <=? u8_max then Ok (mkXpub (4 + 2) (dc_public_key c) (dc_chain_code c))
                 else Err MaximumDepthExceeded
  | Err _ => vendored = Err Secp256k1 ∨ u8_max < 4 + 2 ∧ vendored = Err MaximumDepthExceeded
  | Panic => False
  end.
Proof.
  apply (@derive_child_agrees hashes secp codec toy_laws (key0 (desc origin Internal)) 3 4
    (replicate 32 49) (2 :: replicate 32 65)); [done|vm_compute; reflexivity|done].
Defined.

Lemma derive_at_script_witness :
  let d := desc origin External in
  ∃ o, @derive_at hashes secp codec d 1 = Ok o ∧
    children o = [child_of (key0 d) 1; child_of (key1 d) 1; child_of (key2 d) 1] ∧
    sorted_pubkeys o ≡ₚ map dc_public_key (children o) ∧ StronglySorted cle (sorted_pubkeys o) ∧
    do_witness_script o = multisig_bytes 2 (sorted_pubkeys o) ∧ length (do_witness_script o) = 105%nat ∧
    do_script_pubkey o = 0 :: 32 :: @sha256 hashes (do_witness_script o).
Proof.
  cbn zeta. apply (@derive_at_script hashes secp codec toy_laws (desc origin External) 1
    (child_of (key0 (desc origin External)) 1) (child_of (key1 (desc origin External)) 1)
    (child_of (key2 (desc origin External)) 1)); vm_compute; reflexivity.
Defined.
