(* ===== verification/Keystore.v ===== *)
(** [trinity-keystore]: the sealed key blobs of slots A and B ([blob.rs]), the
    access policies ([policy.rs]), the platform callback ([platform.rs]) and its
    test double ([fake.rs]).

    Blob functions carry the prefix [blob_] where [CoreState] has a function of
    the same name. A [PlatformKeyStore] is a record of state-passing functions;
    its state is what the platform keeps between calls. [FakePlatformKeyStore]
    is an instance whose state holds the call counters and injected failures. *)
From S2P Require Import Prelude Ordered Types Bitcoin Aead CoreState.

(** ** Key blobs *)

Definition BLOB_MAGIC : bytes := str "TRIN".
Definition BLOB_VERSION : Z := 1.
Definition BLOB_HEADER_LEN : nat := 36.
Definition BLOB_VERSION_OFFSET : nat := 4.
Definition SLOT_OFFSET : nat := 5.
Definition BLOB_RESERVED_OFFSET : nat := 6.
Definition WORD_COUNT_OFFSET : nat := 7.
Definition BLOB_NONCE_OFFSET : nat := 8.
Definition BIRTHDAY_OFFSET : nat := 32.
Definition CREATED_AT_LEN : nat := 8.

Inductive BlobError :=
  | BTruncated | BBadMagic | BUnsupportedVersion (v : Z) | BUnsupportedReserved
  | BInvalidSlot | InvalidWordCount (n : Z) | EntropyLength (expected got : nat)
  | BCsRng | BAead | PlaintextLength.

Record DecodedBlob := mkDecoded {
  blob_slot : KeySlot;
  blob_word_count : WordCount;
  blob_birthday : Z;
  blob_entropy : bytes;
  blob_created_at : Z
}.

Record ParsedHeader := mkParsedHeader { ph_slot : KeySlot; ph_word_count : WordCount; ph_birthday : Z }.

(** The fields of the 36-byte array, in offset order. *)
Definition blob_encode_header (slot : KeySlot) (wc : WordCount) (nonce : bytes) (birthday : Z) : bytes :=
  BLOB_MAGIC ++ [BLOB_VERSION] ++ [slot_as_u8 slot] ++ [0] ++ [words wc] ++ nonce ++ le_bytes 4 birthday.

Definition blob_parse_header (header : bytes) : res BlobError ParsedHeader :=
  m ← slice 0 4 header;
  if negb (bool_decide (m = BLOB_MAGIC)) then Err BBadMagic else
  version ← index BLOB_VERSION_OFFSET header;
  if negb (version =? BLOB_VERSION) then Err (BUnsupportedVersion version) else
  reserved ← index BLOB_RESERVED_OFFSET header;
  if negb (reserved =? 0) then Err BUnsupportedReserved else
  slot_byte ← index SLOT_OFFSET header;
  slot ← match slot_from_u8 slot_byte with
         | Some s => if has_device_blob s then Ok s else Err BInvalidSlot
         | None => Err BInvalidSlot
         end;
  word_count_byte ← index WORD_COUNT_OFFSET header;
  word_count ← ok_or (from_words word_count_byte) (InvalidWordCount word_count_byte);
  birthday_bytes ← slice BIRTHDAY_OFFSET (length header) header;
  if negb (length birthday_bytes =? 4)%nat then Panic else
  Ok (mkParsedHeader slot word_count (le_Z birthday_bytes)).

Definition blob_nonce_from_header (header : bytes) : res BlobError bytes :=
  slice BLOB_NONCE_OFFSET BIRTHDAY_OFFSET header.

(** [draw_nonce_with]; the argument is what the OS generator returned. *)
Definition blob_draw_nonce (rng : option bytes) : res BlobError bytes := ok_or rng BCsRng.

Section blobs.
Context {aead : Aead}.

Definition blob_seal (kek header plaintext : bytes) : res BlobError bytes :=
  nonce ← blob_nonce_from_header header;
  ciphertext ← expect (aead_encrypt kek nonce header plaintext);
  Ok (header ++ ciphertext).

Definition blob_open (kek header body : bytes) : res BlobError bytes :=
  nonce ← blob_nonce_from_header header;
  ok_or (aead_decrypt kek nonce header body) BAead.

Definition blob_encrypt_at_nonce (kek : bytes) (slot : KeySlot) (wc : WordCount) (nonce : bytes)
    (birthday : Z) (entropy : bytes) (created_at : Z) : res BlobError bytes :=
  if negb (has_device_blob slot) then Err BInvalidSlot else
  let expected := Z.to_nat (entropy_bytes wc) in
  if negb (length entropy =? expected)%nat then Err (EntropyLength expected (length entropy)) else
  let header := blob_encode_header slot wc nonce birthday in
  blob_seal kek header (entropy ++ le_bytes 8 created_at).

Definition blob_encrypt (rng : option bytes) (kek : bytes) (slot : KeySlot) (wc : WordCount)
    (birthday : Z) (entropy : bytes) (created_at : Z) : res BlobError bytes :=
  nonce ← blob_draw_nonce rng;
  blob_encrypt_at_nonce kek slot wc nonce birthday entropy created_at.

Definition blob_decrypt (kek blob : bytes) : res BlobError DecodedBlob :=
  if (length blob <? BLOB_HEADER_LEN + TAG_LEN)%nat then Err BTruncated else
  header ← slice 0 BLOB_HEADER_LEN blob;
  parsed ← blob_parse_header header;
  body ← slice BLOB_HEADER_LEN (length blob) blob;
  plaintext ← blob_open kek header body;
  let expected := (Z.to_nat (entropy_bytes (ph_word_count parsed)) + CREATED_AT_LEN)%nat in
  if negb (length plaintext =? expected)%nat then Err PlaintextLength else
  entropy ← slice 0 (expected - CREATED_AT_LEN) plaintext;
  ts ← slice (expected - CREATED_AT_LEN) (length plaintext) plaintext;
  Ok (mkDecoded (ph_slot parsed) (ph_word_count parsed) (ph_birthday parsed) entropy (le_Z ts)).
End blobs.

(** ** Access policies *)

Inductive UnlockFactor := Biometry | UserPresence.
Inductive HwBinding := SecureEnclaveEcies | KeystoreAesGcm.
Inductive ArgonProfile := ArgonHigh | ArgonLow.

Definition UnlockFactor_as_str (u : UnlockFactor) : bytes :=
  match u with Biometry => str "biometry" | UserPresence => str "user-presence" end.
Definition HwBinding_as_str (h : HwBinding) : bytes :=
  match h with SecureEnclaveEcies => str "secure-enclave-ecies" | KeystoreAesGcm => str "keystore-aes-gcm" end.
Definition memory_kib (a : ArgonProfile) : Z := match a with ArgonHigh => 262144 | ArgonLow => 65536 end.
Definition time_cost (a : ArgonProfile) : Z := match a with ArgonHigh => 3 | ArgonLow => 6 end.
Definition parallelism (a : ArgonProfile) : Z := 4.
Definition output_len (a : ArgonProfile) : Z := 32.
Definition ArgonProfile_as_str (a : ArgonProfile) : bytes := match a with ArgonHigh => str "HIGH" | ArgonLow => str "LOW" end.

Record SlotPolicy := mkSlotPolicy {
  sp_slot : KeySlot;
  sp_unlock : UnlockFactor;
  sp_hw_binding : option HwBinding;
  sp_argon : option ArgonProfile;
  invalidate_on_biometric_change : bool;
  require_device_unlocked : bool
}.
Definition with_hw_binding (h : HwBinding) (p : SlotPolicy) : SlotPolicy :=
  mkSlotPolicy (sp_slot p) (sp_unlock p) (Some h) (sp_argon p)
    (invalidate_on_biometric_change p) (require_device_unlocked p).
Definition POLICY_A : SlotPolicy := mkSlotPolicy SlotA Biometry None None true true.
Definition POLICY_B : SlotPolicy := mkSlotPolicy SlotB UserPresence None None false true.

(** ** The platform callback *)

Inductive PlatformError :=
  | UnwrapRejected | KeyInvalidated | WrapFailed | ProvisionFailed | DestroyFailed
  | PInvalidSlot | Unexpected.
#[global] Instance PlatformError_eq_dec : EqDecision PlatformError.
Proof. solve_decision. Defined.

(** [trait PlatformKeyStore] over the platform's own state [S]. *)
Record PlatformKeyStore (S : Type) := mkPlatform {
  unwrap_kek : KeySlot → bytes → S → S * res PlatformError bytes;
  wrap_kek : KeySlot → bytes → S → S * res PlatformError bytes;
  provision : KeySlot → SlotPolicy → S → S * res PlatformError unit;
  destroy : KeySlot → S → S * res PlatformError unit
}.
Arguments unwrap_kek {S}.
Arguments wrap_kek {S}.
Arguments provision {S}.
Arguments destroy {S}.

Record FakeState := mkFake {
  unwrap_calls : nat;
  wrap_calls : nat;
  provision_calls : nat;
  destroy_calls : nat;
  unwrap_error : option PlatformError;
  wrap_error : option PlatformError;
  provision_error : option PlatformError;
  destroy_error : option PlatformError;
  unwrap_plain : option bytes;
  wrap_wrapped : option bytes
}.
Definition Fake_new : FakeState := mkFake 0 0 0 0 None None None None None None.

(** [&self] setters over mutexes and atomics: each is one update of the state. *)
Definition fail_unwrap (e : PlatformError) (s : FakeState) : FakeState :=
  mkFake (unwrap_calls s) (wrap_calls s) (provision_calls s) (destroy_calls s)
    (Some e) (wrap_error s) (provision_error s) (destroy_error s)
    (unwrap_plain s) (wrap_wrapped s).
Definition fail_wrap (e : PlatformError) (s : FakeState) : FakeState :=
  mkFake (unwrap_calls s) (wrap_calls s) (provision_calls s) (destroy_calls s)
    (unwrap_error s) (Some e) (provision_error s) (destroy_error s)
    (unwrap_plain s) (wrap_wrapped s).
Definition fail_provision (e : PlatformError) (s : FakeState) : FakeState :=
  mkFake (unwrap_calls s) (wrap_calls s) (provision_calls s) (destroy_calls s)
    (unwrap_error s) (wrap_error s) (Some e) (destroy_error s)
    (unwrap_plain s) (wrap_wrapped s).
Definition fail_destroy (e : PlatformError) (s : FakeState) : FakeState :=
  mkFake (unwrap_calls s) (wrap_calls s) (provision_calls s) (destroy_calls s)
    (unwrap_error s) (wrap_error s) (provision_error s) (Some e)
    (unwrap_plain s) (wrap_wrapped s).
Definition succeed_unwrap_with (plain : bytes) (s : FakeState) : FakeState :=
  mkFake (unwrap_calls s) (wrap_calls s) (provision_calls s) (destroy_calls s)
    (unwrap_error s) (wrap_error s) (provision_error s) (destroy_error s)
    (Some plain) (wrap_wrapped s).
Definition succeed_wrap_with (wrapped : bytes) (s : FakeState) : FakeState :=
  mkFake (unwrap_calls s) (wrap_calls s) (provision_calls s) (destroy_calls s)
    (unwrap_error s) (wrap_error s) (provision_error s) (destroy_error s)
    (unwrap_plain s) (Some wrapped).
Definition clear_unwrap (s : FakeState) : FakeState :=
  mkFake (unwrap_calls s) (wrap_calls s) (provision_calls s) (destroy_calls s)
    None (wrap_error s) (provision_error s) (destroy_error s)
    None (wrap_wrapped s).
Definition clear_wrap (s : FakeState) : FakeState :=
  mkFake (unwrap_calls s) (wrap_calls s) (provision_calls s) (destroy_calls s)
    (unwrap_error s) None (provision_error s) (destroy_error s)
    (unwrap_plain s) None.
Definition clear_provision (s : FakeState) : FakeState :=
  mkFake (unwrap_calls s) (wrap_calls s) (provision_calls s) (destroy_calls s)
    (unwrap_error s) (wrap_error s) None (destroy_error s)
    (unwrap_plain s) (wrap_wrapped s).
Definition clear_destroy (s : FakeState) : FakeState :=
  mkFake (unwrap_calls s) (wrap_calls s) (provision_calls s) (destroy_calls s)
    (unwrap_error s) (wrap_error s) (provision_error s) None
    (unwrap_plain s) (wrap_wrapped s).
Definition reset_calls (s : FakeState) : FakeState :=
  mkFake 0 0 0 0
    (unwrap_error s) (wrap_error s) (provision_error s) (destroy_error s)
    (unwrap_plain s) (wrap_wrapped s).
Definition Fake_zeroize (s : FakeState) : FakeState :=
  mkFake (unwrap_calls s) (wrap_calls s) (provision_calls s) (destroy_calls s)
    (unwrap_error s) (wrap_error s) (provision_error s) (destroy_error s)
    None None.

Definition Fake_unwrap_kek (slot : KeySlot) (wrapped : bytes) (s : FakeState)
    : FakeState * res PlatformError bytes :=
  let s := mkFake (S (unwrap_calls s)) (wrap_calls s) (provision_calls s) (destroy_calls s)
    (unwrap_error s) (wrap_error s) (provision_error s) (destroy_error s) (unwrap_plain s) (wrap_wrapped s) in
  (s, if negb (has_device_blob slot) then Err PInvalidSlot else
      match unwrap_error s with
      | Some error => Err error
      | None => match unwrap_plain s with Some plain => Ok plain | None => Ok wrapped end
      end).
Definition Fake_wrap_kek (slot : KeySlot) (plain : bytes) (s : FakeState)
    : FakeState * res PlatformError bytes :=
  let s := mkFake (unwrap_calls s) (S (wrap_calls s)) (provision_calls s) (destroy_calls s)
    (unwrap_error s) (wrap_error s) (provision_error s) (destroy_error s) (unwrap_plain s) (wrap_wrapped s) in
  (s, if negb (has_device_blob slot) then Err PInvalidSlot else
      match wrap_error s with
      | Some error => Err error
      | None => match wrap_wrapped s with Some wrapped => Ok wrapped | None => Ok plain end
      end).
Definition Fake_provision (slot : KeySlot) (policy : SlotPolicy) (s : FakeState)
    : FakeState * res PlatformError unit :=
  let s := mkFake (unwrap_calls s) (wrap_calls s) (S (provision_calls s)) (destroy_calls s)
    (unwrap_error s) (wrap_error s) (provision_error s) (destroy_error s) (unwrap_plain s) (wrap_wrapped s) in
  (s, if negb (has_device_blob slot) || negb (bool_decide (sp_slot policy = slot)) then Err PInvalidSlot else
      match provision_error s with Some error => Err error | None => Ok tt end).
Definition Fake_destroy (slot : KeySlot) (s : FakeState) : FakeState * res PlatformError unit :=
  let s := mkFake (unwrap_calls s) (wrap_calls s) (provision_calls s) (S (destroy_calls s))
    (unwrap_error s) (wrap_error s) (provision_error s) (destroy_error s) (unwrap_plain s) (wrap_wrapped s) in
  (s, if negb (has_device_blob slot) then Err PInvalidSlot else
      match destroy_error s with Some error => Err error | None => Ok tt end).

Definition FakePlatformKeyStore : PlatformKeyStore FakeState :=
  mkPlatform _ Fake_unwrap_kek Fake_wrap_kek Fake_provision Fake_destroy.

(** ** Blob properties *)

Definition decoded_wf (d : DecodedBlob) : Prop :=
  has_device_blob (blob_slot d) = true ∧ length (blob_entropy d) = Z.to_nat (entropy_bytes (blob_word_count d)) ∧
  is_bytes (blob_entropy d) ∧ is_u32 (blob_birthday d) ∧ is_u64 (blob_created_at d).

Lemma length_blob_header slot wc nonce birthday :
  length nonce = NONCE_LEN → length (blob_encode_header slot wc nonce birthday) = BLOB_HEADER_LEN.
Proof. intros Hn. unfold blob_encode_header. rewrite !length_app, length_le_bytes, Hn. done. Qed.

Lemma blob_nonce_encode slot wc nonce birthday :
  length nonce = NONCE_LEN →
  blob_nonce_from_header (blob_encode_header slot wc nonce birthday) = Ok nonce.
Proof.
  intros Hn. unfold blob_nonce_from_header, blob_encode_header. rewrite !app_assoc.
  rewrite <-(app_assoc _ nonce). apply slice_app; [done|]. by rewrite Hn.
Qed.

Lemma blob_parse_header_encode slot wc nonce birthday :
  length nonce = NONCE_LEN → has_device_blob slot = true → is_u32 birthday →
  blob_parse_header (blob_encode_header slot wc nonce birthday) = Ok (mkParsedHeader slot wc birthday).
Proof.
  intros Hn Hs Hb. pose proof (length_blob_header slot wc nonce birthday Hn) as Hl.
  unfold blob_parse_header. rewrite Hl.
  assert (slice (E:=BlobError) BIRTHDAY_OFFSET BLOB_HEADER_LEN (blob_encode_header slot wc nonce birthday) =
    Ok (le_bytes 4 birthday)) as Hslice.
  { unfold blob_encode_header. rewrite !app_assoc. rewrite <-(app_nil_r (_ ++ le_bytes 4 birthday)), <-app_assoc.
    apply slice_app; [rewrite !length_app, Hn; done|by rewrite length_le_bytes]. }
  rewrite Hslice. unfold blob_encode_header. rewrite slice_here by done.
  cbn [mbind res_bind]. rewrite bool_decide_true by done.
  change (index BLOB_VERSION_OFFSET _) with (Ok (E:=BlobError) BLOB_VERSION).
  change (index BLOB_RESERVED_OFFSET _) with (Ok (E:=BlobError) 0).
  change (index SLOT_OFFSET _) with (Ok (E:=BlobError) (slot_as_u8 slot)).
  change (index WORD_COUNT_OFFSET _) with (Ok (E:=BlobError) (words wc)).
  cbn [mbind res_bind negb Z.eqb BLOB_VERSION]. rewrite slot_from_as_u8, Hs. cbn [mbind res_bind].
  rewrite from_words_words. cbn [ok_or mbind res_bind]. rewrite length_le_bytes. cbn [Nat.eqb negb].
  by rewrite le_Z_u32.
Qed.

Lemma blob_parse_header_Ok h p :
  is_bytes h → length h = BLOB_HEADER_LEN → blob_parse_header h = Ok p →
  ∃ nonce, length nonce = NONCE_LEN ∧ has_device_blob (ph_slot p) = true ∧ is_u32 (ph_birthday p) ∧
    h = blob_encode_header (ph_slot p) (ph_word_count p) nonce (ph_birthday p).
Proof.
  intros Hbytes Hl H. unfold blob_parse_header in H. apply bind_Ok in H as (m & Hm & H). if_inv H E1.
  apply bind_Ok in H as (v & Hv & H). if_inv H E2. apply bind_Ok in H as (r & Hr & H). if_inv H E3.
  apply bind_Ok in H as (sb & Hsb & H). apply bind_Ok in H as (s & Hs & H).
  apply bind_Ok in H as (wb & Hwb & H). apply bind_Ok in H as (w & Hw%ok_or_Ok & H).
  apply bind_Ok in H as (bb & Hbb & H). if_inv H E4. injection H as <-. bool_simp. subst.
  destruct (slot_from_u8 sb) as [s'|] eqn:Es; [|done]. destruct (has_device_blob s') eqn:Eh; [|done].
  injection Hs as <-. apply slot_as_from_u8 in Es. apply words_from_words in Hw.
  apply slice_Ok in Hm as (Hm & _), Hbb as (Hbb & Hbl & _ & Hbb'). apply index_Ok in Hv as (Hv & _), Hr as (Hr & _),
    Hsb as (Hsb & _), Hwb as (Hwb & _). rewrite drop_all, app_nil_r in Hbb.
  unfold BLOB_VERSION_OFFSET, SLOT_OFFSET, BLOB_RESERVED_OFFSET, WORD_COUNT_OFFSET, BIRTHDAY_OFFSET in *.
  exists (take 24 (drop 8 h)). cbn [ph_slot ph_word_count ph_birthday].
  specialize (Hbb' Hbytes). destruct (le_Z_u32_slice bb Hbb' E4) as [Hu Hle]. split_and!; try done.
  - rewrite length_take, length_drop, Hl. done.
  - unfold blob_encode_header. rewrite drop_0 in Hm. rewrite Hm at 1. rewrite Hv, Hsb, Hr, Hwb, Es, Hw.
    cbn [app]. do 4 f_equal. rewrite Hle, <-Hbb. rewrite <-(take_drop 24 (drop 8 h)) at 1. by rewrite drop_drop.
Qed.

Lemma blob_parse_header_no_panic h : length h = BLOB_HEADER_LEN → blob_parse_header h ≠ Panic.
Proof.
  unfold BLOB_HEADER_LEN. intros Hl H. unfold blob_parse_header, BLOB_VERSION_OFFSET, BLOB_RESERVED_OFFSET,
    SLOT_OFFSET, WORD_COUNT_OFFSET, BIRTHDAY_OFFSET in H. rewrite Hl in H.
  no_panic ltac:(fun H => destruct (slot_from_u8 _) as [s|]; [destruct (has_device_blob s)|]; discriminate H).
  match goal with H : slice _ _ _ = Ok _ |- _ => apply slice_Ok in H as (_ & Hlen & _) end.
  by rewrite Hlen in *.
Qed.

Section blob_laws.
Context {aead : Aead} {aead_laws : AeadLaws}.

Lemma blob_encrypt_decrypt kek nonce d :
  has_device_blob (blob_slot d) = true → length (blob_entropy d) = Z.to_nat (entropy_bytes (blob_word_count d)) →
  is_u32 (blob_birthday d) → is_u64 (blob_created_at d) → length nonce = NONCE_LEN →
  ∃ blob, blob_encrypt (Some nonce) kek (blob_slot d) (blob_word_count d) (blob_birthday d)
            (blob_entropy d) (blob_created_at d) = Ok blob ∧ blob_decrypt kek blob = Ok d.
Proof.
  intros Hs Hl Hb Hc Hn. unfold blob_encrypt, blob_encrypt_at_nonce. cbn [blob_draw_nonce ok_or mbind res_bind].
  rewrite Hs, Hl, Nat.eqb_refl. cbn [negb]. unfold blob_seal. rewrite blob_nonce_encode by done. cbn [mbind res_bind].
  set (header := blob_encode_header _ _ _ _). set (pt := blob_entropy d ++ le_bytes 8 (blob_created_at d)).
  assert (length pt = Z.to_nat (entropy_bytes (blob_word_count d)) + 8)%nat as Hpl
    by (unfold pt; rewrite length_app, length_le_bytes; lia).
  destruct (aead_encrypt_total kek nonce header pt) as [c Hct].
  { unfold aead_msg_ok. rewrite Hpl. destruct (blob_word_count d); cbv; done. }
  rewrite Hct. cbn [expect mbind res_bind]. eexists. split; [done|]. unfold blob_decrypt.
  pose proof (aead_encrypt_length _ _ _ _ _ Hct) as Hcl.
  assert (length header = BLOB_HEADER_LEN) as Hh by by apply length_blob_header.
  rewrite (proj2 (Nat.ltb_ge _ _)) by (rewrite length_app, Hh, Hcl; unfold TAG_LEN; lia).
  rewrite slice_here by done. cbn [mbind res_bind].
  rewrite (blob_parse_header_encode (blob_slot d) (blob_word_count d) nonce (blob_birthday d) Hn Hs Hb : blob_parse_header header = _).
  cbn [mbind res_bind ph_word_count ph_slot ph_birthday]. rewrite slice_ok by (rewrite length_app; lia).
  cbn [mbind res_bind]. rewrite drop_app_length', take_ge by (rewrite ?length_app; lia).
  unfold blob_open. rewrite (blob_nonce_encode _ _ nonce _ Hn : blob_nonce_from_header header = _). cbn [mbind res_bind].
  rewrite (aead_decrypt_encrypt _ _ _ _ _ Hct). cbn [ok_or mbind res_bind]. rewrite Hpl. unfold CREATED_AT_LEN.
  rewrite Nat.eqb_refl, Nat.add_sub. cbn [negb]. unfold pt. rewrite slice_here by done. cbn [mbind res_bind].
  rewrite <-(app_nil_r (_ ++ le_bytes 8 _)), <-app_assoc.
  rewrite slice_app by (done || rewrite length_le_bytes; lia). cbn [mbind res_bind].
  rewrite le_Z_u64 by done. by destruct d.
Qed.

(** A key blob opens to exactly what was sealed: slot, word count, birthday,
    entropy and creation time all survive, for slots A and B and both lengths. *)
Lemma key_blob_roundtrip kek nonce d :
  decoded_wf d → length nonce = NONCE_LEN →
  ∃ blob, blob_encrypt (Some nonce) kek (blob_slot d) (blob_word_count d) (blob_birthday d)
            (blob_entropy d) (blob_created_at d) = Ok blob ∧ blob_decrypt kek blob = Ok d.
Proof. intros (Hs & Hl & _ & Hb & Hc) Hn. by apply blob_encrypt_decrypt. Qed.

(** A blob opens only if sealing produced it: its slot, word count and every
    other byte are authenticated, so a blob for one slot or length never opens
    as another. *)
Lemma key_blob_only_sealed kek blob d :
  is_bytes blob → blob_decrypt kek blob = Ok d →
  decoded_wf d ∧ ∃ nonce, length nonce = NONCE_LEN ∧
    blob_encrypt_at_nonce kek (blob_slot d) (blob_word_count d) nonce (blob_birthday d)
      (blob_entropy d) (blob_created_at d) = Ok blob.
Proof.
  intros Hbytes H. unfold blob_decrypt in H. if_inv H E0. bool_simp.
  apply bind_Ok in H as (h & Hh & H). apply bind_Ok in H as (p & Hp & H). apply bind_Ok in H as (body & Hbody & H).
  apply bind_Ok in H as (pt & Ho & H). cbn zeta in H. if_inv H E1. bool_simp.
  apply bind_Ok in H as (entropy & He & H). apply bind_Ok in H as (ts & Hts & [= <-]).
  apply slice_Ok in Hh as (Hh & Hhl & _ & Hhb), Hbody as (Hbo & _ & _ & Hbb).
  rewrite Nat.sub_0_r in Hhl. rewrite drop_0 in Hh. rewrite drop_all, app_nil_r in Hbo.
  apply blob_parse_header_Ok in Hp as (nonce & Hn & Hs & Hbd & ->); [|by apply Hhb|done].
  unfold blob_open in Ho. rewrite blob_nonce_encode in Ho by done. cbn [mbind res_bind] in Ho. apply ok_or_Ok in Ho.
  pose proof (aead_decrypt_bytes _ _ _ _ _ (Hbb Hbytes) Ho) as Hpb. apply aead_open_tight in Ho.
  apply slice_Ok in He as (He & Hel & _ & Heb), Hts as (Hts & Htl & _ & Htb). unfold CREATED_AT_LEN in *.
  rewrite Nat.add_sub in *. rewrite drop_0, Nat.sub_0_r in *. rewrite drop_all, app_nil_r in Hts.
  specialize (Heb Hpb). specialize (Htb Hpb). assert (length ts = 8%nat) as Ht8 by lia.
  destruct (le_Z_u64_slice ts Htb Ht8) as [Htu Htle].
  cbn [blob_slot blob_word_count blob_birthday blob_entropy blob_created_at]. split; [done|].
  exists nonce. split; [done|]. unfold blob_encrypt_at_nonce. rewrite Hs, Hel, Nat.eqb_refl. cbn [negb].
  unfold blob_seal. rewrite blob_nonce_encode by done. cbn [mbind res_bind].
  rewrite Htle, <-Hts, <-He, Ho. cbn. by rewrite <-Hbo, <-Hh.
Qed.

(** Opening a key blob never panics, whatever its bytes and length. *)
Lemma key_blob_no_panic kek blob : blob_decrypt kek blob ≠ Panic.
Proof.
  intros H. unfold blob_decrypt in H. if_inv H E0. bool_simp.
  apply bind_Panic in H as [H|(h & Hh & H)]; [apply slice_Panic in H; lia|]. apply slice_Ok in Hh as (_ & Hhl & _).
  rewrite Nat.sub_0_r in Hhl. apply bind_Panic in H as [H|(p & _ & H)]; [by apply blob_parse_header_no_panic in H|].
  apply bind_Panic in H as [H|(body & _ & H)]; [apply slice_Panic in H; lia|].
  apply bind_Panic in H as [H|(pt & _ & H)].
  { unfold blob_open, blob_nonce_from_header in H. apply bind_Panic in H as [H|(n & _ & H)];
      [apply slice_Panic in H; unfold BLOB_NONCE_OFFSET, BIRTHDAY_OFFSET, BLOB_HEADER_LEN in *; lia|].
    by apply ok_or_Panic in H. }
  cbn zeta in H. if_inv H E1. bool_simp. unfold CREATED_AT_LEN in *. no_panic idtac.
Qed.
End blob_laws.

(** ** A concrete blob, sealed with the toy cipher *)

Module SampleBlob.
Definition kek : bytes := replicate 32 17.
Definition nonce : bytes := replicate 24 3.
Definition decoded : DecodedBlob := mkDecoded SlotB Words12 840000 (replicate 16 5) 1700000000.
Definition sealed : bytes :=
  match @blob_encrypt ToyAead.aead (Some nonce) kek SlotB Words12 840000 (replicate 16 5) 1700000000 with
  | Ok b => b
  | _ => []
  end.

Lemma decoded_ok : decoded_wf decoded.
Proof. split_and!; try done. by apply bytes_ok_spec. Qed.
End SampleBlob.

Lemma key_blob_roundtrip_witness :
  ∃ blob, @blob_encrypt ToyAead.aead (Some SampleBlob.nonce) SampleBlob.kek SlotB Words12 840000
            (replicate 16 5) 1700000000 = Ok blob ∧
          @blob_decrypt ToyAead.aead SampleBlob.kek blob = Ok SampleBlob.decoded.
Proof.
  apply (@key_blob_roundtrip ToyAead.aead ToyAead.laws SampleBlob.kek SampleBlob.nonce SampleBlob.decoded);
    [exact SampleBlob.decoded_ok|reflexivity].
Defined.

Lemma key_blob_only_sealed_witness :
  decoded_wf SampleBlob.decoded ∧ ∃ nonce, length nonce = NONCE_LEN ∧
    @blob_encrypt_at_nonce ToyAead.aead SampleBlob.kek SlotB Words12 nonce 840000 (replicate 16 5) 1700000000
      = Ok SampleBlob.sealed.
Proof.
  apply (@key_blob_only_sealed ToyAead.aead ToyAead.laws SampleBlob.kek SampleBlob.sealed SampleBlob.decoded);
    [apply bytes_ok_spec; vm_compute; reflexivity|vm_compute; reflexivity].
Defined.
