(* ===== verification/SignErrors.v ===== *)
(** [trinity-signer/src/error.rs]: the signer's closed error type.

    Shared by the spend window, the two-signature ceremony and the finalizer.
    The errors of the other components are embedded, as the [From] impls of the
    source do; the policy setter's three variants are the constructor
    [SPolicy]. *)
From S2P Require Import Prelude Ordered Types Bitcoin Aead CoreState Keystore Limits Checksum Parse Derive Verify.

Inductive SignError :=
  | SVerify (e : VerifyError)
  | SelfVerificationFailed
  | SNonSighashAll (input_index : nat)
  | SPlatform (e : PlatformError)
  | UnsignedTxChanged
  | UnexpectedKeyASignature
  | SBlob (e : BlobError)
  | SEntropy
  | SBip32
  | InvalidKekLength
  | SInvalidSlot
  | FingerprintMismatch
  | SMissingWitnessUtxo (input_index : nat)
  | MissingWitnessScript (input_index : nat)
  | MissingDerivation (input_index : nat)
  | PubkeyMismatch (input_index : nat)
  | SSighash (input_index : nat)
  | EmptyPsbt
  | TooManyInputs
  | UnbalancedPsbt
  | SpendLimitExceeded
  | WindowLedgerFull
  | SPolicy (e : PolicyError)
  | SCoreState (e : CoreStateError)
  | ConsensusRejected
  | FinalFeerateTooHigh (feerate_sat_vb max_sat_vb : Z)
  | IncompleteWitness (input_index : nat)
  | WitnessScriptMismatch (input_index : nat)
  | InvalidDerivationPath (input_index : nat).
