(* ===== verification/Window.v ===== *)
(** [trinity-signer/src/window.rs]: the sliding spend window.

    [WindowCounter] holds the sealing key and the [CoreState]; [authorize]
    advances the clock, prunes, and accepts or rejects; [commit] books an
    approval. A method that mutates the counter returns the new counter next to
    its result, so the effects of rejected calls are visible. *)
From S2P Require Import Prelude Ordered Types Bitcoin Aead CoreState Keystore Limits Clock.
From S2P Require Import Checksum Parse Derive Verify SignErrors.

Definition SECONDS_PER_BLOCK : Z := 24 * 60 * 60 / 144.

Record SpendApproval := mkApproval { ap_input_set : list OutPoint; ap_charge_sat : Z }.

Record WindowCounter := mkCounter { wc_kek : bytes; wc_state : CoreState }.

Definition with_state (f : CoreState → CoreState) (c : WindowCounter) : WindowCounter :=
  mkCounter (wc_kek c) (f (wc_state c)).

Definition WindowCounter_new (kek : bytes) : res SignError WindowCounter :=
  if negb (length kek =? 32)%nat then Err InvalidKekLength else Ok (mkCounter kek CoreState_empty).

Section sealed.
Context {aead : Aead}.
Definition WindowCounter_open (kek blob : bytes) : res SignError WindowCounter :=
  if negb (length kek =? 32)%nat then Err InvalidKekLength else
  state ← map_err SCoreState (decrypt kek blob);
  Ok (mkCounter kek state).
(** [arr.copy_from_slice(kek)] panics on another length. *)
Definition WindowCounter_seal (rng : option bytes) (c : WindowCounter) : res SignError bytes :=
  if negb (length (wc_kek c) =? 32)%nat then Panic else
  map_err SCoreState (encrypt rng (wc_kek c) (wc_state c)).
End sealed.

Definition set_passphrase_used (used : bool) (s : CoreState) : CoreState :=
  mkCoreState (initialized s) (monotonic_ns_at_anchor s) (block_height_at_anchor s) (boot_id_at_anchor s)
    (wall_unix_ns_at_anchor s) (window_elapsed_ns s) (window_start_elapsed_ns s) used (bookings s).

Definition booked_sat (s : CoreState) : Z := sat_sum (map bk_amount_sat (bookings s)).

(** [u64::try_from(d.as_nanos()).unwrap_or(u64::MAX)] *)
Definition duration_as_ns (d : Z) : Z := if d <=? u64_max then d else u64_max.

(** ** The time step *)

Definition apply_wall_veto (from_sources : Z) (mono_trusted : bool) (mono : option Z)
    (prev_wall now_wall : option Z) : Z :=
  if negb mono_trusted then from_sources else
  match prev_wall, now_wall with
  | Some prev_w, Some now_w =>
      if now_w <? prev_w then 0 else
      let wall_delta := now_w - prev_w in
      let mono_ns := default 0 (duration_as_ns <$> mono) in
      if mono_ns <? wall_delta then 0 else from_sources
  | _, _ => from_sources
  end.

Definition step_elapsed (prev : CoreState) (now_mono_ns : Z) (now_boot now_height now_wall : option Z) : Z :=
  let same_boot := match boot_id_at_anchor prev, now_boot with
                   | Some a, Some b => a =? b
                   | _, _ => monotonic_ns_at_anchor prev <=? now_mono_ns
                   end in
  let mono_regressed := now_mono_ns <? monotonic_ns_at_anchor prev in
  let mono_trusted := same_boot && negb mono_regressed in
  let mono := if mono_trusted then Some (now_mono_ns - monotonic_ns_at_anchor prev) else None in
  let blocks := match block_height_at_anchor prev, now_height with
                | Some prev_h, Some now_h =>
                    if prev_h <=? now_h
                    then Some (from_secs (sat_mul (now_h - prev_h) SECONDS_PER_BLOCK)) else Some 0
                | _, _ => None
                end in
  let from_sources := match mono, blocks with
                      | Some m, Some b => Z.min m b
                      | Some m, None => m
                      | None, _ => 0
                      end in
  apply_wall_veto from_sources mono_trusted mono (wall_unix_ns_at_anchor prev) now_wall.

Definition option_or (new old : option Z) : option Z := match new with Some _ => new | None => old end.

Definition advance (clock : MonotonicClock) (blocks : BlockHeightSource) (wall_unix_ns : option Z)
    (s : CoreState) : CoreState :=
  let now_mono_ns := duration_as_ns (clock_now clock) in
  let now_boot := clock_boot_id clock in
  let now_height := tip_height blocks in
  if negb (initialized s) then
    mkCoreState true now_mono_ns now_height now_boot wall_unix_ns 0 0
      (passphrase_used_since_install s) (bookings s)
  else
    let step := step_elapsed s now_mono_ns now_boot now_height wall_unix_ns in
    mkCoreState true now_mono_ns
      (option_or now_height (block_height_at_anchor s)) (option_or now_boot (boot_id_at_anchor s))
      (option_or wall_unix_ns (wall_unix_ns_at_anchor s))
      (sat_add (window_elapsed_ns s) (duration_as_ns step)) (window_start_elapsed_ns s)
      (passphrase_used_since_install s) (bookings s).

Definition prune (window : Z) (s : CoreState) : CoreState :=
  let start := sat_sub (window_elapsed_ns s) (duration_as_ns window) in
  mkCoreState (initialized s) (monotonic_ns_at_anchor s) (block_height_at_anchor s) (boot_id_at_anchor s)
    (wall_unix_ns_at_anchor s) (window_elapsed_ns s) start (passphrase_used_since_install s)
    (List.filter (λ b, start <=? bk_elapsed_at_ns b) (bookings s)).

(** ** Charges *)

Definition same_inputs (stored set : list OutPoint) : bool :=
  if negb (length stored =? length set)%nat then false else forallb (λ o, bset_contains set o) stored.

Definition extra_against_bookings (bs : list BookedSpend) (input_set : list OutPoint) (charge : Z) : Z :=
  match List.find (λ b, same_inputs (bk_inputs b) input_set) bs with
  | Some existing => sat_sub charge (bk_amount_sat existing)
  | None => charge
  end.

Definition input_set (psbt : Psbt) : res SignError (list OutPoint) :=
  if (length (tx_input (unsigned_tx psbt)) =? 0)%nat then Err EmptyPsbt else
  if (MAX_INPUTS <? length (tx_input (unsigned_tx psbt)))%nat then Err TooManyInputs else
  Ok (bset_of_list (map previous_output (tx_input (unsigned_tx psbt)))).

Section charge.
Context `{hashes : Hashes, secp : Secp, codec : Codec}.

Fixpoint matches_loop (script : bytes) (desc : ParsedDescriptor) (indices : list Z) : res SignError bool :=
  match indices with
  | [] => Ok false
  | i :: indices =>
      derived ← map_err (λ e, SVerify (VDerive e)) (derive_at desc i);
      if bool_decide (do_script_pubkey derived = script) then Ok true else matches_loop script desc indices
  end.
Definition matches_descriptor (script : bytes) (desc : ParsedDescriptor) (gap : Z) : res SignError bool :=
  matches_loop script desc (seqZ 0 gap).

Definition belongs_to_wallet (script : bytes) (receive : ParsedDescriptor)
    (change : option ParsedDescriptor) (gap : Z) : res SignError bool :=
  m ← matches_descriptor script receive gap;
  if (m : bool) then Ok true else
  match change with
  | Some chg => matches_descriptor script chg gap
  | None => Ok false
  end.

Definition spend_charge (psbt : Psbt) (descriptor : bytes) (verify : VerifyPolicy) : res SignError Z :=
  receive ← map_err (λ e, SVerify (VDescriptor e)) (parse descriptor);
  change ← match change_descriptor verify with
           | Some s => Some <$> map_err (λ e, SVerify (VDescriptor e)) (parse s)
           | None => Ok None
           end;
  let gap := gap_limit verify in
  sum_in ← fold_resi (λ sum i input,
      utxo ← ok_or (witness_utxo input) (SMissingWitnessUtxo i);
      ok_or (checked_add sum (txo_value utxo)) UnbalancedPsbt) 0 0 (psbt_inputs psbt);
  '(sum_out, foreign) ← fold_res (λ st txout,
      let v := txo_value txout in
      sum_out ← ok_or (checked_add st.1 v) UnbalancedPsbt;
      own ← belongs_to_wallet (txo_script txout) receive change gap;
      Ok (sum_out, if negb own then sat_add st.2 v else st.2)) (0, 0) (tx_output (unsigned_tx psbt));
  fee ← ok_or (checked_sub sum_in sum_out) UnbalancedPsbt;
  Ok (sat_add foreign fee).

(** ** Authorize and commit *)

(** What [authorize] is called with. *)
Record SpendEnv := mkEnv {
  env_policy : SpendPolicy;
  env_psbt : Psbt;
  env_descriptor : bytes;
  env_verify : VerifyPolicy;
  env_balance : Balance;
  env_clock : MonotonicClock;
  env_blocks : BlockHeightSource;
  env_wall : option Z
}.

(** The decision, on the advanced and pruned state. *)
Definition decide_spend (e : SpendEnv) (s : CoreState) : res SignError SpendApproval :=
  if negb (passphrase_used_since_install s) then Err SpendLimitExceeded else
  let reference := spend_policy_reference_sats (env_balance e) in
  let allowed := allowance (env_policy e) reference in
  charge ← spend_charge (env_psbt e) (env_descriptor e) (env_verify e);
  set ← input_set (env_psbt e);
  let known := existsb (λ b, same_inputs (bk_inputs b) set) (bookings s) in
  let extra := extra_against_bookings (bookings s) set charge in
  let used := booked_sat s in
  let remaining := sat_sub allowed used in
  if remaining <? extra then Err SpendLimitExceeded else
  if negb known && (MAX_BOOKINGS <=? length (bookings s))%nat then Err WindowLedgerFull else
  Ok (mkApproval set charge).

Definition authorize (e : SpendEnv) (s : CoreState) : CoreState * res SignError SpendApproval :=
  match validate (env_policy e) with
  | Err err => (s, Err (SPolicy err))
  | Panic => (s, Panic)
  | Ok _ =>
      let s := advance (env_clock e) (env_blocks e) (env_wall e) s in
      let s := prune (window (env_policy e)) s in
      (s, decide_spend e s)
  end.

End charge.

Fixpoint commit_existing (a : SpendApproval) (now : Z) (bs : list BookedSpend) : option (list BookedSpend) :=
  match bs with
  | [] => None
  | b :: bs =>
      if same_inputs (bk_inputs b) (ap_input_set a) then
        Some ((if bk_amount_sat b <? ap_charge_sat a
               then mkBookedSpend (bk_inputs b) (ap_charge_sat a) now else b) :: bs)
      else cons b <$> commit_existing a now bs
  end.

Definition commit (a : SpendApproval) (s : CoreState) : CoreState :=
  let bs' := match commit_existing a (window_elapsed_ns s) (bookings s) with
             | Some bs => bs
             | None =>
                 if (length (bookings s) <? MAX_BOOKINGS)%nat
                 then bookings s ++ [mkBookedSpend (isort (ap_input_set a)) (ap_charge_sat a) (window_elapsed_ns s)]
                 else bookings s
             end in
  mkCoreState (initialized s) (monotonic_ns_at_anchor s) (block_height_at_anchor s) (boot_id_at_anchor s)
    (wall_unix_ns_at_anchor s) (window_elapsed_ns s) (window_start_elapsed_ns s)
    (passphrase_used_since_install s) bs'.

(** ** The time step never outruns the clocks *)

(** One step adds at most the monotonic time since the anchor, nothing
    across a reboot, at most ten minutes per new block while heights are known,
    and nothing when the wall clock moved back or ahead of the monotonic one. *)
Lemma step_elapsed_bounds prev now boot height wall :
  core_wf prev → is_u64 now → opt_wf is_u32 height →
  let st := step_elapsed prev now boot height wall in
  0 ≤ st ≤ Z.max 0 (now - monotonic_ns_at_anchor prev) ∧
  (∀ a b, boot_id_at_anchor prev = Some a → boot = Some b → a ≠ b → st = 0) ∧
  (∀ p n, block_height_at_anchor prev = Some p → height = Some n →
     st ≤ Z.max 0 (n - p) * (600 * NANOS_PER_SEC)) ∧
  (∀ p n, wall_unix_ns_at_anchor prev = Some p → wall = Some n →
     n < p ∨ now - monotonic_ns_at_anchor prev < n - p → st = 0).
Proof.
  intros (Hm & Hb & _) Hnow Hh. cbn zeta. unfold step_elapsed, apply_wall_veto.
  set (anchor := monotonic_ns_at_anchor prev) in *. cbn zeta.
  set (trusted := match boot_id_at_anchor prev, boot with Some a, Some b => a =? b | _, _ => anchor <=? now end
    && negb (now <? anchor)).
  assert (trusted = true → anchor ≤ now) as Htr by (unfold trusted; intros; bool_simp; lia).
  assert (∀ p n, block_height_at_anchor prev = Some p → height = Some n → p ≤ n →
    from_secs (sat_mul (n - p) SECONDS_PER_BLOCK) = (n - p) * (600 * NANOS_PER_SEC)) as Hbl.
  { intros p n Hp Hn ?. apply Hb in Hp. apply Hh in Hn. unfold from_secs, sat_mul.
    change SECONDS_PER_BLOCK with 600. unfold is_u32, u32_max, u64_max in *. lia. }
  destruct trusted eqn:Et; cbn [negb].
  2: { split_and!; intros; try lia. unfold NANOS_PER_SEC. lia. }
  specialize (Htr eq_refl). split_and!.
  - repeat case_match; simplify_eq; bool_simp; try lia; rewrite (Hbl _ _ eq_refl eq_refl) by done;
      unfold NANOS_PER_SEC; lia.
  - repeat case_match; simplify_eq; bool_simp; lia.
  - intros a b Ha Hb' Hne. exfalso. unfold trusted in Et. rewrite Ha, Hb' in Et. bool_simp. done.
  - intros p n Hp Hn. rewrite Hp, Hn. destruct (p <=? n) eqn:E; bool_simp.
    + rewrite (Hbl _ _ Hp Hn) by done. rewrite Z.max_r by lia.
      repeat case_match; unfold NANOS_PER_SEC; lia.
    + repeat case_match; unfold NANOS_PER_SEC; lia.
  - intros p n Hp Hn Hv. rewrite Hp, Hn. destruct (n <? p) eqn:E; [done|]. bool_simp. cbn [fmap option_fmap option_map default].
    unfold duration_as_ns. destruct Hv; [lia|]. rewrite (proj2 (Z.leb_le (now - anchor) _)) by mlia.
    unfold id. by rewrite (proj2 (Z.ltb_lt _ _)) by lia.
Qed.

(** ** Well-formedness is preserved *)

Record env_wf (e : SpendEnv) : Prop := {
  ew_policy : policy_wf (env_policy e);
  ew_psbt : psbt_wf (env_psbt e);
  ew_inputs : Forall (λ t, outpoint_wf (previous_output t)) (tx_input (unsigned_tx (env_psbt e)));
  ew_balance : balance_wf (env_balance e);
  ew_clock : clock_wf (env_clock e);
  ew_blocks : blocks_wf (env_blocks e);
  ew_wall : opt_wf is_u64 (env_wall e)
}.

Definition approval_wf (a : SpendApproval) : Prop :=
  (1 ≤ length (ap_input_set a) ≤ MAX_INPUTS)%nat ∧ Forall outpoint_wf (ap_input_set a) ∧
  is_u64 (ap_charge_sat a).

Lemma duration_as_ns_u64 d : 0 ≤ d → is_u64 (duration_as_ns d).
Proof. unfold duration_as_ns. destruct (d <=? u64_max) eqn:E; bool_simp; mlia. Qed.

Lemma option_or_wf P new old : opt_wf P new → opt_wf P old → opt_wf P (option_or new old).
Proof. unfold opt_wf, option_or. destruct new; auto. Qed.

Lemma advance_wf clock blocks wall s :
  core_wf s → clock_wf clock → blocks_wf blocks → opt_wf is_u64 wall → core_wf (advance clock blocks wall s).
Proof.
  intros Hs [Hc Hboot] Hb Hw. pose proof (duration_as_ns_u64 _ Hc) as Hnow. unfold advance.
  pose proof (step_elapsed_bounds s (duration_as_ns (clock_now clock)) (clock_boot_id clock) (tip_height blocks) wall
    Hs Hnow Hb) as [[Hst _] _]. apply duration_as_ns_u64 in Hst.
  destruct Hs as (H1 & H2 & H3 & H4 & H5 & H6 & H7 & H8).
  destruct (initialized s); cbn [negb]; unfold core_wf; cbn -[is_u64 is_u32]; split_and!;
    first [done|apply option_or_wf; done|by apply sat_add_u64|mlia|idtac]. 
Qed.

Lemma filter_length_le {A} (f : A → bool) l : (length (List.filter f l) ≤ length l)%nat.
Proof. induction l as [|x l IH]; cbn; [lia|]. destruct (f x); cbn; lia. Qed.
Lemma filter_Forall {A} (f : A → bool) (P : A → Prop) l : Forall P l → Forall P (List.filter f l).
Proof. induction 1; cbn; [constructor|]. by destruct (f x); try constructor. Qed.

Lemma prune_wf w s : 0 ≤ w → core_wf s → core_wf (prune w s).
Proof.
  intros Hw (H1 & H2 & H3 & H4 & H5 & H6 & H7 & H8). unfold prune, core_wf. cbn -[is_u64 is_u32 sat_sub].
  pose proof (duration_as_ns_u64 w Hw) as Hd.
  split_and!; try done.
  - apply sat_sub_u64; [done|]. mlia.
  - pose proof (filter_length_le (λ b, sat_sub (window_elapsed_ns s) (duration_as_ns w) <=? bk_elapsed_at_ns b) (bookings s)). lia.
  - by apply filter_Forall.
Qed.

(** ** Bookings *)

Definition matches_booking (set : list OutPoint) (b : BookedSpend) : bool := same_inputs (bk_inputs b) set.

(** The booking a commit leaves in place of a matching one. *)
Definition rebook (a : SpendApproval) (now : Z) (b : BookedSpend) : BookedSpend :=
  if bk_amount_sat b <? ap_charge_sat a then mkBookedSpend (bk_inputs b) (ap_charge_sat a) now else b.

(** Both [find] loops stop at the first booking of the same inputs. *)
Lemma bookings_split set bs :
  (∃ pre b post, bs = pre ++ b :: post ∧ Forall (λ x, matches_booking set x = false) pre ∧
     matches_booking set b = true) ∨
  Forall (λ x, matches_booking set x = false) bs.
Proof.
  induction bs as [|b bs IH]; [by right|]. destruct (matches_booking set b) eqn:E.
  - left. exists [], b, bs. by repeat constructor.
  - destruct IH as [(pre & x & post & -> & Hp & Hx)|H]; [left|right; by constructor].
    exists (b :: pre), x, post. split; [done|]. split; [by constructor|done].
Qed.
Lemma commit_existing_found a now pre b post :
  Forall (λ x, matches_booking (ap_input_set a) x = false) pre → matches_booking (ap_input_set a) b = true →
  commit_existing a now (pre ++ b :: post) = Some (pre ++ rebook a now b :: post).
Proof.
  unfold matches_booking. intros Hp Hb. induction Hp as [|x pre Hx Hp IH]; cbn.
  - rewrite Hb. done.
  - rewrite Hx, IH. done.
Qed.
Lemma commit_existing_none a now bs :
  Forall (λ x, matches_booking (ap_input_set a) x = false) bs → commit_existing a now bs = None.
Proof. unfold matches_booking. induction 1 as [|x bs Hx H IH]; cbn; [done|]. by rewrite Hx, IH. Qed.
Lemma extra_found set charge pre b post :
  Forall (λ x, matches_booking set x = false) pre → matches_booking set b = true →
  extra_against_bookings (pre ++ b :: post) set charge = sat_sub charge (bk_amount_sat b).
Proof.
  unfold matches_booking, extra_against_bookings. intros Hp Hb.
  induction Hp as [|x pre Hx Hp IH]; cbn; [by rewrite Hb|]. by rewrite Hx.
Qed.
Lemma extra_none set charge bs :
  Forall (λ x, matches_booking set x = false) bs → extra_against_bookings bs set charge = charge.
Proof.
  unfold matches_booking, extra_against_bookings. induction 1 as [|x bs Hx H IH]; cbn; [done|]. by rewrite Hx.
Qed.
Lemma known_spec set bs :
  existsb (λ b, same_inputs (bk_inputs b) set) bs = false ↔ Forall (λ x, matches_booking set x = false) bs.
Proof.
  unfold matches_booking. induction bs as [|b bs IH]; cbn; [split; [constructor|done]|].
  rewrite orb_false_iff, Forall_cons. naive_solver.
Qed.

(** A commit either rebooks the first matching booking or appends one. *)
Lemma commit_cases a s :
  (length (bookings s) < MAX_BOOKINGS)%nat ∨
    existsb (λ b, same_inputs (bk_inputs b) (ap_input_set a)) (bookings s) = true →
  (∃ pre b post, bookings s = pre ++ b :: post ∧ matches_booking (ap_input_set a) b = true ∧
     extra_against_bookings (bookings s) (ap_input_set a) (ap_charge_sat a) = sat_sub (ap_charge_sat a) (bk_amount_sat b) ∧
     bookings (commit a s) = pre ++ rebook a (window_elapsed_ns s) b :: post) ∨
  (extra_against_bookings (bookings s) (ap_input_set a) (ap_charge_sat a) = ap_charge_sat a ∧
   (length (bookings s) < MAX_BOOKINGS)%nat ∧
   bookings (commit a s) =
     bookings s ++ [mkBookedSpend (isort (ap_input_set a)) (ap_charge_sat a) (window_elapsed_ns s)]).
Proof.
  intros Hroom. unfold commit. cbn [bookings].
  destruct (bookings_split (ap_input_set a) (bookings s)) as [(pre & b & post & Hbs & Hp & Hb)|Hn].
  - left. exists pre, b, post. split; [done|]. split; [done|]. rewrite Hbs.
    rewrite extra_found, commit_existing_found by done. done.
  - right. rewrite extra_none, commit_existing_none by done. split; [done|].
    destruct Hroom as [Hl|Hk]; [split; [done|]; by rewrite (proj2 (Nat.ltb_lt _ _))|].
    apply known_spec in Hn. congruence.
Qed.

Lemma rebook_amount a now b : bk_amount_sat (rebook a now b) = bk_amount_sat b + sat_sub (ap_charge_sat a) (bk_amount_sat b).
Proof. unfold rebook, sat_sub. destruct (_ <? _) eqn:E; bool_simp; cbn; lia. Qed.

Lemma length_bset_foldl `{CmpLaws A} (l s : list A) :
  (length (foldl (λ s x, bset_insert x s) s l) ≤ length s + length l)%nat.
Proof.
  assert (∀ x (k : list A), (length (bset_insert x k) ≤ S (length k))%nat) as Hi.
  { intros x k. induction k as [|y k IH]; cbn; [lia|]. destruct (cmp x y); cbn; lia. }
  revert s. induction l as [|x l IH]; intros s; cbn; [lia|]. specialize (IH (bset_insert x s)).
  specialize (Hi x s). lia.
Qed.

Lemma input_set_wf psbt set :
  Forall (λ t, outpoint_wf (previous_output t)) (tx_input (unsigned_tx psbt)) → input_set psbt = Ok set →
  (1 ≤ length set ≤ MAX_INPUTS)%nat ∧ Forall outpoint_wf set ∧ bset_wf set ∧
  ∀ o, o ∈ set ↔ ∃ t, t ∈ tx_input (unsigned_tx psbt) ∧ previous_output t = o.
Proof.
  intros Hw. unfold input_set. intros H. if_inv H E1. if_inv H E2. bool_simp. injection H as <-.
  assert (∀ o, o ∈ bset_of_list (map previous_output (tx_input (unsigned_tx psbt))) ↔
    ∃ t, t ∈ tx_input (unsigned_tx psbt) ∧ previous_output t = o) as Hin.
  { intros o. rewrite elem_of_bset_of_list, list_elem_of_fmap. naive_solver. }
  split_and!; [| | |apply bset_of_list_wf|done].
  - destruct (tx_input (unsigned_tx psbt)) as [|t ts]; [done|].
    destruct (bset_of_list _) as [|o l] eqn:El; [|cbn; lia].
    exfalso. specialize (Hin (previous_output t)). apply (not_elem_of_nil (previous_output t)), Hin. exists t. set_solver.
  - pose proof (length_bset_foldl (map previous_output (tx_input (unsigned_tx psbt))) []) as Hl.
    rewrite length_map in Hl. cbn in Hl. unfold bset_of_list. lia.
  - apply Forall_forall. intros o (t & Ht & <-)%Hin. rewrite Forall_forall in Hw. by apply Hw.
Qed.

(** ** The charge of a transaction *)

Section charges.
Context `{hashes : Hashes, secp : Secp, codec : Codec}.

Lemma matches_loop_spec script desc l b :
  matches_loop script desc l = Ok b →
  b = true ↔ ∃ i o, i ∈ l ∧ derive_at desc i = Ok o ∧ do_script_pubkey o = script.
Proof.
  induction l as [|i l IH]; cbn [matches_loop].
  - intros [= <-]. split; [done|]. intros (i & o & Hi & _). by apply elem_of_nil in Hi.
  - intros (o & Ho%map_err_Ok & H)%bind_Ok. if_inv H E; bool_simp.
    + injection H as <-. split; [|done]. intros _. exists i, o. set_solver.
    + rewrite (IH H). split; intros (j & o' & Hj & Ho' & Hs).
      * exists j, o'. set_solver.
      * apply elem_of_cons in Hj as [->|Hj]; [congruence|]. by exists j, o'.
Qed.
Lemma matches_descriptor_spec script desc gap b :
  matches_descriptor script desc gap = Ok b → b = true ↔ ∃ i, derived_at desc gap script i.
Proof.
  intros H. rewrite (matches_loop_spec _ _ _ _ H). unfold derived_at. setoid_rewrite elem_of_seqZ.
  split; [intros (i & o & Hi & ?); exists i; split; [lia|eauto]|].
  intros (i & Hi & o & ?). exists i, o. split; [lia|done].
Qed.
Lemma belongs_to_wallet_spec script receive change gap b :
  belongs_to_wallet script receive change gap = Ok b → b = true ↔ owned receive change gap script.
Proof.
  unfold belongs_to_wallet, owned. intros (m & Hm%matches_descriptor_spec & H)%bind_Ok. destruct m.
  - injection H as <-. split; [|done]. intros _. destruct (proj1 Hm eq_refl) as [i Hi]. exists receive, i. auto.
  - assert (∀ i, ¬ derived_at receive gap script i) as Hno by (intros i Hi; discriminate (proj2 Hm (ex_intro _ i Hi))).
    destruct change as [chg|].
    + apply matches_descriptor_spec in H. rewrite H. split; [intros [i Hi]; exists chg, i; auto|].
      intros (d & i & [->|[= <-]] & Hi); [by apply Hno in Hi|eauto].
    + injection H as <-. split; [done|]. intros (d & i & [->|?] & Hi); [by apply Hno in Hi|done].
Qed.

(** The part of the outputs the wallet does not own. *)
Fixpoint sum_foreign (own : list bool) (outs : list TxOut) : Z :=
  match own, outs with
  | b :: own, o :: outs => (if b then 0 else txo_value o) + sum_foreign own outs
  | _, _ => 0
  end.

Lemma fold_foreign receive change gap outs st r :
  Forall txout_wf outs → 0 ≤ st.2 ≤ st.1 → st.1 ≤ u64_max →
  fold_res (λ st txout,
    let v := txo_value txout in
    sum_out ← ok_or (checked_add st.1 v) UnbalancedPsbt;
    own ← belongs_to_wallet (txo_script txout) receive change gap;
    Ok (sum_out, if negb own then sat_add st.2 v else st.2)) st outs = Ok r →
  ∃ own, Forall2 (λ o b, b = true ↔ owned receive change gap (txo_script o)) outs own ∧
    r = (st.1 + sum_Z (map txo_value outs), st.2 + sum_foreign own outs) ∧
    0 ≤ r.2 ≤ r.1 ∧ r.1 ≤ u64_max.
Proof.
  intros Hw. revert st. induction Hw as [|o outs Ho Hw IH]; intros [so fo] Hst Hmax; cbn [fst snd] in *.
  - intros [= <-]. exists []. cbn. rewrite !Z.add_0_r. auto.
  - cbn [fold_res]. cbn zeta. intros (st' & Hs & H)%bind_Ok.
    apply bind_Ok in Hs as (so' & [-> Hle]%ok_or_Ok%checked_add_Some & Hs).
    apply bind_Ok in Hs as (b & Hb%belongs_to_wallet_spec & [= <-]). unfold txout_wf in Ho.
    apply IH in H as (own & Hown & -> & Hr); cbn [fst snd] in *.
    + exists (b :: own). split; [by constructor|]. cbn [map sum_Z sum_foreign].
      destruct b; cbn [negb] in *; unfold sat_add in *; rewrite ?Z.min_l in * by mlia;
        (split; [f_equal; lia|lia]).
    + destruct b; cbn [negb]; unfold sat_add; mlia.
    + done.
Qed.

Lemma fold_resi_const {E A B} (f : B → A → res E B) (e : nat → E) (g : B → nat → A → res E B) b i l r :
  (∀ b i x r, g b i x = Ok r → f b x = Ok r) → fold_resi g b i l = Ok r → fold_res f b l = Ok r.
Proof.
  intros Hg. revert b i. induction l as [|x l IH]; intros b i; cbn; [done|].
  intros (b' & Hb & H)%bind_Ok. rewrite (Hg _ _ _ _ Hb). cbn. by eapply IH.
Qed.

(** What a transaction is charged: the outputs that no index of the
    wallet's descriptors derives, plus the fee, computed without overflow. *)
Lemma spend_charge_exact p descriptor policy c :
  psbt_wf p → spend_charge p descriptor policy = Ok c →
  ∃ receive change own, parse descriptor = Ok receive ∧
    match change_descriptor policy with
    | Some t => ∃ d, change = Some d ∧ parse t = Ok d
    | None => change = None
    end ∧
    Forall2 (λ o b, b = true ↔ owned receive change (gap_limit policy) (txo_script o)) (tx_output (unsigned_tx p)) own ∧
    c = sum_foreign own (tx_output (unsigned_tx p)) + (total_in p - total_out p) ∧
    0 ≤ total_in p - total_out p ∧ is_u64 c.
Proof.
  intros (Hw & _). unfold spend_charge. intros (receive & Hr%map_err_Ok & H)%bind_Ok.
  apply bind_Ok in H as (change & Hch & H).
  assert (match change_descriptor policy with
    | Some t => ∃ d, change = Some d ∧ parse t = Ok d | None => change = None end) as Hchange.
  { destruct (change_descriptor policy) as [t|]; [|by injection Hch as <-].
    destruct (parse t) as [d| |]; try done. injection Hch as <-. eauto. }
  cbn zeta in H. apply bind_Ok in H as (si & Hi & H).
  eapply (fold_resi_const (λ sum x, v ← (u ← ok_or (witness_utxo x) UnbalancedPsbt; Ok (txo_value u));
    ok_or (checked_add sum v) UnbalancedPsbt) (λ _, UnbalancedPsbt)) in Hi.
  2: { intros b i x r (u & Hu%ok_or_Ok & Ha)%bind_Ok. rewrite Hu. exact Ha. }
  apply (fold_checked_add (λ x, u ← ok_or (witness_utxo x) UnbalancedPsbt; Ok (txo_value u)) input_value) in Hi as [-> Hmax].
  2: { intros x z (u & Hu%ok_or_Ok & [= <-])%bind_Ok. unfold input_value. by rewrite Hu. }
  2: done.
  apply bind_Ok in H as ([so fo] & Ho & H). apply fold_foreign in Ho as (own & Hown & [= -> ->] & Hf & _); cbn; [|done..].
  apply bind_Ok in H as (fee & [-> Hle]%ok_or_Ok%checked_sub_Some & [= <-]).
  cbn [fst snd] in *. fold (total_in p) (total_out p) in *. exists receive, change, own. split_and!; try done.
  - unfold sat_add. lia.
  - lia.
  - unfold sat_add. mlia.
Qed.
End charges.

(** ** Runs of the counter and the budget *)

Section Runs.
Context `{hashes : Hashes, secp : Secp, codec : Codec}.

(** A satoshi amount charged at a point of effective time. *)
Notation charge_log := (list (Z * Z)).

(** The states a counter reaches under a fixed window length [w], with the log
    of what each commit newly charged. An authorization may be rejected, be
    abandoned because a signature failed, or be committed; the flag may be set;
    the state may be sealed and reopened between any two steps. *)
Inductive run (w : Z) : CoreState → charge_log → Prop :=
  | run_new : run w CoreState_empty []
  | run_flag s g b : run w s g → run w (set_passphrase_used b s) g
  | run_reopen s g : run w s g → run w (normalize s) g
  | run_authorize s g e s' r :
      run w s g → env_wf e → window (env_policy e) = w → authorize e s = (s', r) → run w s' g
  | run_commit s g e s' a :
      run w s g → env_wf e → window (env_policy e) = w → authorize e s = (s', Ok a) →
      run w (commit a s')
        (g ++ [(window_elapsed_ns s', extra_against_bookings (bookings s') (ap_input_set a) (ap_charge_sat a))]).

(** What the log charged at or after [start]. *)
Definition live_sum (start : Z) (g : charge_log) : Z :=
  sum_Z (map snd (List.filter (λ e, start <=? e.1) g)).

(** The log entries that explain one booking: they add up to its amount, and
    those that charged something are not younger than the booking. *)
Definition explains (b : BookedSpend) (l : charge_log) : Prop :=
  sum_Z (map snd l) = bk_amount_sat b ∧
  Forall (λ e, 0 ≤ e.2 ∧ (e.1 ≤ bk_elapsed_at_ns b ∨ e.2 = 0)) l.

Record ledger_inv (w : Z) (s : CoreState) (g : charge_log) : Prop := {
  li_wf : core_wf s;
  li_start : window_start_elapsed_ns s ≤ sat_sub (window_elapsed_ns s) (duration_as_ns w);
  li_fresh : initialized s = false → g = [] ∧ bookings s = [] ∧ window_start_elapsed_ns s = 0;
  li_past : Forall (λ b, bk_elapsed_at_ns b ≤ window_elapsed_ns s) (bookings s);
  li_log : ∃ dead live, g ≡ₚ dead ++ concat live ∧
    Forall (λ e, 0 ≤ e.2 ∧ (e.1 < window_start_elapsed_ns s ∨ e.2 = 0)) dead ∧
    Forall2 explains (bookings s) live
}.

Lemma live_sum_perm start g g' : g ≡ₚ g' → live_sum start g = live_sum start g'.
Proof.
  intros H. unfold live_sum. apply sum_Z_Permutation. apply Permutation_map.
  induction H as [|x l k H IH|x y l|l k m H1 IH1 H2 IH2]; cbn; repeat case_match; eauto using Permutation.
Qed.
Lemma live_sum_app start g g' : live_sum start (g ++ g') = live_sum start g + live_sum start g'.
Proof. unfold live_sum. by rewrite List.filter_app, map_app, sum_Z_app. Qed.
Lemma live_sum_dead start g :
  Forall (λ e, 0 ≤ e.2 ∧ (e.1 < start ∨ e.2 = 0)) g → live_sum start g = 0.
Proof.
  unfold live_sum. induction 1 as [|e g [He Hd] H IH]; cbn; [done|].
  destruct (start <=? e.1) eqn:E; bool_simp; cbn; lia.
Qed.
Lemma live_sum_le start g : Forall (λ e, 0 ≤ e.2) g → live_sum start g ≤ sum_Z (map snd g).
Proof.
  unfold live_sum. induction 1 as [|e g He H IH]; cbn; [lia|]. destruct (start <=? e.1); cbn; lia.
Qed.

(** The bookings account for everything charged in the live window. *)
Lemma ledger_live w s g :
  ledger_inv w s g → live_sum (window_start_elapsed_ns s) g ≤ sum_Z (map bk_amount_sat (bookings s)).
Proof.
  intros [_ _ _ _ (dead & live & Hg & Hd & Hl)]. rewrite (live_sum_perm _ _ _ Hg), live_sum_app, live_sum_dead by done.
  clear Hg Hd. rewrite Z.add_0_l. induction Hl as [|b l bs live [Hs Hf] Hl IH]; [done|].
  cbn [concat map sum_Z]. rewrite live_sum_app. assert (live_sum (window_start_elapsed_ns s) l ≤ sum_Z (map snd l)); [|lia].
  apply live_sum_le. eapply Forall_impl; [exact Hf|]. cbn. tauto.
Qed.

Lemma advance_elapsed clock blocks wall s :
  core_wf s → clock_wf clock → blocks_wf blocks → initialized s = true →
  window_elapsed_ns s ≤ window_elapsed_ns (advance clock blocks wall s) ∧
  window_start_elapsed_ns (advance clock blocks wall s) = window_start_elapsed_ns s ∧
  bookings (advance clock blocks wall s) = bookings s.
Proof.
  intros Hs [Hc _] Hb Hi. unfold advance. rewrite Hi. cbn [negb bookings window_elapsed_ns window_start_elapsed_ns].
  split_and!; try done.
  pose proof (step_elapsed_bounds s _ (clock_boot_id clock) (tip_height blocks) wall Hs (duration_as_ns_u64 _ Hc) Hb)
    as [[Hst _] _]. apply duration_as_ns_u64 in Hst. destruct Hs as (_ & _ & _ & _ & He & _). mlia.
Qed.

Lemma advance_inv w clock blocks wall s g :
  clock_wf clock → blocks_wf blocks → opt_wf is_u64 wall → ledger_inv w s g →
  ledger_inv w (advance clock blocks wall s) g.
Proof.
  intros Hc Hb Hw [Hwf Hst Hfr Hpast Hlog]. pose proof (advance_wf _ _ _ _ Hwf Hc Hb Hw) as Hwf'.
  destruct (initialized s) eqn:Hi.
  - destruct (advance_elapsed clock blocks wall s Hwf Hc Hb Hi) as (He & Hs & Hbk). split; [done|..].
    + rewrite Hs. unfold sat_sub in *. lia.
    + unfold advance. by rewrite Hi.
    + rewrite Hbk. eapply Forall_impl; [exact Hpast|]. cbn. lia.
    + rewrite Hbk, Hs. exact Hlog.
  - destruct (Hfr eq_refl) as (-> & Hbk & Hs). unfold advance in *. rewrite Hi in *. cbn [negb] in *.
    split; [exact Hwf'|..]; cbn; rewrite ?Hbk; try done; [unfold sat_sub; lia|].
    exists [], []. by repeat constructor.
Qed.

(** Pruning moves the entries of dropped bookings to the dead part. *)
Lemma prune_split (start : Z) (bs : list BookedSpend) (live : list charge_log) :
  Forall2 explains bs live →
  ∃ dead' live', concat live ≡ₚ dead' ++ concat live' ∧
    Forall (λ e, 0 ≤ e.2 ∧ (e.1 < start ∨ e.2 = 0)) dead' ∧
    Forall2 explains (List.filter (λ b, start <=? bk_elapsed_at_ns b) bs) live'.
Proof.
  induction 1 as [|b l bs live [Hs Hf] H (dead & live' & Hp & Hd & Hl)]; [by exists [], []|].
  cbn [concat List.filter]. destruct (start <=? bk_elapsed_at_ns b) eqn:E; bool_simp.
  - exists dead, (l :: live'). split_and!; [|done|by constructor]. cbn [concat]. rewrite Hp. apply Permutation_app_swap_app.
  - exists (l ++ dead), live'. split_and!; [by rewrite Hp, app_assoc| |done]. apply Forall_app_2; [|done].
    eapply Forall_impl; [exact Hf|]. cbn. intros e [? [?|?]]; lia.
Qed.

Lemma prune_inv w s g : 0 ≤ w → initialized s = true → ledger_inv w s g → ledger_inv w (prune w s) g.
Proof.
  intros Hw Hi [Hwf Hst Hfr Hpast (dead & live & Hg & Hd & Hl)]. split.
  - by apply prune_wf.
  - cbn. lia.
  - cbn. congruence.
  - cbn. by apply filter_Forall.
  - destruct (prune_split (sat_sub (window_elapsed_ns s) (duration_as_ns w)) _ _ Hl) as (dead' & live' & Hp & Hd' & Hl').
    exists (dead ++ dead'), live'. split_and!; [by rewrite Hg, Hp, app_assoc| |exact Hl'].
    cbn. apply Forall_app_2; [|done]. eapply Forall_impl; [exact Hd|]. cbn. intros e [? [?|?]]; lia.
Qed.

Lemma authorize_inv w e s g s' r :
  env_wf e → window (env_policy e) = w → authorize e s = (s', r) → ledger_inv w s g → ledger_inv w s' g.
Proof.
  intros [Hp _ _ _ Hc Hb Hw] Hwin. unfold authorize. destruct (validate (env_policy e)); intros [= <- <-] Hi; try done.
  rewrite Hwin. destruct Hp as (_ & _ & _ & Hpw). apply prune_inv; [lia| |by apply advance_inv].
  unfold advance. by destruct (initialized s).
Qed.

(** An approval passes every test of the decision, on the state it leaves. *)
Lemma authorize_Ok e s s' a :
  authorize e s = (s', Ok a) →
  passphrase_used_since_install s' = true ∧ initialized s' = true ∧
  spend_charge (env_psbt e) (env_descriptor e) (env_verify e) = Ok (ap_charge_sat a) ∧
  input_set (env_psbt e) = Ok (ap_input_set a) ∧
  extra_against_bookings (bookings s') (ap_input_set a) (ap_charge_sat a) ≤
    sat_sub (allowance (env_policy e) (spend_policy_reference_sats (env_balance e))) (booked_sat s') ∧
  ((length (bookings s') < MAX_BOOKINGS)%nat ∨
   existsb (λ b, same_inputs (bk_inputs b) (ap_input_set a)) (bookings s') = true).
Proof.
  unfold authorize. destruct (validate (env_policy e)); try done. intros [= Hs' H].
  unfold decide_spend in H. if_inv H E1. cbn zeta in H. apply bind_Ok in H as (charge & Hc & H).
  apply bind_Ok in H as (set & Hset & H). if_inv H E2. if_inv H E3. injection H as <-. rewrite Hs' in *.
  cbn [ap_charge_sat ap_input_set]. bool_simp. split_and!; try done.
  - subst s'. unfold prune, advance. cbn. by destruct (initialized s).
  - apply andb_false_iff in E3 as [E3|E3]; bool_simp; [by right|left; lia].
Qed.

Lemma approval_ok_wf e s s' a : env_wf e → authorize e s = (s', Ok a) → approval_wf a.
Proof.
  intros [_ Hpsbt Hin _ _ _ _] (_ & _ & Hc & Hset & _)%authorize_Ok.
  apply input_set_wf in Hset as (Hl & Hf & _); [|done]. apply spend_charge_exact in Hc as (? & ? & ? & _ & _ & _ & _ & _ & Hu); [|done].
  exact (conj Hl (conj Hf Hu)).
Qed.

(** After [authorize] every booking left lies in the window. *)
Lemma authorize_live e s s' a :
  authorize e s = (s', Ok a) → Forall (λ b, window_start_elapsed_ns s' ≤ bk_elapsed_at_ns b) (bookings s').
Proof.
  unfold authorize. destruct (validate (env_policy e)); try done. intros [= <- _]. cbn.
  apply Forall_forall. intros b [_ Hb]%list_elem_of_In%filter_In. by bool_simp.
Qed.

Lemma same_inputs_refl l : same_inputs l l = true.
Proof.
  unfold same_inputs. rewrite Nat.eqb_refl. cbn [negb]. apply forallb_forall. intros o Ho.
  by apply bset_contains_spec, list_elem_of_In.
Qed.

Lemma commit_wf a s :
  core_wf s → approval_wf a →
  ((length (bookings s) < MAX_BOOKINGS)%nat ∨
   existsb (λ b, same_inputs (bk_inputs b) (ap_input_set a)) (bookings s) = true) → core_wf (commit a s).
Proof.
  intros (H1 & H2 & H3 & H4 & H5 & H6 & H7 & H8) ([Ha1 Ha2] & Ha3 & Ha4) Hroom.
  assert ((length (bookings (commit a s)) ≤ MAX_BOOKINGS)%nat ∧ Forall booking_wf (bookings (commit a s))) as [Hl Hf];
    [|unfold core_wf; tauto].
  destruct (commit_cases a s Hroom) as [(pre & b & post & Hbs & _ & _ & ->)|(_ & Hr & ->)].
  - rewrite Hbs in H7, H8. rewrite !length_app in *. cbn [length] in *. split; [done|].
    apply Forall_app in H8 as [Hpre [Hb Hpost]%Forall_cons]. apply Forall_app_2; [done|]. constructor; [|done].
    unfold rebook. destruct (_ <? _); [|done]. destruct Hb as (Hbl & Hbo & _ & _).
    exact (conj Hbl (conj Hbo (conj Ha4 H5))).
  - rewrite length_app. cbn [length].
    assert (booking_wf (mkBookedSpend (isort (ap_input_set a)) (ap_charge_sat a) (window_elapsed_ns s))) as Hnew.
    { unfold booking_wf. cbn [bk_inputs bk_amount_sat bk_elapsed_at_ns]. rewrite !isort_perm.
      exact (conj (conj Ha1 Ha2) (conj Ha3 (conj Ha4 H5))). }
    split; [lia|]. apply Forall_app_2; [done|]. constructor; [exact Hnew|constructor].
Qed.

(** The invariant survives a commit; the log grows by the newly charged amount. *)
Lemma commit_inv w a s g :
  approval_wf a → initialized s = true →
  ((length (bookings s) < MAX_BOOKINGS)%nat ∨
   existsb (λ b, same_inputs (bk_inputs b) (ap_input_set a)) (bookings s) = true) →
  ledger_inv w s g →
  ledger_inv w (commit a s)
    (g ++ [(window_elapsed_ns s, extra_against_bookings (bookings s) (ap_input_set a) (ap_charge_sat a))]).
Proof.
  intros Ha Hi Hroom [Hwf Hst Hfr Hpast (dead & live & Hg & Hd & Hl)].
  pose proof (commit_wf a s Hwf Ha Hroom) as Hwf'. destruct Ha as (_ & _ & Hc).
  split; [done|done|cbn; congruence|..]; cbn [window_elapsed_ns window_start_elapsed_ns commit];
    destruct (commit_cases a s Hroom) as [(pre & b & post & Hbs & _ & Hx & Hnew)|(Hx & _ & Hnew)];
    unfold commit in Hnew |- *; cbn [bookings] in Hnew |- *; rewrite ?Hx, Hnew.
  - rewrite Hbs in Hpast. apply Forall_app in Hpast as [Hpre [Hb Hpost]%Forall_cons].
    apply Forall_app_2; [done|]. constructor; [|done]. unfold rebook. destruct (_ <? _); cbn; lia.
  - apply Forall_app_2; [done|]. constructor; [cbn; lia|constructor].
  - rewrite Hbs in Hl, Hpast. apply Forall2_app_inv_l in Hl as (lpre & lbp & Hlp & Hlb & ->).
    apply Forall2_cons_inv_l in Hlb as (lb & lpost & [Hsum Hf] & Hlpost & ->).
    apply Forall_app in Hpast as [_ [Hb _]%Forall_cons].
    set (x := sat_sub (ap_charge_sat a) (bk_amount_sat b)).
    exists dead, (lpre ++ (lb ++ [(window_elapsed_ns s, x)]) :: lpost). split_and!; [|done|].
    + rewrite Hg, !concat_app. cbn [concat]. rewrite <-!app_assoc. do 3 f_equiv. apply Permutation_app_comm.
    + apply Forall2_app; [done|]. constructor; [|done]. split.
      * rewrite map_app, sum_Z_app, Hsum, rebook_amount. cbn. lia.
      * apply Forall_app_2.
        -- eapply Forall_impl; [exact Hf|]. intros e [He1 He2]. split; [done|]. unfold rebook.
           destruct (_ <? _); cbn; [|done]. destruct He2; [left; lia|by right].
        -- constructor; [|constructor]. cbn [fst snd]. unfold x, rebook, sat_sub. split; [lia|].
           destruct (_ <? _) eqn:E; bool_simp; cbn; [left; lia|right; lia].
  - exists dead, (live ++ [[(window_elapsed_ns s, ap_charge_sat a)]]). split_and!; [|done|].
    + by rewrite Hg, concat_app, app_assoc.
    + apply Forall2_app; [done|]. constructor; [|constructor]. split; cbn; [lia|].
      constructor; [|constructor]. cbn. split; [mlia|left; lia].
Qed.

Lemma normalize_wf s : core_wf s → core_wf (normalize s).
Proof.
  intros (H1 & H2 & H3 & H4 & H5 & H6 & H7 & H8).
  unfold normalize, core_wf. cbn. split_and!; try done; unfold opt_wf, from_opt_u32, from_opt_u64, opt_u32, opt_u64.
  - intros z. destruct (block_height_at_anchor s) as [h|] eqn:E; cbn; [|done]. destruct (h =? _); [done|]. intros [= <-]. by apply H2.
  - intros z. destruct (boot_id_at_anchor s) as [h|] eqn:E; cbn; [|done]. destruct (h =? _); [done|]. intros [= <-]. by apply H3.
  - intros z. destruct (wall_unix_ns_at_anchor s) as [h|] eqn:E; cbn; [|done]. destruct (h =? _); [done|]. intros [= <-]. by apply H4.
Qed.

Lemma normalize_inv w s g : ledger_inv w s g → ledger_inv w (normalize s) g.
Proof. intros [Hwf Hst Hfr Hpast Hlog]. split; try done. by apply normalize_wf. Qed.

Lemma run_inv w s g : 0 ≤ w → run w s g → ledger_inv w s g.
Proof.
  intros Hw. induction 1 as [|s g b H IH|s g H IH|s g e s' r H IH He Hwin Ha|s g e s' a H IH He Hwin Ha].
  - split; cbn; try done.
    + unfold core_wf, opt_wf. cbn. split_and!; try done; first [unfold MAX_BOOKINGS; lia|constructor].
    + unfold sat_sub. lia.
    + exists [], []. by repeat constructor.
  - destruct IH as [Hwf Hst Hfr Hp Hl]. by split.
  - by apply normalize_inv.
  - by eapply authorize_inv.
  - pose proof (authorize_inv _ _ _ _ _ _ He Hwin Ha IH) as Hi. pose proof (approval_ok_wf _ _ _ _ He Ha) as Hap.
    apply authorize_Ok in Ha as (_ & Hin & _ & _ & _ & Hroom). by apply commit_inv.
Qed.

(** C3: the spend window is a budget. In any run under a window of length [w],
    every approval that charges something new keeps the total newly charged in
    the live window, this approval included, within the allowance computed from
    the current balance. *)
Theorem spend_budget w s g e s' a :
  0 ≤ w → run w s g → env_wf e → window (env_policy e) = w → authorize e s = (s', Ok a) →
  0 < extra_against_bookings (bookings s') (ap_input_set a) (ap_charge_sat a) →
  live_sum (window_start_elapsed_ns s')
    (g ++ [(window_elapsed_ns s', extra_against_bookings (bookings s') (ap_input_set a) (ap_charge_sat a))])
  ≤ allowance (env_policy e) (spend_policy_reference_sats (env_balance e)).
Proof.
  intros Hw Hrun He Hwin Ha Hx. pose proof (authorize_inv _ _ _ _ _ _ He Hwin Ha (run_inv _ _ _ Hw Hrun)) as Hi.
  apply authorize_Ok in Ha as (_ & _ & _ & _ & Hle & _). revert Hx Hle.
  generalize (extra_against_bookings (bookings s') (ap_input_set a) (ap_charge_sat a)) as x. intros x Hx Hle.
  pose proof (ledger_live _ _ _ Hi) as Hlive. rewrite live_sum_app.
  assert (live_sum (window_start_elapsed_ns s') [(window_elapsed_ns s', x)] ≤ x) as Hone.
  { pose proof (live_sum_le (window_start_elapsed_ns s') [(window_elapsed_ns s', x)]) as H.
    cbn [map sum_Z snd] in H. rewrite Z.add_0_r in H. apply H. constructor; [cbn; lia|constructor]. }
  assert (is_u64 (allowance (env_policy e) (spend_policy_reference_sats (env_balance e)))) as Hall.
  { destruct He as [? _ _ ? _ _ _]. by apply allowance_u64, spend_policy_reference_u64. }
  unfold booked_sat, sat_sub in Hle. rewrite sat_sum_spec in Hle; [mlia|].
  destruct Hi as [(_ & _ & _ & _ & _ & _ & _ & Hbk) _ _ _ _]. apply Forall_map.
  eapply Forall_impl; [exact Hbk|]. intros b (_ & _ & Hb & _). mlia.
Qed.

(** An approved spend is never lost. After [authorize] returns an approval,
    [commit] leaves a booking for exactly its inputs, of at least its charge,
    inside the 256-entry table and the current window. *)
Lemma commit_books_approval w s g e s' a :
  0 ≤ w → run w s g → env_wf e → window (env_policy e) = w → authorize e s = (s', Ok a) →
  ∃ b, b ∈ bookings (commit a s') ∧ matches_booking (ap_input_set a) b = true ∧
    ap_charge_sat a ≤ bk_amount_sat b ∧ window_start_elapsed_ns s' ≤ bk_elapsed_at_ns b ∧
    (length (bookings (commit a s')) ≤ MAX_BOOKINGS)%nat.
Proof.
  intros Hw Hrun He Hwin Ha. pose proof (authorize_inv _ _ _ _ _ _ He Hwin Ha (run_inv _ _ _ Hw Hrun)) as Hi.
  pose proof (approval_ok_wf _ _ _ _ He Ha) as Hap. pose proof (authorize_live _ _ _ _ Ha) as Hlive.
  pose proof (authorize_Ok _ _ _ _ Ha) as (_ & Hin & _ & Hset & _ & Hroom).
  pose proof (commit_wf a s' (li_wf _ _ _ Hi) Hap Hroom) as (_ & _ & _ & _ & _ & _ & Hlen & _).
  apply input_set_wf in Hset as (_ & _ & Hswf & _); [|by destruct He].
  destruct (commit_cases a s' Hroom) as [(pre & b & post & Hbs & Hb & _ & Hnew)|(_ & _ & Hnew)].
  - exists (rebook a (window_elapsed_ns s') b). rewrite Hnew at 1. split_and!; [set_solver| | | |done].
    + unfold rebook, matches_booking in *. by destruct (_ <? _).
    + rewrite rebook_amount. unfold sat_sub. lia.
    + rewrite Hbs in Hlive. apply Forall_app in Hlive as [_ [Hlb _]%Forall_cons].
      unfold rebook. destruct (_ <? _); cbn; [|done]. destruct Hi as [(_ & _ & _ & _ & Hel & _) Hst _ _ _].
      unfold sat_sub, duration_as_ns in Hst. destruct (w <=? u64_max); mlia.
  - eexists. rewrite Hnew at 1. split_and!; [apply elem_of_app; right; constructor| | | |done].
    + unfold matches_booking. cbn. rewrite isort_id by (by apply bset_wf_sorted). apply same_inputs_refl.
    + cbn. lia.
    + cbn. destruct Hi as [(_ & _ & _ & _ & Hel & _) Hst _ _ _].
      unfold sat_sub, duration_as_ns in Hst. destruct (w <=? u64_max); mlia.
Qed.

(** The window matches inputs as sets: for stored inputs without repetition
    (all that [commit] stores), [same_inputs] holds exactly when the stored list
    and the set have the same members. *)
Lemma same_inputs_spec (stored set : list OutPoint) :
  NoDup stored → bset_wf set →
  same_inputs stored set = true ↔ ∀ o, o ∈ stored ↔ o ∈ set.
Proof.
  intros Hnd Hwf. unfold same_inputs. split.
  - destruct (length stored =? length set)%nat eqn:E; cbn [negb]; [|done]. bool_simp. intros Hf.
    assert (stored ≡ₚ set) as Hp; [|intros o; by rewrite Hp].
    apply NoDup_same_elements; [done|lia|]. intros o Ho%list_elem_of_In. rewrite forallb_forall in Hf.
    by apply bset_contains_spec, Hf.
  - intros Heq. assert (stored ≡ₚ set) as Hp by (apply NoDup_Permutation; [done|by apply bset_wf_NoDup|done]).
    rewrite (Permutation_length Hp), Nat.eqb_refl. cbn [negb]. apply forallb_forall. intros o Ho%list_elem_of_In.
    by apply bset_contains_spec, Heq.
Qed.
End Runs.

(** ** Sealing what a counter reaches *)

Section Sealing.
Context `{hashes : Hashes, secp : Secp, codec : Codec, aead : Aead}.

(** The states a counter sealed under [kek] reaches, under any policies: every
    authorization may come with its own policy, clock, tip and window length, and
    may be rejected; an approval may be committed at once, later or never;
    the state may be sealed and reopened between any two steps. *)
Inductive reached (kek : bytes) : CoreState → Prop :=
  | reached_new : reached kek CoreState_empty
  | reached_flag s b : reached kek s → reached kek (set_passphrase_used b s)
  | reached_reopen s nonce blob c :
      reached kek s → length nonce = NONCE_LEN → WindowCounter_seal (Some nonce) (mkCounter kek s) = Ok blob →
      WindowCounter_open kek blob = Ok c → reached kek (wc_state c)
  | reached_authorize s e s' r : reached kek s → env_wf e → authorize e s = (s', r) → reached kek s'
  | reached_commit s s0 e s1 a :
      reached kek s → env_wf e → authorize e s0 = (s1, Ok a) → reached kek (commit a s).

(** On a full table without a matching booking, a commit changes nothing. *)
Lemma commit_full a s :
  (length (bookings s) < MAX_BOOKINGS)%nat ∨
    existsb (λ b, same_inputs (bk_inputs b) (ap_input_set a)) (bookings s) = true ∨ commit a s = s.
Proof.
  destruct (Nat.ltb_spec (length (bookings s)) MAX_BOOKINGS) as [|Hl]; [by left|right].
  destruct (existsb _ (bookings s)) eqn:E; [by left|right]. apply known_spec in E.
  unfold commit. rewrite commit_existing_none, (proj2 (Nat.ltb_ge _ _)) by done. by destruct s.
Qed.
Lemma seal_reopens `{!AeadLaws} kek nonce s :
  core_wf s → length kek = 32%nat → length nonce = NONCE_LEN →
  ∃ blob, WindowCounter_seal (Some nonce) (mkCounter kek s) = Ok blob ∧
    WindowCounter_open kek blob = Ok (mkCounter kek (normalize s)).
Proof.
  intros Hw Hk Hn. destruct (encrypt_decrypt kek nonce s Hw Hn) as (blob & He & Hd).
  exists blob. unfold WindowCounter_seal, WindowCounter_open, encrypt. cbn [wc_kek wc_state draw_nonce ok_or mbind res_bind].
  rewrite Hk, He, Hd. done.
Qed.

Lemma reached_wf `{!AeadLaws} kek s : length kek = 32%nat → reached kek s → core_wf s.
Proof.
  intros Hk. induction 1 as [|s b _ IH|s nonce blob c _ IH Hn Hs Ho|s e s' r _ IH He Ha|s s0 e s1 a _ IH He Ha].
  - unfold core_wf, opt_wf. cbn. split_and!; try done; first [unfold MAX_BOOKINGS; lia|constructor].
  - done.
  - destruct (seal_reopens kek nonce s IH Hk Hn) as (blob' & Hs' & Ho').
    rewrite Hs in Hs'. injection Hs' as <-. rewrite Ho in Ho'. injection Ho' as ->. by apply normalize_wf.
  - destruct He as [(_ & _ & _ & Hpw) _ _ _ Hc Hb Hw]. unfold authorize in Ha.
    destruct (validate (env_policy e)); injection Ha as <- _; try done. apply prune_wf; [lia|by apply advance_wf].
  - pose proof (approval_ok_wf _ _ _ _ He Ha) as Hap.
    destruct (commit_full a s) as [?|[?| ->]]; [by apply commit_wf; auto..|done].
Qed.

(** C29: every state a counter reaches can be sealed, under a key of 32 bytes
    and a nonce of 24; the sealing [expect]s and size checks cannot fail. The
    windows, policies and clocks of the steps may differ, and approvals may be
    committed late. The blob reopens to the state with its all-ones block height,
    boot id and wall clock (the encoding's mark for "unknown") read as unknown;
    to the very state when it holds none of these values. *)
Theorem reachable_state_seals `{!AeadLaws} s kek nonce :
  reached kek s → length kek = 32%nat → length nonce = NONCE_LEN →
  ∃ blob, WindowCounter_seal (Some nonce) (mkCounter kek s) = Ok blob ∧
    WindowCounter_open kek blob = Ok (mkCounter kek (normalize s)) ∧ (no_sentinel s → normalize s = s).
Proof.
  intros Hr Hk Hn. destruct (seal_reopens kek nonce s) as (blob & Hs & Ho); [by eapply reached_wf|done..|].
  exists blob. split_and!; [done..|apply normalize_id].
Qed.
End Sealing.
