(* ===== verification/WindowSamples.v ===== *)
(** A concrete run of the spend window.

    The spend of [VerifySamples] is authorized against an install whose
    passphrase flag is set, with the limit "off" (the allowance is the balance),
    and committed; the hypotheses of the window theorems hold on it. *)
From S2P Require Import Prelude Ordered Types Bitcoin Aead CoreState Keystore Limits Clock.
From S2P Require Import Checksum Parse Derive Verify SignErrors Window Toy VerifySamples.
Import Toy.
#[local] Existing Instances hashes secp codec.

Definition sample_env : SpendEnv :=
  mkEnv policy_off (sample_psbt origin) (desc_string origin External) (sample_policy origin)
    (mkBalance 100000 0 0 0) (mkClock 5000 (Some 1)) (mkBlocks (Some 800000)) (Some 1700000000000000000).

Definition sample_approval : SpendApproval := mkApproval [coin] 61000.
Definition start_state : CoreState := set_passphrase_used true CoreState_empty.
Definition authorized_state : CoreState :=
  mkCoreState true 5000 (Some 800000) (Some 1) (Some 1700000000000000000) 0 0 true [].

Lemma sample_authorize : authorize sample_env start_state = (authorized_state, Ok sample_approval).
Proof. vm_compute. reflexivity. Qed.

Lemma policy_off_wf : policy_wf policy_off.
Proof. split_and!; try done. Qed.

Lemma sample_env_wf : env_wf sample_env.
Proof.
  split.
  - exact policy_off_wf.
  - exact sample_psbt_wf.
  - constructor; [|constructor]. split_and!; [by apply bytes_ok_spec|done|cbv; done..].
  - split_and!; cbv; done.
  - split; [done|]. intros b [= <-]. done.
  - intros h [= <-]. done.
  - intros z [= <-]. done.
Qed.

Lemma start_run : run (window policy_off) start_state [].
Proof. apply run_flag, run_new. Qed.

Lemma spend_budget_witness :
  live_sum (window_start_elapsed_ns authorized_state)
    ([] ++ [(window_elapsed_ns authorized_state,
             extra_against_bookings (bookings authorized_state) (ap_input_set sample_approval) (ap_charge_sat sample_approval))])
  ≤ allowance policy_off (spend_policy_reference_sats (mkBalance 100000 0 0 0)).
Proof.
  apply (@spend_budget hashes secp codec (window policy_off) start_state [] sample_env authorized_state sample_approval).
  - discriminate.
  - exact start_run.
  - exact sample_env_wf.
  - reflexivity.
  - exact sample_authorize.
  - reflexivity.
Defined.

Lemma commit_books_approval_witness :
  ∃ b, b ∈ bookings (commit sample_approval authorized_state) ∧
    matches_booking (ap_input_set sample_approval) b = true ∧
    ap_charge_sat sample_approval ≤ bk_amount_sat b ∧ window_start_elapsed_ns authorized_state ≤ bk_elapsed_at_ns b ∧
    (length (bookings (commit sample_approval authorized_state)) ≤ MAX_BOOKINGS)%nat.
Proof.
  apply (@commit_books_approval hashes secp codec (window policy_off) start_state [] sample_env authorized_state sample_approval).
  - discriminate.
  - exact start_run.
  - exact sample_env_wf.
  - reflexivity.
  - exact sample_authorize.
Defined.

Lemma reachable_state_seals_witness :
  let s := commit sample_approval authorized_state in
  ∃ blob, @WindowCounter_seal ToyAead.aead (Some (replicate 24 1)) (mkCounter (replicate 32 9) s) = Ok blob ∧
    @WindowCounter_open ToyAead.aead (replicate 32 9) blob = Ok (mkCounter (replicate 32 9) (normalize s)) ∧
    (no_sentinel s → normalize s = s).
Proof.
  apply (@reachable_state_seals hashes secp codec ToyAead.aead ToyAead.laws (commit sample_approval authorized_state)
    (replicate 32 9) (replicate 24 1)); [|reflexivity|reflexivity].
  eapply reached_commit; [|exact sample_env_wf|exact sample_authorize].
  eapply reached_authorize; [|exact sample_env_wf|exact sample_authorize]. apply reached_flag, reached_new.
Defined.

Lemma spend_charge_exact_witness :
  ∃ receive change own, parse (desc_string origin External) = Ok receive ∧
    match change_descriptor (sample_policy origin) with
    | Some t => ∃ d, change = Some d ∧ parse t = Ok d
    | None => change = None
    end ∧
    Forall2 (λ o b, b = true ↔ @owned hashes secp codec receive change 5 (txo_script o)) (tx_output (sample_tx origin)) own ∧
    61000 = sum_foreign own (tx_output (sample_tx origin)) + (total_in (sample_psbt origin) - total_out (sample_psbt origin)) ∧
    0 ≤ total_in (sample_psbt origin) - total_out (sample_psbt origin) ∧ is_u64 61000.
Proof.
  apply (@spend_charge_exact hashes secp codec (sample_psbt origin) (desc_string origin External) (sample_policy origin) 61000).
  - exact sample_psbt_wf.
  - vm_compute. reflexivity.
Defined.

Lemma step_elapsed_bounds_witness :
  let st := step_elapsed authorized_state 9000 (Some 1) (Some 800001) (Some 1700000000000003000) in
  0 ≤ st ≤ Z.max 0 (9000 - 5000) ∧
  (∀ a b, boot_id_at_anchor authorized_state = Some a → Some 1 = Some b → a ≠ b → st = 0) ∧
  (∀ p n, block_height_at_anchor authorized_state = Some p → Some 800001 = Some n →
     st ≤ Z.max 0 (n - p) * (600 * NANOS_PER_SEC)) ∧
  (∀ p n, wall_unix_ns_at_anchor authorized_state = Some p → Some 1700000000000003000 = Some n →
     n < p ∨ 9000 - 5000 < n - p → st = 0).
Proof.
  apply (step_elapsed_bounds authorized_state 9000 (Some 1) (Some 800001) (Some 1700000000000003000)).
  - unfold core_wf, opt_wf. cbn. split_and!; try (intros z [= <-]); try done; unfold MAX_BOOKINGS; lia.
  - done.
  - intros z [= <-]. done.
Defined.
