(* ===== verification/Entropy.v ===== *)
(** [trinity-entropy]: additional entropy sources ([sources.rs]), the key
    generation pipeline ([entropy.rs], [hex.rs]) and the verification sheet
    ([evidence.rs]).

    ASCII input is a byte string. BIP-39 and private BIP-32 derivation are the
    class [KeyDerivation], shared with the on-device signer; a mnemonic is
    identified with its phrase. The hex functions of [hex.rs] are those of
    [Types]; the rendered text of the sheet is in [Sheet]. *)
From S2P Require Import Prelude Ordered Types Bitcoin.

(** BIP-39 and BIP-32 private derivation. *)
Class KeyDerivation := {
  (** [Mnemonic::from_entropy(entropy)], as its phrase *)
  mnemonic_from_entropy : bytes → option bytes;
  (** [mnemonic.to_seed("")] *)
  mnemonic_to_seed : bytes → bytes;
  Xpriv : Type;
  (** [Xpriv::new_master(Network::Bitcoin, seed)] *)
  new_master : bytes → option Xpriv;
  xpriv_to_string : Xpriv → bytes;
  xpriv_fingerprint : Xpriv → Fingerprint;
  (** [derive_priv(path)]: the private key of the child. *)
  derive_priv : Xpriv → DerivationPath → option bytes
}.

Inductive CardError := UnexpectedByte (index : nat) (byte : Z) | Incomplete | Duplicate (card : bytes).
Inductive EntropyError :=
  | EmptyDice | InvalidDice (index : nat) (byte : Z)
  | EmptyCoins | InvalidCoin (index : nat) (byte : Z)
  | EmptyCards | InvalidCard (e : CardError)
  | ECsRng | BadEntropyLength (got : nat) | EBip39 | EMasterKey.

(** ** Playing cards *)

Inductive Rank := Ace | Two | Three | Four | Five | Six | Seven | Eight | Nine | Ten | Jack | Queen | King.
Inductive Suit := Spades | Hearts | Diamonds | Clubs.
Record Card := mkCard { rank : Rank; suit : Suit }.
#[global] Instance Rank_eq_dec : EqDecision Rank.
Proof. solve_decision. Defined.
#[global] Instance Suit_eq_dec : EqDecision Suit.
Proof. solve_decision. Defined.
#[global] Instance Card_eq_dec : EqDecision Card.
Proof. solve_decision. Defined.

Definition Rank_from_start (b : bytes) : option (Rank * nat) :=
  match b with
  | [] => None
  | c :: r =>
      if (c =? 49) && (match r with d :: _ => d =? 48 | [] => false end) then Some (Ten, 2%nat)
      else if c =? 65 then Some (Ace, 1%nat)
      else if c =? 50 then Some (Two, 1%nat)
      else if c =? 51 then Some (Three, 1%nat)
      else if c =? 52 then Some (Four, 1%nat)
      else if c =? 53 then Some (Five, 1%nat)
      else if c =? 54 then Some (Six, 1%nat)
      else if c =? 55 then Some (Seven, 1%nat)
      else if c =? 56 then Some (Eight, 1%nat)
      else if c =? 57 then Some (Nine, 1%nat)
      else if c =? 74 then Some (Jack, 1%nat)
      else if c =? 81 then Some (Queen, 1%nat)
      else if c =? 75 then Some (King, 1%nat)
      else None
  end.
Definition Rank_as_str (r : Rank) : bytes :=
  match r with
  | Ace => str "A" | Two => str "2" | Three => str "3" | Four => str "4" | Five => str "5"
  | Six => str "6" | Seven => str "7" | Eight => str "8" | Nine => str "9" | Ten => str "10"
  | Jack => str "J" | Queen => str "Q" | King => str "K"
  end.
Definition Rank_index (r : Rank) : Z :=
  match r with
  | Ace => 0 | Two => 1 | Three => 2 | Four => 3 | Five => 4 | Six => 5 | Seven => 6
  | Eight => 7 | Nine => 8 | Ten => 9 | Jack => 10 | Queen => 11 | King => 12
  end.

Definition Suit_from_byte (b : Z) : option Suit :=
  if b =? 83 then Some Spades else if b =? 72 then Some Hearts
  else if b =? 68 then Some Diamonds else if b =? 67 then Some Clubs else None.
Definition Suit_as_char (s : Suit) : Z := match s with Spades => 83 | Hearts => 72 | Diamonds => 68 | Clubs => 67 end.
Definition Suit_index (s : Suit) : Z := match s with Spades => 0 | Hearts => 1 | Diamonds => 2 | Clubs => 3 end.

Definition card_encode (c : Card) : bytes := Rank_as_str (rank c) ++ [Suit_as_char (suit c)].
Definition deck_index (c : Card) : Z := Rank_index (rank c) * 4 + Suit_index (suit c).

Definition encode_cards (cards : list Card) : bytes := concat (map card_encode cards).

(** The [while] loop of [parse_cards]; [rest] is [bytes[i..]]. Each round
    consumes at least two bytes, so [S (length bytes)] rounds are enough. *)
Fixpoint parse_cards_loop (fuel : nat) (rest : bytes) (i : nat) (seen : Z) (cards : list Card)
    : res EntropyError (list Card) :=
  match fuel with
  | O => Panic
  | S fuel =>
      match rest with
      | [] => Ok cards
      | b :: _ =>
          '(rk, n) ← ok_or (Rank_from_start rest) (InvalidCard (UnexpectedByte i b));
          match drop n rest with
          | [] => Err (InvalidCard Incomplete)
          | c :: rest' =>
              st ← ok_or (Suit_from_byte c) (InvalidCard (UnexpectedByte (i + n) c));
              let card := mkCard rk st in
              let bit := Z.shiftl 1 (deck_index card) in
              if negb (Z.land seen bit =? 0) then Err (InvalidCard (Duplicate (card_encode card)))
              else parse_cards_loop fuel rest' (i + n + 1) (Z.lor seen bit) (cards ++ [card])
          end
      end
  end.
Definition parse_cards (ascii : bytes) : res EntropyError (list Card) :=
  if (length ascii =? 0)%nat then Err EmptyCards else parse_cards_loop (S (length ascii)) ascii 0 0 [].

Definition parse_dice (ascii : bytes) : res EntropyError bytes :=
  if (length ascii =? 0)%nat then Err EmptyDice else
  _ ← for_eachi (λ i b, ensure ((49 <=? b) && (b <=? 54)) (InvalidDice i b)) 0 ascii;
  Ok ascii.
Definition parse_coins (ascii : bytes) : res EntropyError bytes :=
  if (length ascii =? 0)%nat then Err EmptyCoins else
  _ ← for_eachi (λ i b, ensure ((b =? 48) || (b =? 49)) (InvalidCoin i b)) 0 ascii;
  Ok ascii.

(** ** Additional entropy *)

Record AdditionalEntropy := mkExtra {
  dice : option bytes;
  coins : option bytes;
  cards : option (list Card);
  sensor : option bytes
}.
Definition AdditionalEntropy_new : AdditionalEntropy := mkExtra None None None None.
Definition with_dice (ascii : bytes) (a : AdditionalEntropy) : res EntropyError AdditionalEntropy :=
  d ← parse_dice ascii; Ok (mkExtra (Some d) (coins a) (cards a) (sensor a)).
Definition with_coins (ascii : bytes) (a : AdditionalEntropy) : res EntropyError AdditionalEntropy :=
  c ← parse_coins ascii; Ok (mkExtra (dice a) (Some c) (cards a) (sensor a)).
Definition with_cards (ascii : bytes) (a : AdditionalEntropy) : res EntropyError AdditionalEntropy :=
  c ← parse_cards ascii; Ok (mkExtra (dice a) (coins a) (Some c) (sensor a)).
Definition with_sensor (blob : bytes) (a : AdditionalEntropy) : AdditionalEntropy :=
  mkExtra (dice a) (coins a) (cards a) (if (length blob =? 0)%nat then None else Some blob).

Record CountableEntropy := mkCountable { dice_rolls : nat; coin_flips : nat; card_count : nat }.
Definition class_b_credited_bits (c : CountableEntropy) : Z := 0.
Definition countable (a : AdditionalEntropy) : CountableEntropy :=
  mkCountable (default 0%nat (length <$> dice a)) (default 0%nat (length <$> coins a)) (default 0%nat (length <$> cards a)).

Definition cards_ascii (a : AdditionalEntropy) : option bytes := encode_cards <$> cards a.
Fixpoint join (sep : bytes) (l : list bytes) : bytes :=
  match l with [] => [] | [x] => x | x :: l => x ++ sep ++ join sep l end.
Definition cards_display (a : AdditionalEntropy) : option bytes := (λ cs, join (str " ") (map card_encode cs)) <$> cards a.

Definition SLOT_SEPARATOR : Z := 0x1E.

(** [iter().rposition(f)] *)
Fixpoint rposition {A} (f : A → bool) (l : list A) : option nat :=
  match l with
  | [] => None
  | x :: l => match rposition f l with Some i => Some (S i) | None => if f x then Some 0%nat else None end
  end.
Definition encode_slots (slots : list bytes) : bytes :=
  match rposition (λ s, negb (length s =? 0)%nat) slots with
  | None => []
  | Some last => concat (imap (λ i slot, (if (0 <? i)%nat then [SLOT_SEPARATOR] else []) ++ slot) (take (last + 1) slots))
  end.
Definition canonical_bytes (a : AdditionalEntropy) : bytes :=
  encode_slots [default [] (dice a); default [] (coins a); default [] (cards_ascii a); default [] (sensor a)].

(** ** Key generation *)

Record Bip39Material := mkMaterial { mat_mnemonic : bytes; mat_seed : bytes }.
Record GeneratedKey := mkKey {
  gk_word_count : WordCount;
  gk_raw_csprng : bytes;
  gk_extra_bytes : bytes;
  gk_entropy : bytes;
  gk_mnemonic : bytes;
  gk_seed : bytes;
  gk_xprv : bytes;
  gk_fingerprint : Fingerprint;
  gk_sources : AdditionalEntropy
}.

Section Generate.
Context `{hashes : Hashes, keys : KeyDerivation}.

Definition extract (raw_csprng extra_bytes : bytes) (wc : WordCount) : res EntropyError bytes :=
  slice 0 (Z.to_nat (entropy_bytes wc)) (hmac_sha512 raw_csprng extra_bytes).

Definition bip39_from_entropy (entropy : bytes) : res EntropyError Bip39Material :=
  if negb (length entropy =? 16)%nat && negb (length entropy =? 32)%nat then Err (BadEntropyLength (length entropy)) else
  mnemonic ← ok_or (mnemonic_from_entropy entropy) EBip39;
  Ok (mkMaterial mnemonic (mnemonic_to_seed mnemonic)).

Definition finish (wc : WordCount) (raw_csprng : bytes) (extra : AdditionalEntropy) : res EntropyError GeneratedKey :=
  let extra_bytes := canonical_bytes extra in
  entropy ← extract raw_csprng extra_bytes wc;
  bip39 ← bip39_from_entropy entropy;
  xpriv ← ok_or (new_master (mat_seed bip39)) EMasterKey;
  Ok (mkKey wc raw_csprng extra_bytes entropy (mat_mnemonic bip39) (mat_seed bip39) (xpriv_to_string xpriv)
        (xpriv_fingerprint xpriv) extra).

(** What the OS generator returned, or its failure. *)
Definition read_raw_csprng (rng : option bytes) : res EntropyError bytes := ok_or rng ECsRng.
Definition generate_from_raw (wc : WordCount) (raw : bytes) (extra : AdditionalEntropy) : res EntropyError GeneratedKey :=
  finish wc raw extra.
Definition generate_c_from_raw (raw : bytes) (extra : AdditionalEntropy) : res EntropyError GeneratedKey :=
  finish Words24 raw extra.
Definition generate (rng : option bytes) (wc : WordCount) (extra : AdditionalEntropy) : res EntropyError GeneratedKey :=
  raw ← read_raw_csprng rng; generate_from_raw wc raw extra.
Definition generate_c (rng : option bytes) (extra : AdditionalEntropy) : res EntropyError GeneratedKey :=
  raw ← read_raw_csprng rng; generate_c_from_raw raw extra.
End Generate.

Definition raw_csprng_hex (k : GeneratedKey) : bytes := hex_encode (gk_raw_csprng k).
Definition extra_bytes_hex (k : GeneratedKey) : bytes := hex_encode (gk_extra_bytes k).
Definition entropy_hex (k : GeneratedKey) : bytes := hex_encode (gk_entropy k).

(** ** The verification sheet *)

Record VerificationSheet := mkSheet {
  vs_l : Z;
  vs_word_count : WordCount;
  vs_raw_csprng_hex : bytes;
  vs_extra_bytes_hex : bytes;
  vs_entropy_hex : bytes;
  vs_mnemonic : bytes;
  vs_dice : option bytes;
  vs_coins : option bytes;
  vs_cards : option bytes;
  vs_sensor_len : option nat
}.
Definition from_parts (wc : WordCount) (raw extra entropy mnemonic : bytes) (sources : AdditionalEntropy) : VerificationSheet :=
  mkSheet (entropy_bytes wc) wc raw extra entropy mnemonic (dice sources) (coins sources) (cards_display sources)
    (length <$> sensor sources).
Definition from_key (k : GeneratedKey) : VerificationSheet :=
  from_parts (gk_word_count k) (raw_csprng_hex k) (extra_bytes_hex k) (entropy_hex k) (gk_mnemonic k) (gk_sources k).

(** ** Cards *)

Lemma Rank_from_start_str r l : Rank_from_start (Rank_as_str r ++ l) = Some (r, length (Rank_as_str r)).
Proof. destruct r; reflexivity. Qed.

Lemma Rank_from_start_Some b r n : Rank_from_start b = Some (r, n) → b = Rank_as_str r ++ drop n b.
Proof.
  destruct b as [|c b]; [done|]. cbn [Rank_from_start]. intros H.
  repeat (match type of H with (if ?t then _ else _) = _ => destruct t eqn:?E end;
    [injection H as <- <-; bool_simp; subst; try done|]); [|done].
  destruct b as [|d b]; [done|]. bool_simp. by subst.
Qed.

Lemma Suit_from_byte_char s : Suit_from_byte (Suit_as_char s) = Some s.
Proof. by destruct s. Qed.
Lemma Suit_from_byte_Some b s : Suit_from_byte b = Some s → b = Suit_as_char s.
Proof. unfold Suit_from_byte. repeat case_match; intros [= <-]; by bool_simp. Qed.

Lemma deck_index_bound c : 0 ≤ deck_index c < 52.
Proof. unfold deck_index. destruct c as [[] []]; cbn; lia. Qed.
Lemma deck_index_inj c d : deck_index c = deck_index d → c = d.
Proof.
  unfold deck_index. destruct c as [r s], d as [r' s']. cbn [rank suit]. intros H.
  assert (Rank_index r = Rank_index r' ∧ Suit_index s = Suit_index s') as [Hr Hs] by (destruct s, s'; cbn in *; lia).
  f_equal; [destruct r, r'; (done || discriminate Hr)|destruct s, s'; (done || discriminate Hs)].
Qed.

(** [seen] is the set of the cards parsed so far, as a bit mask. *)
Definition seen_inv (seen : Z) (cs : list Card) : Prop := ∀ c, Z.testbit seen (deck_index c) = bool_decide (c ∈ cs).

Lemma seen_bit seen cs c : seen_inv seen cs → (Z.land seen (Z.shiftl 1 (deck_index c)) =? 0) = bool_decide (c ∉ cs).
Proof.
  intros Hs. pose proof (deck_index_bound c). apply eq_bool_prop_intro.
  rewrite bool_decide_spec, Is_true_true, Z.eqb_eq. rewrite Z.shiftl_mul_pow2, Z.mul_1_l by lia. split.
  - intros Hz Hc. apply (f_equal (λ z, Z.testbit z (deck_index c))) in Hz.
    rewrite Z.land_spec, Z.pow2_bits_true, Z.bits_0, Hs, bool_decide_true in Hz by (done || lia). done.
  - intros Hc. apply Z.bits_inj'. intros n Hn. rewrite Z.land_spec, Z.bits_0, Z.pow2_bits_eqb by lia.
    destruct (deck_index c =? n) eqn:E; [|by rewrite andb_false_r]. bool_simp. subst n.
    by rewrite Hs, bool_decide_false.
Qed.

Lemma seen_add seen cs c : seen_inv seen cs → seen_inv (Z.lor seen (Z.shiftl 1 (deck_index c))) (cs ++ [c]).
Proof.
  intros Hs d. pose proof (deck_index_bound c). pose proof (deck_index_bound d).
  rewrite Z.lor_spec, Z.shiftl_mul_pow2, Z.mul_1_l, Z.pow2_bits_eqb, Hs by lia.
  apply eq_bool_prop_intro. rewrite orb_True, !bool_decide_spec, elem_of_app, list_elem_of_singleton, Is_true_true, Z.eqb_eq.
  split; intros [?|?]; auto; right; [by apply deck_index_inj|congruence].
Qed.

Lemma encode_cards_cons c cs : encode_cards (c :: cs) = Rank_as_str (rank c) ++ Suit_as_char (suit c) :: encode_cards cs.
Proof. unfold encode_cards, card_encode. cbn. by rewrite <-app_assoc. Qed.

Lemma parse_cards_loop_Ok fuel rest i seen cs r :
  seen_inv seen cs → NoDup cs → parse_cards_loop fuel rest i seen cs = Ok r →
  ∃ new, r = cs ++ new ∧ rest = encode_cards new ∧ NoDup r.
Proof.
  revert rest i seen cs. induction fuel as [|fuel IH]; intros rest i seen cs Hs Hn; [done|]. cbn [parse_cards_loop].
  destruct rest as [|b rest]; [intros [= <-]; exists []; by rewrite app_nil_r|].
  intros ([rk n] & Hr%ok_or_Ok & H)%bind_Ok. apply Rank_from_start_Some in Hr.
  destruct (drop n (b :: rest)) as [|c rest'] eqn:Ed; [done|].
  apply bind_Ok in H as (st & ->%ok_or_Ok%Suit_from_byte_Some & H). cbn zeta in H.
  rewrite (seen_bit _ _ _ Hs) in H. if_inv H E. bool_simp.
  apply IH in H as (new & -> & -> & Hnd); [|by apply seen_add|].
  - exists (mkCard rk st :: new). rewrite <-app_assoc in *. split_and!; [done| |done]. by rewrite Hr, encode_cards_cons.
  - apply NoDup_app. split_and!; [done| |apply NoDup_singleton]. intros x Hx ->%list_elem_of_singleton. done.
Qed.

Lemma parse_cards_loop_encode fuel i seen cs new :
  seen_inv seen cs → NoDup (cs ++ new) → (length new < fuel)%nat →
  parse_cards_loop fuel (encode_cards new) i seen cs = Ok (cs ++ new).
Proof.
  revert i seen cs new. induction fuel as [|fuel IH]; intros i seen cs new Hs Hn Hf; [lia|].
  destruct new as [|c new]; [by rewrite app_nil_r|]. rewrite encode_cards_cons. cbn [parse_cards_loop].
  destruct (Rank_as_str (rank c) ++ _) as [|b rest] eqn:Er; [by destruct (rank c)|].
  rewrite <-Er, Rank_from_start_str. cbn [ok_or mbind res_bind]. rewrite drop_app_length, Suit_from_byte_char.
  cbn [ok_or mbind res_bind]. assert (mkCard (rank c) (suit c) = c) as -> by by destruct c.
  rewrite (seen_bit _ _ _ Hs), bool_decide_true.
  - cbn [negb]. rewrite IH; [by rewrite <-app_assoc|by apply seen_add|by rewrite <-app_assoc|cbn in Hf; lia].
  - intros Hc. apply NoDup_app in Hn as (_ & Hd & _). apply (Hd c); [done|left].
Qed.

Lemma encode_cards_length cs : (length cs ≤ length (encode_cards cs))%nat.
Proof.
  induction cs as [|c cs IH]; [done|]. rewrite encode_cards_cons, length_app. cbn [length]. lia.
Qed.

Lemma seen_empty : seen_inv 0 [].
Proof. intros c. by rewrite Z.bits_0, bool_decide_false by apply not_elem_of_nil. Qed.

Lemma parse_cards_accepts s cs : parse_cards s = Ok cs ↔ cs ≠ [] ∧ NoDup cs ∧ s = encode_cards cs.
Proof.
  unfold parse_cards. split.
  - intros H. if_inv H E. bool_simp. apply parse_cards_loop_Ok in H as (new & -> & -> & Hn); [|exact seen_empty|constructor].
    cbn [app]. split_and!; try done. by intros ->.
  - intros (Hne & Hn & ->). pose proof (encode_cards_length cs). destruct cs as [|c cs]; [done|]. cbn [length] in H.
    rewrite (proj2 (Nat.eqb_neq _ _)) by lia. by rewrite (parse_cards_loop_encode _ _ _ []); [|exact seen_empty|done|cbn [length]; lia].
Qed.

Lemma parse_cards_loop_no_panic fuel rest i seen cs :
  (length rest < fuel)%nat → parse_cards_loop fuel rest i seen cs ≠ Panic.
Proof.
  revert rest i seen cs. induction fuel as [|fuel IH]; intros rest i seen cs Hf; [lia|]. cbn [parse_cards_loop].
  destruct rest as [|b rest]; [done|]. intros [H|([rk n] & _ & H)]%bind_Panic; [by apply ok_or_Panic in H|].
  destruct (drop n (b :: rest)) as [|c rest'] eqn:Ed; [done|].
  apply bind_Panic in H as [H|(st & _ & H)]; [by apply ok_or_Panic in H|]. cbn zeta in H. if_inv H E.
  apply IH in H; [done|]. apply (f_equal length) in Ed. rewrite length_drop in Ed. cbn [length] in *. lia.
Qed.

Lemma distinct_cards (cs : list Card) : NoDup cs → (length cs ≤ 52)%nat.
Proof.
  intros Hn. rewrite <-(length_map deck_index cs).
  change 52%nat with (length (seqZ 0 52)). apply submseteq_length, NoDup_submseteq.
  - apply NoDup_fmap_2; [intros x y; apply deck_index_inj|done].
  - intros z (c & -> & _)%list_elem_of_fmap. apply elem_of_seqZ. pose proof (deck_index_bound c). lia.
Qed.

(** The card parser accepts exactly the concatenated codes of a non-empty
    list of distinct cards and returns that list, of at most 52; every other
    input is an error value, so a duplicate or a cut-off card cannot pass. *)
Lemma parse_cards_spec s :
  (∀ cs, parse_cards s = Ok cs ↔ cs ≠ [] ∧ NoDup cs ∧ s = encode_cards cs) ∧
  (∀ cs, parse_cards s = Ok cs → (length cs ≤ 52)%nat) ∧ parse_cards s ≠ Panic.
Proof.
  split_and!.
  - intros cs. apply parse_cards_accepts.
  - intros cs (_ & Hn & _)%parse_cards_accepts. by apply distinct_cards.
  - unfold parse_cards. destruct (length s =? 0)%nat; [done|]. apply parse_cards_loop_no_panic. lia.
Qed.

(** ** The canonical encoding *)

(** The values the builder can produce. *)
Inductive built : AdditionalEntropy → Prop :=
  | built_new : built AdditionalEntropy_new
  | built_dice s a b : built a → with_dice s a = Ok b → built b
  | built_coins s a b : built a → with_coins s a = Ok b → built b
  | built_cards s a b : built a → with_cards s a = Ok b → built b
  | built_sensor s a : is_bytes s → built a → built (with_sensor s a).

(** An ASCII slot: bytes other than the separator. *)
Definition no_sep (s : bytes) : Prop := Forall (λ b, is_u8 b ∧ b ≠ SLOT_SEPARATOR) s.
Definition source_ok {A} (enc : A → bytes) (o : option A) : Prop := ∀ x, o = Some x → enc x ≠ [].

Record extra_ok (a : AdditionalEntropy) : Prop := {
  ok_dice : source_ok id (dice a) ∧ no_sep (default [] (dice a));
  ok_coins : source_ok id (coins a) ∧ no_sep (default [] (coins a));
  ok_cards : source_ok encode_cards (cards a) ∧ no_sep (default [] (cards_ascii a)) ∧
    ∀ cs, cards a = Some cs → parse_cards (encode_cards cs) = Ok cs;
  ok_sensor : source_ok id (sensor a) ∧ is_bytes (default [] (sensor a))
}.

Lemma parse_dice_Ok s d : parse_dice s = Ok d → d = s ∧ s ≠ [] ∧ no_sep s.
Proof.
  unfold parse_dice. intros H. if_inv H E. bool_simp. apply bind_Ok in H as ([] & Hf & [= <-]).
  rewrite for_eachi_Ok in Hf. split_and!; [done|by intros ->|]. apply Forall_lookup. intros i b Hb.
  apply Hf, ensure_Ok in Hb. bool_simp. unfold SLOT_SEPARATOR. split; [mlia|lia].
Qed.
Lemma parse_coins_Ok s c : parse_coins s = Ok c → c = s ∧ s ≠ [] ∧ no_sep s.
Proof.
  unfold parse_coins. intros H. if_inv H E. bool_simp. apply bind_Ok in H as ([] & Hf & [= <-]).
  rewrite for_eachi_Ok in Hf. split_and!; [done|by intros ->|]. apply Forall_lookup. intros i b Hb.
  apply Hf, ensure_Ok, orb_true_iff in Hb as [Hb|Hb]; bool_simp; subst; split; done.
Qed.
Lemma encode_cards_no_sep cs : no_sep (encode_cards cs).
Proof.
  induction cs as [|c cs IH]; [constructor|]. rewrite encode_cards_cons. apply Forall_app. split.
  - destruct (rank c); repeat (constructor; [split; done|]); constructor.
  - constructor; [by destruct (suit c); split|done].
Qed.

Lemma built_ok a : built a → extra_ok a.
Proof.
  assert (no_sep []) as Hnil by constructor. assert (is_bytes []) as Hbnil by constructor.
  induction 1 as [|s a b _ IH H|s a b _ IH H|s a b _ IH H|s a Hb _ IH]; [|destruct IH as [Hd Hc Hk Hs]..].
  - split; unfold source_ok; naive_solver.
  - apply bind_Ok in H as (d & (-> & Hne & Hno)%parse_dice_Ok & [= <-]). split; cbn; try done. split; [|done]. intros x Hx. by injection Hx as <-.
  - apply bind_Ok in H as (d & (-> & Hne & Hno)%parse_coins_Ok & [= <-]). split; cbn; try done. split; [|done]. intros x Hx. by injection Hx as <-.
  - apply bind_Ok in H as (cs & Hcs & [= <-]). split; cbn; try done. apply parse_cards_accepts in Hcs as (Hne & Hn & ->).
    split_and!; [|apply encode_cards_no_sep|].
    + intros ? [= <-]. pose proof (encode_cards_length cs). intros Heq. rewrite Heq in H. by destruct cs; [|cbn in H; lia].
    + intros ? [= <-]. by apply parse_cards_accepts.
  - split; cbn; try done. destruct (length s =? 0)%nat eqn:E; bool_simp; [done|]. split; [|done].
    intros x Hx Hnil'. injection Hx as <-. cbn in Hnil'. by subst s.
Qed.

(** Reading the slots back: cut at the first separators. *)
Fixpoint cut (s : bytes) : bytes * option bytes :=
  match s with
  | [] => ([], None)
  | b :: s => if b =? SLOT_SEPARATOR then ([], Some s) else let '(p, r) := cut s in (b :: p, r)
  end.
Fixpoint cut_slots (n : nat) (s : bytes) : list bytes :=
  match n with
  | O => [s]
  | S n => match cut s with (p, Some r) => p :: cut_slots n r | (p, None) => p :: replicate (S n) [] end
  end.

Lemma cut_none s : no_sep s → cut s = (s, None).
Proof.
  induction 1 as [|b s [_ Hb] _ IH]; [done|]. cbn [cut]. rewrite (proj2 (Z.eqb_neq _ _) Hb), IH. done.
Qed.
Lemma cut_some s r : no_sep s → cut (s ++ SLOT_SEPARATOR :: r) = (s, Some r).
Proof.
  induction 1 as [|b s [_ Hb] _ IH]; [done|]. cbn [cut app]. rewrite (proj2 (Z.eqb_neq _ _) Hb), IH. done.
Qed.

Lemma cut_encode_slots s0 s1 s2 s3 :
  no_sep s0 → no_sep s1 → no_sep s2 → cut_slots 3 (encode_slots [s0; s1; s2; s3]) = [s0; s1; s2; s3].
Proof.
  intros H0 H1 H2.
  assert (∀ s : bytes, (length s =? 0)%nat = true → s = []) as Hnil by (intros [|? ?]; done).
  unfold encode_slots. cbn [rposition]. destruct (length s3 =? 0)%nat eqn:E3; cbn [negb].
  2: { cbn. rewrite !app_nil_r, !cut_some by done. done. }
  destruct (length s2 =? 0)%nat eqn:E2; cbn [negb].
  2: { cbn. rewrite (Hnil s3), !app_nil_r by done. rewrite !cut_some, cut_none by done. done. }
  destruct (length s1 =? 0)%nat eqn:E1; cbn [negb].
  2: { cbn. rewrite (Hnil s3), (Hnil s2), !app_nil_r by done. rewrite !cut_some, cut_none by done. done. }
  rewrite (Hnil s3), (Hnil s2), (Hnil s1) by done.
  destruct (length s0 =? 0)%nat eqn:E0; cbn [negb]; [by rewrite (Hnil s0)|].
  cbn. rewrite !app_nil_r, cut_none by done. done.
Qed.

Lemma source_default {A} (enc : A → bytes) (o o' : option A) :
  source_ok enc o → source_ok enc o' → (∀ x y, o = Some x → o' = Some y → enc x = enc y → x = y) →
  default [] (enc <$> o) = default [] (enc <$> o') → o = o'.
Proof.
  intros Ho Ho' Hinj. destruct o as [x|], o' as [y|]; cbn; intros H; [f_equal; eauto|..|done].
  - by destruct (Ho x).
  - by destruct (Ho' y).
Qed.

Lemma default_id (o : option bytes) : default [] (id <$> o) = default [] o.
Proof. by destruct o. Qed.

(** The encoding of the additional sources is injective: two builder values
    with the same [extra_bytes] have the same dice, coins, cards and sensor
    blob. No roll can be passed off as a flip, and no boundary is ambiguous. *)
Lemma canonical_bytes_injective a b :
  built a → built b → canonical_bytes a = canonical_bytes b → a = b.
Proof.
  intros [[Hd Hd'] [Hc Hc'] (Hk & Hk' & Hkp) [Hs _]]%built_ok [[Gd Gd'] [Gc Gc'] (Gk & Gk' & Gkp) [Gs _]]%built_ok H.
  unfold canonical_bytes in H. apply (f_equal (cut_slots 3)) in H. rewrite !cut_encode_slots in H by done.
  injection H as H1 H2 H3 H4. rewrite <-!(default_id (dice _)), <-!(default_id (coins _)), <-!(default_id (sensor _)) in *.
  apply (source_default id) in H1, H2, H4; [|done..]. apply (source_default encode_cards) in H3; [|done..|].
  - destruct a, b; cbn in *. by subst.
  - intros x y Hx Hy Hxy. specialize (Hkp x Hx). specialize (Gkp y Hy). rewrite Hxy, Gkp in Hkp. by injection Hkp.
Qed.

Definition sample_extra : AdditionalEntropy :=
  mkExtra (Some (str "162")) (Some (str "01")) (Some [mkCard Ace Spades; mkCard Ten Hearts]) (Some [30; 7]).
Lemma sample_extra_built : built sample_extra.
Proof.
  apply (built_sensor [30; 7] (mkExtra (dice sample_extra) (coins sample_extra) (cards sample_extra) None)).
  { by apply bytes_ok_spec. }
  apply (built_cards (str "AS10H") (mkExtra (dice sample_extra) (coins sample_extra) None None)); [|reflexivity].
  apply (built_coins (str "01") (mkExtra (dice sample_extra) None None None)); [|reflexivity].
  apply (built_dice (str "162") AdditionalEntropy_new); [constructor|reflexivity].
Qed.

Lemma canonical_bytes_injective_witness : with_sensor [30; 7] sample_extra = sample_extra.
Proof.
  apply (canonical_bytes_injective (with_sensor [30; 7] sample_extra) sample_extra);
    [apply built_sensor; [by apply bytes_ok_spec|exact sample_extra_built]|exact sample_extra_built|reflexivity].
Defined.

(** ** What the sheet lets a reader recompute *)

Lemma encode_slots_bytes slots : Forall is_bytes slots → is_bytes (encode_slots slots).
Proof.
  intros H. unfold encode_slots. destruct (rposition _ _) as [n|]; [|constructor].
  apply Forall_concat, Forall_lookup. intros i x. rewrite list_lookup_imap.
  destruct (take (n + 1) slots !! i) as [s|] eqn:E; [|done]. intros [= <-].
  apply Forall_app. split; [case_match; by repeat constructor|].
  eapply (Forall_lookup_1 is_bytes (take (n + 1) slots)); [by apply Forall_take|done].
Qed.

Lemma no_sep_bytes s : no_sep s → is_bytes s.
Proof. intros H. eapply Forall_impl; [exact H|]. by intros b [? _]. Qed.

Lemma canonical_bytes_bytes a : built a → is_bytes (canonical_bytes a).
Proof.
  intros [[_ Hd] [_ Hc] (_ & Hk & _) [_ Hs]]%built_ok. apply encode_slots_bytes.
  repeat constructor; [by apply no_sep_bytes..|done].
Qed.

Definition strip_spaces (s : bytes) : bytes := List.filter (λ b, negb (b =? 32)) s.

Lemma strip_card c : strip_spaces (card_encode c) = card_encode c.
Proof. unfold card_encode. destruct c as [[] []]; reflexivity. Qed.

Lemma strip_cards_display cs : strip_spaces (join (str " ") (map card_encode cs)) = encode_cards cs.
Proof.
  unfold encode_cards. induction cs as [|c [|d cs] IH]; [done|cbn [map join concat]; by rewrite strip_card, app_nil_r|].
  cbn [map] in *. change (join (str " ") (card_encode c :: card_encode d :: map card_encode cs)) with
    (card_encode c ++ str " " ++ join (str " ") (card_encode d :: map card_encode cs)).
  unfold strip_spaces in *. rewrite !List.filter_app, IH. fold (strip_spaces (card_encode c)). by rewrite strip_card.
Qed.

Section Sheet.
Context `{hashes : Hashes, keys : KeyDerivation}.
(** HMAC-SHA512 tags have 64 bytes. *)
Context (tag64 : ∀ k m, length (hmac_sha512 k m) = 64%nat).

Lemma entropy_bytes_cases wc : Z.to_nat (entropy_bytes wc) = 16%nat ∨ Z.to_nat (entropy_bytes wc) = 32%nat.
Proof. destruct wc; auto. Qed.

Lemma extract_ok raw extra wc :
  extract raw extra wc = Ok (take (Z.to_nat (entropy_bytes wc)) (hmac_sha512 raw extra)).
Proof.
  unfold extract. destruct (entropy_bytes_cases wc) as [E|E]; rewrite E, slice_ok by (rewrite ?tag64; lia);
    by rewrite Nat.sub_0_r, drop_0.
Qed.

Lemma entropy_length raw extra wc :
  length (take (Z.to_nat (entropy_bytes wc)) (hmac_sha512 raw extra)) = Z.to_nat (entropy_bytes wc).
Proof. rewrite length_take, tag64. destruct (entropy_bytes_cases wc) as [-> | ->]; lia. Qed.

(** The pipeline, with every failure it can have. *)
Lemma finish_cases wc raw extra :
  let e := take (Z.to_nat (entropy_bytes wc)) (hmac_sha512 raw (canonical_bytes extra)) in
  finish wc raw extra =
    match mnemonic_from_entropy e with
    | None => Err EBip39
    | Some m =>
        match new_master (mnemonic_to_seed m) with
        | None => Err EMasterKey
        | Some x => Ok (mkKey wc raw (canonical_bytes extra) e m (mnemonic_to_seed m) (xpriv_to_string x)
                          (xpriv_fingerprint x) extra)
        end
    end.
Proof.
  cbn zeta. unfold finish. cbn zeta. rewrite extract_ok. cbn [mbind res_bind]. unfold bip39_from_entropy.
  rewrite entropy_length. destruct (entropy_bytes_cases wc) as [E|E]; rewrite E at 1 2; cbn [Nat.eqb negb andb];
    (destruct (mnemonic_from_entropy _) as [m|]; cbn [ok_or mbind res_bind]; [|done]);
    cbn [mat_seed]; by destruct (new_master _).
Qed.

(** The verification sheet is enough to recompute a key. Its hex fields
    decode to the random draw and the source bytes, HMAC-SHA512 of the two,
    truncated to the stated length, is the stated entropy, whose BIP-39 phrase
    is the stated one; the source bytes are the encoding of the dice, coins and
    cards shown and of a sensor blob of the length shown. *)
Lemma sheet_recomputes raw wc extra k :
  built extra → is_bytes raw → generate (Some raw) wc extra = Ok k →
  let sh := from_key k in
  hex_pairs (vs_raw_csprng_hex sh) = Ok raw ∧
  ∃ eb, hex_pairs (vs_extra_bytes_hex sh) = Ok eb ∧ eb = canonical_bytes extra ∧
    vs_entropy_hex sh = hex_encode (take (Z.to_nat (vs_l sh)) (hmac_sha512 raw eb)) ∧
    length (vs_entropy_hex sh) = (2 * Z.to_nat (vs_l sh))%nat ∧
    mnemonic_from_entropy (take (Z.to_nat (vs_l sh)) (hmac_sha512 raw eb)) = Some (vs_mnemonic sh) ∧
    ∃ blob, length blob = default 0%nat (vs_sensor_len sh) ∧
      eb = encode_slots [default [] (vs_dice sh); default [] (vs_coins sh); strip_spaces (default [] (vs_cards sh)); blob].
Proof.
  intros Hb Hraw H. cbn [generate read_raw_csprng ok_or mbind res_bind] in H. unfold generate_from_raw in H.
  rewrite finish_cases in H. destruct (mnemonic_from_entropy _) as [m|] eqn:Em; [|done].
  destruct (new_master _) as [x|]; [|done]. injection H as <-. cbn zeta.
  cbn [from_key from_parts vs_raw_csprng_hex vs_extra_bytes_hex vs_entropy_hex vs_l vs_mnemonic vs_sensor_len vs_dice
       vs_coins vs_cards raw_csprng_hex extra_bytes_hex entropy_hex gk_word_count gk_raw_csprng gk_extra_bytes gk_entropy
       gk_mnemonic gk_sources].
  split; [by apply hex_pairs_encode|]. exists (canonical_bytes extra). split_and!; [|done|done| |done|].
  - by apply hex_pairs_encode, canonical_bytes_bytes.
  - unfold entropy_hex. rewrite length_hex_encode. cbn [gk_entropy]. by rewrite entropy_length.
  - exists (default [] (sensor extra)). split; [by destruct (sensor extra)|].
    unfold canonical_bytes, cards_ascii, cards_display. destruct (cards extra) as [cs|]; [|done].
    change (default [] (encode_cards <$> Some cs)) with (encode_cards cs). by rewrite <-strip_cards_display.
Qed.
End Sheet.
