(* ===== verification/Sign.v ===== *)
(** [trinity-signer]: the two-signature ceremony ([sign.rs]), the on-device
    signer ([local.rs]) and the [Signer] trait ([lib.rs], [kind.rs]).

    A [Signer] is the interface between the ceremony and whoever holds a key:
    a record of functions over a state [W] of the outside world (platform
    keystores, attached hardware), so that "was the signer called" is a
    statement about [W]. [LocalSigner] is the shipped implementation, over a
    [PlatformKeyStore]. BIP-39 and BIP-32 private derivation are the class
    [KeyDerivation] of [Entropy]. Wiping of secrets has no functional content. *)
From S2P Require Import Prelude Ordered Types Bitcoin Aead CoreState Keystore Limits Clock.
From S2P Require Import Checksum Parse Derive Verify SignErrors Window Entropy.

Inductive SignerKind := Local | ExternalNfc | ExternalQr | ExternalUsb.
Definition SignerKind_as_str (k : SignerKind) : bytes :=
  match k with
  | Local => str "local"
  | ExternalNfc => str "external-nfc"
  | ExternalQr => str "external-qr"
  | ExternalUsb => str "external-usb"
  end.

(** [trait Signer] *)
Record Signer (W : Type) := mkSigner {
  signer_fingerprint : Fingerprint;
  signer_sign : Psbt → W → W * res SignError Psbt;
  signer_kind : SignerKind
}.
Arguments signer_fingerprint {W}.
Arguments signer_sign {W}.
Arguments signer_kind {W}.

Section Sign.
Context `{hashes : Hashes, secp : Secp, codec : Codec, aead : Aead, keys : KeyDerivation}.

(** ** Signature primitives *)

Definition sighash_is_all (sht : Z) : bool :=
  match ecdsa_hash_ty sht with Some SighashAll => true | _ => false end.

Definition p2wsh_sighash (tx : Transaction) (input_index : nat) (script : bytes) (value : Z)
    : res SignError bytes :=
  ok_or (p2wsh_signature_hash tx input_index script value) (SSighash input_index).

Definition sighash_message (tx : Transaction) (input_index : nat) (input : PsbtInput) : res SignError bytes :=
  utxo ← ok_or (witness_utxo input) (SMissingWitnessUtxo input_index);
  script ← ok_or (witness_script input) (MissingWitnessScript input_index);
  p2wsh_sighash tx input_index script (txo_value utxo).

Definition reject_high_s (sig : bytes) : res SignError unit :=
  if negb (bool_decide (normalize_s sig = sig)) then Err SelfVerificationFailed else Ok tt.

Definition verify_own_signature (msg sig pk : bytes) : res SignError unit :=
  if verify_ecdsa msg sig pk then Ok tt else Err SelfVerificationFailed.

Definition pubkey_for_fingerprint (input : PsbtInput) (fp : Fingerprint) : option bytes :=
  fst <$> List.find (λ e, bool_decide (e.2.1 = fp)) (in_bip32_derivation input).

Definition preflight_inputs (psbt : Psbt) (fp : Fingerprint) : res SignError unit :=
  if (length (psbt_inputs psbt) =? 0)%nat then Err EmptyPsbt else
  for_eachi (λ i input,
    _ ← match sighash_type input with
        | Some sht => if negb (sighash_is_all sht) then Err (SNonSighashAll i) else Ok tt
        | None => Ok tt
        end;
    _ ← for_each (λ e, ensure (bool_decide (sig_sighash e.2 = SighashAll)) (SNonSighashAll i)) (partial_sigs input);
    _ ← ok_or (witness_utxo input) (SMissingWitnessUtxo i);
    _ ← ok_or (witness_script input) (MissingWitnessScript i);
    ensure (existsb (λ e, bool_decide (e.2.1 = fp)) (in_bip32_derivation input)) (MissingDerivation i))
    0 (psbt_inputs psbt).

(** [psbt.inputs[i].partial_sigs.insert(..)] and the sighash field. *)
Definition add_signature (pk : bytes) (sig : EcdsaSignature) (i : PsbtInput) : PsbtInput :=
  mkPsbtInput (non_witness_utxo i) (witness_utxo i) (bmap_insert (true, pk) sig (partial_sigs i)) (Some 1)
    (witness_script i) (in_bip32_derivation i) (final_script_sig i) (final_script_witness i) (in_proprietary i).
Definition with_inputs (psbt : Psbt) (ins : list PsbtInput) : Psbt :=
  mkPsbt (unsigned_tx psbt) ins (psbt_outputs psbt) (psbt_proprietary psbt).

(** One produced signature: input index, public key, signature. *)
Definition sign_one (psbt : Psbt) (d : nat * bytes * bytes) : res SignError (nat * bytes * EcdsaSignature) :=
  let '(i, expected_pk, sk) := d in
  input ← index i (psbt_inputs psbt);
  msg ← sighash_message (unsigned_tx psbt) i input;
  let sig := sign_ecdsa_low_r msg sk in
  _ ← reject_high_s sig;
  _ ← verify_own_signature msg sig expected_pk;
  Ok (i, expected_pk, mkSig sig SighashAll).

Definition insert_one (psbt : Psbt) (p : nat * bytes * EcdsaSignature) : res SignError Psbt :=
  let '(i, pk, sig) := p in
  input ← index i (psbt_inputs psbt);
  Ok (with_inputs psbt (<[i := add_signature pk sig input]> (psbt_inputs psbt))).

(** [sign_inputs] with its inner function: all signatures are produced and
    checked before the first one is inserted. *)
Definition sign_inputs (psbt : Psbt) (derived : list (nat * bytes * bytes)) : res SignError Psbt :=
  produced ← fold_res (λ acc d, p ← sign_one psbt d; Ok (acc ++ [p])) [] derived;
  fold_res insert_one psbt produced.

(** ** The on-device signer *)

Record LocalSigner (W : Type) := mkLocal {
  ls_slot : KeySlot;
  ls_fingerprint : Fingerprint;
  ls_platform : PlatformKeyStore W;
  ls_wrapped_kek : bytes;
  ls_blob : bytes
}.
Arguments mkLocal {W}.
Arguments ls_slot {W}.
Arguments ls_fingerprint {W}.
Arguments ls_platform {W}.
Arguments ls_wrapped_kek {W}.
Arguments ls_blob {W}.

Definition LocalSigner_new {W} (slot : KeySlot) (fp : Fingerprint) (platform : PlatformKeyStore W)
    (wrapped_kek blob : bytes) : res SignError (LocalSigner W) :=
  if negb (has_device_blob slot) then Err SInvalidSlot else Ok (mkLocal slot fp platform wrapped_kek blob).

Definition seed_from_entropy (entropy : bytes) : res SignError bytes :=
  material ← map_err (λ _, SEntropy) (bip39_from_entropy entropy);
  Ok (mat_seed material).

(** What happens to the unwrapped key-encryption key. *)
Definition master_from_kek {W} (self : LocalSigner W) (kek : bytes) : res SignError Xpriv :=
  if negb (length kek =? 32)%nat then Err InvalidKekLength else
  decoded ← map_err SBlob (blob_decrypt kek (ls_blob self));
  if negb (bool_decide (blob_slot decoded = ls_slot self)) then Err SInvalidSlot else
  seed ← seed_from_entropy (blob_entropy decoded);
  master ← ok_or (new_master seed) SBip32;
  if negb (bool_decide (xpriv_fingerprint master = ls_fingerprint self)) then Err FingerprintMismatch else
  Ok master.

Definition unlock_master {W} (self : LocalSigner W) (w : W) : W * res SignError Xpriv :=
  let '(w, kek) := unwrap_kek (ls_platform self) (ls_slot self) (ls_wrapped_kek self) w in
  (w, kek ← map_err SPlatform kek; master_from_kek self kek).

(** [derive_child] of [local.rs]. *)
Definition derive_secret_child (master : Xpriv) (path : DerivationPath) : res SignError (bytes * bytes) :=
  sk ← ok_or (derive_priv master path) SBip32;
  Ok (pubkey_of_seckey sk, sk).

Definition derive_for_input (master : Xpriv) (fp : Fingerprint) (i : nat) (input : PsbtInput)
    : res SignError (nat * bytes * bytes) :=
  entry ← expect (List.find (λ e, bool_decide (e.2.1 = fp)) (in_bip32_derivation input));
  '(child_pk, sk) ← derive_secret_child master entry.2.2;
  if negb (bool_decide (child_pk = entry.1)) then Err (PubkeyMismatch i) else Ok (i, child_pk, sk).

Definition sign_with_master (psbt : Psbt) (master : Xpriv) (fp : Fingerprint) : res SignError Psbt :=
  derived ← fold_resi (λ acc i input, d ← derive_for_input master fp i input; Ok (acc ++ [d])) [] 0 (psbt_inputs psbt);
  sign_inputs psbt derived.

(** [impl Signer for LocalSigner] *)
Definition local_sign {W} (self : LocalSigner W) (psbt : Psbt) (w : W) : W * res SignError Psbt :=
  match preflight_inputs psbt (ls_fingerprint self) with
  | Err e => (w, Err e)
  | Panic => (w, Panic)
  | Ok _ =>
      let '(w, master) := unlock_master self w in
      (w, master ← master; sign_with_master psbt master (ls_fingerprint self))
  end.
Definition local_signer {W} (self : LocalSigner W) : Signer W :=
  mkSigner W (ls_fingerprint self) (local_sign self) Local.

(** ** The ceremony *)

Section Ceremony.
Context {W : Type}.

(** Run an effectful step only when a check passed. *)
Definition guarded {A} (check : res SignError unit) (step : W → W * res SignError A) (w : W) : W * res SignError A :=
  match check with
  | Ok _ => step w
  | Err e => (w, Err e)
  | Panic => (w, Panic)
  end.

Definition verified (psbt : Psbt) (descriptor : bytes) (policy : VerifyPolicy) : res SignError unit :=
  _ ← map_err SVerify (verify psbt descriptor policy); Ok tt.

Definition sign_a (signer : Signer W) (psbt : Psbt) (descriptor : bytes) (policy : VerifyPolicy)
    : W → W * res SignError Psbt :=
  guarded (verified psbt descriptor policy) (signer_sign signer psbt).

Definition check_key_a_signatures (psbt : Psbt) (descriptor : bytes) : res SignError unit :=
  parsed ← map_err (λ e, SVerify (VDescriptor e)) (parse descriptor);
  let a_fp := fingerprint (key0 parsed) in
  for_eachi (λ i input,
    pk ← ok_or (pubkey_for_fingerprint input a_fp) UnexpectedKeyASignature;
    sig ← ok_or (bmap_get (true, pk) (partial_sigs input)) UnexpectedKeyASignature;
    if negb (bool_decide (sig_sighash sig = SighashAll)) then Err (SNonSighashAll i) else
    msg ← sighash_message (unsigned_tx psbt) i input;
    verify_own_signature msg (sig_compact sig) pk) 0 (psbt_inputs psbt).

Definition sign_b (signer : Signer W) (psbt : Psbt) (unsigned_txid_at_a descriptor : bytes) (policy : VerifyPolicy)
    : W → W * res SignError Psbt :=
  guarded (_ ← verified psbt descriptor policy;
           if negb (bool_decide (compute_txid (unsigned_tx psbt) = unsigned_txid_at_a)) then Err UnsignedTxChanged else
           check_key_a_signatures psbt descriptor)
    (signer_sign signer psbt).

(** [sign_ab]; the session's environment is the [SpendEnv], whose PSBT,
    descriptor and verify policy are the ones being signed. *)
Definition sign_ab (signer_a signer_b : Signer W) (e : SpendEnv) (s : CoreState) (w : W)
    : CoreState * W * res SignError Psbt :=
  let '(s, approval) := authorize e s in
  match approval with
  | Err err => (s, w, Err err)
  | Panic => (s, w, Panic)
  | Ok approval =>
      let unsigned_txid := compute_txid (unsigned_tx (env_psbt e)) in
      let '(w, after_a) := sign_a signer_a (env_psbt e) (env_descriptor e) (env_verify e) w in
      match after_a with
      | Err err => (s, w, Err err)
      | Panic => (s, w, Panic)
      | Ok after_a =>
          let '(w, signed) := sign_b signer_b after_a unsigned_txid (env_descriptor e) (env_verify e) w in
          match signed with
          | Err err => (s, w, Err err)
          | Panic => (s, w, Panic)
          | Ok signed => (commit approval s, w, Ok signed)
          end
      end
  end.
End Ceremony.
End Sign.

(** ** What a local signature is *)

Section LocalProps.
Context `{hashes : Hashes, secp : Secp, codec : Codec, aead : Aead, keys : KeyDerivation}.

(** Input [i] carries a low-s SIGHASH_ALL signature by [pk] on this transaction. *)
Definition signed_by (tx : Transaction) (i : nat) (input : PsbtInput) (pk : bytes) : Prop :=
  ∃ sig msg, bmap_get (true, pk) (partial_sigs input) = Some (mkSig sig SighashAll) ∧
    sighash_message tx i input = Ok msg ∧ verify_ecdsa msg sig pk = true ∧ normalize_s sig = sig.

(** What the signatures [sigs], in this order, make of an input: the sighash
    field becomes SIGHASH_ALL (1), the signatures are written into the signature
    map, and every other field stays. *)
Record input_signed (sigs : list (bytes * EcdsaSignature)) (i i' : PsbtInput) : Prop := {
  is_sighash : sighash_type i' = Some 1;
  is_sigs : partial_sigs i' = foldl (λ m e, bmap_insert (true, e.1) e.2 m) (partial_sigs i) sigs;
  is_utxos : non_witness_utxo i' = non_witness_utxo i ∧ witness_utxo i' = witness_utxo i;
  is_scripts : witness_script i' = witness_script i ∧ in_bip32_derivation i' = in_bip32_derivation i;
  is_final : final_script_sig i' = final_script_sig i ∧ final_script_witness i' = final_script_witness i;
  is_proprietary : in_proprietary i' = in_proprietary i
}.

(** The two PSBTs differ in their inputs' maps at most. *)
Record same_but_inputs (p p' : Psbt) : Prop := {
  sb_tx : unsigned_tx p' = unsigned_tx p;
  sb_length : length (psbt_inputs p') = length (psbt_inputs p);
  sb_outputs : psbt_outputs p' = psbt_outputs p;
  sb_proprietary : psbt_proprietary p' = psbt_proprietary p
}.

(** What one signer does to a PSBT, exactly: every input gets one signature, by
    the key that the input lists for the signer's fingerprint. *)
Record adds_signatures (fp : Fingerprint) (p p' : Psbt) : Prop := {
  as_rest : same_but_inputs p p';
  as_input : ∀ i input, psbt_inputs p !! i = Some input → ∃ input' pk sig,
    psbt_inputs p' !! i = Some input' ∧ pubkey_for_fingerprint input fp = Some pk ∧
    input_signed [(pk, mkSig sig SighashAll)] input input' ∧ signed_by (unsigned_tx p) i input' pk
}.

(** The contract between the ceremony and a signer. *)
Class FaithfulSigner {W} (s : Signer W) : Prop :=
  faithful_sign p w w' p' : signer_sign s p w = (w', Ok p') → adds_signatures (signer_fingerprint s) p p'.

Lemma fold_res_push {E A B} (f : A → res E B) acc l r :
  fold_res (λ acc x, c ← f x; Ok (acc ++ [c])) acc l = Ok r → ∃ cs, r = acc ++ cs ∧ Forall2 (λ x c, f x = Ok c) l cs.
Proof.
  revert acc. induction l as [|x l IH]; intros acc; cbn [fold_res].
  - intros [= <-]. exists []. by rewrite app_nil_r.
  - intros (acc' & (c & Hc & [= <-])%bind_Ok & H)%bind_Ok. apply IH in H as (cs & -> & Hcs).
    exists (c :: cs). split; [by rewrite <-app_assoc|by constructor].
Qed.

(** Inserting one signature per remaining input, in order. *)
Lemma insert_loop p done todo ps :
  Forall2 (λ j q, q.1.1 = j) (seq (length done) (length todo)) ps →
  fold_res insert_one (with_inputs p (done ++ todo)) ps =
    Ok (with_inputs p (done ++ zip_with (λ q t, add_signature q.1.2 q.2 t) ps todo)).
Proof.
  revert done ps. induction todo as [|t todo IH]; intros done ps H; cbn [length seq] in H.
  - apply Forall2_nil_inv_l in H as ->. done.
  - apply Forall2_cons_inv_l in H as ([[j pk] sig] & ps' & Hj & H & ->). cbn in Hj. subst j.
    cbn [fold_res zip_with fst snd]. unfold insert_one. cbn [with_inputs psbt_inputs].
    unfold index. rewrite list_lookup_middle by done. cbn [expect mbind res_bind].
    assert (<[length done := add_signature pk sig t]> (done ++ t :: todo) = (done ++ [add_signature pk sig t]) ++ todo) as ->.
    { rewrite insert_app_r_alt, Nat.sub_diag by lia. by rewrite <-app_assoc. }
    change (with_inputs (with_inputs p (done ++ t :: todo)) ((done ++ [add_signature pk sig t]) ++ todo)) with
      (with_inputs p ((done ++ [add_signature pk sig t]) ++ todo)).
    fold (@insert_one). rewrite IH; [by rewrite <-app_assoc|].
    rewrite length_app, Nat.add_comm. exact H.
Qed.

Lemma sign_one_Ok p i pk sk r :
  sign_one p (i, pk, sk) = Ok r →
  ∃ input sig msg, psbt_inputs p !! i = Some input ∧ r = (i, pk, mkSig sig SighashAll) ∧
    sighash_message (unsigned_tx p) i input = Ok msg ∧ verify_ecdsa msg sig pk = true ∧ normalize_s sig = sig.
Proof.
  unfold sign_one. intros (input & Hi%expect_Ok & H)%bind_Ok. apply bind_Ok in H as (msg & Hm & H). cbn zeta in H.
  apply bind_Ok in H as ([] & Hs & H). apply bind_Ok in H as ([] & Hv & [= <-]).
  exists input, (sign_ecdsa_low_r msg sk), msg. unfold reject_high_s, verify_own_signature in *.
  if_inv Hs E1. if_inv Hv E2. bool_simp. done.
Qed.

Lemma derive_for_input_Ok master fp i input d :
  derive_for_input master fp i input = Ok d → ∃ pk sk, d = (i, pk, sk) ∧ pubkey_for_fingerprint input fp = Some pk.
Proof.
  unfold derive_for_input, pubkey_for_fingerprint. intros ([pk [fp' path]] & He%expect_Ok & H)%bind_Ok.
  apply bind_Ok in H as ([cpk sk] & _ & H). if_inv H E. bool_simp. injection H as <-. rewrite He. cbn in *. subst. eauto.
Qed.

Lemma sign_with_master_Ok p master fp p' :
  sign_with_master p master fp = Ok p' → adds_signatures fp p p'.
Proof.
  unfold sign_with_master. intros (ds & Hd & H)%bind_Ok. apply fold_resi_push in Hd as (ds' & Hds & Hd). cbn in Hds. subst ds'.
  unfold sign_inputs in H. apply bind_Ok in H as (ps & Hp & H). apply fold_res_push in Hp as (ps' & Hps & Hp). cbn in Hps. subst ps'.
  assert (∀ i input, psbt_inputs p !! i = Some input → ∃ pk sig msg, ps !! i = Some (i, pk, mkSig sig SighashAll) ∧
    pubkey_for_fingerprint input fp = Some pk ∧
    sighash_message (unsigned_tx p) i input = Ok msg ∧ verify_ecdsa msg sig pk = true ∧ normalize_s sig = sig) as Hall.
  { intros i input Hi. eapply Forall2_lookup_l in Hd as (d & Hdi & Hdd); [|rewrite list_lookup_imap, Hi; done].
    cbn in Hdd. apply derive_for_input_Ok in Hdd as (pk & sk & -> & Hpk).
    eapply Forall2_lookup_l in Hp as (r & Hr & Hs); [|exact Hdi].
    apply sign_one_Ok in Hs as (input' & sig & msg & Hi' & -> & Hm & Hv & Hn). rewrite Hi in Hi'. injection Hi' as <-.
    by exists pk, sig, msg. }
  assert (length ps = length (psbt_inputs p)) as Hlen.
  { apply Forall2_length in Hd, Hp. rewrite length_imap in Hd. lia. }
  assert (p = with_inputs p ([] ++ psbt_inputs p)) as Hself by by destruct p.
  rewrite Hself in H at 1. rewrite insert_loop in H.
  2: { cbn. apply Forall2_same_length_lookup. rewrite length_seq. split; [done|].
       intros i x y Hx Hy. apply lookup_seq in Hx as [-> Hlt]. cbn.
       destruct (lookup_lt_is_Some_2 (psbt_inputs p) i Hlt) as [input Hi].
       destruct (Hall i input Hi) as (pk & sig & msg & Hpi & _). rewrite Hy in Hpi. by injection Hpi as ->. }
  injection H as <-. split.
  - split; try done. cbn. rewrite length_zip_with. lia.
  - intros i input Hi. destruct (Hall i input Hi) as (pk & sig & msg & Hpi & Hpk & Hm & Hv & Hn). cbn [with_inputs psbt_inputs app].
    exists (add_signature pk (mkSig sig SighashAll) input), pk, sig. split_and!; [by rewrite lookup_zip_with, Hpi, Hi|done|by split|].
    exists sig, msg. split_and!; try done. cbn. apply bmap_get_insert_eq.
Qed.

Lemma local_sign_adds {W} (self : LocalSigner W) p w w' p' :
  local_sign self p w = (w', Ok p') → adds_signatures (ls_fingerprint _ self) p p'.
Proof.
  unfold local_sign. destruct (preflight_inputs p _); [|done|done].
  destruct (unlock_master self w) as [w1 m]. intros [= _ H].
  apply bind_Ok in H as (master & _ & H). by eapply sign_with_master_Ok.
Qed.

#[global] Instance local_signer_faithful {W} (self : LocalSigner W) : FaithfulSigner (local_signer self).
Proof. intros p w w' p'. apply local_sign_adds. Qed.
End LocalProps.


(** ** The ceremony *)

Section CeremonyProps.
Context `{hashes : Hashes, secp : Secp, codec : Codec, aead : Aead, keys : KeyDerivation} {W : Type}.
Implicit Types (w : W) (a b : Signer W).

(** C8: what a successful local signature writes, exactly. Outside the inputs
    the PSBT stays as it was, and so does the number of inputs. In every input
    the sighash field is set to SIGHASH_ALL and one signature is put into the
    signature map, under the key that the input lists for the signer's
    fingerprint; every other field and every other signature stays. The
    signature is low-s, SIGHASH_ALL and valid for this transaction and key. *)
Theorem local_sign_correct (self : LocalSigner W) p w w' p' :
  local_sign self p w = (w', Ok p') → adds_signatures (ls_fingerprint _ self) p p'.
Proof. apply local_sign_adds. Qed.

(** A world step that a guard did not let through leaves the world alone. *)
Lemma guarded_idle {A} check (step : W → W * res SignError A) w : check ≠ Ok tt → (guarded check step w).1 = w.
Proof. destruct check as [[]| |]; done. Qed.

(** C5: a rejected spend never reaches a key. When the spend window rejects the
    transaction, or the verifier does, the state of the outside world after
    [sign_ab] is the one before it: neither signer was called. *)
Theorem rejected_spend_calls_no_signer a b e s w :
  (∀ ap, (authorize e s).2 ≠ Ok ap) ∨ (∀ v, verify (env_psbt e) (env_descriptor e) (env_verify e) ≠ Ok v) →
  (sign_ab a b e s w).1.2 = w ∧ (sign_ab a b e s w).1.1 = (authorize e s).1 ∧
  ∀ p, (sign_ab a b e s w).2 ≠ Ok p.
Proof.
  intros H. unfold sign_ab. destruct (authorize e s) as [s1 [ap|err|]]; cbn in H |- *; try done.
  destruct H as [H|H]; [by destruct (H ap)|]. unfold sign_a, guarded, verified.
  destruct (verify _ _ _) as [v|err|] eqn:E; cbn; try done. by destruct (H v).
Qed.

(** A completed ceremony called both signers, the second on the first's result. *)
Lemma sign_ab_calls a b e s w s' w' p' :
  sign_ab a b e s w = (s', w', Ok p') →
  ∃ w1 p1, signer_sign a (env_psbt e) w = (w1, Ok p1) ∧ signer_sign b p1 w1 = (w', Ok p').
Proof.
  unfold sign_ab. destruct (authorize e s) as [s1 [ap|err|]]; try done. unfold sign_a, sign_b, guarded.
  destruct (verified (env_psbt e) _ _) as [v|err|]; try done.
  destruct (signer_sign a (env_psbt e) w) as [w1 [p1|err|]] eqn:Ea; try done.
  destruct (_ ≫= _) as [u|err|]; try done.
  destruct (signer_sign b p1 w1) as [w2 [p2|err|]] eqn:Eb; intros [= <- <- <-]. eauto.
Qed.

Lemma check_key_a_Ok p descriptor :
  check_key_a_signatures p descriptor = Ok tt →
  ∃ d, parse descriptor = Ok d ∧ ∀ i input, psbt_inputs p !! i = Some input →
    ∃ pk sig msg, pubkey_for_fingerprint input (fingerprint (key0 d)) = Some pk ∧
      bmap_get (true, pk) (partial_sigs input) = Some (mkSig sig SighashAll) ∧
      sighash_message (unsigned_tx p) i input = Ok msg ∧ verify_ecdsa msg sig pk = true.
Proof.
  unfold check_key_a_signatures. intros (d & Hd%map_err_Ok & H)%bind_Ok. cbn zeta in H. rewrite for_eachi_Ok in H.
  exists d. split; [done|]. intros i input Hi. apply H in Hi. apply bind_Ok in Hi as (pk & Hpk%ok_or_Ok & Hi).
  apply bind_Ok in Hi as ([sig sh] & Hsig%ok_or_Ok & Hi). if_inv Hi E. bool_simp. cbn in E. subst sh.
  apply bind_Ok in Hi as (msg & Hm & Hi). unfold verify_own_signature in Hi. if_inv Hi Ev. by exists pk, sig, msg.
Qed.

(** C4: key B signs only what was signed in key A's name. When [sign_ab]
    succeeds, the PSBT that reached the second signer verified, had the
    transaction id of the one that was authorized, and carried on every input a
    valid SIGHASH_ALL signature by the key that the input's own derivation map
    lists under the fingerprint of the descriptor's first key. That this listed
    key is the one the descriptor derives is not checked, and not claimed. *)
Theorem second_key_guarded a b e s w s' w' p' :
  sign_ab a b e s w = (s', w', Ok p') →
  ∃ w1 p1 d, signer_sign a (env_psbt e) w = (w1, Ok p1) ∧ signer_sign b p1 w1 = (w', Ok p') ∧
    is_ok (verify (env_psbt e) (env_descriptor e) (env_verify e)) = true ∧
    is_ok (verify p1 (env_descriptor e) (env_verify e)) = true ∧
    compute_txid (unsigned_tx p1) = compute_txid (unsigned_tx (env_psbt e)) ∧
    parse (env_descriptor e) = Ok d ∧
    ∀ i input, psbt_inputs p1 !! i = Some input →
      ∃ pk sig msg, pubkey_for_fingerprint input (fingerprint (key0 d)) = Some pk ∧
        bmap_get (true, pk) (partial_sigs input) = Some (mkSig sig SighashAll) ∧
        sighash_message (unsigned_tx p1) i input = Ok msg ∧ verify_ecdsa msg sig pk = true.
Proof.
  unfold sign_ab. destruct (authorize e s) as [s1 [ap|err|]]; try done.
  unfold sign_a, guarded, verified. destruct (verify (env_psbt e) _ _) as [v|err|]; cbn [map_err mbind res_bind]; try done.
  destruct (signer_sign a (env_psbt e) w) as [w1 [p1|err|]] eqn:Ea; try done.
  unfold sign_b, guarded, verified. destruct (verify p1 _ _) as [v1|err|] eqn:Ev1; cbn [map_err mbind res_bind]; try done.
  case_bool_decide as Ht; cbn [negb]; [|done].
  destruct (check_key_a_signatures p1 (env_descriptor e)) as [[]|err|] eqn:Ec; try done.
  destruct (signer_sign b p1 w1) as [w2 [p2|err|]] eqn:Eb; intros [= <- <- <-].
  apply check_key_a_Ok in Ec as (d & Hd & Hall).
  exists w1, p1, d. by rewrite Ev1.
Qed.

Lemma input_signed_trans l l' x y z : input_signed l x y → input_signed l' y z → input_signed (l ++ l') x z.
Proof.
  intros [_ Hl [] [] [] Hp] [Hs Hl' [] [] [] Hp']. split; [done|by rewrite foldl_app, <-Hl|split; congruence..|congruence].
Qed.
Lemma input_signed_message l x y tx i : input_signed l x y → sighash_message tx i y = sighash_message tx i x.
Proof. intros [_ _ [_ Hu] [Hs _] _ _]. unfold sighash_message. by rewrite Hu, Hs. Qed.
Lemma input_signed_lists l x y fp : input_signed l x y → pubkey_for_fingerprint y fp = pubkey_for_fingerprint x fp.
Proof. intros [_ _ _ [_ Hd] _ _]. unfold pubkey_for_fingerprint. by rewrite Hd. Qed.

(** A signature stays where another key signs. *)
Lemma signed_by_moves tx i x y pk pk' sig :
  pk ≠ pk' → input_signed [(pk', sig)] x y → signed_by tx i x pk → signed_by tx i y pk.
Proof.
  intros Hne Hxy (sg & msg & Hg & Hm & Hv & Hn). exists sg, msg. rewrite (input_signed_message _ _ _ _ _ Hxy). split_and!; try done.
  rewrite (is_sigs _ _ _ Hxy). cbn. rewrite bmap_get_insert_ne by congruence. done.
Qed.

Lemma NoDup_fst_functional {K V} (l : list (K * V)) k x y : NoDup l.*1 → (k, x) ∈ l → (k, y) ∈ l → x = y.
Proof.
  intros Hn (i & Hi)%list_elem_of_lookup (j & Hj)%list_elem_of_lookup.
  assert (i = j) as ->; [|by simplify_eq].
  apply (NoDup_lookup _ _ _ k Hn); rewrite list_lookup_fmap; [by rewrite Hi|by rewrite Hj].
Qed.

(** In a map without repeated keys, two fingerprints list two keys. *)
Lemma listed_keys_differ input fp fp' pk pk' :
  NoDup (in_bip32_derivation input).*1 → fp ≠ fp' →
  pubkey_for_fingerprint input fp = Some pk → pubkey_for_fingerprint input fp' = Some pk' → pk ≠ pk'.
Proof.
  unfold pubkey_for_fingerprint. intros Hn Hne ([k [f path]] & Hk & Ha)%fmap_Some ([k' [f' path']] & Hk' & Hb)%fmap_Some.
  cbn in *. subst k k'. apply find_some in Hk as [Hin Hf], Hk' as [Hin' Hf']. cbn in *. bool_simp. intros ->.
  apply list_elem_of_In in Hin, Hin'. pose proof (NoDup_fst_functional _ _ _ _ Hn Hin Hin'). congruence.
Qed.

(** C6: with two signers that keep the contract of a local signature and have
    different fingerprints, a completed ceremony returns the authorized PSBT
    with two signatures added to every input: nothing outside the inputs and
    not their number changes, and each input is the old one with SIGHASH_ALL in
    its sighash field and two entries written in its signature map, under two
    different keys, the ones it lists for A's and for B's fingerprint; both are
    valid SIGHASH_ALL signatures for the transaction the window approved. *)
Theorem ceremony_two_signatures a b `{!FaithfulSigner a, !FaithfulSigner b} e s w s' w' p' :
  psbt_wf (env_psbt e) → signer_fingerprint a ≠ signer_fingerprint b →
  sign_ab a b e s w = (s', w', Ok p') →
  same_but_inputs (env_psbt e) p' ∧
  ∀ i input, psbt_inputs (env_psbt e) !! i = Some input → ∃ input' pka siga pkb sigb,
    pubkey_for_fingerprint input (signer_fingerprint a) = Some pka ∧
    pubkey_for_fingerprint input (signer_fingerprint b) = Some pkb ∧ pka ≠ pkb ∧
    psbt_inputs p' !! i = Some input' ∧
    input_signed [(pka, mkSig siga SighashAll); (pkb, mkSig sigb SighashAll)] input input' ∧
    signed_by (unsigned_tx (env_psbt e)) i input' pka ∧ signed_by (unsigned_tx (env_psbt e)) i input' pkb.
Proof.
  intros (_ & Hwf & _) Hne H. apply sign_ab_calls in H as (w1 & p1 & Ha & Hb).
  apply faithful_sign in Ha as [[Htx Hl1 Ho1 Hp1] Hi1], Hb as [[Htx2 Hl2 Ho2 Hp2] Hi2].
  split; [split; congruence|]. intros i input Hi.
  destruct (Hi1 i input Hi) as (x & pka & siga & Hx & Hka & Hax & Hsa).
  destruct (Hi2 i x Hx) as (y & pkb & sigb & Hy & Hkb & Hby & Hsb).
  rewrite Htx in Hsb. rewrite (input_signed_lists _ _ _ _ Hax) in Hkb.
  assert (pka ≠ pkb) as Hk.
  { eapply listed_keys_differ; [|exact Hne|done..]. rewrite Forall_lookup in Hwf. by destruct (Hwf i input Hi) as [[_ Hn] _]. }
  exists y, pka, siga, pkb, sigb. split_and!; try done; [exact (input_signed_trans _ _ _ _ _ Hax Hby)|by eapply signed_by_moves].
Qed.

(** The ceremony is a step of the spend window. Whatever the signers do,
    [sign_ab] takes a reachable counter to a reachable one: a success books the
    approved charge, a failure at any point books nothing. *)
Lemma sign_ab_keeps_window wl g a b e s w s' w' r :
  run wl s g → env_wf e → window (env_policy e) = wl → sign_ab a b e s w = (s', w', r) →
  match r with
  | Ok _ => ∃ s1 ap, authorize e s = (s1, Ok ap) ∧ s' = commit ap s1 ∧
      run wl s' (g ++ [(window_elapsed_ns s1, extra_against_bookings (bookings s1) (ap_input_set ap) (ap_charge_sat ap))])
  | _ => s' = (authorize e s).1 ∧ run wl s' g
  end.
Proof.
  intros Hrun He Hw. unfold sign_ab. destruct (authorize e s) as [s1 [ap|err|]] eqn:Ea.
  - destruct (sign_a _ _ _ _ w) as [w1 [p1|err|]]; [|intros [= <- <- <-]; split; [done|exact (run_authorize _ _ _ _ _ _ Hrun He Hw Ea)]..].
    destruct (sign_b _ _ _ _ _ w1) as [w2 [p2|err|]]; intros [= <- <- <-]; [|split; [done|exact (run_authorize _ _ _ _ _ _ Hrun He Hw Ea)]..].
    exists s1, ap. split_and!; try done. exact (run_commit _ _ _ _ _ _ Hrun He Hw Ea).
  - intros [= <- <- <-]. split; [done|]. exact (run_authorize _ _ _ _ _ _ Hrun He Hw Ea).
  - intros [= <- <- <-]. split; [done|]. exact (run_authorize _ _ _ _ _ _ Hrun He Hw Ea).
Qed.
End CeremonyProps.

(** A local signer asks the platform for the key exactly once per accepted
    PSBT, and not at all when the structural preflight fails. *)
Lemma local_sign_unwraps_once `{secp : Secp, codec : Codec, aead : Aead, keys : KeyDerivation}
    (self : LocalSigner FakeState) p w :
  ls_platform _ self = FakePlatformKeyStore →
  unwrap_calls (local_sign self p w).1 =
    (unwrap_calls w + if is_ok (preflight_inputs p (ls_fingerprint _ self)) then 1 else 0)%nat.
Proof.
  intros Hp. unfold local_sign. destruct (preflight_inputs p _); cbn [is_ok fst]; [|lia..].
  unfold unlock_master. rewrite Hp. cbn. lia.
Qed.
