(* ===== verification/Lifecycle.v ===== *)
(** From a generated key to an unlocked signer.

    Three crates meet here: [trinity-entropy] generates a key,
    [trinity-keystore] seals its entropy, [trinity-signer] unwraps, opens and
    re-derives it. The theorem says the three agree on lengths, headers and
    derivation, so that no accepted key can be lost in the round trip. *)
From S2P Require Import Prelude Ordered Types Bitcoin Aead CoreState Keystore Limits Clock.
From S2P Require Import Checksum Parse Derive Verify SignErrors Window Entropy Sign.

Section Lifecycle.
Context `{hashes : Hashes, keys : KeyDerivation, aead : Aead, aead_laws : !AeadLaws}.
Context (tag64 : ∀ k m, length (hmac_sha512 k m) = 64%nat).

Lemma generate_Ok rng wc extra k :
  generate rng wc extra = Ok k →
  length (gk_entropy k) = Z.to_nat (entropy_bytes wc) ∧ mnemonic_from_entropy (gk_entropy k) = Some (gk_mnemonic k) ∧
  gk_seed k = mnemonic_to_seed (gk_mnemonic k) ∧
  ∃ x, new_master (gk_seed k) = Some x ∧ gk_fingerprint k = xpriv_fingerprint x.
Proof.
  unfold generate, generate_from_raw. intros (raw & _ & H)%bind_Ok. rewrite finish_cases in H by done.
  destruct (mnemonic_from_entropy _) as [m|] eqn:Em; [|done]. destruct (new_master _) as [x|] eqn:Ex; [|done].
  injection H as <-. cbn. rewrite entropy_length by done. split_and!; eauto.
Qed.

(** C32: a generated key survives storage. Its entropy can be sealed for slot A
    or B, and the signer built from the blob and the key's fingerprint, given
    back the key-encryption key by the platform, unlocks the master key of the
    generated seed: neither a length, a header field nor the fingerprint check
    can reject it. *)
Theorem generated_key_unlocks {W} rng wc extra k slot nonce kek birthday ts (platform : PlatformKeyStore W) wrapped w w' :
  generate rng wc extra = Ok k → has_device_blob slot = true → is_u32 birthday → is_u64 ts →
  length nonce = NONCE_LEN → length kek = 32%nat → unwrap_kek platform slot wrapped w = (w', Ok kek) →
  ∃ blob self master,
    blob_encrypt (Some nonce) kek slot wc birthday (gk_entropy k) ts = Ok blob ∧
    LocalSigner_new slot (gk_fingerprint k) platform wrapped blob = Ok self ∧
    unlock_master self w = (w', Ok master) ∧ new_master (gk_seed k) = Some master.
Proof.
  intros (Hl & Hm & Hs & x & Hx & Hfp)%generate_Ok Hslot Hb Ht Hn Hk Hu.
  destruct (blob_encrypt_decrypt kek nonce (mkDecoded slot wc birthday (gk_entropy k) ts)) as (blob & He & Hd); try done.
  exists blob, (mkLocal _ slot (gk_fingerprint k) platform wrapped blob), x. split_and!; try done.
  - unfold LocalSigner_new. by rewrite Hslot.
  - unfold unlock_master. cbn [ls_platform ls_slot ls_wrapped_kek]. rewrite Hu. f_equal. cbn [map_err mbind res_bind].
    unfold master_from_kek. cbn [ls_blob ls_slot ls_fingerprint]. rewrite Hk, Nat.eqb_refl, Hd.
    cbn [negb map_err mbind res_bind blob_slot blob_entropy]. rewrite bool_decide_true by done. cbn [negb].
    unfold seed_from_entropy, bip39_from_entropy. rewrite Hl, Hm.
    destruct (entropy_bytes_cases wc) as [-> | ->]; cbn [Nat.eqb negb andb ok_or map_err mbind res_bind mat_seed];
      rewrite <-Hs, Hx; cbn [ok_or mbind res_bind]; by rewrite Hfp, bool_decide_true.
Qed.
End Lifecycle.
