(* ===== verification/Finalize.v ===== *)
(** [trinity-signer/src/finalize.rs]: from a twice-signed PSBT to a transaction.

    One definition per function of the source. The loop of [finalize] threads
    the map of spent outputs and the input maps of the finished PSBT; consensus
    validation is [verify_transaction], whose script interpreter is a parameter. *)
From S2P Require Import Prelude Ordered Types Bitcoin Checksum Parse Derive Verify Aead CoreState Keystore Limits SignErrors.

Section Finalize.
Context `{hashes : Hashes, secp : Secp, codec : Codec}.

Definition branch_and_index (input : PsbtInput) (input_index : nat) : res SignError (Z * Z) :=
  entry ← ok_or (in_bip32_derivation input !! 0%nat) (MissingDerivation input_index);
  let path := entry.2.2 in
  let n := length path in
  if (n <? 2)%nat then Err (InvalidDerivationPath input_index) else
  b ← index (n - 2) path;
  branch ← match b with Normal i => Ok i | Hardened _ => Err (InvalidDerivationPath input_index) end;
  a ← index (n - 1) path;
  addr ← match a with Normal i => Ok i | Hardened _ => Err (InvalidDerivationPath input_index) end;
  if 1 <? branch then Err (InvalidDerivationPath input_index) else Ok (branch, addr).

Definition derived_for_input (input : PsbtInput) (input_index : nat) (receive : ParsedDescriptor)
    (change : option ParsedDescriptor) : res SignError DerivedOutput :=
  '(branch, idx) ← branch_and_index input input_index;
  descriptor ← (if branch =? 0 then Ok receive else ok_or change (InvalidDerivationPath input_index));
  match derive_at descriptor idx with Ok o => Ok o | _ => Panic end.

(** The first signature in [partial_sigs] whose point serializes to [pk_bytes]. *)
Definition find_sig (input : PsbtInput) (pk_bytes : bytes) : option EcdsaSignature :=
  snd <$> List.find (λ e, bool_decide (e.1.2 = pk_bytes)) (partial_sigs input).

Fixpoint collect_sigs (input : PsbtInput) (input_index : nat) (sorted : list bytes) (sigs : list EcdsaSignature)
    : res SignError (list EcdsaSignature) :=
  match sorted with
  | [] => Ok sigs
  | pk_bytes :: rest =>
      match find_sig input pk_bytes with
      | Some sig =>
          if negb (bool_decide (sig_sighash sig = SighashAll)) then Err (SNonSighashAll input_index) else
          if (length (sigs ++ [sig]) =? 2)%nat then Ok (sigs ++ [sig]) else collect_sigs input input_index rest (sigs ++ [sig])
      | None => collect_sigs input input_index rest sigs
      end
  end.

Definition witness_for_sorted (input : PsbtInput) (input_index : nat) (sorted : list bytes) (script : bytes)
    : res SignError (list bytes) :=
  sigs ← collect_sigs input input_index sorted [];
  if (length sigs <? 2)%nat then Err (IncompleteWitness input_index) else
  s0 ← index 0 sigs;
  s1 ← index 1 sigs;
  Ok [[]; serialize_signature s0; serialize_signature s1; script].

Definition set_final_script_witness (w : list bytes) (i : PsbtInput) : PsbtInput :=
  mkPsbtInput (non_witness_utxo i) (witness_utxo i) (partial_sigs i) (sighash_type i) (witness_script i)
    (in_bip32_derivation i) (final_script_sig i) (Some w) (in_proprietary i).

(** The body of the loop over [psbt.inputs]. *)
Definition finalize_input (psbt : Psbt) (policy : VerifyPolicy) (receive : ParsedDescriptor)
    (change : option ParsedDescriptor) (st : gmap OutPoint TxOut * list PsbtInput) (i : nat) (input : PsbtInput)
    : res SignError (gmap OutPoint TxOut * list PsbtInput) :=
  let '(spent, finished) := st in
  utxo ← ok_or (witness_utxo input) (SMissingWitnessUtxo i);
  txin ← index i (tx_input (unsigned_tx psbt));
  let prevout := previous_output txin in
  known ← ok_or (known_utxos policy !! prevout) (SVerify (UnknownInput i));
  if negb (txo_value utxo =? txo_value known) || negb (bool_decide (txo_script utxo = txo_script known))
  then Err (SVerify (MismatchedUtxo i)) else
  let spent := <[prevout := known]> spent in
  derived ← derived_for_input input i receive change;
  if negb (bool_decide (txo_script utxo = do_script_pubkey derived)) then Err (WitnessScriptMismatch i) else
  let sorted := sorted_pubkeys derived in
  script ← match witness_script_2of3 sorted with Ok s => Ok s | Err _ => Ok (do_witness_script derived) | Panic => Panic end;
  _ ← match witness_script input with
      | Some ws => if bool_decide (ws = script) then Ok tt else Err (WitnessScriptMismatch i)
      | None => Err (MissingWitnessScript i)
      end;
  w ← witness_for_sorted input i sorted script;
  slot ← index i finished;
  Ok (spent, <[i := set_final_script_witness w slot]> finished).

Definition finalize (psbt : Psbt) (descriptor : bytes) (policy : VerifyPolicy) : res SignError Transaction :=
  if (length (psbt_inputs psbt) =? 0)%nat then Err EmptyPsbt else
  if negb (length (psbt_inputs psbt) =? length (tx_input (unsigned_tx psbt)))%nat
  then Err (SVerify (InconsistentPsbt (str "input count"))) else
  receive ← map_err (λ e, SVerify (VDescriptor e)) (parse descriptor);
  change ← match change_descriptor policy with
           | Some s => Some <$> map_err (λ e, SVerify (VDescriptor e)) (parse s)
           | None => Ok None
           end;
  '(spent, ins) ← fold_resi (finalize_input psbt policy receive change) (∅, psbt_inputs psbt) 0 (psbt_inputs psbt);
  fee_sats ← map_err (λ _, UnbalancedPsbt) (psbt_fee psbt);
  if fee_sats =? 0 then Err UnbalancedPsbt else
  let tx := extract_tx (mkPsbt (unsigned_tx psbt) ins (psbt_outputs psbt) (psbt_proprietary psbt)) in
  if negb (verify_transaction tx spent) then Err ConsensusRejected else
  let vsize := tx_vsize tx in
  if vsize =? 0 then Panic else
  let feerate_sat_vb := div_ceil fee_sats vsize in
  if max_feerate policy <? feerate_sat_vb then Err (FinalFeerateTooHigh feerate_sat_vb (max_feerate policy)) else
  Ok tx.

(** ** What a finished input is *)

(** The descriptor an input's derivation branch selects. *)
Definition branch_descriptor (receive : ParsedDescriptor) (change : option ParsedDescriptor) (d : ParsedDescriptor) : Prop :=
  d = receive ∨ change = Some d.

(** Two SIGHASH_ALL signatures by two of the sorted keys, in that order. *)
Definition two_sigs (input : PsbtInput) (sorted : list bytes) (s0 s1 : EcdsaSignature) : Prop :=
  ∃ pre k0 mid k1 post, sorted = pre ++ k0 :: mid ++ k1 :: post ∧
    find_sig input k0 = Some s0 ∧ find_sig input k1 = Some s1 ∧
    sig_sighash s0 = SighashAll ∧ sig_sighash s1 = SighashAll.

Record finished_input (policy : VerifyPolicy) (receive : ParsedDescriptor) (change : option ParsedDescriptor)
    (t : TxIn) (input : PsbtInput) (w : list bytes) : Prop := {
  fi_utxo : ∃ utxo, witness_utxo input = Some utxo ∧ known_utxos policy !! previous_output t = Some utxo ∧
    ∃ d idx o s0 s1, branch_descriptor receive change d ∧ derive_at d idx = Ok o ∧
      txo_script utxo = do_script_pubkey o ∧ witness_script input = Some (do_witness_script o) ∧
      two_sigs input (sorted_pubkeys o) s0 s1 ∧
      w = [[]; serialize_signature s0; serialize_signature s1; do_witness_script o]
}.

Lemma collect_sigs_Ok input i sorted sigs r :
  (length sigs < 2)%nat → collect_sigs input i sorted sigs = Ok r →
  ∃ new, r = sigs ++ new ∧ (length r ≤ 2)%nat ∧ Forall (λ s, sig_sighash s = SighashAll) new ∧
    ∃ ks, map (find_sig input) ks = map Some new ∧ ks `sublist_of` sorted.
Proof.
  revert sigs. induction sorted as [|pk rest IH]; intros sigs Hl; cbn [collect_sigs].
  - intros [= <-]. exists []. rewrite app_nil_r. split_and!; [done|lia|by constructor|]. by exists [].
  - destruct (find_sig input pk) as [sig|] eqn:Ef.
    + intros H. if_inv H E. bool_simp. if_inv H E2; bool_simp.
      * injection H as <-. exists [sig]. split_and!; [done|lia|by repeat constructor|].
        exists [pk]. cbn. rewrite Ef. split; [done|]. apply sublist_skip. apply sublist_nil_l.
      * rewrite length_app in E2. cbn in E2. apply IH in H as (new & -> & Hn & Hf & ks & Hks & Hsub); [|rewrite length_app; cbn; lia].
        exists (sig :: new). rewrite <-app_assoc in *. split_and!; [done|done|by constructor|].
        exists (pk :: ks). cbn. rewrite Ef, Hks. split; [done|]. by apply sublist_skip.
    + intros H. apply IH in H as (new & -> & Hn & Hf & ks & Hks & Hsub); [|done].
      exists new. split_and!; try done. exists ks. split; [done|]. by apply sublist_cons.
Qed.

Lemma sublist_two {A} (a b : A) l : [a; b] `sublist_of` l → ∃ pre mid post, l = pre ++ a :: mid ++ b :: post.
Proof.
  intros (pre & l' & -> & H)%sublist_cons_l. apply sublist_cons_l in H as (mid & post & -> & _). eauto.
Qed.

Lemma witness_for_sorted_Ok input i sorted script w :
  witness_for_sorted input i sorted script = Ok w →
  ∃ s0 s1, two_sigs input sorted s0 s1 ∧ w = [[]; serialize_signature s0; serialize_signature s1; script].
Proof.
  unfold witness_for_sorted. intros (sigs & Hs & H)%bind_Ok. if_inv H E. bool_simp.
  apply collect_sigs_Ok in Hs as (new & -> & Hn & Hf & ks & Hks & Hsub); [|cbn; lia]. cbn [app] in *.
  destruct new as [|s0 [|s1 [|]]]; cbn in E, Hn; try lia. cbn in H. injection H as <-.
  destruct ks as [|k0 [|k1 [|]]]; try done. injection Hks as H0 H1. rewrite !Forall_cons in Hf.
  apply sublist_two in Hsub as (pre & mid & post & ->).
  exists s0, s1. split; [|done]. exists pre, k0, mid, k1, post. naive_solver.
Qed.

Lemma derived_for_input_Ok input i receive change o :
  derived_for_input input i receive change = Ok o →
  ∃ d idx, branch_descriptor receive change d ∧ derive_at d idx = Ok o.
Proof.
  unfold derived_for_input. intros ([branch idx] & _ & H)%bind_Ok. apply bind_Ok in H as (d & Hd & H).
  exists d, idx. split; [|by destruct (derive_at d idx); [injection H as ->|..]]. unfold branch_descriptor.
  if_inv Hd E; [injection Hd as <-; by left|]. apply ok_or_Ok in Hd. by right.
Qed.

Lemma finalize_input_Ok p policy receive change spent finished i input spent' finished' :
  finalize_input p policy receive change (spent, finished) i input = Ok (spent', finished') →
  ∃ t w slot utxo, tx_input (unsigned_tx p) !! i = Some t ∧ finished_input policy receive change t input w ∧
    finished !! i = Some slot ∧ finished' = <[i := set_final_script_witness w slot]> finished ∧
    known_utxos policy !! previous_output t = Some utxo ∧ spent' = <[previous_output t := utxo]> spent.
Proof.
  unfold finalize_input. intros (utxo & Hu%ok_or_Ok & H)%bind_Ok. apply bind_Ok in H as (t & Ht%expect_Ok & H). cbn zeta in H.
  apply bind_Ok in H as (known & Hk%ok_or_Ok & H). if_inv H E1. bool_simp.
  assert (known = utxo) as -> by (destruct known, utxo; cbn in *; congruence).
  apply bind_Ok in H as (o & (d & idx & Hd & Ho)%derived_for_input_Ok & H). if_inv H E2. bool_simp.
  apply derive_at_Ok in Ho as Ho'. destruct Ho' as (c0 & c1 & c2 & _ & _ & _ & _ & _ & Hw & _).
  rewrite Hw in H. cbn [mbind res_bind] in H. apply bind_Ok in H as ([] & Hws & H).
  destruct (witness_script input) as [ws|] eqn:Ews; [|done]. if_inv Hws E3. bool_simp. subst ws.
  apply bind_Ok in H as (w & (s0 & s1 & Hs & ->)%witness_for_sorted_Ok & H).
  apply bind_Ok in H as (slot & Hslot%expect_Ok & [= <- <-]).
  eexists t, _, slot, utxo. split_and!; try done. split. exists utxo. split_and!; try done.
  exists d, idx, o, s0, s1. by split_and!.
Qed.

Lemma finalize_loop_Ok p policy receive change todo i spent finished spent' finished' :
  fold_resi (finalize_input p policy receive change) (spent, finished) i todo = Ok (spent', finished') →
  (∀ k, (k < i)%nat → finished' !! k = finished !! k) ∧
  (∀ k input, todo !! k = Some input → ∃ t w slot,
    tx_input (unsigned_tx p) !! (i + k)%nat = Some t ∧ finished_input policy receive change t input w ∧
    finished !! (i + k)%nat = Some slot ∧ finished' !! (i + k)%nat = Some (set_final_script_witness w slot)) ∧
  (∀ op o, spent' !! op = Some o → spent !! op = Some o ∨ known_utxos policy !! op = Some o).
Proof.
  revert i spent finished. induction todo as [|input todo IH]; intros i spent finished; cbn [fold_resi].
  - intros [= <- <-]. naive_solver.
  - intros ([sp fin] & Hs & H)%bind_Ok.
    apply finalize_input_Ok in Hs as (t & w & slot & utxo & Ht & Hfi & Hslot & -> & Hk & ->).
    apply IH in H as (Hlt & Hin & Hsp). split_and!.
    + intros k Hi. rewrite Hlt by lia. apply list_lookup_insert_ne. lia.
    + intros [|k] input' Hin'; cbn in Hin'.
      * injection Hin' as <-. rewrite Nat.add_0_r. exists t, w, slot. split_and!; try done. rewrite Hlt by lia.
        rewrite list_lookup_insert_eq; [done|by eapply lookup_lt_Some].
      * apply Hin in Hin' as (t' & w' & slot' & ? & ? & Hslot' & ?). exists t', w', slot'.
        rewrite <-Nat.add_succ_comm. split_and!; try done. by rewrite list_lookup_insert_ne in Hslot' by lia.
    + intros op o Ho. apply Hsp in Ho as [Ho|Ho]; [|by right]. rewrite lookup_insert_Some in Ho. naive_solver.
Qed.

Lemma verify_inputs_true tx idx ins spent :
  verify_inputs tx idx ins spent = true →
  NoDup (map previous_output ins) ∧
  ∀ k t, ins !! k = Some t → ∃ o, spent !! previous_output t = Some o ∧
    verify_script (txo_script o) (idx + k) (txo_value o) tx = true.
Proof.
  revert idx spent. induction ins as [|input ins IH]; intros idx spent; cbn [verify_inputs map].
  - intros _. split; [constructor|done].
  - destruct (spent !! previous_output input) as [o|] eqn:Eo; [|done].
    intros [Hv [Hnd H]%IH]%andb_prop. split.
    + apply NoDup_cons. split; [|done]. intros (t & Ht & (k & Hk)%list_elem_of_lookup)%list_elem_of_fmap.
      destruct (H k t Hk) as (o' & Hl & _). rewrite <-Ht in Hl. by rewrite lookup_delete_eq in Hl.
    + intros [|k] t Hk; cbn in Hk.
      * injection Hk as <-. exists o. by rewrite Nat.add_0_r.
      * destruct (H k t Hk) as (o' & Hl & Hv'). exists o'. rewrite <-Nat.add_succ_comm. split; [|done].
        by apply lookup_delete_Some in Hl as [_ ?].
Qed.

Lemma fill_inputs_lookup ts ins k t x :
  ts !! k = Some t → ins !! k = Some x →
  fill_inputs ts ins !! k = Some (mkTxIn (previous_output t) (default [] (final_script_sig x)) (sequence t)
                                         (default [] (final_script_witness x))).
Proof.
  revert ins k. induction ts as [|t' ts IH]; intros [|x' ins] [|k]; try done; cbn.
  - by intros [= <-] [= <-].
  - apply IH.
Qed.

Lemma fill_inputs_prevouts ts ins : map previous_output (fill_inputs ts ins) = map previous_output ts.
Proof. revert ins. induction ts as [|t ts IH]; intros [|x ins]; try done; cbn. by rewrite IH. Qed.

(** With a [witness_utxo] on every input, [Psbt::fee] is the difference of sums. *)
Lemma psbt_fee_Ok p fee :
  Forall (λ i, is_Some (witness_utxo i)) (psbt_inputs p) → psbt_fee p = Ok fee →
  total_in p = total_out p + fee ∧ 0 ≤ fee.
Proof.
  intros Hu. unfold psbt_fee. intros H. if_inv H El. bool_simp. apply bind_Ok in H as (si & Hi & H).
  apply bind_Ok in H as (so & Ho & H). apply ok_or_Ok, checked_sub_Some in H as [-> Hle].
  apply (fold_checked_add (λ o, Ok (txo_value o)) txo_value) in Ho as [-> _]; [|by intros ? ? [= <-]|done].
  assert (si = 0 + sum_Z (map input_value (psbt_inputs p))) as ->; [|unfold total_in, total_out; lia].
  revert Hi. generalize 0 as a. revert El Hu. generalize (tx_input (unsigned_tx p)) as ts.
  induction (psbt_inputs p) as [|x l IH]; intros [|t ts] El Hu a; try done; cbn [zip zip_with fold_res map sum_Z].
  - intros [= <-]. lia.
  - apply Forall_cons in Hu as [[u Hx] Hu]. assert (funding_utxo t x = Some u) as Hf by (unfold funding_utxo; by rewrite Hx).
    unfold input_value at 1. rewrite Hx. intros (a' & Ha & H)%bind_Ok. cbn [fst snd] in Ha. rewrite Hf in Ha.
    cbn [ok_or mbind res_bind] in Ha. apply ok_or_Ok, checked_add_Some in Ha as [-> _].
    apply IH in H as ->; [lia|by injection El|done].
Qed.

Lemma parse_change_desc policy change :
  match change_descriptor policy with
  | Some s => Some <$> map_err (λ e, SVerify (VDescriptor e)) (parse s)
  | None => Ok None
  end = Ok change →
  match change_descriptor policy with Some s => ∃ d, change = Some d ∧ parse s = Ok d | None => change = None end.
Proof.
  destruct (change_descriptor policy) as [s|]; [|by intros [= <-]].
  destruct (parse s) as [d| |]; try done. intros [= <-]. eauto.
Qed.

(** What the finalizer promises of the transaction it returns. *)
Record finalized (p : Psbt) (policy : VerifyPolicy) (receive : ParsedDescriptor) (change : option ParsedDescriptor)
    (tx : Transaction) : Prop := {
  fin_body : tx_version tx = tx_version (unsigned_tx p) ∧ tx_lock_time tx = tx_lock_time (unsigned_tx p) ∧
    tx_output tx = tx_output (unsigned_tx p) ∧
    map previous_output (tx_input tx) = map previous_output (tx_input (unsigned_tx p));
  fin_inputs : ∀ i t x, tx_input (unsigned_tx p) !! i = Some t → psbt_inputs p !! i = Some x →
    ∃ w, finished_input policy receive change t x w ∧
      tx_input tx !! i = Some (mkTxIn (previous_output t) (default [] (final_script_sig x)) (sequence t) w);
  fin_no_double_spend : NoDup (map previous_output (tx_input tx));
  fin_consensus : ∀ i t, tx_input tx !! i = Some t → ∃ o, known_utxos policy !! previous_output t = Some o ∧
    verify_script (txo_script o) i (txo_value o) tx = true;
  fin_fee : 0 < total_in p - total_out p ∧ div_ceil (total_in p - total_out p) (tx_vsize tx) ≤ max_feerate policy
}.

(** C7: what a finished transaction is. If [finalize] returns a transaction, it
    is the unsigned one with a witness on every input: the empty element, two
    SIGHASH_ALL signatures in the order of the sorted keys, and the wallet's
    2-of-3 script. Every input spends a distinct known coin of the wallet, the
    consensus check passed on each, and the exact feerate is within the cap. *)
Theorem finalize_sound p descriptor policy tx :
  finalize p descriptor policy = Ok tx →
  ∃ receive change, parse descriptor = Ok receive ∧
    match change_descriptor policy with Some s => ∃ d, change = Some d ∧ parse s = Ok d | None => change = None end ∧
    finalized p policy receive change tx.
Proof.
  unfold finalize. intros H. if_inv H E0. if_inv H E1. bool_simp.
  apply bind_Ok in H as (receive & Hr%map_err_Ok & H). apply bind_Ok in H as (change & Hc%parse_change_desc & H).
  apply bind_Ok in H as ([spent ins] & (_ & Hin & Hsp)%finalize_loop_Ok & H). cbn [Nat.add] in Hin.
  apply bind_Ok in H as (fee & Hfee%map_err_Ok & H). if_inv H E2. cbn zeta in H. if_inv H E3. if_inv H E4. if_inv H E5.
  bool_simp. injection H as <-. exists receive, change. split; [done|]. split; [done|].
  apply psbt_fee_Ok in Hfee as [Hfee Hpos].
  2: { apply Forall_lookup. intros k x Hx. destruct (Hin k x Hx) as (t & w & slot & _ & [Hfi] & _).
       destruct Hfi as (u & Hu & _). by exists u. }
  apply verify_inputs_true in E3 as [Hnd Hv]. split; cbn [extract_tx tx_version tx_lock_time tx_output tx_input unsigned_tx psbt_inputs] in *.
  - split_and!; try done. apply fill_inputs_prevouts.
  - intros i t x Ht Hx. destruct (Hin i x Hx) as (t' & w & slot & Ht' & Hfi & Hslot & Hfin).
    rewrite Ht in Ht'. injection Ht' as <-. rewrite Hx in Hslot. injection Hslot as <-.
    exists w. split; [done|]. by rewrite (fill_inputs_lookup _ _ _ _ _ Ht Hfin).
  - done.
  - intros i t Ht. destruct (Hv i t Ht) as (o & Ho & Hs). exists o. split; [|done].
    destruct (Hsp _ _ Ho) as [Ho'|Ho']; [by rewrite lookup_empty in Ho'|done].
  - replace (total_in p - total_out p) with fee by lia. split; [lia|done].
Qed.
End Finalize.

(** ** Where the finalizer can panic *)

Section Panics.
Context `{laws : SecpLaws}.

Definition xpubs_decode (d : ParsedDescriptor) : Prop := Forall (λ k, is_Some (xpub_from_str (xpub k))) (desc_keys d).

Lemma parse_xpubs_decode s d : parse s = Ok d → xpubs_decode d.
Proof.
  intros (f0 & f1 & f2 & cs & _ & _ & _ & _ & H0 & H1 & H2)%parse_accepts. unfold xpubs_decode, desc_keys.
  do 3 (apply Forall_cons_2; [by eapply ke_xpub|]). apply Forall_nil_2.
Qed.

Lemma ckd_pub_error c pk i e :
  pubkey_valid pk = true → 0 ≤ i ≤ MAX_NON_HARDENED_INDEX → ckd_pub c pk i = Err e → e = InvalidTweak.
Proof.
  intros Hv Hi. unfold ckd_pub. rewrite hardened_bit_clear, Hv by done. cbn [negb ensure mbind res_bind].
  unfold parse_il, tweak_add_parent. destruct (seckey_valid _); cbn [mbind res_bind]; [|by intros [= <-]].
  destruct (add_exp_tweak _ _); cbn [ok_or mbind res_bind]; [done|by intros [= <-]].
Qed.

Lemma derive_child_error key i e :
  is_Some (xpub_from_str (xpub key)) → 0 ≤ i ≤ MAX_NON_HARDENED_INDEX → derive_child key i = Err e → e = InvalidTweak.
Proof.
  intros [[chain pk] Hx] Hi. unfold derive_child, decode_xpub. rewrite Hx, (proj2 (Z.ltb_ge _ _)) by lia.
  apply xpub_key_valid in Hx. cbn [ok_or mbind res_bind]. intros [H|(mid & Hm & H)]%bind_Err.
  { eapply ckd_pub_error; [exact Hx| |exact H]. destruct (derivation key); cbv; done. }
  apply ckd_pub_valid in Hm. apply bind_Err in H as [H|(ch & Hc & H)]; [by eapply ckd_pub_error|].
  apply ckd_pub_valid in Hc. by rewrite Hc in H.
Qed.

Lemma derive_at_error d i e :
  xpubs_decode d → 0 ≤ i ≤ MAX_NON_HARDENED_INDEX → derive_at d i = Err e → e = InvalidTweak.
Proof.
  unfold xpubs_decode, desc_keys. rewrite !Forall_cons. intros (Hx0 & Hx1 & Hx2 & _) Hi. unfold derive_at.
  intros [H|(c0 & H0 & H)]%bind_Err; [exact (derive_child_error _ _ _ Hx0 Hi H)|].
  apply bind_Err in H as [H|(c1 & H1 & H)]; [exact (derive_child_error _ _ _ Hx1 Hi H)|].
  apply bind_Err in H as [H|(c2 & H2 & H)]; [exact (derive_child_error _ _ _ Hx2 Hi H)|]. cbn zeta in H.
  pose proof (children_compressed d i c0 c1 c2 H0 H1 H2) as Hc.
  unfold sort_three, sort_pubkeys, witness_script_2of3 in H. rewrite build_checkmultisig_ok in H; [done|..|done].
  all: rewrite isort_perm; cbn; lia.
Qed.

Lemma branch_and_index_bound input i b idx :
  derivations_wf (in_bip32_derivation input) → branch_and_index input i = Ok (b, idx) → 0 ≤ idx ≤ MAX_NON_HARDENED_INDEX.
Proof.
  intros [Hwf _]. unfold branch_and_index. intros ([pk [fp path]] & He%ok_or_Ok & H)%bind_Ok. cbn [snd] in H.
  if_inv H E. apply bind_Ok in H as (x & _ & H). apply bind_Ok in H as (br & _ & H).
  apply bind_Ok in H as (a & Ha%expect_Ok & H). apply bind_Ok in H as (addr & Haddr & H). if_inv H E2.
  injection H as <- <-. destruct a as [n|n]; [|done]. injection Haddr as <-.
  eapply Forall_lookup_1 in Hwf; [|exact He]. cbn in Hwf. eapply Forall_lookup_1 in Hwf; [|exact Ha].
  cbn in Hwf. unfold MAX_NON_HARDENED_INDEX. lia.
Qed.

Lemma branch_and_index_no_panic input i : branch_and_index input i ≠ Panic.
Proof.
  unfold branch_and_index. intros [H|([pk [fp path]] & _ & H)]%bind_Panic; [by apply ok_or_Panic in H|]. cbn [snd] in H.
  if_inv H E. bool_simp. apply bind_Panic in H as [H%index_Panic|(x & _ & H)]; [lia|].
  apply bind_Panic in H as [H|(br & _ & H)]; [by destruct x|].
  apply bind_Panic in H as [H%index_Panic|(a & _ & H)]; [lia|].
  apply bind_Panic in H as [H|(addr & _ & H)]; [by destruct a|]. by if_inv H E2.
Qed.

(** A child key whose BIP-32 tweak is out of range (probability below 2^-126). *)
Definition tweak_failure (receive : ParsedDescriptor) (change : option ParsedDescriptor) : Prop :=
  ∃ d idx, branch_descriptor receive change d ∧ 0 ≤ idx ≤ MAX_NON_HARDENED_INDEX ∧ derive_at d idx = Err InvalidTweak.

Lemma derived_for_input_panic input i receive change :
  derivations_wf (in_bip32_derivation input) → xpubs_decode receive → (∀ d, change = Some d → xpubs_decode d) →
  derived_for_input input i receive change = Panic → tweak_failure receive change.
Proof.
  intros Hwf Hr Hc. unfold derived_for_input.
  intros [H|([b idx] & Hb & H)]%bind_Panic; [by apply branch_and_index_no_panic in H|].
  apply branch_and_index_bound in Hb; [|done].
  apply bind_Panic in H as [H|(d & Hd & H)]; [by destruct (b =? 0), change|].
  assert (branch_descriptor receive change d ∧ xpubs_decode d) as [Hbd Hx].
  { unfold branch_descriptor. if_inv Hd E; [injection Hd as <-; auto|]. apply ok_or_Ok in Hd. auto. }
  exists d, idx. split_and!; try done; try lia. destruct (derive_at d idx) as [o|e|] eqn:Ed; [done|..].
  - by rewrite (derive_at_error _ _ _ Hx Hb Ed).
  - by apply derive_at_no_panic in Ed.
Qed.

Lemma witness_for_sorted_no_panic input i sorted script : witness_for_sorted input i sorted script ≠ Panic.
Proof.
  unfold witness_for_sorted. intros [H|(sigs & _ & H)]%bind_Panic.
  - revert H. generalize (@nil EcdsaSignature). induction sorted as [|pk rest IH]; intros sigs; cbn [collect_sigs]; [done|].
    destruct (find_sig input pk); [|apply IH]. destruct (negb _); [done|]. destruct (_ =? _)%nat; [done|apply IH].
  - if_inv H E. bool_simp. apply bind_Panic in H as [H%index_Panic|(? & _ & H)]; [lia|].
    apply bind_Panic in H as [H%index_Panic|(? & _ & H)]; [lia|done].
Qed.

Lemma finalize_input_panic p policy receive change spent finished i input :
  derivations_wf (in_bip32_derivation input) → xpubs_decode receive → (∀ d, change = Some d → xpubs_decode d) →
  (i < length (tx_input (unsigned_tx p)))%nat → (i < length finished)%nat →
  finalize_input p policy receive change (spent, finished) i input = Panic → tweak_failure receive change.
Proof.
  intros Hwf Hr Hc Hi Hf. unfold finalize_input.
  intros [H|(utxo & _ & H)]%bind_Panic; [by apply ok_or_Panic in H|].
  apply bind_Panic in H as [H%index_Panic|(t & _ & H)]; [lia|]. cbn zeta in H.
  apply bind_Panic in H as [H|(known & _ & H)]; [by apply ok_or_Panic in H|]. if_inv H E1.
  apply bind_Panic in H as [H|(o & (d & idx & _ & Ho)%derived_for_input_Ok & H)]; [by eapply derived_for_input_panic|].
  if_inv H E2. apply derive_at_Ok in Ho as (c0 & c1 & c2 & _ & _ & _ & _ & _ & Hw & _).
  rewrite Hw in H. cbn [mbind res_bind] in H. apply bind_Panic in H as [H|(u & _ & H)].
  { destruct (witness_script input); [|done]. by if_inv H E. }
  apply bind_Panic in H as [H|(w & _ & H)]; [by apply witness_for_sorted_no_panic in H|].
  apply bind_Panic in H as [H%index_Panic|(slot & _ & H)]; [lia|done].
Qed.

Lemma finalize_loop_panic p policy receive change todo i spent finished :
  Forall (λ x, derivations_wf (in_bip32_derivation x)) todo → xpubs_decode receive →
  (∀ d, change = Some d → xpubs_decode d) →
  (i + length todo ≤ length (tx_input (unsigned_tx p)))%nat → (i + length todo ≤ length finished)%nat →
  fold_resi (finalize_input p policy receive change) (spent, finished) i todo = Panic → tweak_failure receive change.
Proof.
  intros Hwf Hr Hc. revert i spent finished. induction Hwf as [|x todo Hx Hwf IH]; intros i spent finished Ht Hf;
    cbn [fold_resi length] in *; [done|].
  intros [H|([spent' finished'] & Hs & H)]%bind_Panic.
  - eapply finalize_input_panic; [exact Hx|done|done|..|exact H]; lia.
  - apply finalize_input_Ok in Hs as (t & w & slot & u & _ & _ & _ & -> & _ & ->).
    eapply IH; [| |exact H]; rewrite ?length_insert; lia.
Qed.

Lemma psbt_fee_no_panic p :
  length (psbt_inputs p) = length (tx_input (unsigned_tx p)) → psbt_fee p ≠ Panic.
Proof.
  intros Hl. unfold psbt_fee. rewrite Hl, Nat.eqb_refl. cbn [negb].
  intros [H|(? & _ & H)]%bind_Panic.
  { revert H. apply fold_res_no_panic. intros a [t x] _. cbn [fst snd]. destruct (funding_utxo t x) as [u|]; [|done].
    cbn [ok_or mbind res_bind]. by destruct (checked_add a (txo_value u)). }
  apply bind_Panic in H as [H|(? & _ & H)]; [|by apply ok_or_Panic in H].
  revert H. apply fold_res_no_panic. intros a o _. by destruct (checked_add a (txo_value o)).
Qed.

(** The only way [finalize] can panic is the [expect] on child derivation,
    and only when a BIP-32 tweak of one of the wallet's keys is out of range:
    every malformed, unsigned or unbalanced PSBT is an error value instead. *)
Lemma finalize_panics_only_on_tweak p descriptor policy :
  psbt_wf p → (∀ t, tx_input t ≠ [] → 0 < tx_vsize t) →
  finalize p descriptor policy = Panic →
  ∃ receive change, parse descriptor = Ok receive ∧
    match change_descriptor policy with Some s => ∃ d, change = Some d ∧ parse s = Ok d | None => change = None end ∧
    tweak_failure receive change.
Proof.
  intros (_ & Hwf & _) Hvs. unfold finalize. intros H. if_inv H E0. if_inv H E1. bool_simp.
  apply bind_Panic in H as [H%map_err_Panic|(receive & Hr%map_err_Ok & H)]; [by apply parse_no_panic in H|].
  apply bind_Panic in H as [H|(change & Hc%parse_change_desc & H)].
  { destruct (change_descriptor policy) as [s|]; [|done]. destruct (parse s) eqn:Ep; try done. by apply parse_no_panic in Ep. }
  exists receive, change. split; [done|]. split; [done|].
  apply bind_Panic in H as [H|([spent ins] & Hl & H)].
  - eapply finalize_loop_panic; [..|exact H]; try (cbn; lia).
    + eapply Forall_impl; [exact Hwf|]. naive_solver.
    + by eapply parse_xpubs_decode.
    + intros d ->. destruct (change_descriptor policy); [|done]. destruct Hc as (d' & [= <-] & Hd). by eapply parse_xpubs_decode.
  - exfalso. apply bind_Panic in H as [H%map_err_Panic|(fee & _ & H)]; [by apply psbt_fee_no_panic in H|].
    if_inv H E2. cbn zeta in H. if_inv H E3. if_inv H E4; [|if_inv H E5].
    apply Z.eqb_eq in E4. eassert (0 < _) as Hpos; [apply Hvs|rewrite E4 in Hpos; lia].
    cbn [extract_tx tx_input unsigned_tx psbt_inputs].
    intros Hnil. apply (f_equal (map previous_output)) in Hnil. rewrite fill_inputs_prevouts in Hnil.
    destruct (tx_input (unsigned_tx p)); [|done]. cbn in E1. lia.
Qed.
End Panics.
