(* ===== verification/SignSamples.v ===== *)
(** A concrete ceremony: authorize, sign with keys A and B, finalize.

    The spend of [VerifySamples], with the witness script and the derivation map
    of its input filled in, is signed by two [LocalSigner]s over the fake
    platform keystore and finalized; the hypotheses of the ceremony's theorems
    hold on it. Child secrets of the stand-in key derivation are read off the
    derived public keys. *)
From S2P Require Import Prelude Ordered Types Bitcoin Aead CoreState Keystore Limits Clock.
From S2P Require Import Checksum Parse Derive Verify SignErrors Window Entropy Sign Lifecycle Finalize Toy VerifySamples WindowSamples.
Import Toy.
#[local] Existing Instances hashes secp codec.
#[local] Existing Instance ToyAead.aead.

Definition toy_keys : KeyDerivation := {|
  mnemonic_from_entropy e := Some e;
  mnemonic_to_seed m := m;
  Xpriv := bytes;
  new_master s := Some s;
  xpriv_to_string m := m;
  xpriv_fingerprint m := [hd 0 m; 0; 0; 1];
  derive_priv m path :=
    match last path with
    | Some (Normal i) =>
        (λ c, drop 1 (dc_public_key c)) <$>
        List.find (λ c, bool_decide (dc_fingerprint c = [hd 0 m; 0; 0; 1])) (children (derived origin External i))
    | _ => None
    end
|}.
#[local] Existing Instance toy_keys.

Definition input_map : list (bytes * KeySource) :=
  map (λ c, (dc_public_key c, (dc_fingerprint c,
    [Hardened 48; Hardened 1; Hardened 0; Hardened 2; Normal 0; Normal 0]))) (children (derived origin External 0)).
Definition spend_psbt : Psbt :=
  mkPsbt (sample_tx origin)
    [mkPsbtInput None (Some (coin_utxo origin)) [] None (Some (do_witness_script (derived origin External 0))) input_map
       None None []]
    [mkPsbtOutput [] []; mkPsbtOutput (change_map origin 2) []] [].
Definition spend_env : SpendEnv :=
  mkEnv policy_off spend_psbt (desc_string origin External) (sample_policy origin)
    (mkBalance 100000 0 0 0) (mkClock 5000 (Some 1)) (mkBlocks (Some 800000)) (Some 1700000000000000000).

Definition sealed_key (slot : KeySlot) (b : Z) : bytes :=
  match blob_encrypt (Some (replicate 24 3)) (replicate 32 b) slot Words12 840000 (replicate 16 b) 1700000000 with
  | Ok blob => blob
  | _ => []
  end.
Definition device_key (slot : KeySlot) (b : Z) : LocalSigner FakeState :=
  mkLocal _ slot [b; 0; 0; 1] FakePlatformKeyStore (replicate 32 b) (sealed_key slot b).
Definition signer_A : Signer FakeState := local_signer (device_key SlotA 10).
Definition signer_B : Signer FakeState := local_signer (device_key SlotB 11).
Definition signed_once : Psbt :=
  match (local_sign (device_key SlotA 10) spend_psbt Fake_new).2 with Ok p => p | _ => spend_psbt end.
Definition signed_twice : Psbt :=
  match (sign_ab signer_A signer_B spend_env start_state Fake_new).2 with Ok p => p | _ => spend_psbt end.
Definition fake_after (n : nat) : FakeState := mkFake n 0 0 0 None None None None None None.
Definition final_tx : Transaction :=
  match finalize signed_twice (desc_string origin External) (sample_policy origin) with Ok t => t | _ => sample_tx origin end.
Definition final_state : CoreState := commit sample_approval authorized_state.

Lemma first_signature : local_sign (device_key SlotA 10) spend_psbt Fake_new = (fake_after 1, Ok signed_once).
Proof. vm_compute. reflexivity. Qed.
Lemma ceremony : sign_ab signer_A signer_B spend_env start_state Fake_new = (final_state, fake_after 2, Ok signed_twice).
Proof. vm_compute. reflexivity. Qed.
Lemma finalized_spend : finalize signed_twice (desc_string origin External) (sample_policy origin) = Ok final_tx.
Proof. vm_compute. reflexivity. Qed.

Lemma spend_env_wf : env_wf spend_env.
Proof.
  destruct sample_env_wf as [Hp _ Hi Hb Hc Hh Hw]. split; try done.
  apply psbt_okb_wf. vm_compute. reflexivity.
Qed.

Lemma local_sign_correct_witness :
  @adds_signatures secp codec (ls_fingerprint _ (device_key SlotA 10)) spend_psbt signed_once.
Proof.
  exact (@local_sign_correct secp codec ToyAead.aead toy_keys FakeState (device_key SlotA 10) spend_psbt Fake_new
    (fake_after 1) signed_once first_signature).
Defined.

Lemma ceremony_two_signatures_witness :
  same_but_inputs spend_psbt signed_twice ∧
  ∀ i input, psbt_inputs spend_psbt !! i = Some input → ∃ input' pka siga pkb sigb,
    pubkey_for_fingerprint input (signer_fingerprint signer_A) = Some pka ∧
    pubkey_for_fingerprint input (signer_fingerprint signer_B) = Some pkb ∧ pka ≠ pkb ∧
    psbt_inputs signed_twice !! i = Some input' ∧
    input_signed [(pka, mkSig siga SighashAll); (pkb, mkSig sigb SighashAll)] input input' ∧
    @signed_by secp codec (sample_tx origin) i input' pka ∧ @signed_by secp codec (sample_tx origin) i input' pkb.
Proof.
  apply (@ceremony_two_signatures hashes secp codec FakeState signer_A signer_B (local_signer_faithful _) (local_signer_faithful _)
    spend_env start_state Fake_new final_state (fake_after 2) signed_twice).
  - apply psbt_okb_wf. vm_compute. reflexivity.
  - vm_compute. discriminate.
  - exact ceremony.
Defined.

(** A fee cap below the sample's fee: the verifier rejects the spend. *)
Definition tight_policy : VerifyPolicy :=
  mkPolicy [hex_encode recipient_script] 60000 10 50 None 5 {[coin := coin_utxo origin]}
    (Some (desc_string origin Internal)) Testnet.
Definition tight_env : SpendEnv :=
  mkEnv policy_off spend_psbt (desc_string origin External) tight_policy
    (mkBalance 100000 0 0 0) (mkClock 5000 (Some 1)) (mkBlocks (Some 800000)) (Some 1700000000000000000).

Lemma rejected_spend_calls_no_signer_witness :
  (sign_ab signer_A signer_B tight_env start_state Fake_new).1.2 = Fake_new ∧
  (sign_ab signer_A signer_B tight_env start_state Fake_new).1.1 = (authorize tight_env start_state).1 ∧
  ∀ p, (sign_ab signer_A signer_B tight_env start_state Fake_new).2 ≠ Ok p.
Proof.
  apply (@rejected_spend_calls_no_signer hashes secp codec FakeState signer_A signer_B tight_env start_state Fake_new).
  right. intros v.
  assert (verify (env_psbt tight_env) (env_descriptor tight_env) (env_verify tight_env) = Err (FeeTooHigh 1000 10)) as ->
    by (vm_compute; reflexivity).
  discriminate.
Defined.

Lemma second_key_guarded_witness :
  ∃ w1 p1 d, signer_sign signer_A spend_psbt Fake_new = (w1, Ok p1) ∧ signer_sign signer_B p1 w1 = (fake_after 2, Ok signed_twice) ∧
    is_ok (verify spend_psbt (desc_string origin External) (sample_policy origin)) = true ∧
    is_ok (verify p1 (desc_string origin External) (sample_policy origin)) = true ∧
    compute_txid (unsigned_tx p1) = compute_txid (unsigned_tx spend_psbt) ∧
    parse (desc_string origin External) = Ok d ∧
    ∀ i input, psbt_inputs p1 !! i = Some input →
      ∃ pk sig msg, pubkey_for_fingerprint input (fingerprint (key0 d)) = Some pk ∧
        bmap_get (true, pk) (partial_sigs input) = Some (mkSig sig SighashAll) ∧
        sighash_message (unsigned_tx p1) i input = Ok msg ∧ verify_ecdsa msg sig pk = true.
Proof.
  exact (@second_key_guarded hashes secp codec FakeState signer_A signer_B spend_env start_state Fake_new
    final_state (fake_after 2) signed_twice ceremony).
Defined.

Lemma sign_ab_keeps_window_witness :
  ∃ s1 ap, authorize spend_env start_state = (s1, Ok ap) ∧ final_state = commit ap s1 ∧
    run (window policy_off) final_state
      ([] ++ [(window_elapsed_ns s1, extra_against_bookings (bookings s1) (ap_input_set ap) (ap_charge_sat ap))]).
Proof.
  exact (@sign_ab_keeps_window hashes secp codec FakeState (window policy_off) [] signer_A signer_B spend_env start_state Fake_new
    final_state (fake_after 2) (Ok signed_twice) start_run spend_env_wf eq_refl ceremony).
Defined.

Lemma finalize_sound_witness :
  ∃ receive change, parse (desc_string origin External) = Ok receive ∧
    (∃ d, change = Some d ∧ parse (desc_string origin Internal) = Ok d) ∧
    finalized signed_twice (sample_policy origin) receive change final_tx.
Proof.
  exact (@finalize_sound hashes secp codec signed_twice (desc_string origin External) (sample_policy origin) final_tx finalized_spend).
Defined.

(** Curve arithmetic in which every BIP-32 tweak is out of range. *)
Definition failing_secp : Secp := {|
  pubkey_valid := @pubkey_valid secp; seckey_valid _ := false; add_exp_tweak := @add_exp_tweak secp;
  pubkey_of_seckey := @pubkey_of_seckey secp; sign_ecdsa_low_r := @sign_ecdsa_low_r secp;
  verify_ecdsa := @verify_ecdsa secp; normalize_s := @normalize_s secp
|}.
Lemma failing_laws : @SecpLaws hashes failing_secp codec.
Proof. destruct toy_laws as [H1 H2 H3 H4 H5]. by split. Qed.

Lemma finalize_panics_only_on_tweak_witness :
  ∃ receive change, parse (desc_string origin External) = Ok receive ∧
    (∃ d, change = Some d ∧ parse (desc_string origin Internal) = Ok d) ∧
    @tweak_failure hashes failing_secp codec receive change.
Proof.
  apply (@finalize_panics_only_on_tweak hashes failing_secp codec failing_laws signed_twice (desc_string origin External)
    (sample_policy origin)).
  - apply psbt_okb_wf. vm_compute. reflexivity.
  - intros t Ht. cbn. destruct (tx_input t); [done|]. cbn [length]. lia.
  - vm_compute. reflexivity.
Defined.

(** Key generation with the stand-in derivation, twelve words. *)
Definition drawn : bytes := replicate 32 77.
Definition generated : GeneratedKey :=
  match generate (Some drawn) Words12 sample_extra with
  | Ok k => k
  | _ => mkKey Words12 [] [] [] [] [] [] [] AdditionalEntropy_new
  end.
Lemma generated_ok : generate (Some drawn) Words12 sample_extra = Ok generated.
Proof. vm_compute. reflexivity. Qed.
Lemma toy_tag64 k m : length (@hmac_sha512 hashes k m) = 64%nat.
Proof. apply (@hmac_length hashes secp codec toy_laws). Qed.

Lemma sheet_recomputes_witness :
  let sh := from_key generated in
  hex_pairs (vs_raw_csprng_hex sh) = Ok drawn ∧
  ∃ eb, hex_pairs (vs_extra_bytes_hex sh) = Ok eb ∧ eb = canonical_bytes sample_extra ∧
    vs_entropy_hex sh = hex_encode (take (Z.to_nat (vs_l sh)) (hmac_sha512 drawn eb)) ∧
    length (vs_entropy_hex sh) = (2 * Z.to_nat (vs_l sh))%nat ∧
    mnemonic_from_entropy (take (Z.to_nat (vs_l sh)) (hmac_sha512 drawn eb)) = Some (vs_mnemonic sh) ∧
    ∃ blob, length blob = default 0%nat (vs_sensor_len sh) ∧
      eb = encode_slots [default [] (vs_dice sh); default [] (vs_coins sh); strip_spaces (default [] (vs_cards sh)); blob].
Proof.
  apply (@sheet_recomputes hashes toy_keys toy_tag64 drawn Words12 sample_extra generated sample_extra_built).
  - apply bytes_ok_spec. reflexivity.
  - exact generated_ok.
Defined.

Lemma generated_key_unlocks_witness :
  ∃ blob self master,
    blob_encrypt (Some (replicate 24 3)) (replicate 32 8) SlotB Words12 840000 (gk_entropy generated) 1700000000 = Ok blob ∧
    LocalSigner_new SlotB (gk_fingerprint generated) FakePlatformKeyStore (replicate 32 8) blob = Ok self ∧
    unlock_master self Fake_new = (fake_after 1, Ok master) ∧ new_master (gk_seed generated) = Some master.
Proof.
  apply (@generated_key_unlocks hashes toy_keys ToyAead.aead ToyAead.laws toy_tag64 FakeState (Some drawn) Words12 sample_extra
    generated SlotB (replicate 24 3) (replicate 32 8) 840000 1700000000 FakePlatformKeyStore (replicate 32 8) Fake_new (fake_after 1)
    generated_ok); done.
Defined.
