(* ===== verification/Text.v ===== *)
(** String functions of the standard library that the watch-only wallet and the
    chain backends use: [trim], [contains], [split_once], lower-casing and
    decimal numerals. A string is its UTF-8 bytes. *)
From S2P Require Import Prelude Types Bitcoin Parse.

(** ** [str::trim] *)

(** The UTF-8 encodings of the characters with the property [White_Space]. *)
Definition WHITE_SPACE : list bytes :=
  [[9]; [10]; [11]; [12]; [13]; [32]; [194; 133]; [194; 160]; [225; 154; 128]] ++
  map (λ b, [226; 128; b]) [128; 129; 130; 131; 132; 133; 134; 135; 136; 137; 138; 168; 169; 175] ++
  [[226; 129; 159]; [227; 128; 128]].

Fixpoint strip_any (ws : list bytes) (s : bytes) : option bytes :=
  match ws with
  | [] => None
  | w :: ws => match strip_prefix w s with Some r => Some r | None => strip_any ws s end
  end.

(** The length of the string bounds the number of characters to strip. *)
Fixpoint strip_all (fuel : nat) (ws : list bytes) (s : bytes) : bytes :=
  match fuel with
  | O => s
  | S fuel => match strip_any ws s with Some r => strip_all fuel ws r | None => s end
  end.

Definition trim_start (s : bytes) : bytes := strip_all (length s) WHITE_SPACE s.
Definition trim_end (s : bytes) : bytes :=
  reverse (strip_all (length s) (map reverse WHITE_SPACE) (reverse s)).
Definition trim (s : bytes) : bytes := trim_end (trim_start s).

(** ** Searching *)

(** [s.contains(c)] for a character and [s.contains(pat)] for a string. *)
Definition has_char (c : Z) (s : bytes) : bool := existsb (Z.eqb c) s.
Fixpoint contains (pat s : bytes) : bool :=
  starts_with pat s || match s with [] => false | _ :: s => contains pat s end.

(** [s.split_once(c)]: the parts around the first [c]. *)
Definition split_once (c : Z) (s : bytes) : option (bytes * bytes) :=
  match find_pos (λ x, x =? c) s with
  | Some i => Some (take i s, drop (S i) s)
  | None => None
  end.

(** [str::to_ascii_lowercase] *)
Definition to_ascii_lowercase (s : bytes) : bytes := map to_lower s.

Definition is_ascii_alphanumeric (c : Z) : bool :=
  is_ascii_digit c || ((65 <=? c) && (c <=? 90)) || ((97 <=? c) && (c <=? 122)).

(** ** Decimal numerals, [impl Display for u64] *)

(** Twenty digits are enough for a [u64]. *)
Fixpoint dec_loop (fuel : nat) (n : Z) (acc : bytes) : bytes :=
  match fuel with
  | O => acc
  | S fuel => if n <? 10 then (48 + n) :: acc else dec_loop fuel (n / 10) ((48 + n mod 10) :: acc)
  end.
Definition dec (n : Z) : bytes := dec_loop 20 n [].

Arguments WHITE_SPACE : simpl never.
Arguments dec : simpl never.

(** ** Printable text has nothing to trim *)

Lemma strip_any_None ws s :
  Forall (λ c, 33 ≤ c ≤ 126) s →
  forallb (λ w, match w with c :: _ => (c <? 33) || (126 <? c) | [] => false end) ws = true →
  strip_any ws s = None.
Proof.
  intros Hs. induction ws as [|w ws IH]; cbn; [done|]. intros [Hw Hws]%andb_prop.
  destruct w as [|c w]; [done|]. destruct s as [|x s]; cbn; [by auto|].
  apply Forall_cons in Hs as [Hx Hs]. destruct (Z.eqb_spec c x) as [->|_]; [|by auto].
  destruct (Z.ltb_spec x 33), (Z.ltb_spec 126 x); cbn in Hw; done || lia.
Qed.

Lemma trim_printable s : Forall (λ c, 33 ≤ c ≤ 126) s → trim s = s.
Proof.
  intros Hs. unfold trim, trim_start, trim_end.
  assert (∀ n ws k, strip_any ws k = None → strip_all n ws k = k) as Hk.
  { intros [|n] ws k Hk; cbn; [done|]. by rewrite Hk. }
  rewrite (Hk _ _ s) by (by apply strip_any_None).
  rewrite Hk; [apply reverse_involutive|]. apply strip_any_None; [|done]. by apply Forall_reverse.
Qed.

(** ** Lemmas *)

Lemma has_char_spec c s : has_char c s = true ↔ c ∈ s.
Proof.
  unfold has_char. rewrite existsb_exists. setoid_rewrite Z.eqb_eq. setoid_rewrite <-list_elem_of_In.
  naive_solver.
Qed.
Lemma has_char_false c s : has_char c s = false ↔ c ∉ s.
Proof. rewrite <-has_char_spec. destruct (has_char c s); naive_solver. Qed.

Lemma contains_spec pat s : contains pat s = true ↔ ∃ a b, s = a ++ pat ++ b.
Proof.
  induction s as [|c s IH]; cbn [contains]; rewrite orb_true_iff, starts_with_spec.
  - split; [intros [[r Hr]|]; [by exists [], r|done]|]. intros (a & b & H). left.
    destruct a; [by exists b|done].
  - rewrite IH. split.
    + intros [[r Hr]|(a & b & ->)]; [by exists [], r|]. by exists (c :: a), b.
    + intros ([|x a] & b & H); [left; by exists b|]. right. injection H as _ H. by exists a, b.
Qed.

Lemma contains_app_l pat s t : contains pat s = true → contains pat (s ++ t) = true.
Proof. rewrite !contains_spec. intros (a & b & ->). exists a, (b ++ t). by rewrite <-!app_assoc. Qed.
Lemma contains_app_r pat s t : contains pat t = true → contains pat (s ++ t) = true.
Proof. rewrite !contains_spec. intros (a & b & ->). exists (s ++ a), b. by rewrite <-!app_assoc. Qed.
Lemma contains_refl pat : contains pat pat = true.
Proof. apply contains_spec. exists [], []. by rewrite app_nil_r. Qed.

Lemma split_once_spec c s a b : split_once c s = Some (a, b) ↔ s = a ++ c :: b ∧ c ∉ a.
Proof.
  unfold split_once. rewrite <-take_until_char_spec. unfold take_until_char.
  destruct (find_pos (λ x, x =? c) s) as [i|] eqn:E; [|done].
  destruct (take_until_char_Ok c s (take i s, drop i s)) as [q Hq].
  { unfold take_until_char. by rewrite E. }
  cbn in Hq. rewrite Hq. assert (drop (S i) s = q) as ->.
  { rewrite <-Nat.add_1_r, <-drop_drop, Hq. done. }
  naive_solver.
Qed.
Lemma split_once_None c s : split_once c s = None ↔ c ∉ s.
Proof.
  destruct (split_once c s) as [[a b]|] eqn:E; [apply split_once_spec in E as [-> _]; set_solver|].
  split; [|done]. intros _ (a & b & -> & Ha)%list_elem_of_split_l.
  rewrite (proj2 (split_once_spec c _ a b)) in E; done.
Qed.

(** Reading a numeral back. *)
Lemma parse_digits_app limit acc s t :
  parse_digits limit acc (s ++ t) = parse_digits limit acc s ≫= λ n, parse_digits limit n t.
Proof.
  revert acc. induction s as [|c s IH]; intros acc; cbn; [done|]. by case_match; [|done].
Qed.

Lemma dec_loop_digits fuel n acc limit :
  0 ≤ n ≤ limit → n < 10 ^ Z.of_nat fuel → (0 < fuel)%nat →
  ∃ d, dec_loop fuel n acc = d ++ acc ∧ d ≠ [] ∧ Forall (λ c, is_ascii_digit c = true) d ∧
    parse_digits limit 0 d = Some n.
Proof.
  revert n acc. induction fuel as [|fuel IH]; intros n acc Hn Hf H0; [lia|]. cbn [dec_loop].
  assert (∀ k, 0 ≤ k < 10 → is_ascii_digit (48 + k) = true) as Hd.
  { intros k Hk. unfold is_ascii_digit. apply andb_true_iff. rewrite !Z.leb_le. lia. }
  destruct (Z.ltb_spec n 10).
  - exists [48 + n]. split_and!; [done..|constructor; [apply Hd; lia|done]|].
    cbn [parse_digits]. rewrite Hd by lia. rewrite (proj2 (Z.leb_le _ _)) by lia. cbn. f_equal. lia.
  - rewrite Nat2Z.inj_succ, Z.pow_succ_r in Hf by lia. pose proof (Z.div_mod n 10).
    pose proof (Z.mod_pos_bound n 10).
    destruct (IH (n / 10) ((48 + n mod 10) :: acc)) as (d & -> & Hne & Hfd & Hp).
    { split; [apply Z.div_pos; lia|]. lia. }
    { apply Z.div_lt_upper_bound; lia. }
    { destruct fuel; [cbn in Hf|]; lia. }
    exists (d ++ [48 + n mod 10]). split_and!.
    + by rewrite <-app_assoc.
    + by destruct d.
    + apply Forall_app. split; [done|]. constructor; [apply Hd; lia|done].
    + rewrite parse_digits_app, Hp. cbn [mbind option_bind parse_digits]. rewrite Hd by lia.
      rewrite (proj2 (Z.leb_le _ _)) by lia. cbn. f_equal. lia.
Qed.

Lemma dec_spec n limit :
  is_u64 n → n ≤ limit →
  dec n ≠ [] ∧ Forall (λ c, is_ascii_digit c = true) (dec n) ∧ parse_digits limit 0 (dec n) = Some n.
Proof.
  unfold is_u64, u64_max. intros Hn Hl.
  destruct (dec_loop_digits 20 n [] limit) as (d & Hd & H); [lia|change (Z.of_nat 20) with 20; lia|lia|].
  unfold dec. by rewrite Hd, app_nil_r.
Qed.
