(* ===== verification/Sheet.v ===== *)
(** The rendered verification sheet of [trinity-entropy] ([evidence.rs]), and
    what a reader gets back from its text.

    [body] builds the text line by line as the format string of the source does.
    [read_sheet] is the reader's side: it looks every value up behind its label
    and knows nothing else of the layout. *)
From S2P Require Import Prelude Types Bitcoin Parse Entropy Text SignSamples Toy.

(** ** Rendering *)

(** [impl Display for WordCount] *)
Definition WordCount_display (wc : WordCount) : bytes := dec (words wc).

(** The format [{:02X}] of a byte. *)
Definition HEX_UPPER : bytes := str "0123456789ABCDEF".
Definition hex_02X (b : Z) : bytes :=
  [nth (Z.to_nat (Z.shiftr b 4)) HEX_UPPER 0; nth (Z.to_nat (Z.land b 15)) HEX_UPPER 0].
Definition QUOTE : bytes := [34].

(** [as_deref().unwrap_or("(inactive)")] *)
Definition shown (o : option bytes) : bytes := default (str "(inactive)") o.

Definition extra_line (sh : VerificationSheet) : bytes :=
  if (length (vs_extra_bytes_hex sh) =? 0)%nat then str "  extra_bytes = (empty)"
  else str "  extra_bytes = " ++ vs_extra_bytes_hex sh.
Definition sensor_line (sh : VerificationSheet) : bytes :=
  match vs_sensor_len sh with
  | Some n => str "  sensor = " ++ dec (Z.of_nat n) ++ str " bytes (class B; credited bits = 0)"
  | None => str "  sensor = (inactive)"
  end.

Definition body_lines (sh : VerificationSheet) : list bytes :=
  [str "Trinity entropy verification sheet";
   str "==================================";
   [];
   str "Construction (SPECIFICATION.md §2.2):";
   [];
   str "  L           := 32 (24 words) or 16 (12 words)";
   str "  raw_csprng  := getrandom(32)";
   str "  extra_bytes := canonical encoding of the additional source";
   str "  extract     := HMAC-SHA512(key = raw_csprng, msg = extra_bytes)";
   str "  entropy     := extract[0..L]";
   str "  mnemonic    := BIP-39(entropy)";
   str "  seed        := PBKDF2-HMAC-SHA512(mnemonic, " ++ QUOTE ++ str "mnemonic" ++ QUOTE ++ str ", 2048, 64)";
   str "  xprv        := BIP-32-Master(seed)";
   [];
   str "This instance:";
   str "  L           = " ++ dec (vs_l sh) ++ str " (" ++ WordCount_display (vs_word_count sh) ++ str " words)";
   str "  raw_csprng  = " ++ vs_raw_csprng_hex sh;
   extra_line sh;
   str "  entropy     = " ++ vs_entropy_hex sh;
   [];
   str "Separator rule (SPECIFICATION.md §2.2.2):";
   str "  extra_bytes = [dice_ascii] 0x" ++ hex_02X SLOT_SEPARATOR ++ str " [coin_ascii] 0x" ++
     hex_02X SLOT_SEPARATOR ++ str " [cards_ascii] 0x" ++ hex_02X SLOT_SEPARATOR ++ str " [sensor_blob]";
   str "  Order is Dice < Coin < Cards < SensorNoise, not activation order.";
   str "  Inactive trailing sources omit their separator. An empty slot";
   str "  between two active sources keeps its 0x" ++ hex_02X SLOT_SEPARATOR ++ str " so the encoding";
   str "  is injective (dice=" ++ QUOTE ++ str "12" ++ QUOTE ++ str " ≠ dice=" ++ QUOTE ++ str "1" ++ QUOTE ++ str " + coin=" ++
     QUOTE ++ str "2" ++ QUOTE ++ str "; dice=" ++ QUOTE ++ str "1" ++ QUOTE ++ str " ≠ coin=" ++ QUOTE ++ str "1" ++ QUOTE ++ str ").";
   str "  If no sources are active, extra_bytes is empty and";
   str "  extract = HMAC-SHA512(raw_csprng, " ++ QUOTE ++ QUOTE ++ str ").";
   [];
   str "Sources:";
   str "  dice   = " ++ shown (vs_dice sh);
   str "  coins  = " ++ shown (vs_coins sh);
   str "  cards  = " ++ shown (vs_cards sh);
   sensor_line sh;
   [];
   str "BIP-39 words (" ++ WordCount_display (vs_word_count sh) ++ str "):";
   str "  " ++ vs_mnemonic sh;
   [];
   str "Recompute extract offline:";
   str "  scripts/recompute_entropy.sh <raw_csprng_hex> <extra_bytes_hex> <L>";
   str "  # openssl dgst -sha512 -mac HMAC -macopt hexkey:<raw_csprng_hex>"].

Definition body (sh : VerificationSheet) : bytes := concat (map (λ l, l ++ [10]) (body_lines sh)).
Definition render (sh : VerificationSheet) : bytes := body sh.
Definition bytes_to_hex (b : bytes) : bytes := hex_encode b.

(** ** Reading the text back *)

(** The rest of the first line that starts with [label]. *)
Fixpoint field (label : bytes) (ls : list bytes) : option bytes :=
  match ls with
  | [] => None
  | l :: ls => match strip_prefix label l with Some v => Some v | None => field label ls end
  end.
(** The lines below the first one that starts with [label]. *)
Fixpoint lines_below (label : bytes) (ls : list bytes) : list bytes :=
  match ls with
  | [] => []
  | l :: ls => if starts_with label l then ls else lines_below label ls
  end.

(** A value, unless the sheet shows [mark] in its place. *)
Definition unless (mark v : bytes) : option bytes := if bool_decide (v = mark) then None else Some v.
Definition read_words (v : bytes) : option WordCount :=
  if bool_decide (v = str "16 (12 words)") then Some Words12
  else if bool_decide (v = str "32 (24 words)") then Some Words24 else None.
Definition read_sensor (v : bytes) : option (option nat) :=
  if bool_decide (v = str "(inactive)") then Some None else
  '(d, _) ← split_once 32 v;
  n ← parse_digits u64_max 0 d;
  Some (Some (Z.to_nat n)).

Definition read_lines (ls : list bytes) : option VerificationSheet :=
  wc ← field (str "  L           = ") ls ≫= read_words;
  raw ← field (str "  raw_csprng  = ") ls;
  extra ← field (str "  extra_bytes = ") ls;
  entropy ← field (str "  entropy     = ") ls;
  d ← field (str "  dice   = ") ls;
  c ← field (str "  coins  = ") ls;
  k ← field (str "  cards  = ") ls;
  sensor ← field (str "  sensor = ") ls ≫= read_sensor;
  mnemonic ← field (str "  ") (lines_below (str "BIP-39 words (") ls);
  Some (mkSheet (entropy_bytes wc) wc raw (default [] (unless (str "(empty)") extra)) entropy mnemonic
    (unless (str "(inactive)") d) (unless (str "(inactive)") c) (unless (str "(inactive)") k) sensor).
Definition read_sheet (text : bytes) : option VerificationSheet := read_lines (split_on 10 text).

(** ** The round trip *)

Lemma split_on_app c l r : c ∉ l → split_on c (l ++ c :: r) = l :: split_on c r.
Proof.
  induction l as [|x l IH]; cbn; intros Hc; [by rewrite Z.eqb_refl|]. apply not_elem_of_cons in Hc as [Hx Hc].
  rewrite IH by done. by destruct (Z.eqb_spec x c); [congruence|].
Qed.
Lemma split_on_lines c ls : Forall (λ l, c ∉ l) ls → split_on c (concat (map (λ l, l ++ [c]) ls)) = ls ++ [[]].
Proof.
  induction 1 as [|l ls Hl _ IH]; [done|]. cbn [map concat]. rewrite <-app_assoc. cbn [app]. by rewrite split_on_app, IH.
Qed.

(** Text without line breaks and opening parentheses: it is one line and none
    of the marks of the sheet. *)
Definition plain (s : bytes) : Prop := Forall (λ c, c ≠ 10 ∧ c ≠ 40) s.
Lemma plain_line s : plain s → 10 ∉ s.
Proof. unfold plain. rewrite Forall_forall. intros H Hs. by apply H in Hs as []. Qed.
Lemma unless_plain r s : plain s → unless (40 :: r) s = Some s.
Proof. intros H. unfold unless. rewrite bool_decide_false; [done|]. intros ->. by apply Forall_cons in H as [[] _]. Qed.

Record readable (sh : VerificationSheet) : Prop := {
  rd_l : vs_l sh = entropy_bytes (vs_word_count sh);
  rd_raw : plain (vs_raw_csprng_hex sh);
  rd_extra : plain (vs_extra_bytes_hex sh);
  rd_entropy : plain (vs_entropy_hex sh);
  rd_mnemonic : 10 ∉ vs_mnemonic sh;
  rd_dice : plain (default [] (vs_dice sh));
  rd_coins : plain (default [] (vs_coins sh));
  rd_cards : plain (default [] (vs_cards sh));
  rd_sensor : Z.of_nat (default 0%nat (vs_sensor_len sh)) ≤ u64_max
}.

Lemma unless_shown o : plain (default [] o) → unless (str "(inactive)") (shown o) = o.
Proof. destruct o as [v|]; [apply (unless_plain (str "inactive)"))|done]. Qed.

Lemma dec_digits n : is_u64 n → Forall (λ c, 48 ≤ c ≤ 57) (dec n).
Proof.
  intros Hn. destruct (dec_spec n u64_max) as (_ & H & _); [done|by destruct Hn|].
  eapply Forall_impl; [exact H|]. unfold is_ascii_digit. intros c Hc. bool_simp. lia.
Qed.

Lemma read_sensor_shown n :
  Z.of_nat n ≤ u64_max →
  read_sensor (dec (Z.of_nat n) ++ str " bytes (class B; credited bits = 0)") = Some (Some n).
Proof.
  intros Hn. assert (is_u64 (Z.of_nat n)) as Hu by (unfold is_u64; lia).
  destruct (dec_spec (Z.of_nat n) u64_max Hu Hn) as (Hne & _ & Hp). pose proof (dec_digits _ Hu) as Hd.
  unfold read_sensor. rewrite bool_decide_false.
  - rewrite (proj2 (split_once_spec 32 _ (dec (Z.of_nat n)) (str "bytes (class B; credited bits = 0)"))).
    + cbn. rewrite Hp. cbn. by rewrite Nat2Z.id.
    + split; [done|]. rewrite Forall_forall in Hd. intros H%Hd. lia.
  - intros He. destruct (dec (Z.of_nat n)) as [|c d]; [done|]. injection He as -> _.
    apply Forall_cons in Hd as [? _]. lia.
Qed.

(** What the two conditional lines show behind their labels. *)
Definition shown_extra (sh : VerificationSheet) : bytes :=
  if (length (vs_extra_bytes_hex sh) =? 0)%nat then str "(empty)" else vs_extra_bytes_hex sh.
Definition shown_sensor (sh : VerificationSheet) : bytes :=
  match vs_sensor_len sh with
  | Some n => dec (Z.of_nat n) ++ str " bytes (class B; credited bits = 0)"
  | None => str "(inactive)"
  end.
Lemma extra_line_shown sh : extra_line sh = str "  extra_bytes = " ++ shown_extra sh.
Proof. unfold extra_line, shown_extra. by case_match. Qed.
Lemma sensor_line_shown sh : sensor_line sh = str "  sensor = " ++ shown_sensor sh.
Proof. unfold sensor_line, shown_sensor. by case_match. Qed.

(** Every label finds its own line, whatever the values are. *)
Lemma read_lines_shown sh :
  read_lines (body_lines sh ++ [[]]) =
    (wc ← read_words (dec (vs_l sh) ++ str " (" ++ WordCount_display (vs_word_count sh) ++ str " words)");
     sensor ← read_sensor (shown_sensor sh);
     Some (mkSheet (entropy_bytes wc) wc (vs_raw_csprng_hex sh) (default [] (unless (str "(empty)") (shown_extra sh)))
       (vs_entropy_hex sh) (vs_mnemonic sh) (unless (str "(inactive)") (shown (vs_dice sh)))
       (unless (str "(inactive)") (shown (vs_coins sh))) (unless (str "(inactive)") (shown (vs_cards sh))) sensor)).
Proof. unfold body_lines. rewrite extra_line_shown, sensor_line_shown. reflexivity. Qed.

Lemma read_words_shown wc :
  read_words (dec (entropy_bytes wc) ++ str " (" ++ WordCount_display wc ++ str " words)") = Some wc.
Proof. by destruct wc. Qed.

Lemma read_body_lines sh : readable sh → read_lines (body_lines sh ++ [[]]) = Some sh.
Proof.
  intros [Hl _ He _ _ Hd Hc Hk Hs]. rewrite read_lines_shown, Hl, read_words_shown.
  assert (read_sensor (shown_sensor sh) = Some (vs_sensor_len sh)) as ->.
  { unfold shown_sensor. destruct (vs_sensor_len sh) as [n|]; [by apply read_sensor_shown|done]. }
  assert (default [] (unless (str "(empty)") (shown_extra sh)) = vs_extra_bytes_hex sh) as Hx.
  { unfold shown_extra. destruct (vs_extra_bytes_hex sh) as [|x l] eqn:E; [done|]. cbn [length Nat.eqb].
    by rewrite (unless_plain (str "empty)")). }
  cbn [mbind option_bind]. rewrite Hx, !unless_shown by done. rewrite <-Hl. by destruct sh.
Qed.

Lemma line_app s t : 10 ∉ s → 10 ∉ t → 10 ∉ s ++ t.
Proof. intros ?? [?|?]%elem_of_app; done. Qed.
Lemma line_lit s : existsb (Z.eqb 10) s = false → 10 ∉ s.
Proof. apply has_char_false. Qed.
Lemma line_dec n : is_u64 n → 10 ∉ dec n.
Proof. intros H%dec_digits. rewrite Forall_forall in H. intros H'%H. lia. Qed.
Lemma line_shown o : plain (default [] o) → 10 ∉ shown o.
Proof. destruct o; [apply plain_line|by intros _; apply line_lit]. Qed.

Lemma body_lines_lines sh : readable sh → Forall (λ l, 10 ∉ l) (body_lines sh).
Proof.
  intros [Hl Hr He Hn Hm Hd Hc Hk Hs]. unfold body_lines. rewrite extra_line_shown, sensor_line_shown, Hl.
  assert (10 ∉ shown_extra sh).
  { unfold shown_extra. case_match; [by apply line_lit|by apply plain_line]. }
  assert (10 ∉ shown_sensor sh).
  { unfold shown_sensor. destruct (vs_sensor_len sh) as [n|]; [|by apply line_lit].
    apply line_app; [apply line_dec; unfold is_u64; cbn in Hs; lia|by apply line_lit]. }
  apply plain_line in Hr, Hn. apply line_shown in Hd, Hc, Hk.
  destruct (vs_word_count sh); repeat (apply Forall_cons; split; [first [by apply line_lit|by repeat (apply line_app; [by apply line_lit|])]|]); done.
Qed.

(** What [render] prints, [read_sheet] reads back. *)
Lemma render_reads_back sh : readable sh → read_sheet (render sh) = Some sh.
Proof.
  intros Hr. unfold read_sheet, render, body. rewrite split_on_lines by (by apply body_lines_lines).
  by apply read_body_lines.
Qed.

(** ** The sheets of generated keys *)

Lemma plain_app s t : plain s → plain t → plain (s ++ t).
Proof. intros. by apply Forall_app. Qed.

Lemma plain_hex l : plain (hex_encode l).
Proof.
  assert (∀ n, hex_digit n ≠ 10 ∧ hex_digit n ≠ 40) as H.
  { intros n. unfold hex_digit. generalize (Z.to_nat n). intros m. do 16 (destruct m as [|m]; [done|]). by destruct m. }
  unfold hex_encode. induction l as [|b l IH]; [constructor|]. cbn. by repeat constructor; try apply H.
Qed.

Lemma plain_card c : plain (card_encode c).
Proof. destruct c as [[] []]; repeat constructor; done. Qed.
Lemma plain_cards a : plain (default [] (cards_display a)).
Proof.
  unfold cards_display. destruct (cards a) as [cs|]; [|constructor]. cbn [fmap option_fmap option_map default].
  induction cs as [|c [|d cs] IH]; [constructor|apply plain_card|].
  apply plain_app; [apply plain_card|]. apply plain_app; [repeat constructor; done|exact IH].
Qed.

(** A builder that lets only bytes above 40 through keeps the text plain. *)
Lemma plain_ensured (P : Z → bool) (err : nat → Z → EntropyError) s :
  (∀ b, P b = true → 40 < b) → for_eachi (λ i b, ensure (P b) (err i b)) 0 s = Ok tt → plain s.
Proof.
  intros HP Hf. rewrite for_eachi_Ok in Hf. apply Forall_lookup. intros i b Hb.
  apply Hf, ensure_Ok, HP in Hb. lia.
Qed.
Lemma plain_dice s d : parse_dice s = Ok d → plain d.
Proof.
  unfold parse_dice. intros H. if_inv H E. apply bind_Ok in H as ([] & Hf & [= <-]).
  eapply (plain_ensured (λ b, (49 <=? b) && (b <=? 54)) InvalidDice); [|done]. intros b Hb. bool_simp. lia.
Qed.
Lemma plain_coins s d : parse_coins s = Ok d → plain d.
Proof.
  unfold parse_coins. intros H. if_inv H E. apply bind_Ok in H as ([] & Hf & [= <-]).
  eapply (plain_ensured (λ b, (b =? 48) || (b =? 49)) InvalidCoin); [|done].
  intros b [?|?]%orb_true_iff; bool_simp; lia.
Qed.

Lemma built_plain a : built a → plain (default [] (dice a)) ∧ plain (default [] (coins a)).
Proof.
  induction 1 as [|s a b _ IH H|s a b _ IH H|s a b _ IH H|s a _ _ IH]; [by split; constructor|..|exact IH];
    apply bind_Ok in H as (d & Hd & [= <-]); cbn; [apply plain_dice in Hd|apply plain_coins in Hd|]; naive_solver.
Qed.

Lemma from_key_readable k :
  built (gk_sources k) → 10 ∉ gk_mnemonic k → Z.of_nat (length (default [] (sensor (gk_sources k)))) ≤ u64_max →
  readable (from_key k).
Proof.
  intros [Hd Hc]%built_plain Hm Hs. split; cbn; try done; try apply plain_hex; [apply plain_cards|].
  by destruct (sensor (gk_sources k)).
Qed.

Section Printed.
Context `{hashes : Hashes, keys : KeyDerivation}.
(** HMAC-SHA512 tags have 64 bytes. *)
Context (tag64 : ∀ k m, length (hmac_sha512 k m) = 64%nat).

Lemma generate_sources rng wc extra k : generate rng wc extra = Ok k → gk_sources k = extra ∧ gk_word_count k = wc.
Proof.
  intros (raw & _ & H)%bind_Ok. unfold generate_from_raw in H. rewrite (finish_cases tag64) in H.
  repeat case_match; by simplify_eq.
Qed.

(** C31: the printed verification sheet is enough to recompute a key. Reading
    the text gives back every field: length and word count, the phrase, the
    dice, coins and cards as they were entered, and the length of the sensor
    blob, whether a sensor took part or not. The hex fields decode to the random
    draw and to the canonical bytes of the sources; HMAC-SHA512 of the two,
    truncated to the stated length, is the stated entropy, whose BIP-39 phrase
    is the stated one; and the source bytes are the encoding of the dice, coins
    and cards shown and of a blob of the length shown. Conditions: the sources
    were built by the crate's own constructors, the phrase is one line, and the
    blob's length fits 64 bits. *)
Theorem printed_sheet_recomputes raw wc extra k :
  built extra → is_bytes raw → Z.of_nat (length (default [] (sensor extra))) ≤ u64_max →
  generate (Some raw) wc extra = Ok k → 10 ∉ gk_mnemonic k →
  ∃ sh eb, read_sheet (render (from_key k)) = Some sh ∧
    vs_word_count sh = wc ∧ vs_l sh = entropy_bytes wc ∧ vs_mnemonic sh = gk_mnemonic k ∧
    vs_dice sh = dice extra ∧ vs_coins sh = coins extra ∧ vs_cards sh = cards_display extra ∧
    vs_sensor_len sh = length <$> sensor extra ∧
    hex_pairs (vs_raw_csprng_hex sh) = Ok raw ∧
    hex_pairs (vs_extra_bytes_hex sh) = Ok eb ∧ eb = canonical_bytes extra ∧
    vs_entropy_hex sh = hex_encode (take (Z.to_nat (vs_l sh)) (hmac_sha512 raw eb)) ∧
    mnemonic_from_entropy (take (Z.to_nat (vs_l sh)) (hmac_sha512 raw eb)) = Some (vs_mnemonic sh) ∧
    ∃ blob, length blob = default 0%nat (vs_sensor_len sh) ∧
      eb = encode_slots [default [] (vs_dice sh); default [] (vs_coins sh); strip_spaces (default [] (vs_cards sh)); blob].
Proof.
  intros Hb Hraw Hs H Hm. pose proof (generate_sources _ _ _ _ H) as [He Hw].
  destruct (sheet_recomputes tag64 raw wc extra k Hb Hraw H) as (Hr & eb & Heb & Hcb & Hent & _ & Hmn & Hslots).
  exists (from_key k), eb. split_and!; try done; [|by rewrite <-?Hw, <-?He..].
  apply render_reads_back, from_key_readable; by rewrite ?He.
Qed.
End Printed.

(** The text of a twelve-word key with all four sources, and what comes back. *)
Lemma printed_sheet_recomputes_witness :
  ∃ sh eb, read_sheet (render (from_key generated)) = Some sh ∧
    vs_word_count sh = Words12 ∧ vs_l sh = entropy_bytes Words12 ∧ vs_mnemonic sh = gk_mnemonic generated ∧
    vs_dice sh = dice sample_extra ∧ vs_coins sh = coins sample_extra ∧ vs_cards sh = cards_display sample_extra ∧
    vs_sensor_len sh = length <$> sensor sample_extra ∧
    hex_pairs (vs_raw_csprng_hex sh) = Ok drawn ∧
    hex_pairs (vs_extra_bytes_hex sh) = Ok eb ∧ eb = canonical_bytes sample_extra ∧
    vs_entropy_hex sh = hex_encode (take (Z.to_nat (vs_l sh)) (@hmac_sha512 Toy.hashes drawn eb)) ∧
    @mnemonic_from_entropy toy_keys (take (Z.to_nat (vs_l sh)) (@hmac_sha512 Toy.hashes drawn eb)) = Some (vs_mnemonic sh) ∧
    ∃ blob, length blob = default 0%nat (vs_sensor_len sh) ∧
      eb = encode_slots [default [] (vs_dice sh); default [] (vs_coins sh); strip_spaces (default [] (vs_cards sh)); blob].
Proof.
  apply (@printed_sheet_recomputes Toy.hashes toy_keys toy_tag64 drawn Words12 sample_extra generated sample_extra_built).
  - apply bytes_ok_spec. reflexivity.
  - done.
  - exact generated_ok.
  - apply has_char_false. vm_compute. reflexivity.
Defined.

(** The separator line, as a reader sees it. *)
Lemma separator_line_text :
  body_lines (from_key generated) !! 24%nat =
  Some (str "  between two active sources keeps its 0x1E so the encoding").
Proof. vm_compute. reflexivity. Qed.
