(* ===== verification/Base64.v ===== *)
(** Base64 of PSBTs, [trinity-watch/src/wallet/encode.rs] and [decode_base64]
    of [wallet/mod.rs].

    The encoder's [while] loop advances by three bytes and the decoder's by
    four characters; both are structural recursions on the remaining input. *)
From S2P Require Import Prelude Text.

(** ** [encode_base64] *)

Definition T : bytes := str "ABCDEFGHIJKLMNOPQRSTUVWXYZabcdefghijklmnopqrstuvwxyz0123456789+/".
Definition T_at (i : Z) : Z := nth (Z.to_nat i) T 0.

(** One round of the loop with [remaining] bytes left. *)
Definition encode_round (remaining : nat) (b0 b1 b2 : Z) : bytes :=
  let n := Z.lor (Z.lor (Z.shiftl b0 16) (Z.shiftl b1 8)) b2 in
  [ T_at (Z.land (Z.shiftr n 18) 63);
    T_at (Z.land (Z.shiftr n 12) 63);
    if (1 <? remaining)%nat then T_at (Z.land (Z.shiftr n 6) 63) else 61;
    if (2 <? remaining)%nat then T_at (Z.land n 63) else 61 ].

Fixpoint encode_base64 (data : bytes) : bytes :=
  match data with
  | [] => []
  | [b0] => encode_round 1 b0 0 0
  | [b0; b1] => encode_round 2 b0 b1 0
  | b0 :: b1 :: b2 :: rest => encode_round (3 + length rest) b0 b1 b2 ++ encode_base64 rest
  end.

(** ** [decode_base64] *)

Inductive Base64Error := InvalidByte (c : Z) | LengthNotMultipleOf4.

Definition b64_val (c : Z) : res Base64Error Z :=
  if (65 <=? c) && (c <=? 90) then Ok (c - 65)
  else if (97 <=? c) && (c <=? 122) then Ok (c - 97 + 26)
  else if (48 <=? c) && (c <=? 57) then Ok (c - 48 + 52)
  else if c =? 43 then Ok 62
  else if c =? 47 then Ok 63
  else Err (InvalidByte c).

(** One round of the loop on the characters [s0 s1 s2 s3]. *)
Definition decode_round (s0 s1 s2 s3 : Z) : res Base64Error bytes :=
  a ← b64_val s0;
  b ← b64_val s1;
  let pad_c := s2 =? 61 in
  let pad_d := s3 =? 61 in
  c ← (if pad_c then Ok 0 else b64_val s2);
  d ← (if pad_d then Ok 0 else b64_val s3);
  let n := Z.lor (Z.lor (Z.lor (Z.shiftl a 18) (Z.shiftl b 12)) (Z.shiftl c 6)) d in
  Ok ([Z.land (Z.shiftr n 16) 255]
      ++ (if pad_c then [] else [Z.land (Z.shiftr n 8) 255])
      ++ (if pad_d then [] else [Z.land n 255])).

Fixpoint decode_loop (s : bytes) : res Base64Error bytes :=
  match s with
  | [] => Ok []
  | s0 :: s1 :: s2 :: s3 :: rest =>
      g ← decode_round s0 s1 s2 s3;
      out ← decode_loop rest;
      Ok (g ++ out)
  | _ => Panic
  end.

Definition decode_base64 (s : bytes) : res Base64Error bytes :=
  let s := trim s in
  if negb (length s mod 4 =? 0)%nat then Err LengthNotMultipleOf4 else decode_loop s.

Arguments T_at : simpl never.
Arguments b64_val : simpl never.
Arguments encode_round : simpl never.
Arguments decode_round : simpl never.

(** ** The alphabet *)

Lemma T_at_spec v :
  0 ≤ v < 64 → b64_val (T_at v) = Ok v ∧ T_at v ≠ 61 ∧ 33 ≤ T_at v ≤ 126.
Proof.
  intros Hv.
  assert (Forall (λ n, b64_val (T_at (Z.of_nat n)) = Ok (Z.of_nat n) ∧
            T_at (Z.of_nat n) ≠ 61 ∧ 33 ≤ T_at (Z.of_nat n) ≤ 126) (seq 0 64)) as Hf
    by (repeat constructor; vm_compute; congruence).
  rewrite Forall_forall in Hf. specialize (Hf (Z.to_nat v)).
  rewrite Z2Nat.id in Hf by lia. apply Hf, elem_of_seq. lia.
Qed.

(** ** Packing and unpacking of bit fields *)

Lemma lor_shiftl_add a b k : 0 ≤ k → 0 ≤ b < 2 ^ k → Z.lor (Z.shiftl a k) b = a * 2 ^ k + b.
Proof.
  intros Hk Hb. rewrite <-Z.shiftl_mul_pow2 by lia. symmetry. apply Z.add_nocarry_lor.
  apply Z.bits_inj'. intros i Hi. rewrite Z.land_spec, Z.shiftl_spec, Z.bits_0 by lia.
  destruct (decide (i < k)) as [?|?].
  - by rewrite Z.testbit_neg_r by lia.
  - rewrite (testbit_small b k i) by lia. apply andb_false_r.
Qed.

Lemma land_63 x : Z.land x 63 = x mod 64.
Proof. change 63 with (Z.ones 6). by rewrite Z.land_ones. Qed.
Lemma land_255 x : Z.land x 255 = x mod 256.
Proof. change 255 with (Z.ones 8). by rewrite Z.land_ones. Qed.

Lemma pack3 b0 b1 b2 :
  is_u8 b1 → is_u8 b2 →
  Z.lor (Z.lor (Z.shiftl b0 16) (Z.shiftl b1 8)) b2 = b0 * 65536 + b1 * 256 + b2.
Proof.
  unfold is_u8, u8_max. intros.
  rewrite <-Z.lor_assoc, (lor_shiftl_add b1), lor_shiftl_add by lia. lia.
Qed.

Lemma pack4 a b c d :
  0 ≤ b < 64 → 0 ≤ c < 64 → 0 ≤ d < 64 →
  Z.lor (Z.lor (Z.lor (Z.shiftl a 18) (Z.shiftl b 12)) (Z.shiftl c 6)) d =
  a * 262144 + b * 4096 + c * 64 + d.
Proof.
  intros. rewrite <-!Z.lor_assoc, (lor_shiftl_add c), (lor_shiftl_add b), lor_shiftl_add by lia. lia.
Qed.

Ltac euclid := Z.to_euclidean_division_equations; lia.

(** ** One round *)

Lemma decode_encode_round r b0 b1 b2 :
  is_u8 b0 → is_u8 b1 → is_u8 b2 → (1 ≤ r)%nat →
  (r = 1%nat → b1 = 0) → ((r ≤ 2)%nat → b2 = 0) →
  ∃ s0 s1 s2 s3, encode_round r b0 b1 b2 = [s0; s1; s2; s3] ∧
    decode_round s0 s1 s2 s3 = Ok (take r [b0; b1; b2]) ∧
    Forall (λ c, 33 ≤ c ≤ 126) [s0; s1; s2; s3].
Proof.
  intros H0 H1 H2 Hr H1' H2'. unfold encode_round. rewrite pack3 by done.
  unfold is_u8, u8_max in *. set (n := b0 * 65536 + b1 * 256 + b2).
  rewrite !land_63, !Z.shiftr_div_pow2 by lia.
  change (2 ^ 18) with 262144. change (2 ^ 12) with 4096. change (2 ^ 6) with 64.
  assert (∀ x, 0 ≤ x mod 64 < 64) as Hm by (intros; apply Z.mod_pos_bound; lia).
  assert (n / 262144 mod 64 * 262144 + n / 4096 mod 64 * 4096 + n / 64 mod 64 * 64 + n mod 64 = n)
    as Hn by (unfold n; euclid).
  pose proof (T_at_spec _ (Hm (n / 262144))) as (E0 & N0 & R0).
  pose proof (T_at_spec _ (Hm (n / 4096))) as (E1 & N1 & R1).
  pose proof (T_at_spec _ (Hm (n / 64))) as (E2 & N2 & R2).
  pose proof (T_at_spec _ (Hm n)) as (E3 & N3 & R3).
  assert (n / 65536 mod 256 = b0) as B0 by (unfold n; euclid).
  assert (n / 256 mod 256 = b1) as B1 by (unfold n; euclid).
  assert (n mod 256 = b2) as B2 by (unfold n; euclid).
  eexists _, _, _, _. split; [done|]. unfold decode_round. rewrite E0, E1.
  destruct r as [|[|[|r]]]; [lia|..]; cbn [Nat.ltb Nat.leb];
    (split; [|repeat constructor; lia]).
  - cbn [mbind res_bind Z.eqb Pos.eqb]. rewrite pack4 by (auto || lia).
    assert (n / 64 mod 64 = 0) by (unfold n; rewrite H1', H2' by lia; euclid).
    assert (n mod 64 = 0) by (unfold n; rewrite H2' by lia; euclid).
    replace (_ + 0 * 64 + 0) with n by lia.
    rewrite land_255, Z.shiftr_div_pow2 by lia. change (2 ^ 16) with 65536. cbn [app take]. by rewrite B0.
  - rewrite E2, (proj2 (Z.eqb_neq _ _) N2). cbn [mbind res_bind Z.eqb Pos.eqb].
    rewrite pack4 by (auto || lia).
    assert (n mod 64 = 0) by (unfold n; rewrite H2' by lia; euclid).
    replace (_ + _ + _ + 0) with n by lia.
    rewrite !land_255, !Z.shiftr_div_pow2 by lia. change (2 ^ 16) with 65536. change (2 ^ 8) with 256. cbn [app take]. by rewrite B0, B1.
  - rewrite E2, E3, (proj2 (Z.eqb_neq _ _) N2), (proj2 (Z.eqb_neq _ _) N3).
    cbn [mbind res_bind]. rewrite pack4, Hn by auto.
    rewrite !land_255, !Z.shiftr_div_pow2 by lia. change (2 ^ 16) with 65536. change (2 ^ 8) with 256. cbn [app take]. rewrite B0, B1, B2. by destruct r.
Qed.

(** ** The loops *)


Lemma encode_base64_spec d :
  is_bytes d →
  decode_loop (encode_base64 d) = Ok d ∧ (length (encode_base64 d) mod 4 = 0)%nat ∧
  Forall (λ c, 33 ≤ c ≤ 126) (encode_base64 d).
Proof.
  assert (is_u8 0) by (unfold is_u8, u8_max; lia).
  unfold is_bytes. induction d as [|a|a b|a b c d IH] using list_ind3; intros Hd; cbn [encode_base64];
    rewrite ?Forall_cons in Hd.
  - done.
  - destruct (decode_encode_round 1 a 0 0) as (s0 & s1 & s2 & s3 & -> & E & F); try tauto || lia.
    cbn [decode_loop]. by rewrite E.
  - destruct (decode_encode_round 2 a b 0) as (s0 & s1 & s2 & s3 & -> & E & F); try tauto || lia.
    cbn [decode_loop]. by rewrite E.
  - destruct (decode_encode_round (3 + length d) a b c) as (s0 & s1 & s2 & s3 & -> & E & F); try tauto || lia.
    destruct IH as (IH1 & IH2 & IH3); [tauto|]. cbn [app decode_loop]. rewrite E, IH1. split_and!.
    + cbn. by rewrite take_nil.
    + cbn [length]. replace (S _) with (length (encode_base64 d) + 1 * 4)%nat by lia.
      by rewrite Nat.Div0.mod_add.
    + change (s0 :: s1 :: s2 :: s3 :: ?l) with ([s0; s1; s2; s3] ++ l). by apply Forall_app.
Qed.

(** ** Properties *)

(** What [encode_base64] writes, [decode_base64] reads back: every byte
    string survives the PSBT's base64 form, for each of the three lengths
    modulo 3, and the encoding has no white space to trim. *)
Lemma base64_roundtrip d : is_bytes d → decode_base64 (encode_base64 d) = Ok d.
Proof.
  intros (Hd & Hl & Hp)%encode_base64_spec. unfold decode_base64.
  by rewrite trim_printable, Hl, Hd.
Qed.
Lemma base64_roundtrip_witness :
  encode_base64 (str "fooba") = str "Zm9vYmE=" ∧
  decode_base64 (encode_base64 (str "fooba")) = Ok (str "fooba").
Proof. split; [reflexivity|]. apply base64_roundtrip, bytes_ok_spec. reflexivity. Defined.

Lemma decode_round_no_panic s0 s1 s2 s3 : decode_round s0 s1 s2 s3 ≠ Panic.
Proof.
  assert (∀ c, b64_val c ≠ Panic) as Hv by (intros c; unfold b64_val; repeat case_match; done).
  unfold decode_round. intros H. res_inv; try by eapply Hv.
  all: repeat case_match; try done; by eapply Hv.
Qed.

Lemma decode_loop_no_panic s : (length s mod 4 = 0)%nat → decode_loop s ≠ Panic.
Proof.
  remember (length s) as n eqn:Hn. revert s Hn.
  induction (lt_wf n) as [n _ IH]. intros [|s0 [|s1 [|s2 [|s3 s]]]] -> Hm; cbn [decode_loop]; try done.
  intros H. res_inv; [by eapply decode_round_no_panic|]. eapply IH; [|done| |done]; cbn; [lia|].
  cbn [length] in Hm. replace (S _) with (length s + 1 * 4)%nat in Hm by lia.
  by rewrite Nat.Div0.mod_add in Hm.
Qed.

(** Decoding never indexes out of range: the length test comes first. *)
Lemma decode_base64_no_panic s : decode_base64 s ≠ Panic.
Proof.
  unfold decode_base64. case_match eqn:E; [done|]. bool_simp. by apply decode_loop_no_panic.
Qed.
