(* ===== verification/Checkpoint.v ===== *)
(** Checkpoints of the local chain, the vendored [bdk_core/src/checkpoint.rs].

    A [CheckPoint] is a linked list of block ids with falling heights, the tip
    in front. [insert] walks down from the tip with the blocks it passed in
    [tail], then extends the block it stopped at. *)
From S2P Require Import Prelude Ordered.

Record BlockId := mkBlockId { bi_height : Z; bi_hash : bytes }.
#[global] Instance BlockId_eq_dec : EqDecision BlockId.
Proof. solve_decision. Defined.

Inductive CheckPoint :=
  | CPBase (block : BlockId)
  | CPLink (block : BlockId) (prev : CheckPoint).

Definition CheckPoint_new (block : BlockId) : CheckPoint := CPBase block.
Definition block_id (cp : CheckPoint) : BlockId :=
  match cp with CPBase b | CPLink b _ => b end.
Definition cp_height (cp : CheckPoint) : Z := bi_height (block_id cp).
Definition cp_hash (cp : CheckPoint) : bytes := bi_hash (block_id cp).
Definition cp_prev (cp : CheckPoint) : option CheckPoint :=
  match cp with CPBase _ => None | CPLink _ p => Some p end.

(** [CheckPoint::iter]: the checkpoints from the tip down, by their block ids. *)
Fixpoint cp_iter (cp : CheckPoint) : list BlockId :=
  match cp with CPBase b => [b] | CPLink b p => b :: cp_iter p end.

Definition cp_push (cp : CheckPoint) (b : BlockId) : option CheckPoint :=
  if cp_height cp <? bi_height b then Some (CPLink b cp) else None.
Fixpoint cp_extend (cp : CheckPoint) (blocks : list BlockId) : option CheckPoint :=
  match blocks with
  | [] => Some cp
  | b :: bs => cp' ← cp_push cp b; cp_extend cp' bs
  end.

(** Where the loop of [insert] ends: the block is already there, or the list
    continues from [base] with [block_id] and the reversed [tail]. *)
Inductive InsertAt := Present | Rebase (base : CheckPoint) (tail : list BlockId).

Fixpoint insert_loop {E} (b : BlockId) (cp : CheckPoint) (tail : list BlockId) : res E InsertAt :=
  if cp_height cp =? bi_height b then
    if bool_decide (cp_hash cp = bi_hash b) then Ok Present
    else if cp_height cp =? 0 then Panic
    else match cp with CPLink _ p => Ok (Rebase p []) | CPBase _ => Panic end
  else if cp_height cp <? bi_height b then Ok (Rebase cp tail)
  else match cp with CPLink c p => insert_loop b p (tail ++ [c]) | CPBase _ => Panic end.

Definition cp_insert {E} (cp : CheckPoint) (b : BlockId) : res E CheckPoint :=
  match insert_loop b cp [] with
  | Ok Present => Ok cp
  | Ok (Rebase base tail) => expect (cp_extend base (b :: reverse tail))
  | Err e => Err e
  | Panic => Panic
  end.

(** ** Well-formed chains *)

(** Heights fall strictly from the tip to a genesis block at height 0. *)
Fixpoint cp_wf (cp : CheckPoint) : Prop :=
  match cp with
  | CPBase b => bi_height b = 0
  | CPLink b p => cp_height p < bi_height b ∧ cp_wf p
  end.

(** The genesis block. *)
Fixpoint cp_genesis (cp : CheckPoint) : BlockId :=
  match cp with CPBase b => b | CPLink _ p => cp_genesis p end.

Lemma cp_height_nonneg cp : cp_wf cp → 0 ≤ cp_height cp.
Proof. induction cp; cbn; unfold cp_height in *; cbn in *; intuition lia. Qed.

Lemma cp_iter_below cp b : cp_wf cp → b ∈ cp_iter cp → 0 ≤ bi_height b ≤ cp_height cp.
Proof.
  induction cp as [c|c p IH]; cbn; unfold cp_height; cbn.
  - intros ? ->%list_elem_of_singleton. lia.
  - intros [Hc Hp] [->|Hb]%elem_of_cons; [|specialize (IH Hp Hb); unfold cp_height in *; lia].
    pose proof (cp_height_nonneg p Hp). unfold cp_height in *. lia.
Qed.

Lemma block_id_in cp : block_id cp ∈ cp_iter cp.
Proof. destruct cp; cbn; set_solver. Qed.

Lemma cp_genesis_in cp : cp_genesis cp ∈ cp_iter cp.
Proof. induction cp; cbn; set_solver. Qed.

Lemma cp_genesis_height cp : cp_wf cp → bi_height (cp_genesis cp) = 0.
Proof. induction cp; cbn; naive_solver. Qed.

(** One block per height. *)
Lemma cp_height_inj cp b c :
  cp_wf cp → b ∈ cp_iter cp → c ∈ cp_iter cp → bi_height b = bi_height c → b = c.
Proof.
  induction cp as [d|d p IH]; cbn.
  - set_solver.
  - intros [Hd Hp] Hb Hc He. apply elem_of_cons in Hb as [->|Hb]; apply elem_of_cons in Hc as [->|Hc];
      [done|..|by apply IH];
      match goal with H : _ ∈ cp_iter p |- _ => apply (cp_iter_below _ _ Hp) in H end; lia.
Qed.

Lemma cp_wf_zero cp b :
  cp_wf cp → b ∈ cp_iter cp → bi_height b = 0 → b = cp_genesis cp.
Proof.
  intros Hw Hb H0. apply (cp_height_inj cp); auto using cp_genesis_in.
  by rewrite H0, cp_genesis_height.
Qed.

(** ** What [insert] does *)

Lemma cp_push_wf cp b :
  cp_wf cp → cp_height cp < bi_height b → cp_push cp b = Some (CPLink b cp) ∧ cp_wf (CPLink b cp).
Proof. intros Hw Hb. unfold cp_push. rewrite (proj2 (Z.ltb_lt _ _) Hb). done. Qed.

Lemma cp_extend_spec cp bs :
  cp_wf cp → StronglySorted (λ x y, bi_height x < bi_height y) bs →
  (∀ b, b ∈ bs → cp_height cp < bi_height b) →
  ∃ cp', cp_extend cp bs = Some cp' ∧ cp_wf cp' ∧ cp_iter cp' = reverse bs ++ cp_iter cp.
Proof.
  revert cp. induction bs as [|b bs IH]; intros cp Hw Hs Hb; cbn [cp_extend].
  - by exists cp.
  - apply StronglySorted_inv in Hs as [Hs Hf]. rewrite Forall_forall in Hf.
    destruct (cp_push_wf cp b Hw) as [-> Hw']; [apply Hb; left|]. cbn [mbind option_bind].
    destruct (IH (CPLink b cp)) as (cp' & -> & Hw'' & Hi); [done..|].
    exists cp'. split_and!; [done..|]. by rewrite Hi, reverse_cons, <-app_assoc.
Qed.

(** The blocks under and over the height of [b]. *)
Definition below (b : BlockId) (l : list BlockId) : list BlockId :=
  filter (λ c, bi_height c < bi_height b) l.
Definition above (b : BlockId) (l : list BlockId) : list BlockId :=
  filter (λ c, bi_height b < bi_height c) l.

(** The chain that [insert] is documented to return: unchanged when the block
    is there, the block on top of what is below it when it conflicts, the block
    in its place otherwise. *)
Definition insert_spec (l : list BlockId) (b : BlockId) : list BlockId :=
  if bool_decide (b ∈ l) then l
  else if existsb (λ c, bi_height c =? bi_height b) l then b :: below b l
  else above b l ++ b :: below b l.

Lemma below_all cp b : cp_wf cp → cp_height cp < bi_height b → below b (cp_iter cp) = cp_iter cp ∧ above b (cp_iter cp) = [].
Proof.
  intros Hw Hb. unfold below, above.
  assert (∀ c, c ∈ cp_iter cp → bi_height c < bi_height b) as Hc
    by (intros c Hc%cp_iter_below; [lia|done]).
  generalize dependent (cp_iter cp). clear. intros l Hc. induction l as [|c l IH]; [done|].
  rewrite !filter_cons, decide_True, decide_False by (specialize (Hc c); set_solver by lia).
  destruct IH as [-> ->]; [set_solver|done].
Qed.

(** No block of a chain with a lower tip has the height of [b]. *)
Lemma no_height cp b :
  cp_wf cp → cp_height cp < bi_height b →
  b ∉ cp_iter cp ∧ existsb (λ c, bi_height c =? bi_height b) (cp_iter cp) = false.
Proof.
  intros Hw Hb. split; [intros H%cp_iter_below; [lia|done]|].
  apply not_true_iff_false. rewrite existsb_exists. intros (c & Hc%list_elem_of_In & He).
  bool_simp. apply cp_iter_below in Hc; [lia|done].
Qed.

Lemma insert_loop_spec {E} b cp tail :
  cp_wf cp → 0 ≤ bi_height b → (bi_height b = 0 → b = cp_genesis cp) →
  match insert_loop (E:=E) b cp tail with
  | Ok Present => b ∈ cp_iter cp
  | Ok (Rebase base t) =>
      b ∉ cp_iter cp ∧ cp_wf base ∧ cp_height base < bi_height b ∧
      cp_genesis base = cp_genesis cp ∧ cp_iter base = below b (cp_iter cp) ∧
      t = if existsb (λ c, bi_height c =? bi_height b) (cp_iter cp) then []
          else tail ++ above b (cp_iter cp)
  | _ => False
  end.
Proof.
  revert tail. induction cp as [c|c p IH]; intros tail Hw Hb H0; cbn [insert_loop];
    unfold cp_height, cp_hash in *; cbn [block_id] in *;
    (destruct (Z.eqb_spec (bi_height c) (bi_height b)) as [He|He];
      [case_bool_decide as Hh | destruct (Z.ltb_spec (bi_height c) (bi_height b)) as [Hl|Hl]]).
  - destruct b, c; cbn in *; simplify_eq. set_solver.
  - exfalso. cbn in Hw. rewrite H0 in Hh by lia. by apply Hh.
  - destruct (no_height (CPBase c) b) as [? Hx], (below_all (CPBase c) b) as [Hf Ha]; [done..|].
    rewrite Hx, Hf, Ha, app_nil_r. done.
  - cbn in Hw. lia.
  - destruct b, c; cbn in *; simplify_eq. set_solver.
  - destruct Hw as [Hc Hp]. pose proof (cp_height_nonneg p Hp). unfold cp_height in *.
    rewrite (proj2 (Z.eqb_neq _ _)) by lia.
    destruct (no_height p b Hp) as [Hni Hx]; [unfold cp_height; lia|].
    destruct (below_all p b Hp) as [Hf _]; [unfold cp_height; lia|]. cbn [cp_iter existsb cp_genesis].
    rewrite (proj2 (Z.eqb_eq _ _)) by lia. cbn [orb].
    split_and!; [|done|lia|done| |done].
    + rewrite not_elem_of_cons. split; [|done]. by intros ->.
    + unfold below in *. by rewrite filter_cons, decide_False, Hf by lia.
  - destruct (no_height (CPLink c p) b) as [? Hx], (below_all (CPLink c p) b) as [Hf Ha]; [done..|].
    rewrite Hx, Hf, Ha, app_nil_r. done.
  - destruct Hw as [Hc Hp]. specialize (IH (tail ++ [c]) Hp Hb H0).
    destruct (insert_loop b p _) as [[|base t]|e|]; [|destruct IH as (Hni & ? & ? & ? & Hf & Ht)|done..].
    + cbn. set_solver.
    + cbn [cp_iter cp_genesis existsb]. unfold below, above in *.
      rewrite filter_cons, decide_False, filter_cons, decide_True by lia.
      rewrite (proj2 (Z.eqb_neq (bi_height c) _)) by lia. cbn [orb]. split_and!; try done.
      * rewrite not_elem_of_cons. split; [intros ->; lia|done].
      * rewrite Ht, <-app_assoc. done.
Qed.

Lemma above_sorted cp b :
  cp_wf cp → StronglySorted (λ x y, bi_height x < bi_height y) (b :: reverse (above b (cp_iter cp))).
Proof.
  intros Hw. constructor.
  - assert (StronglySorted (λ x y, bi_height y < bi_height x) (above b (cp_iter cp))) as Hs.
    { unfold above. induction cp as [c|c p IH]; cbn [cp_iter]; rewrite filter_cons.
      - case_decide; repeat constructor.
      - destruct Hw as [Hc Hp]. case_decide; [|by auto]. constructor; [by auto|].
        apply Forall_forall. intros x [_ Hx]%list_elem_of_filter. apply cp_iter_below in Hx; [lia|done]. }
    induction Hs as [|x l Hs IH Hf]; [constructor|]. rewrite reverse_cons.
    apply StronglySorted_app_2; [|done|repeat constructor].
    intros y z Hy ->%list_elem_of_singleton. rewrite elem_of_reverse in Hy.
    rewrite Forall_forall in Hf. by apply Hf.
  - apply Forall_forall. intros x. rewrite elem_of_reverse. by intros [? _]%list_elem_of_filter.
Qed.

(** [insert] keeps a chain well-formed and does what it is documented to do;
    its panics (a lower base, a different genesis, an unordered tail) cannot
    happen on a chain that starts at the genesis block. *)
Lemma cp_insert_spec {E} cp b :
  cp_wf cp → 0 ≤ bi_height b → (bi_height b = 0 → b = cp_genesis cp) →
  ∃ cp', cp_insert (E:=E) cp b = Ok cp' ∧ cp_wf cp' ∧ cp_genesis cp' = cp_genesis cp ∧
    cp_iter cp' = insert_spec (cp_iter cp) b.
Proof.
  intros Hw Hb H0. pose proof (insert_loop_spec (E:=E) b cp [] Hw Hb H0) as Hl.
  unfold cp_insert, insert_spec.
  destruct (insert_loop b cp []) as [[|base t]|e|]; [|destruct Hl as (Hni & Hwb & Hlt & Hg & Hi & Ht)|done..].
  { exists cp. by rewrite bool_decide_eq_true_2 by done. }
  rewrite bool_decide_eq_false_2 by done.
  assert (StronglySorted (λ x y, bi_height x < bi_height y) (b :: reverse t)) as Hs.
  { rewrite Ht. case_match; [repeat constructor|by apply above_sorted]. }
  assert (∀ c, c ∈ b :: reverse t → cp_height base < bi_height c) as Hc.
  { apply StronglySorted_inv in Hs as [_ Hf]. rewrite Forall_forall in Hf.
    intros c [->|Hc%Hf]%elem_of_cons; lia. }
  destruct (cp_extend_spec base (b :: reverse t) Hwb Hs Hc) as (cp' & -> & Hw' & Hi').
  exists cp'. split_and!; [done..| |].
  - rewrite <-Hg. symmetry. apply cp_wf_zero; [done| |].
    + rewrite Hi'. apply elem_of_app. right. apply cp_genesis_in.
    + by apply cp_genesis_height.
  - rewrite Hi', Hi, reverse_cons, reverse_involutive, Ht, <-app_assoc. cbn. by case_match.
Qed.
