(* ===== verification/LocalChain.v ===== *)
(** The local chain of the wallet, the vendored [bdk_chain/src/local_chain.rs].

    [Wallet::apply_update] hands the checkpoint of an update to
    [LocalChain::apply_update], which merges it into the wallet's chain or
    refuses it. A change set is a finite map from heights to hashes ([None]
    removes a block). The merge compares [Arc] pointers as a shortcut; pointer
    equality is the parameter [eq_ptr]. The [debug_assert]s are left out.

    This file holds the operations, the view of a chain as a map from heights
    to hashes, and what [insert] and a change set do to that map. [MergeChains]
    has the theory of the merge, [ChainStore] that of persistence. *)
From S2P Require Import Prelude Ordered Checkpoint.

Notation ChangeSet := (gmap Z (option bytes)).
Definition MissingGenesisError : Type := unit.
Inductive CannotConnectError := CannotConnect (try_include_height : Z).
Record AlterCheckPointError := mkAlter { alt_height : Z; alt_original : bytes; alt_update : option bytes }.

(** Heights in ascending order, as a [BTreeMap] iterates. *)
Definition by_height {A} (x y : Z * A) : Prop := x.1 ≤ y.1.
#[global] Instance by_height_dec {A} : RelDecision (@by_height A).
Proof. intros x y. unfold by_height. apply _. Defined.
Definition entries {A} (m : gmap Z A) : list (Z * A) := merge_sort by_height (map_to_list m).
Definition block_of (e : Z * bytes) : BlockId := mkBlockId e.1 e.2.

Fixpoint push_all {E} (cp : CheckPoint) (bs : list BlockId) : res E CheckPoint :=
  match bs with [] => Ok cp | b :: bs => cp ← expect (cp_push cp b); push_all cp bs end.
Definition from_blocks (blocks : gmap Z bytes) : res MissingGenesisError CheckPoint :=
  if bool_decide (blocks !! 0 = None) then Err tt else
  match map block_of (entries blocks) with
  | [] => Panic
  | b :: bs => push_all (CheckPoint_new b) bs
  end.

(** The loop over [init_cp.iter()]: the blocks from [start_height] up, and the
    first checkpoint below it. *)
Fixpoint split_extension (start_height : Z) (cp : CheckPoint) (extension : gmap Z bytes) : gmap Z bytes * option CheckPoint :=
  if start_height <=? cp_height cp then
    let extension := <[cp_height cp := cp_hash cp]> extension in
    match cp with CPBase _ => (extension, None) | CPLink _ p => split_extension start_height p extension end
  else (extension, Some cp).

Definition change_step (extension : gmap Z bytes) (e : Z * option bytes) : gmap Z bytes :=
  match e.2 with Some hash => <[e.1 := hash]> extension | None => delete e.1 extension end.

Definition apply_changeset_to_checkpoint (init_cp : CheckPoint) (changeset : ChangeSet) : res MissingGenesisError CheckPoint :=
  match entries changeset with
  | [] => Ok init_cp
  | (start_height, _) :: _ =>
      let '(extension, base) := split_extension start_height init_cp ∅ in
      let extension := foldl change_step extension (entries changeset) in
      match base with
      | Some base => expect (cp_extend base (map block_of (entries extension)))
      | None => from_blocks extension
      end
  end.

(** ** Merging *)

Record MergeState := mkMerge {
  m_changeset : ChangeSet;
  m_prev_orig : option CheckPoint;
  m_prev_update : option CheckPoint;
  m_agreed : bool;
  m_invalidated : bool;
  m_potential : list Z;
  m_superset : bool
}.
Definition merge_init : MergeState := mkMerge ∅ None None false false [] true.
Inductive MergeStop :=
  | MergeDone (st : MergeState)
  | MergeSamePointer (st : MergeState)
  | MergeRefused (height : Z).

(** [a > b] on [Option<u32>]: [None] is least. *)
Definition opt_gt (a b : option Z) : bool :=
  match a, b with Some x, Some y => y <? x | Some _, None => true | None, _ => false end.

Definition on_update_block (u : CheckPoint) (st : MergeState) : MergeState :=
  mkMerge (<[cp_height u := Some (cp_hash u)]> (m_changeset st)) (m_prev_orig st) (Some u) (m_agreed st) (m_invalidated st)
    (m_potential st) (m_superset st).
Definition on_original_block (o : CheckPoint) (st : MergeState) : MergeState :=
  mkMerge (m_changeset st) (Some o) (m_prev_update st) (m_agreed st) false (m_potential st ++ [cp_height o]) false.
Definition on_conflict (o u : CheckPoint) (st : MergeState) : MergeState :=
  mkMerge (foldl (λ cs h, <[h := None]> cs) (<[cp_height u := Some (cp_hash u)]> (m_changeset st)) (m_potential st))
    (Some o) (Some u) (m_agreed st) true [] (m_superset st).
Definition on_agreement (o u : CheckPoint) (st : MergeState) : MergeState :=
  mkMerge (m_changeset st) (Some o) (Some u) true false (m_potential st) (m_superset st).

Section Merge.
Context (eq_ptr : CheckPoint → CheckPoint → bool).

(** The [loop]; [orig] and [update] are the checkpoints the iterators are at.
    Every round takes a block of one of the chains. *)
Fixpoint merge_loop (fuel : nat) (orig update : option CheckPoint) (st : MergeState) : res CannotConnectError MergeStop :=
  match fuel with
  | O => Panic
  | S fuel =>
      match orig, update with
      | None, None => Ok (MergeDone st)
      | Some o, None => Ok (MergeDone (on_original_block o st))
      | _, Some u =>
          if opt_gt (Some (cp_height u)) (cp_height <$> orig) then merge_loop fuel orig (cp_prev u) (on_update_block u st)
          else match orig with
          | None => Panic
          | Some o =>
              if opt_gt (Some (cp_height o)) (Some (cp_height u)) then merge_loop fuel (cp_prev o) update (on_original_block o st)
              else if bool_decide (cp_hash o = cp_hash u) then
                match m_prev_orig st, m_prev_update st with
                | Some prev_orig, Some _ =>
                    if negb (m_invalidated st) && negb (m_agreed st) then Ok (MergeRefused (cp_height prev_orig))
                    else if eq_ptr o u then Ok (MergeSamePointer (on_agreement o u st))
                    else merge_loop fuel (cp_prev o) (cp_prev u) (on_agreement o u st)
                | _, _ =>
                    if eq_ptr o u then Ok (MergeSamePointer (on_agreement o u st))
                    else merge_loop fuel (cp_prev o) (cp_prev u) (on_agreement o u st)
                end
              else merge_loop fuel (cp_prev o) (cp_prev u) (on_conflict o u st)
          end
      end
  end.

Definition apply_changes (original_tip : CheckPoint) (changeset : ChangeSet) : res CannotConnectError (CheckPoint * ChangeSet) :=
  new_tip ← map_err (λ _, CannotConnect 0) (apply_changeset_to_checkpoint original_tip changeset);
  Ok (new_tip, changeset).

Definition merge_chains (original_tip update_tip : CheckPoint) : res CannotConnectError (CheckPoint * ChangeSet) :=
  stop ← merge_loop (S (length (cp_iter original_tip) + length (cp_iter update_tip))) (Some original_tip) (Some update_tip) merge_init;
  match stop with
  | MergeRefused h => Err (CannotConnect h)
  | MergeSamePointer st =>
      if m_superset st then Ok (update_tip, m_changeset st) else apply_changes original_tip (m_changeset st)
  | MergeDone st =>
      match m_prev_orig st with
      | Some prev_orig =>
          if negb (m_invalidated st) && negb (m_agreed st) then Err (CannotConnect (cp_height prev_orig))
          else apply_changes original_tip (m_changeset st)
      | None => apply_changes original_tip (m_changeset st)
      end
  end.

(** [LocalChain] is its tip. *)
Definition chain_apply_update (tip update : CheckPoint) : res CannotConnectError (CheckPoint * ChangeSet) :=
  merge_chains tip update.
End Merge.

(** ** The other operations *)

Definition cp_get (cp : CheckPoint) (height : Z) : option BlockId := List.find (λ b, bi_height b =? height) (cp_iter cp).

Definition initial_changeset (tip : CheckPoint) : ChangeSet :=
  list_to_map (map (λ b, (bi_height b, Some (bi_hash b))) (cp_iter tip)).
Definition from_genesis_hash (hash : bytes) : CheckPoint * ChangeSet :=
  let tip := CheckPoint_new (mkBlockId 0 hash) in (tip, initial_changeset tip).
Definition from_changeset (changeset : ChangeSet) : res MissingGenesisError CheckPoint :=
  match changeset !! 0 with
  | Some (Some hash) => apply_changeset_to_checkpoint (from_genesis_hash hash).1 changeset
  | _ => Err tt
  end.
Definition from_tip (tip : CheckPoint) : res MissingGenesisError CheckPoint :=
  genesis ← expect (last (cp_iter tip));
  if negb (bi_height genesis =? 0) then Err tt else Ok tip.

(** [block] against the part of the chain below [chain_tip]. *)
Definition is_block_in_chain (tip : CheckPoint) (block chain_tip : BlockId) : option bool :=
  match cp_get tip (bi_height chain_tip) with
  | Some b =>
      if bool_decide (bi_hash b = bi_hash chain_tip) then
        (λ c, bool_decide (bi_hash c = bi_hash block)) <$>
          List.find (λ c, bi_height c =? bi_height block)
            (List.filter (λ c, bi_height c <=? bi_height chain_tip) (cp_iter tip))
      else None
  | None => None
  end.

Definition insert_block (tip : CheckPoint) (b : BlockId) : res AlterCheckPointError (CheckPoint * ChangeSet) :=
  match cp_get tip (bi_height b) with
  | Some original =>
      if negb (bool_decide (bi_hash original = bi_hash b)) then Err (mkAlter (bi_height b) (bi_hash original) (Some (bi_hash b)))
      else Ok (tip, ∅)
  | None =>
      let changeset := {[ bi_height b := Some (bi_hash b) ]} in
      new_tip ← map_err (λ _, mkAlter 0 (bi_hash (cp_genesis tip)) (changeset !! 0 ≫= id)) (apply_changeset_to_checkpoint tip changeset);
      Ok (new_tip, changeset)
  end.

(** The loop of [disconnect_from] over [cp] and below. *)
Fixpoint disconnect_loop (b : BlockId) (cp : CheckPoint) (remove_from : option CheckPoint) (cs : ChangeSet)
    : option CheckPoint * ChangeSet :=
  if cp_height cp <? bi_height b then (remove_from, cs) else
  let cs := <[cp_height cp := None]> cs in
  let remove_from := if bool_decide (block_id cp = b) then Some cp else remove_from in
  match cp with CPBase _ => (remove_from, cs) | CPLink _ p => disconnect_loop b p remove_from cs end.
Definition disconnect_from (tip : CheckPoint) (b : BlockId) : res MissingGenesisError (CheckPoint * ChangeSet) :=
  let '(remove_from, cs) := disconnect_loop b tip None ∅ in
  match remove_from with
  | Some cp => match cp_prev cp with Some new_tip => Ok (new_tip, cs) | None => Err tt end
  | None => Ok (tip, ∅)
  end.

(** ** Chains as maps *)

Definition cp_map (cp : CheckPoint) : gmap Z bytes := list_to_map (map (λ b, (bi_height b, bi_hash b)) (cp_iter cp)).

(** Falling heights, not necessarily down to the genesis block. *)
Fixpoint cp_desc (cp : CheckPoint) : Prop :=
  match cp with CPBase b => 0 ≤ bi_height b | CPLink b p => cp_height p < bi_height b ∧ cp_desc p end.
Lemma cp_wf_desc cp : cp_wf cp → cp_desc cp.
Proof. induction cp as [b|b p IH]; cbn; [lia|]. intros [? ?]. auto. Qed.

Lemma cp_desc_nonneg cp : cp_desc cp → 0 ≤ cp_height cp.
Proof. induction cp as [b|b p IH]; cbn [cp_desc]; [done|]. intros [Hb Hp%IH]. unfold cp_height. cbn. lia. Qed.

Lemma cp_map_base b : cp_map (CPBase b) = {[ bi_height b := bi_hash b ]}.
Proof. done. Qed.
Lemma cp_map_link b p : cp_map (CPLink b p) = <[bi_height b := bi_hash b]> (cp_map p).
Proof. done. Qed.

Lemma cp_map_above cp h : cp_desc cp → cp_height cp < h → cp_map cp !! h = None.
Proof.
  revert h. induction cp as [b|b p IH]; intros h; cbn [cp_desc]; unfold cp_height; cbn [block_id].
  - rewrite cp_map_base. intros _ Hh. apply lookup_singleton_ne. lia.
  - rewrite cp_map_link. intros [Hb Hp] Hh. rewrite lookup_insert_ne by lia. apply IH; [done|unfold cp_height; lia].
Qed.
Lemma cp_map_neg cp h : cp_desc cp → h < 0 → cp_map cp !! h = None.
Proof.
  induction cp as [b|b p IH]; cbn [cp_desc].
  - rewrite cp_map_base. intros ? ?. apply lookup_singleton_ne. lia.
  - rewrite cp_map_link. intros [Hb Hp] Hh. pose proof (cp_desc_nonneg p Hp).
    rewrite lookup_insert_ne by lia. auto.
Qed.
Lemma cp_map_tip cp : cp_map cp !! cp_height cp = Some (cp_hash cp).
Proof. destruct cp; [rewrite cp_map_base|rewrite cp_map_link]; [apply lookup_singleton_eq|apply lookup_insert_eq]. Qed.
Lemma cp_map_iter cp h x : cp_desc cp → cp_map cp !! h = Some x ↔ mkBlockId h x ∈ cp_iter cp.
Proof.
  induction cp as [[bh bx]|[bh bx] p IH]; cbn [cp_desc cp_iter].
  - intros _. rewrite cp_map_base. cbn [bi_height bi_hash]. rewrite list_elem_of_singleton, lookup_singleton_Some. naive_solver.
  - intros [Hb Hp]. rewrite cp_map_link, elem_of_cons, <-IH by done. cbn in *. split.
    + intros [[-> ->]|[_ ?]]%lookup_insert_Some; auto.
    + intros [[= -> ->]|H]; [apply lookup_insert_eq|]. rewrite lookup_insert_ne; [done|]. intros ->.
      by rewrite cp_map_above in H.
Qed.

(** A chain is determined by its map. *)
Lemma cp_map_inj cp cp' : cp_wf cp → cp_wf cp' → cp_map cp = cp_map cp' → cp = cp'.
Proof.
  revert cp'. induction cp as [[h x]|[h x] p IH]; intros [[h' x']|[h' x'] p'] Hw Hw' He; pose proof (cp_wf_desc _ Hw) as Hd;
    pose proof (cp_wf_desc _ Hw') as Hd'; cbn in Hw, Hw'.
  - rewrite !cp_map_base in He. cbn [bi_height bi_hash] in *. subst. apply (f_equal (.!! 0)) in He.
    rewrite !lookup_singleton_eq in He. by injection He as ->.
  - exfalso. pose proof (cp_map_tip (CPLink (mkBlockId h' x') p')) as Ht. rewrite <-He, cp_map_above in Ht; [done..|].
    destruct Hw' as [Hb' Hp']. apply cp_height_nonneg in Hp'. unfold cp_height at 1 2. cbn. lia.
  - exfalso. pose proof (cp_map_tip (CPLink (mkBlockId h x) p)) as Ht. rewrite He, cp_map_above in Ht; [done..|].
    destruct Hw as [Hb Hp]. apply cp_height_nonneg in Hp. unfold cp_height at 1 2. cbn. lia.
  - assert (h = h') as ->.
    { pose proof (cp_map_tip (CPLink (mkBlockId h x) p)) as Ht. pose proof (cp_map_tip (CPLink (mkBlockId h' x') p')) as Ht'.
      destruct (Z.lt_trichotomy h h') as [Hl|[Hl|Hl]]; [|done|].
      - rewrite <-He, cp_map_above in Ht'; [done..|unfold cp_height; cbn; lia].
      - rewrite He, cp_map_above in Ht; [done..|unfold cp_height; cbn; lia]. }
    destruct Hw as [Hb Hp], Hw' as [Hb' Hp']. rewrite !cp_map_link in He. cbn [bi_height bi_hash] in He, Hb, Hb'.
    assert (x = x') as -> by (apply (f_equal (.!! h')) in He; rewrite !lookup_insert_eq in He; congruence).
    f_equal. apply IH; [done..|]. apply map_eq. intros i. apply (f_equal (.!! i)) in He.
    destruct (decide (i = h')) as [->|Hne]; [rewrite !cp_map_above; [done|by apply cp_wf_desc|done|by apply cp_wf_desc|done]|].
    by rewrite !lookup_insert_ne in He.
Qed.

(** [insert] on the maps: the new block, everything below it, and what is above
    it unless the block replaces another one. *)
Lemma cp_insert_map {E} cp b :
  cp_wf cp → 0 ≤ bi_height b → (bi_height b = 0 → b = cp_genesis cp) →
  ∃ cp', cp_insert (E:=E) cp b = Ok cp' ∧ cp_wf cp' ∧
    ∀ h x, cp_map cp' !! h = Some x ↔
      (h = bi_height b ∧ x = bi_hash b) ∨
      (h ≠ bi_height b ∧ cp_map cp !! h = Some x ∧
        (bi_height b < h → ∀ y, cp_map cp !! bi_height b = Some y → y = bi_hash b)).
Proof.
  intros Hw Hb H0. destruct (cp_insert_spec (E:=E) cp b Hw Hb H0) as (cp' & He & Hw' & _ & Hi). exists cp'. split_and!; [done..|].
  intros h x. rewrite !cp_map_iter, Hi by (by apply cp_wf_desc). unfold insert_spec.
  assert (existsb (λ c, bi_height c =? bi_height b) (cp_iter cp) = true ↔ ∃ y, mkBlockId (bi_height b) y ∈ cp_iter cp) as Hex.
  { rewrite existsb_exists. split.
    - intros (c & Hc%list_elem_of_In & He'%Z.eqb_eq). exists (bi_hash c). rewrite <-He'. by destruct c.
    - intros (y & Hy). exists (mkBlockId (bi_height b) y). split; [by apply list_elem_of_In|apply Z.eqb_refl]. }
  assert (∀ y, cp_map cp !! bi_height b = Some y ↔ mkBlockId (bi_height b) y ∈ cp_iter cp) as Hm
    by (intros; apply cp_map_iter; by apply cp_wf_desc).
  destruct b as [bh bx]; cbn [bi_height bi_hash] in *. case_bool_decide as Hin.
  - assert (∀ y, cp_map cp !! bh = Some y → y = bx) by (apply Hm in Hin; intros; congruence).
    destruct (decide (h = bh)) as [->|Hne]; [|naive_solver]. rewrite <-Hm in Hin |- *. naive_solver.
  - destruct (existsb _ _) eqn:Ex.
    + destruct (proj1 Hex eq_refl) as [y Hy]. rewrite elem_of_cons. unfold below. rewrite list_elem_of_filter. cbn.
      assert (y ≠ bx) by (by intros ->). rewrite <-Hm in Hy. split; [intros [[= -> ->]|[? ?]]; [by left|right; split_and!; [lia|done|lia]]|].
      intros [[-> ->]|(Hne & Hx & Hc)]; [by left|right]. split; [|done]. destruct (Z.lt_trichotomy h bh) as [|[|Hgt]]; [done..|].
      by apply Hc in Hy.
    + assert (∀ y, cp_map cp !! bh ≠ Some y) as Hno by (intros y Hy%Hm; by discriminate (proj2 Hex (ex_intro _ y Hy))).
      rewrite elem_of_app, elem_of_cons. unfold above, below. rewrite !list_elem_of_filter. cbn. split.
      * intros [[? ?]|[[= -> ->]|[? ?]]]; [right|by left|right]; (split_and!; [lia|done|by intros _ y ?%Hno]).
      * intros [[-> ->]|(Hne & Hx & _)]; [by right; left|]. destruct (Z.lt_trichotomy h bh) as [|[|Hgt]]; [by right; right|done|by left].
Qed.

(** The tip is the highest block. *)
Lemma block_id_highest cp b :
  cp_desc cp → cp_map cp !! bi_height b = Some (bi_hash b) → (∀ h, bi_height b < h → cp_map cp !! h = None) → block_id cp = b.
Proof.
  intros Hd Hb Hno. pose proof (cp_map_tip cp) as Ht. assert (cp_height cp = bi_height b) as He.
  { destruct (Z.lt_trichotomy (cp_height cp) (bi_height b)) as [Hlt|[|Hgt]]; [|done|by rewrite Hno in Ht].
    by rewrite cp_map_above in Hb. }
  rewrite He, Hb in Ht. injection Ht as Ht. unfold cp_height, cp_hash in *. destruct (block_id cp), b; cbn in *. congruence.
Qed.

(** ** Ordered entries *)

Lemma elem_of_entries {A} (m : gmap Z A) h x : (h, x) ∈ entries m ↔ m !! h = Some x.
Proof. unfold entries. rewrite merge_sort_Permutation. apply elem_of_map_to_list. Qed.
Lemma entries_sorted {A} (m : gmap Z A) : StronglySorted (λ x y, x.1 < y.1) (entries m).
Proof.
  assert (NoDup (entries m).*1) as Hn.
  { unfold entries. rewrite merge_sort_Permutation. apply NoDup_fst_map_to_list. }
  assert (StronglySorted by_height (entries m)) as Hs.
  { apply Sorted_StronglySorted; [intros x y z; unfold by_height; lia|].
    apply Sorted_merge_sort. intros x y. unfold by_height. lia. }
  induction Hs as [|x l Hs IH Hf]; [constructor|]. cbn in Hn. apply NoDup_cons in Hn as [Hx Hn]. constructor; [by apply IH|].
  rewrite Forall_forall in Hf |- *. intros y Hy. specialize (Hf y Hy). unfold by_height in Hf.
  assert (x.1 ≠ y.1); [|lia]. intros He. apply Hx. rewrite He. by apply list_elem_of_fmap_2.
Qed.
Lemma entries_head {A} (m : gmap Z A) :
  match entries m with [] => m = ∅ | e :: _ => m !! e.1 = Some e.2 ∧ ∀ h, is_Some (m !! h) → e.1 ≤ h end.
Proof.
  pose proof (entries_sorted m) as Hs. destruct (entries m) as [|[h x] l] eqn:E.
  - apply map_empty. intros i. apply eq_None_not_Some. intros [x Hx%elem_of_entries]. rewrite E in Hx. set_solver.
  - split; [apply elem_of_entries; rewrite E; left|]. intros i [y Hy%elem_of_entries]. rewrite E in Hy.
    apply StronglySorted_inv in Hs as [_ Hf]. rewrite Forall_forall in Hf.
    apply elem_of_cons in Hy as [[= -> _]|Hy]; [cbn; lia|]. specialize (Hf _ Hy). cbn in *. lia.
Qed.
Lemma blocks_sorted (m : gmap Z bytes) : StronglySorted (λ x y, bi_height x < bi_height y) (map block_of (entries m)).
Proof. apply StronglySorted_fmap with (R1 := λ x y, x.1 < y.1); [done|apply entries_sorted]. Qed.
Lemma elem_of_blocks (m : gmap Z bytes) b : b ∈ map block_of (entries m) ↔ m !! bi_height b = Some (bi_hash b).
Proof.
  rewrite <-elem_of_entries. split.
  - intros ([h x] & -> & He)%list_elem_of_fmap. done.
  - intros He. apply list_elem_of_fmap. exists (bi_height b, bi_hash b). by destruct b.
Qed.

(** ** Applying a change set *)

(** Two maps side by side, the first on top. *)
Lemma extend_map base (m : gmap Z bytes) :
  cp_wf base → (∀ h, is_Some (m !! h) → cp_height base < h) →
  ∃ cp, cp_extend base (map block_of (entries m)) = Some cp ∧ cp_wf cp ∧
    ∀ h, cp_map cp !! h = match m !! h with Some x => Some x | None => cp_map base !! h end.
Proof.
  intros Hw Hm. destruct (cp_extend_spec base (map block_of (entries m)) Hw) as (cp & He & Hc & Hi);
    [apply blocks_sorted|intros b Hb%elem_of_blocks; apply Hm; by eexists|].
  exists cp. split_and!; [done..|]. intros h. apply option_eq. intros x.
  rewrite cp_map_iter, Hi, elem_of_app, elem_of_reverse, elem_of_blocks, <-cp_map_iter by (by apply cp_wf_desc). cbn.
  destruct (m !! h) as [y|] eqn:E; [|naive_solver]. split; [|by left]. intros [?|Hx]; [done|].
  rewrite cp_map_above in Hx; [done|by apply cp_wf_desc|]. apply Hm. by eexists.
Qed.

Lemma push_all_extend {E} cp bs cp' : cp_extend cp bs = Some cp' → push_all (E:=E) cp bs = Ok cp'.
Proof.
  revert cp. induction bs as [|b bs IH]; intros cp; cbn [cp_extend push_all]; [by intros [= ->]|].
  destruct (cp_push cp b) as [c|]; [|done]. apply IH.
Qed.
Lemma from_blocks_map (m : gmap Z bytes) :
  is_Some (m !! 0) → (∀ h, is_Some (m !! h) → 0 ≤ h) →
  ∃ cp, from_blocks m = Ok cp ∧ cp_wf cp ∧ cp_map cp = m.
Proof.
  intros [x0 H0] Hm. unfold from_blocks. rewrite bool_decide_false by congruence.
  pose proof (entries_head m) as Hh. pose proof (blocks_sorted m) as Hs. pose proof (elem_of_blocks m) as Hb.
  destruct (entries m) as [|[h x] l]; [by subst; rewrite lookup_empty in H0|]. destruct Hh as [Hx Hmin]. cbn [fst snd] in *.
  assert (h = 0) as -> by (specialize (Hmin 0 ltac:(eauto)); specialize (Hm h ltac:(eauto)); lia).
  cbn [map] in *. apply StronglySorted_inv in Hs as [Hs Hf]. rewrite Forall_forall in Hf.
  destruct (cp_extend_spec (CPBase (block_of (0, x))) (map block_of l)) as (cp & He & Hw & Hi); [done|done|done|].
  exists cp. split_and!; [by apply push_all_extend|done|]. apply map_eq. intros h. apply option_eq. intros y.
  rewrite cp_map_iter, Hi, elem_of_app, elem_of_reverse by (by apply cp_wf_desc). cbn [cp_iter].
  rewrite list_elem_of_singleton, <-(Hb (mkBlockId h y)), elem_of_cons. tauto.
Qed.

Lemma split_extension_spec s cp ext ext' base :
  cp_wf cp → split_extension s cp ext = (ext', base) →
  (∀ h, ext' !! h = match (if s <=? h then cp_map cp !! h else None) with Some x => Some x | None => ext !! h end) ∧
  match base with
  | None => s ≤ 0
  | Some b => cp_wf b ∧ cp_height b < s ∧ ∀ h, h < s → cp_map b !! h = cp_map cp !! h
  end.
Proof.
  revert ext. induction cp as [c|c p IH]; intros ext Hw; cbn [split_extension]; unfold cp_height, cp_hash; cbn [block_id];
    destruct (Z.leb_spec s (bi_height c)) as [Hs|Hs]; pose proof (cp_wf_desc _ Hw) as Hd.
  - intros [= <- <-]. cbn in Hw. rewrite cp_map_base. split; [|lia]. intros h. destruct (decide (h = bi_height c)) as [->|Hne].
    + rewrite (proj2 (Z.leb_le _ _)), lookup_singleton_eq, lookup_insert_eq by done. done.
    + rewrite lookup_singleton_ne, lookup_insert_ne by done. by destruct (s <=? h).
  - intros [= <- <-]. split; [|by split_and!]. intros h. destruct (Z.leb_spec s h); [|done].
    by rewrite cp_map_above by (done || (unfold cp_height; cbn; lia)).
  - destruct Hw as [Hc Hp]. intros [He Hb]%IH; [|done]. split.
    + intros h. rewrite He, cp_map_link. destruct (decide (h = bi_height c)) as [->|Hne].
      * rewrite (proj2 (Z.leb_le _ _)), !lookup_insert_eq, cp_map_above by (done || by apply cp_wf_desc). done.
      * by rewrite !lookup_insert_ne by done.
    + destruct base as [b|]; [|done]. destruct Hb as (? & ? & Hb). split_and!; [done..|]. intros h Hh.
      rewrite Hb, cp_map_link, lookup_insert_ne by lia. done.
  - intros [= <- <-]. split; [|by split_and!]. intros h. destruct (Z.leb_spec s h); [|done].
    by rewrite cp_map_above by (done || (unfold cp_height; cbn; lia)).
Qed.

Lemma change_steps_lookup l ext h :
  NoDup l.*1 → foldl change_step ext l !! h = match list_to_map (M:=ChangeSet) l !! h with Some o => o | None => ext !! h end.
Proof.
  revert ext. induction l as [|[k o] l IH]; intros ext Hn; cbn [foldl]; [by rewrite list_to_map_nil, lookup_empty|].
  apply NoDup_cons in Hn as [Hk Hn]. rewrite IH, list_to_map_cons by done. destruct (decide (k = h)) as [->|Hne].
  - rewrite not_elem_of_list_to_map_1, lookup_insert_eq by done. unfold change_step. cbn.
    destruct o; [apply lookup_insert_eq|apply lookup_delete_eq].
  - rewrite lookup_insert_ne by done. case_match; [done|]. unfold change_step. cbn.
    destruct o; [by apply lookup_insert_ne|by apply lookup_delete_ne].
Qed.
Lemma changes_lookup (cs : ChangeSet) ext h :
  foldl change_step ext (entries cs) !! h = match cs !! h with Some o => o | None => ext !! h end.
Proof.
  assert (NoDup (entries cs).*1) as Hn.
  { unfold entries. rewrite merge_sort_Permutation. apply NoDup_fst_map_to_list. }
  rewrite change_steps_lookup by done. assert (list_to_map (M:=ChangeSet) (entries cs) = cs) as ->; [|done].
  rewrite <-(list_to_map_to_list cs) at 2. apply list_to_map_proper; [done|]. unfold entries. apply merge_sort_Permutation.
Qed.

(** The result is the chain overridden by the change set. *)
Lemma apply_changeset_map cp (cs : ChangeSet) :
  cp_wf cp → (∀ h, is_Some (cs !! h) → 0 ≤ h) → cs !! 0 ≠ Some None →
  ∃ cp', apply_changeset_to_checkpoint cp cs = Ok cp' ∧ cp_wf cp' ∧
    ∀ h, cp_map cp' !! h = match cs !! h with Some o => o | None => cp_map cp !! h end.
Proof.
  intros Hw Hpos H0. unfold apply_changeset_to_checkpoint. pose proof (entries_head cs) as Hh.
  pose proof (changes_lookup cs) as Hl. destruct (entries cs) as [|[s o] l] eqn:El.
  { exists cp. subst cs. split_and!; [done..|]. intros h. by rewrite lookup_empty. }
  destruct Hh as [Hs Hmin]. cbn [fst snd] in Hs, Hmin. destruct (split_extension s cp ∅) as [ext base] eqn:Es.
  apply split_extension_spec in Es as [He Hb]; [|done].
  assert (∀ h, h < s → cs !! h = None) as Hlow by (intros h Hh; apply eq_None_not_Some; intros Hx%Hmin; lia).
  assert (∀ h, foldl change_step ext ((s, o) :: l) !! h =
    match cs !! h with Some o => o | None => if s <=? h then cp_map cp !! h else None end) as Hx.
  { intros h. rewrite Hl, He, lookup_empty. destruct (cs !! h); [done|]. by destruct (s <=? h), (cp_map cp !! h). }
  destruct base as [b|].
  - destruct Hb as (Hwb & Hbs & Hbm). destruct (extend_map b (foldl change_step ext ((s, o) :: l)) Hwb) as (cp' & -> & Hw' & Hm').
    { intros h [x Hxx]. rewrite Hx in Hxx. destruct (Z.leb_spec s h); [lia|]. rewrite Hlow in Hxx by done. done. }
    exists cp'. split_and!; [done..|]. intros h. rewrite Hm', Hx. destruct (Z.leb_spec s h).
    + destruct (cs !! h) as [[x|]|]; try done; [apply cp_map_above; [by apply cp_wf_desc|lia]|].
      destruct (cp_map cp !! h) eqn:E; [done|]. apply cp_map_above; [by apply cp_wf_desc|lia].
    + rewrite Hlow by done. by apply Hbm.
  - assert (s = 0) as -> by (specialize (Hpos s ltac:(eauto)); lia).
    destruct (from_blocks_map (foldl change_step ext ((0, o) :: l))) as (cp' & -> & Hw' & Hm').
    + rewrite Hx, Hs. destruct o; [by eexists|done].
    + intros h [x Hxx]. rewrite Hx in Hxx. destruct (cs !! h) eqn:E; [apply Hpos; eauto|]. destruct (Z.leb_spec 0 h); done.
    + exists cp'. split_and!; [done..|]. intros h. rewrite Hm', Hx. destruct (cs !! h) eqn:E; [done|].
      destruct (Z.leb_spec 0 h); [done|]. symmetry. apply cp_map_neg; [by apply cp_wf_desc|done].
Qed.
