(* ===== verification/MergeChains.v ===== *)
(** Merging an update into the wallet's chain, [merge_chains] of the vendored
    [bdk_chain/src/local_chain.rs].

    [connects] says which updates the code accepts and [merged] what the new
    chain is; both speak of maps only. [merge_inv] is the invariant of the loop,
    which walks both chains down from their tips, and [merges] the result: the
    loop ends within its fuel, accepts exactly the updates that connect, and
    makes the merged chain. Of pointer equality only soundness is used. *)
From S2P Require Import Prelude Ordered Checkpoint LocalChain.

(** ** What a merge should do *)

Section Specification.
Implicit Types O U R : gmap Z bytes.

(** Both chains have a block at [h]: different ones, or the same. *)
Definition conflict O U h : Prop := ∃ x y, O !! h = Some x ∧ U !! h = Some y ∧ x ≠ y.
Definition agree O U h : Prop := ∃ x, O !! h = Some x ∧ U !! h = Some x.
Definition conflict_below O U h : Prop := ∃ c, c < h ∧ conflict O U c.

#[global] Instance conflict_dec O U h : Decision (conflict O U h).
Proof.
  refine (match O !! h as o, U !! h as u return O !! h = o → U !! h = u → _ with
          | Some x, Some y => λ Ho Hu, cast_if (decide (x ≠ y))
          | _, _ => λ _ _, right _
          end eq_refl eq_refl); unfold conflict; naive_solver.
Defined.
#[global] Instance conflict_below_dec O U h : Decision (conflict_below O U h).
Proof.
  refine (cast_if (decide (set_Exists (λ c, c < h ∧ conflict O U c) (dom O)))).
  - abstract (destruct s as (c & _ & Hc); by exists c).
  - abstract (intros (c & Hlt & x & y & Hx & Hy); apply n; exists c; rewrite elem_of_dom; unfold conflict; eauto 7).
Defined.

(** The update says which blocks of the original it keeps: above the highest
    common block, one of the chains has nothing or the lowest original block is
    replaced. *)
Definition connected O U : Prop :=
  ∃ a, agree O U a ∧ (∀ h, agree O U h → h ≤ a) ∧
    ((∀ h, a < h → U !! h = None) ∨ (∀ h, a < h → O !! h = None) ∨
     ∃ c, a < c ∧ conflict O U c ∧ ∀ h, a < h → is_Some (O !! h) → c ≤ h).
(** The chains have no common block and different genesis blocks. The doc
    comment of [merge_chains] lists both as errors; the code accepts the two
    together, and the update then replaces the whole chain. *)
Definition replaces_all O U : Prop := (∀ h, ¬ agree O U h) ∧ conflict O U 0.
(** The updates that the code accepts. *)
Definition connects O U : Prop := connected O U ∨ replaces_all O U.

(** The merged chain: the update, and under it every original block that is not
    above a replaced one. *)
Definition merged O U (m : gmap Z bytes) : Prop :=
  ∀ h x, m !! h = Some x ↔ U !! h = Some x ∨ (U !! h = None ∧ O !! h = Some x ∧ ¬ conflict_below O U h).

(** The change set between the two. *)
Record changes_ok O U (cs : ChangeSet) : Prop := {
  ch_add h y : cs !! h = Some (Some y) ↔ U !! h = Some y ∧ O !! h ≠ Some y;
  ch_remove h : cs !! h = Some None ↔ is_Some (O !! h) ∧ U !! h = None ∧ conflict_below O U h
}.

Lemma changes_merged O U cs m :
  changes_ok O U cs → (∀ h, m !! h = match cs !! h with Some o => o | None => O !! h end) → merged O U m.
Proof.
  intros [Ha Hr] Hm h x. rewrite Hm. destruct (cs !! h) as [[y|]|] eqn:E.
  - apply Ha in E as [Hu Ho]. rewrite Hu. naive_solver.
  - apply Hr in E as (Ho & Hu & Hc). rewrite Hu. naive_solver.
  - split.
    + intros Ho. destruct (U !! h) as [y|] eqn:Eu.
      * left. destruct (decide (x = y)) as [->|Hne]; [done|]. exfalso.
        assert (cs !! h = Some (Some y)) by (apply Ha; split; congruence). congruence.
      * right. split_and!; [done..|]. intros Hc. assert (cs !! h = Some None) by (apply Hr; eauto). congruence.
    + intros [Hu|(_ & ? & _)]; [|done]. destruct (decide (O !! h = Some x)); [done|].
      assert (cs !! h = Some (Some x)) by (by apply Ha). congruence.
Qed.

(** Only the blocks from an agreement up matter. *)
Lemma connected_ext O U O' U' a :
  (∀ k, a ≤ k → O' !! k = O !! k ∧ U' !! k = U !! k) → agree O U a → connected O U → connected O' U'.
Proof.
  intros Heq Ha (m & Hm & Hmax & Hcase). specialize (Hmax a Ha) as Ham.
  assert (∀ k, a ≤ k → (agree O' U' k ↔ agree O U k) ∧ (conflict O' U' k ↔ conflict O U k)) as Hac.
  { intros k Hk. unfold agree, conflict. by destruct (Heq k Hk) as [-> ->]. }
  exists m. split_and!; [by apply Hac| |].
  - intros k Hk. destruct (Z.le_gt_cases k m) as [|Hgt]; [done|]. apply Hmax. apply Hac; [lia|done].
  - destruct Hcase as [Hc|[Hc|(c & Hc & Hcc & Hl)]].
    + left. intros k Hk. destruct (Heq k ltac:(lia)) as [_ ->]. auto.
    + right; left. intros k Hk. destruct (Heq k ltac:(lia)) as [-> _]. auto.
    + right; right. exists c. split_and!; [done|apply Hac; [lia|done]|]. intros k Hk. destruct (Heq k ltac:(lia)) as [-> _]. auto.
Qed.

Lemma union_match O R h : (O ∪ R) !! h = match O !! h with Some x => Some x | None => R !! h end.
Proof. rewrite lookup_union. by destruct (O !! h), (R !! h). Qed.

(** Everything in [R] lies below everything in [O] and [U]. *)
Definition lies_below R O U : Prop := ∀ h k, is_Some (R !! h) → is_Some (O !! k) ∨ is_Some (U !! k) → h < k.

(** *** Unread blocks at the bottom change nothing *)

Section Bottom.
Context O U R S (HO : lies_below R O U) (HU : lies_below S O U) (HS : ∀ h y, S !! h = Some y → R !! h = Some y).

Lemma bottom_lookup h : is_Some (O !! h) ∨ is_Some (U !! h) → (O ∪ R) !! h = O !! h ∧ (U ∪ S) !! h = U !! h.
Proof.
  intros Hh. rewrite !union_match.
  assert (R !! h = None) as -> by (apply eq_None_not_Some; intros Hr; specialize (HO h h Hr Hh); lia).
  assert (S !! h = None) as -> by (apply eq_None_not_Some; intros Hr; specialize (HU h h Hr Hh); lia).
  by destruct (O !! h), (U !! h).
Qed.
Lemma bottom_conflict h : conflict (O ∪ R) (U ∪ S) h ↔ conflict O U h.
Proof.
  split.
  - intros (x & y & Ho & Hu & Hne). rewrite !union_match in *. exists x, y.
    destruct (O !! h) as [x'|] eqn:Eo, (U !! h) as [y'|] eqn:Eu; try done.
    + specialize (HU h h ltac:(eauto) ltac:(left; by rewrite Eo)). lia.
    + specialize (HO h h ltac:(eauto) ltac:(right; by rewrite Eu)). lia.
    + apply HS in Hu. congruence.
  - intros (x & y & Ho & Hu & Hne). exists x, y. by rewrite !union_match, Ho, Hu.
Qed.
Lemma bottom_agree h : is_Some (O !! h) ∨ is_Some (U !! h) → agree (O ∪ R) (U ∪ S) h ↔ agree O U h.
Proof. intros [Ho Hu]%bottom_lookup. unfold agree. by rewrite Ho, Hu. Qed.

Lemma bottom_changes cs : changes_ok O U cs → changes_ok (O ∪ R) (U ∪ S) cs.
Proof.
  intros [Ha Hr]. assert (∀ h, conflict_below (O ∪ R) (U ∪ S) h ↔ conflict_below O U h) as Hc
    by (intros h; unfold conflict_below; by setoid_rewrite bottom_conflict).
  split.
  - intros h y. rewrite Ha. destruct (decide (is_Some (O !! h) ∨ is_Some (U !! h))) as [Hh|Hh].
    + destruct (bottom_lookup h Hh) as [-> ->]. done.
    + assert (O !! h = None ∧ U !! h = None) as [Eo Eu] by (split; apply eq_None_not_Some; tauto).
      rewrite !union_match, Eo, Eu. split; [by intros [? _]|]. intros [Hs%HS Hn]. done.
  - intros h. rewrite Hr, Hc. destruct (decide (is_Some (O !! h) ∨ is_Some (U !! h))) as [Hh|Hh].
    + destruct (bottom_lookup h Hh) as [-> ->]. done.
    + split; [tauto|]. intros (Hx & Hu & c & Hlt & x & y & Ho & Hy & Hne). rewrite union_match in Hx. destruct (O !! h) eqn:Eo; [tauto|].
      specialize (HO h c Hx ltac:(left; eauto)). lia.
Qed.
Lemma bottom_connected : connected O U → connected (O ∪ R) (U ∪ S).
Proof.
  intros Hc. pose proof Hc as (a & Ha & _). eapply (connected_ext O U); [|exact Ha|done].
  destruct Ha as (x & Ho & Hu). intros k Hk. rewrite !union_match. split.
  - destruct (O !! k); [done|]. apply eq_None_not_Some. intros Hr. specialize (HO k a Hr ltac:(eauto)). lia.
  - destruct (U !! k); [done|]. apply eq_None_not_Some. intros Hr. specialize (HU k a Hr ltac:(eauto)). lia.
Qed.
End Bottom.
End Specification.

(** ** The loop *)

(** What the state says of the blocks [O] and [U] that were read. *)
Record merge_inv (O U : gmap Z bytes) (st : MergeState) : Prop := {
  mi_changes : changes_ok O U (m_changeset st);
  mi_potential h : h ∈ m_potential st ↔ is_Some (O !! h) ∧ U !! h = None ∧ ¬ conflict_below O U h;
  mi_prev_orig : match m_prev_orig st with
    | None => O = ∅
    | Some c => is_Some (O !! cp_height c) ∧ ∀ h, is_Some (O !! h) → cp_height c ≤ h
    end;
  mi_prev_update : m_prev_update st = None ↔ U = ∅;
  mi_invalidated : m_invalidated st = true ↔ ∃ c, m_prev_orig st = Some c ∧ conflict O U (cp_height c);
  mi_agreed : if m_agreed st then connected O U else ∀ h, ¬ agree O U h;
  mi_superset : m_superset st = true → ∀ h, is_Some (O !! h) → is_Some (U !! h)
}.

Definition new_low (h : Z) (O U : gmap Z bytes) : Prop := ∀ k, is_Some (O !! k) ∨ is_Some (U !! k) → h < k.
Lemma new_low_None h O U : new_low h O U → O !! h = None ∧ U !! h = None.
Proof. intros Hl. split; apply eq_None_not_Some; intros Hs; [specialize (Hl h (or_introl Hs))|specialize (Hl h (or_intror Hs))]; lia. Qed.

Lemma merge_init_inv : merge_inv ∅ ∅ merge_init.
Proof.
  split; cbn; try done.
  - split; intros; rewrite !lookup_empty; [naive_solver|]. split; [done|]. by intros [[? ?] _].
  - intros h. rewrite lookup_empty. split; [set_solver|]. by intros [[? ?] _].
  - split; [done|]. naive_solver.
  - by intros h (x & Hx & _).
Qed.

Section Steps.
Context (O U : gmap Z bytes) (st : MergeState) (Hi : merge_inv O U st).
Context (h : Z) (Hlow : new_low h O U).

(** A block in one chain only changes no conflict and no agreement. *)
Lemma only_update_conflict y k : conflict O (<[h := y]> U) k ↔ conflict O U k.
Proof.
  destruct (new_low_None _ _ _ Hlow) as [Ho Hu]. unfold conflict. destruct (decide (k = h)) as [->|Hne].
  - rewrite Ho. naive_solver.
  - by rewrite lookup_insert_ne.
Qed.
Lemma only_update_agree y k : agree O (<[h := y]> U) k ↔ agree O U k.
Proof.
  destruct (new_low_None _ _ _ Hlow) as [Ho Hu]. unfold agree. destruct (decide (k = h)) as [->|Hne].
  - rewrite Ho. naive_solver.
  - by rewrite lookup_insert_ne.
Qed.
Lemma only_original_conflict x k : conflict (<[h := x]> O) U k ↔ conflict O U k.
Proof.
  destruct (new_low_None _ _ _ Hlow) as [Ho Hu]. unfold conflict. destruct (decide (k = h)) as [->|Hne].
  - rewrite Hu. naive_solver.
  - by rewrite lookup_insert_ne.
Qed.
Lemma only_original_agree x k : agree (<[h := x]> O) U k ↔ agree O U k.
Proof.
  destruct (new_low_None _ _ _ Hlow) as [Ho Hu]. unfold agree. destruct (decide (k = h)) as [->|Hne].
  - rewrite Hu. naive_solver.
  - by rewrite lookup_insert_ne.
Qed.

(** A new lowest block leaves a found connection as it is. *)
Lemma connected_low O' U' :
  (∀ k, h < k → O' !! k = O !! k) → (∀ k, h < k → U' !! k = U !! k) → connected O U → connected O' U'.
Proof.
  intros HO HU Hc. pose proof Hc as (a & Ha & _). eapply (connected_ext O U); [|exact Ha|done].
  destruct Ha as (x & Ha & _). assert (h < a) by (apply Hlow; eauto). intros k Hk. split; [apply HO|apply HU]; lia.
Qed.

Lemma step_update u :
  cp_height u = h → merge_inv O (<[h := cp_hash u]> U) (on_update_block u st).
Proof.
  intros Hu. pose proof (new_low_None _ _ _ Hlow) as [Eo Eu]. destruct Hi as [[Ha Hr] Hp Hpo Hpu Hin Hag Hsup].
  assert (∀ k, conflict_below O (<[h := cp_hash u]> U) k ↔ conflict_below O U k) as Hcb
    by (intros k; unfold conflict_below; by setoid_rewrite only_update_conflict).
  split; cbn.
  - rewrite Hu. split.
    + intros k y. destruct (decide (k = h)) as [->|Hne]; [rewrite !lookup_insert_eq, Eo; naive_solver|].
      by rewrite !lookup_insert_ne, Ha by done.
    + intros k. rewrite Hcb. destruct (decide (k = h)) as [->|Hne]; [rewrite !lookup_insert_eq; naive_solver|].
      by rewrite !lookup_insert_ne, Hr by done.
  - intros k. rewrite Hp, Hcb. destruct (decide (k = h)) as [->|Hne]; [rewrite Eo, lookup_insert_eq|by rewrite lookup_insert_ne].
    split; [by intros [[? ?] _]|by intros [[? ?] _]].
  - done.
  - split; [done|]. intros H. apply (f_equal (.!! h)) in H. by rewrite lookup_insert_eq, lookup_empty in H.
  - rewrite Hin. by setoid_rewrite only_update_conflict.
  - destruct (m_agreed st); [|by setoid_rewrite only_update_agree].
    eapply connected_low; [done| |done]. intros k Hk. rewrite lookup_insert_ne by lia. done.
  - intros Hs k Hk. destruct (decide (k = h)) as [->|Hne]; [rewrite lookup_insert_eq; by eexists|]. rewrite lookup_insert_ne by done. auto.
Qed.

Lemma step_original o :
  cp_height o = h → merge_inv (<[h := cp_hash o]> O) U (on_original_block o st).
Proof.
  intros Hu. pose proof (new_low_None _ _ _ Hlow) as [Eo Eu]. destruct Hi as [[Ha Hr] Hp Hpo Hpu Hin Hag Hsup].
  assert (∀ k, conflict_below (<[h := cp_hash o]> O) U k ↔ conflict_below O U k) as Hcb
    by (intros k; unfold conflict_below; by setoid_rewrite only_original_conflict).
  assert (¬ conflict_below O U h) as Hnc.
  { intros (c & Hc & x & y & Hx & _). assert (h < c) by (apply Hlow; eauto). lia. }
  split; cbn.
  - split.
    + intros k y. rewrite Ha. destruct (decide (k = h)) as [->|Hne]; [rewrite Eu; naive_solver|]. by rewrite lookup_insert_ne.
    + intros k. rewrite Hr, Hcb. destruct (decide (k = h)) as [->|Hne]; [tauto|]. by rewrite lookup_insert_ne.
  - intros k. rewrite elem_of_app, list_elem_of_singleton, Hp, Hcb, Hu. destruct (decide (k = h)) as [->|Hne].
    + rewrite lookup_insert_eq. split; [|by right]. intros _. split_and!; [by eexists|done..].
    + rewrite lookup_insert_ne by done. naive_solver.
  - rewrite Hu, lookup_insert_eq. split; [by eexists|]. intros k Hk. destruct (decide (k = h)) as [->|Hne]; [lia|].
    rewrite lookup_insert_ne in Hk by done. assert (h < k); [|lia]. apply Hlow. by left.
  - done.
  - split; [done|]. intros (c & [= <-] & Hc). rewrite Hu, only_original_conflict in Hc. destruct Hc as (? & ? & Hc & _). congruence.
  - destruct (m_agreed st); [|by setoid_rewrite only_original_agree].
    eapply connected_low; [|done|done]. intros k Hk. rewrite lookup_insert_ne by lia. done.
  - done.
Qed.
(** A block in both chains. *)
Lemma both_lookup x y k :
  k ≠ h → (<[h := x]> O !! k = O !! k) ∧ (<[h := y]> U !! k = U !! k).
Proof. intros Hne. by rewrite !lookup_insert_ne. Qed.
Lemma both_conflict x y k :
  conflict (<[h := x]> O) (<[h := y]> U) k ↔ (k = h ∧ x ≠ y) ∨ conflict O U k.
Proof.
  pose proof (new_low_None _ _ _ Hlow) as [Eo Eu]. unfold conflict. destruct (decide (k = h)) as [->|Hne].
  - rewrite !lookup_insert_eq, Eo. naive_solver.
  - destruct (both_lookup x y k Hne) as [-> ->]. naive_solver.
Qed.
Lemma both_agree x y k : agree (<[h := x]> O) (<[h := y]> U) k ↔ (k = h ∧ x = y) ∨ agree O U k.
Proof.
  pose proof (new_low_None _ _ _ Hlow) as [Eo Eu]. unfold agree. destruct (decide (k = h)) as [->|Hne].
  - rewrite !lookup_insert_eq, Eo. naive_solver.
  - destruct (both_lookup x y k Hne) as [-> ->]. naive_solver.
Qed.
(** The new block is the lowest of the original. *)
Lemma both_lowest x k : is_Some (<[h := x]> O !! k) → h ≤ k.
Proof.
  destruct (decide (k = h)) as [->|Hne]; [lia|]. rewrite lookup_insert_ne by done. intros Hk.
  assert (h < k); [|lia]. apply Hlow. by left.
Qed.

Lemma mark_removed (l : list Z) (cs : ChangeSet) k :
  foldl (λ cs h, <[h := None]> cs) cs l !! k = if decide (k ∈ l) then Some None else cs !! k.
Proof.
  revert cs. induction l as [|i l IH]; intros cs; cbn; [by rewrite decide_False by set_solver|]. rewrite IH.
  destruct (decide (k ∈ l)) as [Hk|Hk]; [by rewrite decide_True by set_solver|].
  destruct (decide (k = i)) as [->|Hne]; [rewrite lookup_insert_eq, decide_True by set_solver; done|].
  by rewrite lookup_insert_ne, decide_False by set_solver.
Qed.

Lemma step_conflict o u :
  cp_height o = h → cp_height u = h → cp_hash o ≠ cp_hash u →
  merge_inv (<[h := cp_hash o]> O) (<[h := cp_hash u]> U) (on_conflict o u st).
Proof.
  intros Ho Hu Hne. pose proof (new_low_None _ _ _ Hlow) as [Eo Eu]. destruct Hi as [[Ha Hr] Hp Hpo Hpu Hin Hag Hsup].
  assert (∀ k, h < k → conflict_below (<[h := cp_hash o]> O) (<[h := cp_hash u]> U) k) as Hcb.
  { intros k Hk. exists h. split; [done|]. apply both_conflict. by left. }
  assert (∀ k, is_Some (O !! k) → h < k) as Hk by (intros k ?; apply Hlow; by left).
  split; cbn.
  - rewrite Hu. split.
    + intros k y. rewrite mark_removed. destruct (decide (k = h)) as [->|Hkh].
      * rewrite decide_False by (rewrite Hp, Eo; by intros [[? ?] _]). rewrite !lookup_insert_eq. naive_solver.
      * destruct (both_lookup (cp_hash o) (cp_hash u) k Hkh) as [-> ->]. rewrite lookup_insert_ne by done.
        destruct (decide (k ∈ m_potential st)) as [(_ & Hn & _)%Hp|_]; [rewrite Hn; naive_solver|apply Ha].
    + intros k. rewrite mark_removed. destruct (decide (k = h)) as [->|Hkh].
      * rewrite decide_False by (rewrite Hp, Eo; by intros [[? ?] _]). rewrite !lookup_insert_eq. naive_solver.
      * destruct (both_lookup (cp_hash o) (cp_hash u) k Hkh) as [-> ->]. rewrite lookup_insert_ne by done.
        destruct (decide (k ∈ m_potential st)) as [(Hs & Hn & _)%Hp|Hnp]; [split; [auto|done]|]. rewrite Hr. split.
        -- intros (Hs & Hn & _). auto.
        -- intros (Hs & Hn & _). split_and!; [done..|]. rewrite Hp in Hnp. destruct (decide (conflict_below O U k)) as [?|Hc]; [done|].
           exfalso. by apply Hnp.
  - intros k. split; [set_solver|]. intros (Hs & Hn & Hc). exfalso. apply Hc. destruct (decide (k = h)) as [->|Hkh].
    + by rewrite lookup_insert_eq in Hn.
    + apply Hcb, Hk. by destruct (both_lookup (cp_hash o) (cp_hash u) k Hkh) as [<- _].
  - rewrite Ho, lookup_insert_eq. split; [by eexists|apply both_lowest].
  - split; [done|]. intros H. apply (f_equal (.!! h)) in H. by rewrite lookup_insert_eq, lookup_empty in H.
  - split; [|done]. intros _. exists o. split; [done|]. rewrite Ho. apply both_conflict. by left.
  - destruct (m_agreed st).
    + eapply connected_low; [..|done]; intros k Hkk; rewrite lookup_insert_ne by lia; done.
    + intros k [[_ ?]|Hk']%both_agree; [done|]. by apply (Hag k).
  - intros Hs k Hk'. destruct (decide (k = h)) as [->|Hkh]; [rewrite lookup_insert_eq; by eexists|].
    destruct (both_lookup (cp_hash o) (cp_hash u) k Hkh) as [E1 E2]. rewrite E2. apply Hsup; [done|]. by rewrite E1 in Hk'.
Qed.

(** The check at the highest agreement is that of the specification. *)
Definition refuses : bool :=
  negb (m_invalidated st) && negb (m_agreed st) && bool_decide (is_Some (m_prev_orig st)) && bool_decide (is_Some (m_prev_update st)).

Lemma agreement_connects x : connected (<[h := x]> O) (<[h := x]> U) ↔ refuses = false.
Proof.
  pose proof (new_low_None _ _ _ Hlow) as [Eo Eu]. destruct Hi as [_ _ Hpo Hpu Hin Hag _]. unfold refuses.
  assert (∀ k, h < k → <[h := x]> O !! k = O !! k ∧ <[h := x]> U !! k = U !! k) as Hab
    by (intros k Hk; apply both_lookup; lia).
  destruct (m_agreed st).
  { rewrite andb_false_r. cbn. split; [done|]. intros _. eapply connected_low; [..|done]; intros k Hk; by apply Hab. }
  assert (∀ a, agree (<[h := x]> O) (<[h := x]> U) a ↔ a = h) as Hah.
  { intros a. rewrite both_agree. split; [intros [[? _]|Ha]; [done|by destruct (Hag a)]|]. auto. }
  rewrite andb_true_r. split.
  - intros (a & ->%Hah & _ & Hc). destruct (m_prev_orig st) as [c|] eqn:Ec; [|by rewrite andb_false_r].
    destruct (m_prev_update st) as [v|] eqn:Ev; [|by rewrite andb_false_r].
    destruct Hpo as [Hco Hcl]. assert (h < cp_height c) as Hhc by (apply Hlow; by left).
    destruct (m_invalidated st) eqn:Einv; [done|]. exfalso. destruct Hc as [Hc|[Hc|(d & Hd & Hdc & Hdl)]].
    + assert (U = ∅) as Hue; [|by apply Hpu in Hue]. apply map_empty. intros k. destruct (U !! k) eqn:E; [|done].
      assert (h < k) as Hk by (apply Hlow; right; by eexists). specialize (Hc k Hk). destruct (Hab k Hk) as [_ E']. congruence.
    + specialize (Hc _ Hhc). destruct (Hab _ Hhc) as [E' _]. rewrite E' in Hc. rewrite Hc in Hco. by destruct Hco.
    + assert (cp_height c = d) as <-.
      { apply Z.le_antisymm; [|apply Hdl; [done|by rewrite (proj1 (Hab _ Hhc))]]. apply Hcl.
        destruct Hdc as (z & _ & Hz & _). rewrite (proj1 (Hab d Hd)) in Hz. by eexists. }
      rewrite both_conflict in Hdc. destruct Hdc as [[? _]|Hdc]; [lia|].
      assert (false = true) as Hf by (apply Hin; by exists c). done.
  - intros Hr. exists h. split_and!; [by apply Hah|intros k ->%Hah; lia|].
    destruct (m_invalidated st) eqn:Einv.
    + destruct (proj1 Hin eq_refl) as (c & Hc & Hcc). rewrite Hc in Hpo. destruct Hpo as [Hco Hcl]. right; right. exists (cp_height c).
      assert (h < cp_height c) as Hhc by (apply Hlow; by left). split_and!; [done|apply both_conflict; by right|].
      intros k Hk. rewrite (proj1 (Hab k Hk)). apply Hcl.
    + destruct (m_prev_orig st) as [c|]; [|right; left; intros k Hk; by rewrite (proj1 (Hab k Hk)), Hpo].
      destruct (m_prev_update st) as [v|]; [done|]. left. intros k Hk. rewrite (proj2 (Hab k Hk)), (proj1 Hpu eq_refl). done.
Qed.

Lemma step_agree o u :
  cp_height o = h → cp_height u = h → cp_hash o = cp_hash u → refuses = false →
  merge_inv (<[h := cp_hash o]> O) (<[h := cp_hash u]> U) (on_agreement o u st).
Proof.
  intros Ho Hu He Href. pose proof (new_low_None _ _ _ Hlow) as [Eo Eu].
  rewrite <-He. apply (agreement_connects (cp_hash o)) in Href. destruct Hi as [[Ha Hr] Hp Hpo Hpu Hin Hag Hsup].
  assert (∀ k, conflict_below (<[h := cp_hash o]> O) (<[h := cp_hash o]> U) k ↔ conflict_below O U k) as Hcb.
  { intros k. unfold conflict_below. setoid_rewrite both_conflict. naive_solver. }
  split; cbn.
  - split.
    + intros k y. rewrite Ha. destruct (decide (k = h)) as [->|Hne]; [rewrite !lookup_insert_eq, Eo, Eu; naive_solver|].
      by rewrite !lookup_insert_ne.
    + intros k. rewrite Hr, Hcb. destruct (decide (k = h)) as [->|Hne]; [rewrite !lookup_insert_eq, Eo; naive_solver|].
      by rewrite !lookup_insert_ne.
  - intros k. rewrite Hp, Hcb. destruct (decide (k = h)) as [->|Hne]; [rewrite !lookup_insert_eq, Eo; naive_solver|].
    by rewrite !lookup_insert_ne.
  - rewrite Ho, lookup_insert_eq. split; [by eexists|apply both_lowest].
  - split; [done|]. intros H. apply (f_equal (.!! h)) in H. by rewrite lookup_insert_eq, lookup_empty in H.
  - split; [done|]. intros (c & [= <-] & Hc). rewrite Ho, both_conflict in Hc. destruct Hc as [[_ ?]|(? & ? & Hc & _)]; [done|congruence].
  - done.
  - intros Hs k Hk'. destruct (decide (k = h)) as [->|Hkh]; [rewrite lookup_insert_eq; by eexists|].
    destruct (both_lookup (cp_hash o) (cp_hash o) k Hkh) as [E1 E2]. rewrite E2. apply Hsup; [done|]. by rewrite E1 in Hk'.
Qed.
End Steps.

(** *** Running it *)

Definition rest (cp : option CheckPoint) : gmap Z bytes := from_option cp_map ∅ cp.
Definition rest_desc (cp : option CheckPoint) : Prop := from_option cp_desc True cp.
Definition rest_length (cp : option CheckPoint) : nat := from_option (λ c, length (cp_iter c)) O cp.

Lemma rest_step c :
  cp_desc c → rest (Some c) = <[cp_height c := cp_hash c]> (rest (cp_prev c)) ∧ rest_desc (cp_prev c) ∧
  rest_length (Some c) = S (rest_length (cp_prev c)) ∧ ∀ k, is_Some (rest (cp_prev c) !! k) → k < cp_height c.
Proof.
  destruct c as [b|b p]; cbn; intros Hd; split_and!; try done.
  - intros k [x Hx]. by rewrite lookup_empty in Hx.
  - by destruct Hd.
  - destruct Hd as [Hb Hp]. intros k [x Hx]. destruct (Z.le_gt_cases k (cp_height p)); [unfold cp_height in *; cbn; lia|].
    rewrite cp_map_above in Hx by (done || lia). done.
Qed.

(** Taking the highest unread block keeps reading in order. *)
Lemma lies_below_step O U R h x :
  lies_below (<[h := x]> R) O U → (∀ k, is_Some (R !! k) → k < h) →
  lies_below R O U ∧ (∀ y, lies_below R (<[h := y]> O) U ∧ lies_below R O (<[h := y]> U) ∧
    ∀ z, lies_below R (<[h := y]> O) (<[h := z]> U)).
Proof.
  intros Hb Hl. assert (lies_below R O U) as H0.
  { intros i k Hi. apply Hb. destruct (decide (i = h)) as [->|]; [rewrite lookup_insert_eq; by eexists|by rewrite lookup_insert_ne]. }
  assert (∀ O' U', (∀ k, k ≠ h → O' !! k = O !! k) → (∀ k, k ≠ h → U' !! k = U !! k) → lies_below R O' U') as Hg.
  { intros O' U' HO HU i k Hi Hk. destruct (decide (k = h)) as [->|Hne]; [by apply Hl|].
    rewrite HO, HU in Hk by done. by eapply H0. }
  split; [done|]. intros y. split_and!; [..|intros z]; apply Hg; try done; intros k Hk; by rewrite lookup_insert_ne.
Qed.
Lemma union_step (O R : gmap Z bytes) h x : O !! h = None → O ∪ <[h := x]> R = <[h := x]> O ∪ R.
Proof. intros Hn. symmetry. rewrite <-insert_union_l. by apply insert_union_r. Qed.

Section Loop.
Context (eq_ptr : CheckPoint → CheckPoint → bool) (eq_ptr_sound : ∀ a b, eq_ptr a b = true → a = b).

Lemma agreement_branch {A} st (same : res CannotConnectError A) (f : Z → res CannotConnectError A) :
  match m_prev_orig st, m_prev_update st with
  | Some prev_orig, Some _ => if negb (m_invalidated st) && negb (m_agreed st) then f (cp_height prev_orig) else same
  | _, _ => same
  end = if refuses st then f (default 0 (cp_height <$> m_prev_orig st)) else same.
Proof.
  unfold refuses. destruct (m_prev_orig st), (m_prev_update st); cbn; rewrite ?andb_true_r, ?andb_false_r; done.
Qed.

Lemma merge_loop_spec fuel o u st O U :
  (rest_length o + rest_length u < fuel)%nat → rest_desc o → rest_desc u →
  lies_below (rest o) O U → lies_below (rest u) O U → merge_inv O U st →
  match merge_loop eq_ptr fuel o u st with
  | Ok (MergeDone st') =>
      ∃ O' R, O ∪ rest o = O' ∪ R ∧ lies_below R O' (U ∪ rest u) ∧ merge_inv O' (U ∪ rest u) st' ∧
        (m_invalidated st' = true → R = ∅) ∧ (m_prev_orig st' = None → R = ∅)
  | Ok (MergeSamePointer st') =>
      ∃ O' U' R, O ∪ rest o = O' ∪ R ∧ U ∪ rest u = U' ∪ R ∧ lies_below R O' U' ∧ merge_inv O' U' st' ∧ m_agreed st' = true
  | Ok (MergeRefused _) => ¬ connected (O ∪ rest o) (U ∪ rest u) ∧ ∃ h, agree (O ∪ rest o) (U ∪ rest u) h
  | _ => False
  end.
Proof.
  revert o u st O U. induction fuel as [|fuel IH]; intros o u st O U Hf Hdo Hdu Ho Hu Hi; [lia|].
  destruct o as [o|], u as [u|]; cbn [merge_loop].
  - destruct (rest_step o Hdo) as (Ero & Hdo' & Hlo & Hbo), (rest_step u Hdu) as (Eru & Hdu' & Hlu & Hbu).
    rewrite Ero in Ho |- *. rewrite Eru in Hu |- *. rewrite Hlo, Hlu in Hf.
    assert (new_low (cp_height u) O U) as Hnu by (intros k; apply Hu; rewrite lookup_insert_eq; by eexists).
    assert (new_low (cp_height o) O U) as Hno by (intros k; apply Ho; rewrite lookup_insert_eq; by eexists).
    destruct (new_low_None _ _ _ Hnu) as [_ Eu], (new_low_None _ _ _ Hno) as [Eo _].
    destruct (lies_below_step _ _ _ _ _ Ho Hbo) as [Ho' Ho''], (lies_below_step _ _ _ _ _ Hu Hbu) as [Hu' Hu''].
    cbn [fmap option_fmap option_map opt_gt]. destruct (Z.ltb_spec (cp_height o) (cp_height u)) as [Hlt|Hge].
    + rewrite (union_step U) by done. rewrite <-Ero. apply IH; [rewrite Hlo; lia|done|done| |apply Hu''|by eapply step_update].
      rewrite Ero. intros i k Hk. destruct (decide (k = cp_height u)) as [->|Hne].
      * intros _. destruct (decide (i = cp_height o)) as [->|Hio]; [done|]. rewrite lookup_insert_ne in Hk by done.
        specialize (Hbo i Hk). lia.
      * rewrite lookup_insert_ne by done. by apply Ho.
    + destruct (Z.ltb_spec (cp_height u) (cp_height o)) as [Hlt|Hge'].
      * rewrite (union_step O) by done. rewrite <-Eru. apply IH; [rewrite Hlu; lia|done|done|apply Ho''| |by eapply step_original].
        rewrite Eru. intros i k Hk. destruct (decide (k = cp_height o)) as [->|Hne].
        -- intros _. destruct (decide (i = cp_height u)) as [->|Hio]; [done|]. rewrite lookup_insert_ne in Hk by done.
           specialize (Hbu i Hk). lia.
        -- rewrite lookup_insert_ne by done. by apply Hu.
      * assert (cp_height o = cp_height u) as He by lia. rewrite (union_step O), (union_step U) by done.
        rewrite <-He in *. case_bool_decide as Hh.
        -- rewrite <-Hh. rewrite (agreement_branch st _ (λ h, Ok (MergeRefused h))). destruct (refuses st) eqn:Er.
           ++ assert (agree (<[cp_height o := cp_hash o]> O ∪ rest (cp_prev o)) (<[cp_height o := cp_hash o]> U ∪ rest (cp_prev u)) (cp_height o))
                as Hag by (exists (cp_hash o); by rewrite !union_match, !lookup_insert_eq).
              split; [|by eexists]. intros Hc. assert (refuses st = false); [|congruence].
              eapply (agreement_connects O U st Hi _ Hno (cp_hash o)). eapply connected_ext; [|exact Hag|exact Hc]. intros k Hk. rewrite !union_match. split.
              ** destruct (<[_:=_]> O !! k); [done|]. symmetry. apply eq_None_not_Some. intros Hr. specialize (Hbo k Hr). lia.
              ** destruct (<[_:=_]> U !! k); [done|]. symmetry. apply eq_None_not_Some. intros Hr. specialize (Hbu k Hr). lia.
           ++ assert (merge_inv (<[cp_height o := cp_hash o]> O) (<[cp_height o := cp_hash o]> U) (on_agreement o u st)) as Hst
                by (rewrite Hh at 2; by eapply step_agree).
              destruct (eq_ptr o u) eqn:Ep.
              ** apply eq_ptr_sound in Ep as <-. do 3 eexists. split_and!; [done..|apply Ho''|exact Hst|done].
              ** apply IH; [lia|done|done|apply Ho''|apply Hu''|exact Hst].
        -- apply IH; [lia|done|done|apply Ho''|apply Hu''|]. by apply step_conflict.
  - destruct (rest_step o Hdo) as (Ero & _ & _ & Hbo). rewrite Ero in Ho |- *. cbn [rest from_option]. rewrite (right_id_L ∅ (∪)).
    assert (new_low (cp_height o) O U) as Hno by (intros k; apply Ho; rewrite lookup_insert_eq; by eexists).
    destruct (new_low_None _ _ _ Hno) as [Eo _], (lies_below_step _ _ _ _ _ Ho Hbo) as [_ Ho''].
    do 2 eexists. split_and!; [by apply union_step|apply Ho''|by eapply step_original|done|done].
  - destruct (rest_step u Hdu) as (Eru & Hdu' & Hlu & Hbu). rewrite Eru in Hu |- *. rewrite Hlu in Hf. cbn in Hf.
    assert (new_low (cp_height u) O U) as Hnu by (intros k; apply Hu; rewrite lookup_insert_eq; by eexists).
    destruct (new_low_None _ _ _ Hnu) as [_ Eu], (lies_below_step _ _ _ _ _ Hu Hbu) as [_ Hu''].
    cbn [fmap option_fmap option_map opt_gt]. rewrite (union_step U) by done.
    apply IH; [cbn; lia|done|done| |apply Hu''|by eapply step_update]. intros i k [x Hx]. cbn in Hx. by rewrite lookup_empty in Hx.
  - exists O, ∅. cbn [rest from_option]. rewrite !(right_id_L ∅ (∪)). split_and!; [done| |done|done|done].
    intros i k [x Hx]. by rewrite lookup_empty in Hx.
Qed.
End Loop.

(** ** Merging, as specified *)

Lemma merged_unique O U m m' : merged O U m → merged O U m' → m = m'.
Proof. intros H H'. apply map_eq. intros h. apply option_eq. intros x. by rewrite (H h x), (H' h x). Qed.
Lemma desc_wf cp : cp_desc cp → is_Some (cp_map cp !! 0) → cp_wf cp.
Proof.
  induction cp as [b|b p IH]; cbn [cp_desc cp_wf].
  - rewrite cp_map_base. intros Hb [x [? _]%lookup_singleton_Some]. done.
  - rewrite cp_map_link. intros [Hb Hp] H0. split; [done|]. apply IH; [done|].
    pose proof (cp_desc_nonneg p Hp). by rewrite lookup_insert_ne in H0 by lia.
Qed.
Lemma wf_genesis cp : cp_wf cp → is_Some (cp_map cp !! 0).
Proof.
  induction cp as [b|b p IH]; cbn [cp_wf].
  - intros Hb. rewrite cp_map_base, Hb, lookup_singleton_eq. by eexists.
  - intros [Hb Hp]. rewrite cp_map_link. pose proof (cp_height_nonneg p Hp). rewrite lookup_insert_ne by lia. auto.
Qed.

Lemma apply_changes_ok o u cs :
  cp_wf o → cp_desc u → changes_ok (cp_map o) (cp_map u) cs →
  ∃ new, apply_changes o cs = Ok (new, cs) ∧ cp_wf new ∧ merged (cp_map o) (cp_map u) (cp_map new).
Proof.
  intros Ho Hu Hcs. pose proof (cp_wf_desc _ Ho) as Hd.
  assert (∀ h x, cp_map o !! h = Some x → 0 ≤ h) as Hpo.
  { intros h x Hx. destruct (Z.le_gt_cases 0 h); [done|]. by rewrite cp_map_neg in Hx. }
  destruct (apply_changeset_map o cs Ho) as (new & He & Hw & Hm).
  - intros h [[y|] Hc].
    + apply (ch_add _ _ _ Hcs) in Hc as [Hc _]. destruct (Z.le_gt_cases 0 h); [done|]. by rewrite cp_map_neg in Hc.
    + apply (ch_remove _ _ _ Hcs) in Hc as ([x Hx] & _). eauto.
  - intros (_ & _ & c & Hc & x & _ & Hx & _)%(ch_remove _ _ _ Hcs). apply Hpo in Hx. lia.
  - exists new. unfold apply_changes. rewrite He. split_and!; [done..|]. by eapply changes_merged.
Qed.

(** With nothing missing in the update, the merged chain is the update. *)
Lemma merged_superset O U : (∀ h, is_Some (O !! h) → is_Some (U !! h)) → merged O U U.
Proof.
  intros Hs h x. split; [by left|]. intros [?|(Hn & Ho & _)]; [done|]. destruct (Hs h ltac:(eauto)) as [? ?]. congruence.
Qed.

Section Result.
Context (eq_ptr : CheckPoint → CheckPoint → bool) (eq_ptr_sound : ∀ a b, eq_ptr a b = true → a = b).

(** The three ways out of the loop, at the whole chains. *)
(** Without an agreement, only a replaced genesis block connects. *)
Lemma done_connects O U R st :
  lies_below R O U → merge_inv O U st → m_agreed st = false → is_Some ((O ∪ R) !! 0) → (∀ h, is_Some ((O ∪ R) !! h) → 0 ≤ h) →
  (m_invalidated st = true → R = ∅) → connects (O ∪ R) U ↔ m_invalidated st = true.
Proof.
  intros Hb Hi Hna Hgen Hpos Hinv. destruct Hi as [_ _ Hpo _ Hin Hag _]. rewrite Hna in Hag.
  assert (lies_below ∅ O U) as Hb' by (intros h k [x Hx]; by rewrite lookup_empty in Hx).
  assert (∀ h y, (∅ : gmap Z bytes) !! h = Some y → R !! h = Some y) as Hs by (intros h y Hy; by rewrite lookup_empty in Hy).
  pose proof (bottom_conflict O U R ∅ Hb Hb' Hs) as Hcf. pose proof (bottom_agree O U R ∅ Hb Hb') as Hba. rewrite (right_id_L ∅ (∪)) in *.
  assert (∀ h, ¬ agree (O ∪ R) U h) as Hno.
  { intros h Ha. apply (Hag h), Hba; [|done]. destruct Ha as (x & _ & Hx). right. by eexists. }
  assert (connects (O ∪ R) U ↔ conflict O U 0) as ->.
  { unfold connects, replaces_all. rewrite Hcf. split; [intros [(a & Ha & _)|[_ ?]]; [by destruct (Hno a)|done]|]. by right. }
  rewrite Hin. split.
  - intros Hc. pose proof Hc as (x & y & Hx & _). destruct (m_prev_orig st) as [c|]; [|by rewrite Hpo, lookup_empty in Hx].
    destruct Hpo as [[z Hz] Hl]. exists c. split; [done|]. specialize (Hl 0 ltac:(eauto)).
    assert (0 ≤ cp_height c) by (apply Hpos; rewrite union_match, Hz; by eexists). by replace (cp_height c) with 0 by lia.
  - intros Hc. pose proof (Hinv (proj2 Hin Hc)) as ->. rewrite (right_id_L ∅ (∪)) in *. destruct Hc as (c & Hc & Hcc).
    rewrite Hc in Hpo. destruct Hpo as [Hz Hl]. specialize (Hl 0 Hgen). specialize (Hpos _ Hz). by replace 0 with (cp_height c) by lia.
Qed.

Lemma merge_loop_result o u :
  cp_wf o → cp_desc u →
  match merge_loop eq_ptr (S (length (cp_iter o) + length (cp_iter u))) (Some o) (Some u) merge_init with
  | Ok (MergeDone st) => changes_ok (cp_map o) (cp_map u) (m_changeset st) ∧ is_Some (m_prev_orig st) ∧
      (connects (cp_map o) (cp_map u) ↔ negb (m_invalidated st) && negb (m_agreed st) = false)
  | Ok (MergeSamePointer st) => changes_ok (cp_map o) (cp_map u) (m_changeset st) ∧ connects (cp_map o) (cp_map u) ∧
      (m_superset st = true → ∀ h, is_Some (cp_map o !! h) → is_Some (cp_map u !! h))
  | Ok (MergeRefused _) => ¬ connects (cp_map o) (cp_map u)
  | _ => False
  end.
Proof.
  intros Ho Hu. pose proof (cp_wf_desc _ Ho) as Hd. pose proof (wf_genesis _ Ho) as Hgen.
  assert (∀ h, is_Some (cp_map o !! h) → 0 ≤ h) as Hpos.
  { intros h [x Hx]. destruct (Z.le_gt_cases 0 h); [done|]. by rewrite cp_map_neg in Hx. }
  assert (∀ R, lies_below R ∅ ∅) as Hempty by (intros R h k _ [[x Hx]|[x Hx]]; by rewrite lookup_empty in Hx).
  pose proof (merge_loop_spec eq_ptr eq_ptr_sound (S (length (cp_iter o) + length (cp_iter u))) (Some o) (Some u) merge_init ∅ ∅
    ltac:(cbn; lia) Hd Hu (Hempty _) (Hempty _) merge_init_inv) as H. cbn [rest from_option] in H. rewrite !(left_id_L ∅ (∪)) in H.
  destruct (merge_loop _ _ _ _ _) as [[st|st|h]| |]; [| | |done..].
  - destruct H as (O & R & EO & Hb & Hi & Hinv & Hprev). rewrite EO in *.
    assert (lies_below ∅ O (cp_map u)) as Hb' by (intros h k [x Hx]; by rewrite lookup_empty in Hx).
    assert (∀ h y, (∅ : gmap Z bytes) !! h = Some y → R !! h = Some y) as Hs by (intros h y Hy; by rewrite lookup_empty in Hy).
    pose proof (bottom_changes O (cp_map u) R ∅ Hb Hb' Hs _ (mi_changes _ _ _ Hi)) as Hch.
    pose proof (bottom_connected O (cp_map u) R ∅ Hb Hb') as Hcon. rewrite (right_id_L ∅ (∪)) in *.
    split_and!; [done| |].
    + destruct (m_prev_orig st) eqn:Ep; [by eexists|]. pose proof (mi_prev_orig _ _ _ Hi) as HO. rewrite Ep in HO. subst O.
      rewrite (Hprev eq_refl), (left_id_L ∅ (∪)), lookup_empty in Hgen. by destruct Hgen.
    + destruct (m_agreed st) eqn:Ea.
      * rewrite andb_false_r. split; [done|]. intros _. left. apply Hcon. pose proof (mi_agreed _ _ _ Hi) as Hx. by rewrite Ea in Hx.
      * rewrite andb_true_r, negb_false_iff. by apply done_connects.
  - destruct H as (O & U & R & EO & EU & Hb & Hi & Ha). rewrite EO, EU in *. pose proof (mi_agreed _ _ _ Hi) as Hx. rewrite Ha in Hx.
    split_and!.
    + apply (bottom_changes O U R R Hb Hb); [done|apply Hi].
    + left. by apply bottom_connected.
    + intros Hsup h. rewrite !union_match. destruct (O !! h) eqn:E1; [|by destruct (U !! h)].
      destruct (mi_superset _ _ _ Hi Hsup h ltac:(eauto)) as [y ->]. by eexists.
  - destruct H as [Hn [a Ha]]. intros [?|[Hno _]]; [done|]. by apply (Hno a).
Qed.

Lemma merge_cases o u :
  cp_wf o → cp_desc u →
  match chain_apply_update eq_ptr o u with
  | Ok (new, cs) => connects (cp_map o) (cp_map u) ∧ cp_wf new ∧ merged (cp_map o) (cp_map u) (cp_map new) ∧
      changes_ok (cp_map o) (cp_map u) cs
  | Err _ => ¬ connects (cp_map o) (cp_map u)
  | Panic => False
  end.
Proof.
  intros Ho Hu. pose proof (merge_loop_result o u Ho Hu) as H. unfold chain_apply_update, merge_chains.
  assert (∀ cs, changes_ok (cp_map o) (cp_map u) cs → connects (cp_map o) (cp_map u) →
    match apply_changes o cs with
    | Ok (new, cs') => connects (cp_map o) (cp_map u) ∧ cp_wf new ∧ merged (cp_map o) (cp_map u) (cp_map new) ∧
        changes_ok (cp_map o) (cp_map u) cs'
    | Err _ => ¬ connects (cp_map o) (cp_map u)
    | Panic => False
    end) as Happ.
  { intros cs Hcs Hc. by destruct (apply_changes_ok o u cs Ho Hu Hcs) as (new & -> & ? & ?). }
  destruct (merge_loop _ _ _ _ _) as [[st|st|h]| |]; cbn [mbind res_bind]; [| | |done..].
  - destruct H as (Hch & [c ->] & Hco). destruct (negb _ && negb _); [by intros ?%Hco|]. by apply Happ, Hco.
  - destruct H as (Hch & Hco & Hsup). destruct (m_superset st); [|by apply Happ].
    split_and!; [done| |by apply merged_superset, Hsup|done].
    apply desc_wf; [done|]. by apply Hsup, wf_genesis.
  - done.
Qed.
Lemma merges o u :
  cp_wf o → cp_desc u →
  (connects (cp_map o) (cp_map u) →
    ∃ new cs, chain_apply_update eq_ptr o u = Ok (new, cs) ∧ cp_wf new ∧ merged (cp_map o) (cp_map u) (cp_map new) ∧
      changes_ok (cp_map o) (cp_map u) cs) ∧
  (¬ connects (cp_map o) (cp_map u) → ∃ h, chain_apply_update eq_ptr o u = Err (CannotConnect h)).
Proof.
  intros Ho Hu. pose proof (merge_cases o u Ho Hu) as H. destruct (chain_apply_update eq_ptr o u) as [[new cs]|[h]|]; [|naive_solver|done].
  destruct H as [Hc H]. split; [intros _; by exists new, cs|done].
Qed.
(** An update that keeps every block becomes the chain. *)
Lemma superset_connects o u :
  cp_wf o → cp_wf u → (∀ h x, cp_map o !! h = Some x → cp_map u !! h = Some x) →
  ∃ cs, chain_apply_update eq_ptr o u = Ok (u, cs).
Proof.
  intros Ho Hu Hs. destruct (merges o u Ho (cp_wf_desc _ Hu)) as [Hm _]. destruct Hm as (new & cs & He & Hw & Hme & _).
  - left. exists (cp_height o). split_and!.
    + exists (cp_hash o). split; [|apply Hs]; apply cp_map_tip.
    + intros h (x & Hx & _). destruct (Z.le_gt_cases h (cp_height o)); [done|].
      rewrite cp_map_above in Hx by (done || by apply cp_wf_desc). done.
    + right; left. intros h Hh. apply cp_map_above; [by apply cp_wf_desc|done].
  - exists cs. rewrite He. repeat f_equal. apply cp_map_inj; [done..|]. eapply merged_unique; [exact Hme|].
    apply merged_superset. intros h [x Hx]. eauto.
Qed.

Lemma highest_below o c :
  cp_wf o → 0 < c → ∃ a, a < c ∧ is_Some (cp_map o !! a) ∧ ∀ h, h < c → is_Some (cp_map o !! h) → h ≤ a.
Proof.
  induction o as [b|b p IH]; cbn [cp_wf].
  - intros Hb Hc. exists 0. rewrite cp_map_base. split_and!; [done|rewrite Hb, lookup_singleton_eq; by eexists|].
    intros h _ [x [Hx _]%lookup_singleton_Some]. lia.
  - intros [Hb Hp] Hc. destruct (Z.lt_ge_cases (bi_height b) c) as [Hlt|Hge].
    + exists (bi_height b). rewrite cp_map_link. split_and!; [done|rewrite lookup_insert_eq; by eexists|].
      intros h _ [x Hx]. destruct (decide (h = bi_height b)) as [->|Hne]; [done|]. rewrite lookup_insert_ne in Hx by done.
      destruct (Z.le_gt_cases h (cp_height p)); [lia|]. rewrite cp_map_above in Hx by (done || by apply cp_wf_desc). done.
    + destruct (IH Hp Hc) as (a & Ha & Has & Hmax). exists a. rewrite cp_map_link. split_and!; [done| |].
      * by rewrite lookup_insert_ne by lia.
      * intros h Hh. rewrite lookup_insert_ne by lia. by apply Hmax.
Qed.

(** So does one that replaces the chain from height [c] up. *)
Lemma replacement_connects o u c :
  cp_wf o → cp_wf u → 0 < c → conflict (cp_map o) (cp_map u) c →
  (∀ h x, h < c → cp_map o !! h = Some x → cp_map u !! h = Some x) → (∀ h, c < h → ¬ agree (cp_map o) (cp_map u) h) →
  ∃ cs, chain_apply_update eq_ptr o u = Ok (u, cs).
Proof.
  intros Ho Hu H0 Hc Hlow Hhigh. destruct (highest_below o c Ho H0) as (a & Ha & [x Hx] & Hmax).
  destruct (merges o u Ho (cp_wf_desc _ Hu)) as [Hm _]. destruct Hm as (new & cs & He & Hw & Hme & _).
  - left. exists a. split_and!.
    + exists x. auto.
    + intros h Hh. destruct (Z.lt_trichotomy h c) as [Hlt|[->|Hgt]].
      * apply Hmax; [done|]. destruct Hh as (y & Hy & _). by eexists.
      * destruct Hh as (y & Hy & Hy'), Hc as (z & z' & Hz & Hz' & Hne). congruence.
      * by apply Hhigh in Hh.
    + right; right. exists c. split_and!; [done..|]. intros h Hh Hs. destruct (Z.lt_ge_cases h c); [|done].
      specialize (Hmax h ltac:(lia) Hs). lia.
  - exists cs. rewrite He. repeat f_equal. apply cp_map_inj; [done..|]. eapply merged_unique; [exact Hme|].
    intros h y. split; [by left|]. intros [?|(Hn & Hy & Hnc)]; [done|]. destruct (Z.lt_trichotomy h c) as [Hlt|[->|Hgt]].
    + by apply Hlow.
    + destruct Hc as (? & ? & _ & ? & _). congruence.
    + exfalso. apply Hnc. by exists c.
Qed.
End Result.
