(* ===== verification/ChainStore.v ===== *)
(** Persistence of the wallet's chain: what the stored change sets say of it.

    Every operation of [LocalChain] returns the changes it made, and the wallet
    stores their merge. [store_ok] relates a store to the chain it describes;
    [chain_update_merges] states the contract of an update, the reload included,
    and [stored_chain_reloads] covers every run of the operations. *)
From S2P Require Import Prelude Ordered Checkpoint LocalChain MergeChains.

(** ** Persistence *)

Lemma initial_changeset_lookup cp h : cp_desc cp → initial_changeset cp !! h = Some <$> cp_map cp !! h.
Proof.
  induction cp as [b|b p IH]; cbn [cp_desc].
  - intros _. change (initial_changeset (CPBase b)) with ({[bi_height b := Some (bi_hash b)]} : ChangeSet). rewrite cp_map_base.
    destruct (decide (h = bi_height b)) as [->|Hne]; [by rewrite !lookup_singleton_eq|by rewrite !lookup_singleton_ne].
  - intros [Hb Hp]. change (initial_changeset (CPLink b p)) with (<[bi_height b := Some (bi_hash b)]> (initial_changeset p)).
    rewrite cp_map_link. destruct (decide (h = bi_height b)) as [->|Hne]; [by rewrite !lookup_insert_eq|].
    by rewrite !lookup_insert_ne, IH.
Qed.

(** A chain is recovered from what was stored. *)
Lemma from_changeset_map (cs : ChangeSet) cp :
  cp_wf cp → (∀ h, cs !! h ≫= id = cp_map cp !! h) → (∀ h, is_Some (cs !! h) → 0 ≤ h) → from_changeset cs = Ok cp.
Proof.
  intros Hw Hl Hpos. unfold from_changeset. destruct (wf_genesis _ Hw) as [g Hg]. pose proof (Hl 0) as H0. rewrite Hg in H0.
  destruct (cs !! 0) as [[g'|]|] eqn:E; cbn in H0; try done. injection H0 as ->.
  destruct (apply_changeset_map (CPBase (mkBlockId 0 g)) cs) as (cp' & He & Hw' & Hm); [done|done|congruence|].
  change ((from_genesis_hash g).1) with (CPBase (mkBlockId 0 g)). rewrite He. f_equal. apply cp_map_inj; [done..|]. apply map_eq. intros h. rewrite Hm, <-Hl.
  destruct (cs !! h) eqn:Eh; [done|]. rewrite cp_map_base. apply lookup_singleton_ne. cbn. congruence.
Qed.

(** What the changes of a merge say of each height. *)
Lemma merged_lookup o u new cs :
  cp_wf o → cp_desc u → merged (cp_map o) (cp_map u) (cp_map new) → changes_ok (cp_map o) (cp_map u) cs →
  (∀ h, is_Some (cs !! h) → 0 ≤ h) ∧ ∀ h, cp_map new !! h = match cs !! h with Some v => v | None => cp_map o !! h end.
Proof.
  intros Ho Hu Hm [Ha Hr]. pose proof (cp_wf_desc _ Ho) as Hd. split.
  - intros h Hh. destruct (Z.le_gt_cases 0 h) as [|Hneg]; [done|]. destruct Hh as [[y|] Hy].
    + apply Ha in Hy as [Hy _]. by rewrite cp_map_neg in Hy.
    + apply Hr in Hy as [[x Hx] _]. by rewrite cp_map_neg in Hx.
  - intros h. destruct (cs !! h) as [[y|]|] eqn:E.
    + apply Ha in E as [E _]. apply Hm. by left.
    + apply Hr in E as (_ & Hn & Hc). apply eq_None_not_Some. intros [x [?|(_ & _ & ?)]%Hm]; congruence.
    + apply option_eq. intros x. rewrite (Hm h x). destruct (cp_map u !! h) as [y|] eqn:Eu.
      * assert (cp_map o !! h = Some y) as ->.
        { destruct (decide (cp_map o !! h = Some y)) as [|Hne]; [done|]. rewrite (proj2 (Ha h y)) in E; done. }
        naive_solver.
      * split; [naive_solver|]. intros Hx. right. split_and!; [done..|]. intros Hc.
        rewrite (proj2 (Hr h)) in E; [done|]. split_and!; [by eexists|done..].
Qed.

(** ** The stored changes *)

(** [Merge for ChangeSet]: later changes win. *)
Definition ChangeSet_merge (self other : ChangeSet) : ChangeSet := other ∪ self.

(** What is stored describes the chain: every height in it is a block or a
    removed one. *)
Record store_ok (tip : CheckPoint) (store : ChangeSet) : Prop := {
  so_wf : cp_wf tip;
  so_lookup h : store !! h ≫= id = cp_map tip !! h;
  so_heights h : is_Some (store !! h) → 0 ≤ h
}.
Lemma store_reloads tip store : store_ok tip store → from_changeset store = Ok tip.
Proof. intros [Hw Hl Hh]. by apply from_changeset_map. Qed.
Lemma store_initial tip : cp_wf tip → store_ok tip (initial_changeset tip).
Proof.
  intros Hw. pose proof (cp_wf_desc _ Hw) as Hd. split; [done|..]; intros h; rewrite initial_changeset_lookup by done.
  - by destruct (cp_map tip !! h).
  - intros Hh. destruct (Z.le_gt_cases 0 h); [done|]. rewrite cp_map_neg in Hh by done. by destruct Hh.
Qed.
(** Recording the changes of a step. *)
Lemma store_merge tip store new (cs : ChangeSet) :
  store_ok tip store → cp_wf new → (∀ h, is_Some (cs !! h) → 0 ≤ h) →
  (∀ h, cp_map new !! h = match cs !! h with Some v => v | None => cp_map tip !! h end) →
  store_ok new (ChangeSet_merge store cs).
Proof.
  intros [_ Hl Hh] Hw Hpos Hn. split; [done|..]; intros h; unfold ChangeSet_merge; rewrite lookup_union.
  - rewrite Hn, <-Hl. by destruct (cs !! h), (store !! h).
  - intros Hs. destruct (cs !! h) eqn:E; [apply Hpos; eauto|apply Hh]. by destruct (store !! h).
Qed.

(** An update that replaces the genesis block replaces everything. *)
Lemma merged_replaces_all o u new :
  cp_desc o → merged (cp_map o) (cp_map u) (cp_map new) → replaces_all (cp_map o) (cp_map u) → cp_map new = cp_map u.
Proof.
  intros Hd Hm [_ Hc]. apply map_eq. intros h. apply option_eq. intros x. rewrite (Hm h x). split; [|by left].
  intros [?|(Hu & Ho & Hn)]; [done|]. destruct Hn. exists 0. split; [|done].
  destruct (Z.lt_trichotomy h 0) as [Hneg|[->|]]; [by rewrite cp_map_neg in Ho| |done].
  destruct Hc as (? & ? & _ & Hc & _). congruence.
Qed.

(** C12: which updates [apply_update] accepts, and what they make of the chain.
    It succeeds on an update that says which blocks of the wallet's chain it
    keeps (a highest common block, above which one chain has nothing or the
    lowest original block is replaced); the new chain is then the update on top
    of the original blocks that are not above a replaced one. It also succeeds
    on an update that has no block in common and another genesis block, and then
    the update is the new chain; the doc comment of [merge_chains] lists this
    case as an error, so the code is more permissive than its documentation. On
    every other update it fails with [CannotConnect]. After a success the stored
    changes reload to the new chain. Which pointers the two chains share makes
    no difference. *)
Theorem chain_update_merges eq_ptr o u :
  (∀ a b, eq_ptr a b = true → a = b) → cp_wf o → cp_desc u →
  (connected (cp_map o) (cp_map u) ∨ replaces_all (cp_map o) (cp_map u) →
    ∃ new cs, chain_apply_update eq_ptr o u = Ok (new, cs) ∧ cp_wf new ∧ merged (cp_map o) (cp_map u) (cp_map new) ∧
      (replaces_all (cp_map o) (cp_map u) → cp_map new = cp_map u) ∧
      from_changeset (ChangeSet_merge (initial_changeset o) cs) = Ok new) ∧
  (¬ connected (cp_map o) (cp_map u) → ¬ replaces_all (cp_map o) (cp_map u) →
    ∃ h, chain_apply_update eq_ptr o u = Err (CannotConnect h)).
Proof.
  intros Hp Ho Hu. destruct (merges eq_ptr Hp o u Ho Hu) as [H1 H2]. split; [|intros ? ?; apply H2; by intros [?|?]].
  intros (new & cs & He & Hw & Hm & Hc)%H1. exists new, cs. split_and!; [done..| |].
  - apply merged_replaces_all; [by apply cp_wf_desc|done].
  - destruct (merged_lookup o u new cs) as [Hpos Hl]; [done..|]. by eapply store_reloads, store_merge; [apply store_initial| | |].
Qed.

(** ** Every operation *)

Lemma cp_get_lookup cp h : cp_desc cp → cp_get cp h = mkBlockId h <$> cp_map cp !! h.
Proof.
  unfold cp_get. induction cp as [b|b p IH]; cbn [cp_desc cp_iter List.find].
  - intros _. rewrite cp_map_base. destruct (Z.eqb_spec (bi_height b) h) as [<-|Hne].
    + rewrite lookup_singleton_eq. by destruct b.
    + by rewrite lookup_singleton_ne.
  - intros [_ Hp]. rewrite cp_map_link. destruct (Z.eqb_spec (bi_height b) h) as [<-|Hne].
    + rewrite lookup_insert_eq. by destruct b.
    + by rewrite lookup_insert_ne, IH.
Qed.

(** [is_block_in_chain] knows an answer for the blocks at or below a tip of the
    chain, and it is the right one. *)
Lemma is_block_in_chain_spec tip b t :
  cp_desc tip →
  is_block_in_chain tip b t =
    if decide (cp_map tip !! bi_height t = Some (bi_hash t) ∧ bi_height b ≤ bi_height t)
    then (λ x, bool_decide (x = bi_hash b)) <$> cp_map tip !! bi_height b else None.
Proof.
  intros Hd. unfold is_block_in_chain. rewrite cp_get_lookup by done.
  assert (List.find (λ c, bi_height c =? bi_height b) (List.filter (λ c, bi_height c <=? bi_height t) (cp_iter tip)) =
    if decide (bi_height b ≤ bi_height t) then cp_get tip (bi_height b) else None) as ->.
  { unfold cp_get. induction (cp_iter tip) as [|c l IH]; cbn [List.filter List.find]; [by case_decide|].
    destruct (Z.leb_spec (bi_height c) (bi_height t)); cbn [List.find]; rewrite IH;
      destruct (Z.eqb_spec (bi_height c) (bi_height b)); case_decide; try done; lia. }
  destruct (cp_map tip !! bi_height t) as [x|]; cbn [fmap option_fmap option_map bi_hash]; [|by rewrite decide_False by naive_solver].
  case_bool_decide as Hx; [subst x|by rewrite decide_False by naive_solver]. destruct (decide (bi_height b ≤ bi_height t)).
  - rewrite decide_True by done. rewrite cp_get_lookup by done. by destruct (cp_map tip !! bi_height b).
  - by rewrite decide_False by naive_solver.
Qed.

(** [insert_block] adds a block at a free height, changes nothing for a block it
    has, and refuses to replace one. *)
Lemma insert_block_spec tip b :
  cp_wf tip → 0 ≤ bi_height b →
  match cp_map tip !! bi_height b with
  | Some x => insert_block tip b = if decide (x = bi_hash b) then Ok (tip, ∅) else Err (mkAlter (bi_height b) x (Some (bi_hash b)))
  | None => ∃ new, insert_block tip b = Ok (new, {[bi_height b := Some (bi_hash b)]}) ∧ cp_wf new ∧
      cp_map new = <[bi_height b := bi_hash b]> (cp_map tip)
  end.
Proof.
  intros Hw Hb. unfold insert_block. rewrite cp_get_lookup by (by apply cp_wf_desc).
  destruct (cp_map tip !! bi_height b) as [x|] eqn:E; cbn [fmap option_fmap option_map bi_hash].
  - case_bool_decide; case_decide; done.
  - destruct (apply_changeset_map tip {[bi_height b := Some (bi_hash b)]} Hw) as (new & -> & Hn & Hl).
    + intros h [x [<- _]%lookup_singleton_Some]. done.
    + intros [_ ?]%lookup_singleton_Some. done.
    + exists new. split_and!; [done..|]. apply map_eq. intros h. rewrite Hl. destruct (decide (h = bi_height b)) as [->|Hne].
      * by rewrite lookup_singleton_eq, lookup_insert_eq.
      * by rewrite lookup_singleton_ne, lookup_insert_ne.
Qed.

(** The loop of [disconnect_from] marks every block from [b]'s height up, and
    finds the checkpoint of [b] if it is there. *)
Lemma disconnect_loop_spec b cp rf cs :
  cp_desc cp →
  let '(rf', cs') := disconnect_loop b cp rf cs in
  (∀ h, cs' !! h = if decide (bi_height b ≤ h ∧ is_Some (cp_map cp !! h)) then Some None else cs !! h) ∧
  (rf' = rf ∨ ∃ c, rf' = Some c ∧ block_id c = b ∧
    ∀ p, cp_prev c = Some p → cp_desc p ∧ cp_height p < bi_height b ∧ ∀ h, h < bi_height b → cp_map cp !! h = cp_map p !! h).
Proof.
  revert rf cs. induction cp as [c|c p IH]; intros rf cs Hd; cbn [disconnect_loop].
  - destruct (Z.ltb_spec (cp_height (CPBase c)) (bi_height b)) as [Hlt|Hge]; unfold cp_height in *; cbn [block_id] in *.
    + split; [|by left]. intros h. rewrite decide_False; [done|]. rewrite cp_map_base. intros [? [x [<- _]%lookup_singleton_Some]]. lia.
    + split; [|case_bool_decide; [right; exists (CPBase c); done|by left]]. intros h. rewrite cp_map_base.
      destruct (decide (h = bi_height c)) as [->|Hne].
      * rewrite lookup_insert_eq, decide_True; [done|]. rewrite lookup_singleton_eq. eauto.
      * rewrite lookup_insert_ne, decide_False; [done| |done]. rewrite lookup_singleton_ne by done. by intros [_ []%is_Some_None].
  - destruct Hd as [Hc Hp]. destruct (Z.ltb_spec (cp_height (CPLink c p)) (bi_height b)) as [Hlt|Hge];
      [unfold cp_height in Hlt|unfold cp_height in Hge]; cbn [block_id] in *.
    + split; [|by left]. intros h. rewrite decide_False; [done|]. intros [Hh [x Hx]].
      rewrite cp_map_above in Hx; [done|done|unfold cp_height; cbn; lia].
    + set (rf1 := if bool_decide (c = b) then Some (CPLink c p) else rf). unfold cp_height at 1. cbn [block_id].
      specialize (IH rf1 (<[bi_height c:=None]> cs) Hp). destruct (disconnect_loop b p rf1 _) as [rf' cs'].
      destruct IH as [Hcs Hrf]. rewrite cp_map_link. split.
      * intros h. rewrite Hcs. destruct (decide (h = bi_height c)) as [->|Hne].
        -- rewrite !lookup_insert_eq. rewrite (decide_True (P := _ ∧ is_Some (Some _))) by eauto. by case_decide.
        -- by rewrite !lookup_insert_ne.
      * subst rf1. destruct Hrf as [->|(d & -> & Hd & Hpd)].
        -- case_bool_decide; [right|by left]. subst c. exists (CPLink b p). split_and!; [done..|]. intros q [= <-].
           split_and!; [done..|]. intros h Hh. by rewrite lookup_insert_ne by lia.
        -- right. exists d. split_and!; [done..|]. intros q Hq. destruct (Hpd q Hq) as (? & ? & Hl). split_and!; [done..|].
           intros h Hh. rewrite lookup_insert_ne by lia. auto.
Qed.

(** [disconnect_from] cuts the chain below [b], or leaves it if [b] is not in it. *)
Lemma disconnect_from_spec tip b new cs :
  cp_wf tip → disconnect_from tip b = Ok (new, cs) →
  cp_wf new ∧ (∀ h, is_Some (cs !! h) → 0 ≤ h) ∧
  ∀ h, cp_map new !! h = match cs !! h with Some v => v | None => cp_map tip !! h end.
Proof.
  intros Hw. pose proof (cp_wf_desc _ Hw) as Hd. unfold disconnect_from.
  pose proof (disconnect_loop_spec b tip None ∅ Hd) as Hl. destruct (disconnect_loop b tip None ∅) as [rf cs'].
  destruct Hl as [Hcs Hrf]. destruct Hrf as [->|(c & -> & Hc & Hp)].
  { intros [= <- <-]. split_and!; [done|by intros h []%is_Some_None|done]. }
  destruct (cp_prev c) as [p|] eqn:Ep; [|done]. intros [= -> ->]. destruct (Hp new eq_refl) as (Hdn & Hlt & Hsame).
  pose proof (cp_desc_nonneg new Hdn). split_and!.
  - apply desc_wf; [done|]. rewrite <-Hsame by lia. by apply wf_genesis.
  - intros h. rewrite Hcs. case_decide as Hx; [|by intros []%is_Some_None]. intros _. destruct Hx as [_ [x Hx]].
    destruct (Z.le_gt_cases 0 h); [done|]. by rewrite cp_map_neg in Hx.
  - intros h. rewrite Hcs. case_decide as Hx.
    + apply cp_map_above; [done|lia].
    + rewrite lookup_empty. destruct (Z.lt_ge_cases h (bi_height b)) as [|Hge]; [by rewrite Hsame|].
      rewrite cp_map_above by (done || lia). destruct (cp_map tip !! h) eqn:E; [|done]. exfalso. eauto.
Qed.

Section Runs.
Context (eq_ptr : CheckPoint → CheckPoint → bool) (eq_ptr_sound : ∀ a b, eq_ptr a b = true → a = b).

(** One operation of the wallet on its chain. The changes of a success are
    stored; a failure leaves the chain and the store as they were. *)
Inductive chain_op := OpUpdate (u : CheckPoint) | OpInsert (b : BlockId) | OpDisconnect (b : BlockId).
Definition op_wf (op : chain_op) : Prop :=
  match op with OpUpdate u => cp_desc u | OpInsert b => 0 ≤ bi_height b | OpDisconnect _ => True end.
Definition record {E} (s : CheckPoint * ChangeSet) (r : res E (CheckPoint * ChangeSet)) : CheckPoint * ChangeSet :=
  match r with Ok (new, cs) => (new, ChangeSet_merge s.2 cs) | _ => s end.
Definition chain_do (s : CheckPoint * ChangeSet) (op : chain_op) : CheckPoint * ChangeSet :=
  match op with
  | OpUpdate u => record s (chain_apply_update eq_ptr s.1 u)
  | OpInsert b => record s (insert_block s.1 b)
  | OpDisconnect b => record s (disconnect_from s.1 b)
  end.

(** The operation does not bring a block at height 0 other than [g]. *)
Definition keeps_genesis (g : bytes) (op : chain_op) : Prop :=
  match op with OpUpdate u => ∀ x, cp_map u !! 0 = Some x → x = g | _ => True end.

(** What a success records: an update's merge, an inserted block, a cut. *)
Lemma update_changes tip u new cs :
  cp_wf tip → cp_desc u → chain_apply_update eq_ptr tip u = Ok (new, cs) →
  cp_wf new ∧ (∀ h, is_Some (cs !! h) → 0 ≤ h) ∧
  (∀ h, cp_map new !! h = match cs !! h with Some v => v | None => cp_map tip !! h end) ∧
  (∀ g, cp_map tip !! 0 = Some g → (∀ x, cp_map u !! 0 = Some x → x = g) → cp_map new !! 0 = Some g).
Proof.
  intros Hw Hd He. pose proof (merge_cases eq_ptr eq_ptr_sound tip u Hw Hd) as Hm. rewrite He in Hm.
  destruct Hm as (_ & Hw' & Hm & Hch). destruct (merged_lookup tip u new cs) as [Hpos Hl]; [done..|].
  split_and!; [done..|]. intros g Hg Hu. destruct (cp_map u !! 0) as [x|] eqn:E.
  - apply Hm. left. rewrite E. f_equal. by apply Hu.
  - apply Hm. right. split_and!; [done..|]. intros (c & Hc & x & y & Hx & _). by rewrite cp_map_neg in Hx by (done || by apply cp_wf_desc).
Qed.
Lemma insert_changes tip b new cs :
  cp_wf tip → 0 ≤ bi_height b → insert_block tip b = Ok (new, cs) →
  cp_wf new ∧ (∀ h, is_Some (cs !! h) → 0 ≤ h) ∧
  (∀ h, cp_map new !! h = match cs !! h with Some v => v | None => cp_map tip !! h end) ∧
  (∀ g, cp_map tip !! 0 = Some g → cp_map new !! 0 = Some g).
Proof.
  intros Hw Hb He. pose proof (insert_block_spec tip b Hw Hb) as Hi. destruct (cp_map tip !! bi_height b) as [x|] eqn:E.
  - rewrite He in Hi. case_decide; [|done]. injection Hi as -> ->. split_and!; [done|by intros h []%is_Some_None|done|done].
  - destruct Hi as (new' & He' & Hw' & Hm). rewrite He in He'. injection He' as <- ->. split_and!; [done|..].
    + intros h [v [<- _]%lookup_singleton_Some]. done.
    + intros h. rewrite Hm. destruct (decide (h = bi_height b)) as [->|Hne].
      * by rewrite lookup_singleton_eq, lookup_insert_eq.
      * by rewrite lookup_singleton_ne, lookup_insert_ne.
    + intros g Hg. rewrite Hm, lookup_insert_ne; [done|congruence].
Qed.
Lemma disconnect_changes tip b new cs :
  cp_wf tip → disconnect_from tip b = Ok (new, cs) → ∀ g, cp_map tip !! 0 = Some g → cp_map new !! 0 = Some g.
Proof.
  intros Hw He g Hg. destruct (disconnect_from_spec tip b new cs Hw He) as (Hw' & _ & Hl).
  destruct (wf_genesis _ Hw') as [g' Hg']. rewrite Hg'. rewrite Hl in Hg'. rewrite <-Hg.
  unfold disconnect_from in He. pose proof (disconnect_loop_spec b tip None ∅ (cp_wf_desc _ Hw)) as Hs.
  destruct (disconnect_loop b tip None ∅) as [rf cs'] eqn:Ed. destruct Hs as [Hcs _].
  destruct rf as [c|]; [destruct (cp_prev c); [|done]|]; injection He as <- <-; [|by rewrite lookup_empty in Hg'].
  rewrite Hcs in Hg'. case_decide; [done|by rewrite lookup_empty in Hg'].
Qed.

Lemma chain_do_store s op : op_wf op → store_ok s.1 s.2 → store_ok (chain_do s op).1 (chain_do s op).2.
Proof.
  intros Hop Hok. pose proof (so_wf _ _ Hok) as Hw. destruct op as [u|b|b]; cbn [chain_do op_wf] in *; unfold record.
  - destruct (chain_apply_update _ _ _) as [[new cs]| |] eqn:E; [|done..]. destruct (update_changes _ _ _ _ Hw Hop E) as (? & ? & ? & _).
    by eapply store_merge.
  - destruct (insert_block _ _) as [[new cs]| |] eqn:E; [|done..]. destruct (insert_changes _ _ _ _ Hw Hop E) as (? & ? & ? & _).
    by eapply store_merge.
  - destruct (disconnect_from _ _) as [[new cs]| |] eqn:E; [|done..]. destruct (disconnect_from_spec _ _ _ _ Hw E) as (? & ? & ?).
    by eapply store_merge.
Qed.
Lemma chain_do_genesis s op g :
  op_wf op → cp_wf s.1 → keeps_genesis g op → cp_map s.1 !! 0 = Some g → cp_map (chain_do s op).1 !! 0 = Some g.
Proof.
  intros Hop Hw Hk Hg. destruct op as [u|b|b]; cbn [chain_do op_wf keeps_genesis] in *; unfold record.
  - destruct (chain_apply_update _ _ _) as [[new cs]| |] eqn:E; [|done..].
    destruct (update_changes _ _ _ _ Hw Hop E) as (_ & _ & _ & Hn). by apply Hn.
  - destruct (insert_block _ _) as [[new cs]| |] eqn:E; [|done..].
    destruct (insert_changes _ _ _ _ Hw Hop E) as (_ & _ & _ & Hn). by apply Hn.
  - destruct (disconnect_from _ _) as [[new cs]| |] eqn:E; [|done..]. by eapply disconnect_changes.
Qed.

(** C17: the wallet's chain survives a restart. From a fresh chain, over any
    sequence of updates, insertions and disconnections, accepted or refused,
    the chain keeps strictly falling heights down to a block at height 0, and
    the merged changes that were stored load to exactly this chain. The block
    at height 0 stays the first genesis block as long as no update brings
    another one; an update that does may replace it. *)
Theorem stored_chain_reloads g ops :
  Forall op_wf ops →
  let '(tip, store) := foldl chain_do (from_genesis_hash g) ops in
  cp_wf tip ∧ from_changeset store = Ok tip ∧ (Forall (keeps_genesis g) ops → cp_map tip !! 0 = Some g).
Proof.
  intros Hops. destruct (foldl chain_do (from_genesis_hash g) ops) as [tip store] eqn:E.
  assert (store_ok tip store ∧ (Forall (keeps_genesis g) ops → cp_map tip !! 0 = Some g)) as [Hok Hg];
    [|split_and!; [apply Hok|by apply store_reloads|done]].
  change (store_ok (tip, store).1 (tip, store).2 ∧ (Forall (keeps_genesis g) ops → cp_map (tip, store).1 !! 0 = Some g)).
  rewrite <-E. clear E tip store. induction ops as [|op ops IH] using rev_ind.
  - split; [by apply store_initial|done].
  - apply Forall_app in Hops as [Hops [Hop _]%Forall_cons]. destruct (IH Hops) as [Hok Hg]. rewrite foldl_snoc. split.
    + by apply chain_do_store.
    + intros [Hk [Hk' _]%Forall_cons]%Forall_app. apply chain_do_genesis; [done|apply Hok|done|auto].
Qed.
End Runs.
