(* ===== verification/Tracking.v ===== *)
(** Checkpoints on the way from the wallet's chain to the node's.

    [tracks] describes a checkpoint made from the wallet's chain by inserting
    blocks of one best chain, in any order; [tracks_insert] keeps it over an
    insertion and [tracks_applies] shows that the wallet's chain takes such a
    checkpoint as its successor. *)
From S2P Require Import Prelude Ordered Checkpoint LocalChain MergeChains.

(** ** Inserting the best chain *)

Section Tracking.
(** The best chain and the highest block the wallet shares with it. *)
Context (best : gmap Z bytes) (fork : Z).

Definition on_best (b : BlockId) : Prop := best !! bi_height b = Some (bi_hash b).
(** Two chains of headers share their blocks up to one height and none above. *)
Definition forks_at (o : CheckPoint) : Prop :=
  0 ≤ fork ∧ ∀ h x, cp_map o !! h = Some x → (best !! h = Some x ↔ h ≤ fork).

(** The checkpoint [u] on its way from the wallet's chain [o]: it still has every
    block of [o], or it has replaced the blocks of [o] from some height up. *)
Record tracks (o u : CheckPoint) : Prop := {
  tr_wf : cp_wf u;
  tr_blocks h x : cp_map u !! h = Some x → best !! h = Some x ∨ cp_map o !! h = Some x;
  tr_replaced :
    (∀ h x, cp_map o !! h = Some x → cp_map u !! h = Some x) ∨
    ∃ c, fork < c ∧ is_Some (cp_map o !! c) ∧ is_Some (cp_map u !! c) ∧
      (∀ h x, h < c → cp_map o !! h = Some x → cp_map u !! h = Some x) ∧
      (∀ h x, c ≤ h → cp_map u !! h = Some x → best !! h = Some x)
}.

Lemma tracks_refl o : cp_wf o → tracks o o.
Proof. intros Hw. split; [done|by right|by left]. Qed.

Lemma tracks_genesis o u b : forks_at o → cp_wf o → tracks o u → on_best b → bi_height b = 0 → b = cp_genesis u.
Proof.
  intros [Hf Hs] Ho [Hw Hb _] Hon H0. destruct (wf_genesis _ Ho) as [g Hg]. pose proof (proj2 (Hs _ _ Hg) Hf) as Hbg.
  pose proof (cp_genesis_in u) as Hin. pose proof (cp_genesis_height u Hw) as Hh.
  assert (cp_map u !! 0 = Some (bi_hash (cp_genesis u))) as Hu.
  { apply cp_map_iter; [by apply cp_wf_desc|]. by destruct (cp_genesis u); cbn in *; subst. }
  apply Hb in Hu. unfold on_best in Hon. rewrite H0 in Hon. destruct b, (cp_genesis u); cbn in *. f_equal; [lia|].
  destruct Hu; congruence.
Qed.

(** A block of the best chain keeps the checkpoint on track. *)
Lemma tracks_insert {E} o u b :
  forks_at o → cp_wf o → tracks o u → on_best b → 0 ≤ bi_height b →
  ∃ u', cp_insert (E:=E) u b = Ok u' ∧ tracks o u' ∧ cp_map u' !! bi_height b = Some (bi_hash b).
Proof.
  intros Hf Ho Ht Hon Hpos. pose proof (tracks_genesis o u b Hf Ho Ht Hon) as H0. destruct Ht as [Hw Hb Hr], Hf as [Hf0 Hs].
  destruct (cp_insert_map (E:=E) u b Hw Hpos H0) as (u' & He & Hw' & Hl). exists u'. split; [done|]. split; [|apply Hl; by left].
  split; [done|..].
  { intros h x [[-> ->]|(_ & Hx & _)]%Hl; [by left|by apply Hb]. }
  assert ((∃ y, cp_map u !! bi_height b = Some y ∧ y ≠ bi_hash b) ∨ ∀ y, cp_map u !! bi_height b = Some y → y = bi_hash b)
    as [(y & Hy & Hne)|Hno].
  { destruct (cp_map u !! bi_height b) as [y|]; [destruct (decide (y = bi_hash b))|]; naive_solver. }
  - (* replaced: an original block, above the fork *)
    right. destruct (Hb _ _ Hy) as [Hy'|Ho']; [unfold on_best in Hon; congruence|].
    assert (fork < bi_height b) by (apply Z.nle_gt; intros Hle; apply (Hs _ _ Ho') in Hle; unfold on_best in Hon; congruence).
    exists (bi_height b). split_and!; [done|by eexists|eexists; apply Hl; by left| |].
    + intros h x Hh Hx. apply Hl. right. split_and!; [lia| |lia]. destruct Hr as [Hr|(c & Hc & _ & _ & Hlow & Hhigh)]; [by apply Hr|].
      apply Hlow; [|done]. apply Z.nle_gt. intros Hle. apply (Hhigh (bi_height b) y ltac:(lia)) in Hy. unfold on_best in Hon. congruence.
    + intros h x Hh [[-> ->]|(Hn & _ & Hc)]%Hl; [done|]. exfalso. apply Hne, Hc; [lia|done].
  - assert (∀ h x, cp_map u !! h = Some x → cp_map u' !! h = Some x) as Hkeep.
    { intros h x Hx. apply Hl. destruct (decide (h = bi_height b)) as [->|Hn]; [left|right; split_and!; [done..|]].
      - split; [done|]. by apply Hno.
      - by intros _. }
    destruct Hr as [Hr|(c & Hc & Hoc & [z Hz] & Hlow & Hhigh)]; [left; eauto|right]. exists c. split_and!; [done..|eauto|eauto|].
    intros h x Hh [[-> ->]|(_ & Hx & _)]%Hl; [done|by eapply Hhigh].
Qed.

Lemma tracks_inserts {E} o u bs :
  forks_at o → cp_wf o → tracks o u → (∀ b, b ∈ bs → on_best b ∧ 0 ≤ bi_height b) →
  ∃ u', fold_res (E:=E) cp_insert u bs = Ok u' ∧ tracks o u' ∧
    (∀ b, last bs = Some b → cp_map u' !! bi_height b = Some (bi_hash b)) ∧ (bs = [] → u' = u).
Proof.
  intros Hf Ho. revert u. induction bs as [|b bs IH]; intros u Ht Hb; cbn [fold_res]; [by exists u|].
  destruct (Hb b) as [Hon Hpos]; [left|]. destruct (tracks_insert (E:=E) o u b Hf Ho Ht Hon Hpos) as (u1 & -> & Ht1 & Hu1).
  destruct (IH u1) as (u' & He & Htu & Hl & Hn); [done|intros c Hc; apply Hb; by right|]. exists u'. split_and!; [done..| |done].
  destruct bs as [|c bs]; [by intros ? [= <-]; rewrite Hn|done].
Qed.

(** The wallet takes the result for its own chain. *)
Lemma tracks_applies eq_ptr o u :
  (∀ a b, eq_ptr a b = true → a = b) → forks_at o → cp_wf o → tracks o u → ∃ cs, chain_apply_update eq_ptr o u = Ok (u, cs).
Proof.
  intros Hp [Hf Hs] Ho [Hw Hb [Hr|(c & Hc & [x Hx] & [y Hy] & Hlow & Hhigh)]]; [by apply superset_connects|].
  assert (∀ h z, fork < h → cp_map o !! h = Some z → best !! h ≠ Some z) as Hno
    by (intros h z Hh Hz Hbz; apply (Hs _ _ Hz) in Hbz; lia).
  apply replacement_connects with (c := c); [done..|lia| |done|].
  - exists x, y. split_and!; [done..|]. intros ->. by apply (Hno c y), Hhigh.
  - intros h Hh (z & Hz & Hz'). apply (Hno h z); [lia|done|]. apply Hhigh; [lia|done].
Qed.
End Tracking.
