(* ===== verification/Chain.v ===== *)
(** [trinity-chain]: errors, fee estimates, privacy profiles, the [ChainBackend]
    trait, the in-memory backend and the broadcast split.

    The trait's methods take [&self] but may change the backend (the in-memory
    one keeps its fields in mutexes), so a backend is a record of functions
    over a state. [SplitBackend] holds two backends over one world; the two
    states of a pair model two separate ones. Scan and sync requests carry
    their script iterators as lists; an [Update] is what the wallet applies. *)
From S2P Require Import Prelude Ordered Types Bitcoin Parse Text Checkpoint.

(** ** [error.rs] *)

Inductive ChainError :=
  | ChNetwork (msg : bytes)
  | ChProtocol (msg : bytes)
  | ChBroadcast (msg : bytes)
  | ChDeliveryUnconfirmed
  | ChUnavailable (msg : bytes)
  | ChOther (msg : bytes).

(** ** [fee.rs] *)

(** [BTreeMap<u32, u64>]: confirmation target in blocks to sat/vB. *)
Record FeeEstimates := mkFeeEstimates { sat_per_vb_by_target_blocks : list (Z * Z) }.
Definition FeeEstimates_empty : FeeEstimates := mkFeeEstimates [].
Definition from_targets (targets : list (Z * Z)) : FeeEstimates :=
  mkFeeEstimates (foldl (λ m t, bmap_insert t.1 t.2 m) [] targets).
Definition sat_per_vb_for (e : FeeEstimates) (target_blocks : Z) : option Z :=
  bmap_get target_blocks (sat_per_vb_by_target_blocks e).
Definition FeeEstimates_is_empty (e : FeeEstimates) : bool :=
  match sat_per_vb_by_target_blocks e with [] => true | _ => false end.

(** [impl Display]: the arrow is the three UTF-8 bytes of U+2192. *)
Definition fee_entry (t : Z * Z) : bytes :=
  dec t.1 ++ str "bl" ++ [226; 134; 146] ++ dec t.2 ++ str " sat/vB".
Fixpoint fee_entries (first : bool) (l : list (Z * Z)) : bytes :=
  match l with
  | [] => []
  | t :: l => (if first then [] else str ", ") ++ fee_entry t ++ fee_entries false l
  end.
Definition FeeEstimates_display (e : FeeEstimates) : bytes :=
  if FeeEstimates_is_empty e then str "{}"
  else str "{" ++ fee_entries true (sat_per_vb_by_target_blocks e) ++ str "}".

(** ** [privacy.rs] *)

Inductive BackendKind := ElectrumOwnServer | ElectrumThirdParty | CoreRpc | Cbf | InMemory.
#[global] Instance BackendKind_eq_dec : EqDecision BackendKind.
Proof. solve_decision. Defined.

Definition BackendKind_as_str (k : BackendKind) : bytes :=
  match k with
  | ElectrumOwnServer => str "electrum_own_server"
  | ElectrumThirdParty => str "electrum_third_party"
  | CoreRpc => str "core_rpc"
  | Cbf => str "cbf"
  | InMemory => str "in_memory"
  end.

(** The two texts shown to the user are part of the profile. *)
Record PrivacyProfile := mkProfile {
  kind : BackendKind;
  counterparty_learns : bytes;
  magnitude : bytes;
  reveals_full_wallet_graph : bool;
  third_party_counterparty : bool;
  requires_selection_warning : bool
}.

Definition electrum_own_server : PrivacyProfile :=
  mkProfile ElectrumOwnServer
    (str "All scriptPubKeys, the full wallet graph, every balance, every sync time, the IP.")
    (str "Only own hoster/VPS provider " ++ [226; 128; 148] ++ str " when run at home: nobody outside.")
    true false false.
Definition electrum_third_party : PrivacyProfile :=
  mkProfile ElectrumThirdParty
    (str "All scriptPubKeys, the full wallet graph, every balance, every sync time, the IP. The wallet is fully deanonymized toward this server.")
    (str "Must stand unmistakeably in the UI, not on a help page.")
    true true true.
Definition profile_core_rpc : PrivacyProfile :=
  mkProfile CoreRpc
    (str "Nothing beyond the node. The node itself leaks no wallet information on P2P traffic (no bloom filter).")
    (str "Best option when a node exists.")
    false false false.
Definition profile_cbf : PrivacyProfile :=
  mkProfile Cbf
    (str "Peers learn: an IP loads headers and filters (reveals nothing about the wallet) and then loads certain blocks fully (reveals: in this block there is likely a transaction relevant to me). Across many blocks that is a statistical leak.")
    (str "Clearly better than Electrum, not zero.")
    false true false.
Definition profile_in_memory : PrivacyProfile :=
  mkProfile InMemory
    (str "Nothing " ++ [226; 128; 148] ++ str " no network peer. Test-only double.")
    (str "No external observer.")
    false false false.

Definition bool_display (b : bool) : bytes := if b then str "true" else str "false".
Definition PrivacyProfile_display (p : PrivacyProfile) : bytes :=
  BackendKind_as_str (kind p) ++ str ": graph=" ++ bool_display (reveals_full_wallet_graph p) ++
  str " third_party=" ++ bool_display (third_party_counterparty p) ++
  str " warn=" ++ bool_display (requires_selection_warning p).

(** ** Requests and updates, vendored [spk_client.rs], [tx_update.rs] *)

#[global] Instance KeychainKind_eq_dec : EqDecision KeychainKind.
Proof. solve_decision. Defined.
#[global] Instance KeychainKind_countable : Countable KeychainKind.
Proof.
  refine (inj_countable' is_internal (λ b, if b then KeychainInternal else KeychainExternal) _).
  by intros [].
Defined.
#[global] Instance BlockId_countable : Countable BlockId.
Proof.
  refine (inj_countable' (λ b, (bi_height b, bi_hash b)) (λ p, mkBlockId p.1 p.2) _). by intros [].
Defined.

Record ConfirmationBlockTime := mkAnchor { anchor_block : BlockId; confirmation_time : Z }.
#[global] Instance ConfirmationBlockTime_eq_dec : EqDecision ConfirmationBlockTime.
Proof. solve_decision. Defined.
#[global] Instance ConfirmationBlockTime_countable : Countable ConfirmationBlockTime.
Proof.
  refine (inj_countable' (λ a, (anchor_block a, confirmation_time a)) (λ p, mkAnchor p.1 p.2) _). by intros [].
Defined.

Record TxUpdate := mkTxUpdate {
  txs : list Transaction;
  txouts : gmap OutPoint TxOut;
  anchors : gset (ConfirmationBlockTime * bytes);
  seen_ats : gset (bytes * Z);
  evicted_ats : gset (bytes * Z)
}.
Definition TxUpdate_default : TxUpdate := mkTxUpdate [] ∅ ∅ ∅ ∅.

Record Update := mkUpdate {
  up_last_active_indices : gmap KeychainKind Z;
  up_tx_update : TxUpdate;
  up_chain : option CheckPoint
}.
Definition Update_default : Update := mkUpdate ∅ TxUpdate_default None.

(** Keychains in order, each with the indexed scripts its iterator yields. *)
Record FullScanRequest := mkFullScanRequest {
  fs_start_time : Z;
  fs_chain_tip : option CheckPoint;
  spks_by_keychain : list (KeychainKind * list (Z * bytes))
}.

Record SpkWithExpectedTxids := mkSpkItem { item_spk : bytes; expected_txids : gset bytes }.
Record SyncRequest := mkSyncRequest {
  sy_start_time : Z;
  sy_chain_tip : option CheckPoint;
  sy_spks : list SpkWithExpectedTxids;
  sy_txids : list bytes;
  sy_outpoints : list OutPoint
}.

(** ** [backend.rs] *)

Record ChainBackend (St : Type) := mkBackend {
  full_scan : FullScanRequest → St → St * res ChainError Update;
  sync : SyncRequest → St → St * res ChainError Update;
  broadcast : Transaction → St → St * res ChainError bytes;
  fee_estimates : St → St * res ChainError FeeEstimates;
  tip_height : St → St * res ChainError Z;
  privacy_profile : St → PrivacyProfile
}.
Arguments mkBackend {St}.
Arguments full_scan {St}.
Arguments sync {St}.
Arguments broadcast {St}.
Arguments fee_estimates {St}.
Arguments tip_height {St}.
Arguments privacy_profile {St}.

(** ** [split.rs] *)

Record SplitBackend (St : Type) := mkSplit { sync_backend : ChainBackend St; broadcast_backend : ChainBackend St }.
Arguments mkSplit {St}.
Arguments sync_backend {St}.
Arguments broadcast_backend {St}.

Definition split_backend {St} (s : SplitBackend St) : ChainBackend St :=
  mkBackend
    (full_scan (sync_backend s))
    (sync (sync_backend s))
    (broadcast (broadcast_backend s))
    (fee_estimates (sync_backend s))
    (tip_height (sync_backend s))
    (privacy_profile (sync_backend s)).

(** ** [memory.rs] *)

Record MemoryBackend := mkMemory {
  mem_tip_height : Z;
  mem_fees : FeeEstimates;
  mem_privacy : PrivacyProfile;
  mem_full_scan_update : Update;
  mem_sync_update : Update;
  broadcasted : list Transaction;
  full_scan_fail : option bytes;
  sync_fail : option bytes;
  broadcast_fail : option bytes;
  fees_fail : option bytes;
  tip_fail : option bytes
}.

Definition MemoryBackend_new : MemoryBackend :=
  mkMemory 0 FeeEstimates_empty profile_in_memory Update_default Update_default [] None None None None None.

Definition set_tip_height (height : Z) (m : MemoryBackend) : MemoryBackend :=
  mkMemory height (mem_fees m) (mem_privacy m) (mem_full_scan_update m) (mem_sync_update m) (broadcasted m)
    (full_scan_fail m) (sync_fail m) (broadcast_fail m) (fees_fail m) (tip_fail m).
Definition set_fee_estimates (fees : FeeEstimates) (m : MemoryBackend) : MemoryBackend :=
  mkMemory (mem_tip_height m) fees (mem_privacy m) (mem_full_scan_update m) (mem_sync_update m) (broadcasted m)
    (full_scan_fail m) (sync_fail m) (broadcast_fail m) (fees_fail m) (tip_fail m).
Definition set_full_scan_update (u : Update) (m : MemoryBackend) : MemoryBackend :=
  mkMemory (mem_tip_height m) (mem_fees m) (mem_privacy m) u (mem_sync_update m) (broadcasted m)
    (full_scan_fail m) (sync_fail m) (broadcast_fail m) (fees_fail m) (tip_fail m).
Definition set_sync_update (u : Update) (m : MemoryBackend) : MemoryBackend :=
  mkMemory (mem_tip_height m) (mem_fees m) (mem_privacy m) (mem_full_scan_update m) u (broadcasted m)
    (full_scan_fail m) (sync_fail m) (broadcast_fail m) (fees_fail m) (tip_fail m).
Definition set_broadcasted (l : list Transaction) (m : MemoryBackend) : MemoryBackend :=
  mkMemory (mem_tip_height m) (mem_fees m) (mem_privacy m) (mem_full_scan_update m) (mem_sync_update m) l
    (full_scan_fail m) (sync_fail m) (broadcast_fail m) (fees_fail m) (tip_fail m).
(** The five failure flags: [fail_next_*] sets one, the operation [take]s it. *)
Definition set_full_scan_fail (f : option bytes) (m : MemoryBackend) : MemoryBackend :=
  mkMemory (mem_tip_height m) (mem_fees m) (mem_privacy m) (mem_full_scan_update m) (mem_sync_update m) (broadcasted m)
    f (sync_fail m) (broadcast_fail m) (fees_fail m) (tip_fail m).
Definition set_sync_fail (f : option bytes) (m : MemoryBackend) : MemoryBackend :=
  mkMemory (mem_tip_height m) (mem_fees m) (mem_privacy m) (mem_full_scan_update m) (mem_sync_update m) (broadcasted m)
    (full_scan_fail m) f (broadcast_fail m) (fees_fail m) (tip_fail m).
Definition set_broadcast_fail (f : option bytes) (m : MemoryBackend) : MemoryBackend :=
  mkMemory (mem_tip_height m) (mem_fees m) (mem_privacy m) (mem_full_scan_update m) (mem_sync_update m) (broadcasted m)
    (full_scan_fail m) (sync_fail m) f (fees_fail m) (tip_fail m).
Definition set_fees_fail (f : option bytes) (m : MemoryBackend) : MemoryBackend :=
  mkMemory (mem_tip_height m) (mem_fees m) (mem_privacy m) (mem_full_scan_update m) (mem_sync_update m) (broadcasted m)
    (full_scan_fail m) (sync_fail m) (broadcast_fail m) f (tip_fail m).
Definition set_tip_fail (f : option bytes) (m : MemoryBackend) : MemoryBackend :=
  mkMemory (mem_tip_height m) (mem_fees m) (mem_privacy m) (mem_full_scan_update m) (mem_sync_update m) (broadcasted m)
    (full_scan_fail m) (sync_fail m) (broadcast_fail m) (fees_fail m) f.

Definition fail_next_full_scan (msg : bytes) : MemoryBackend → MemoryBackend := set_full_scan_fail (Some msg).
Definition fail_next_sync (msg : bytes) : MemoryBackend → MemoryBackend := set_sync_fail (Some msg).
Definition fail_next_broadcast (msg : bytes) : MemoryBackend → MemoryBackend := set_broadcast_fail (Some msg).
Definition fail_next_fee_estimates (msg : bytes) : MemoryBackend → MemoryBackend := set_fees_fail (Some msg).
Definition fail_next_tip_height (msg : bytes) : MemoryBackend → MemoryBackend := set_tip_fail (Some msg).

Section Memory.
Context `{codec : Codec}.

Definition memory_full_scan (req : FullScanRequest) (m : MemoryBackend) : MemoryBackend * res ChainError Update :=
  match full_scan_fail m with
  | Some msg => (set_full_scan_fail None m, Err (ChNetwork msg))
  | None => (m, Ok (mem_full_scan_update m))
  end.
Definition memory_sync (req : SyncRequest) (m : MemoryBackend) : MemoryBackend * res ChainError Update :=
  match sync_fail m with
  | Some msg => (set_sync_fail None m, Err (ChNetwork msg))
  | None => (m, Ok (mem_sync_update m))
  end.
Definition memory_broadcast (tx : Transaction) (m : MemoryBackend) : MemoryBackend * res ChainError bytes :=
  match broadcast_fail m with
  | Some msg => (set_broadcast_fail None m, Err (ChBroadcast msg))
  | None =>
      let txid := compute_txid tx in
      (set_broadcasted (broadcasted m ++ [tx]) m, Ok txid)
  end.
Definition memory_fee_estimates (m : MemoryBackend) : MemoryBackend * res ChainError FeeEstimates :=
  match fees_fail m with
  | Some msg => (set_fees_fail None m, Err (ChUnavailable msg))
  | None => (m, Ok (mem_fees m))
  end.
Definition memory_tip_height (m : MemoryBackend) : MemoryBackend * res ChainError Z :=
  match tip_fail m with
  | Some msg => (set_tip_fail None m, Err (ChUnavailable msg))
  | None => (m, Ok (mem_tip_height m))
  end.
Definition memory_backend : ChainBackend MemoryBackend :=
  mkBackend memory_full_scan memory_sync memory_broadcast memory_fee_estimates memory_tip_height mem_privacy.
End Memory.

(** ** Sequences of calls *)

Inductive Call :=
  | CallFullScan (req : FullScanRequest)
  | CallSync (req : SyncRequest)
  | CallBroadcast (tx : Transaction)
  | CallFees
  | CallTip.
Inductive Reply :=
  | ReplyUpdate (r : res ChainError Update)
  | ReplyTxid (r : res ChainError bytes)
  | ReplyFees (r : res ChainError FeeEstimates)
  | ReplyTip (r : res ChainError Z).

Definition is_broadcast (c : Call) : bool := match c with CallBroadcast _ => true | _ => false end.

Definition call {St} (b : ChainBackend St) (c : Call) (st : St) : St * Reply :=
  match c with
  | CallFullScan req => let '(st, r) := full_scan b req st in (st, ReplyUpdate r)
  | CallSync req => let '(st, r) := sync b req st in (st, ReplyUpdate r)
  | CallBroadcast tx => let '(st, r) := broadcast b tx st in (st, ReplyTxid r)
  | CallFees => let '(st, r) := fee_estimates b st in (st, ReplyFees r)
  | CallTip => let '(st, r) := tip_height b st in (st, ReplyTip r)
  end.

(** A sequence of calls, with each call's reply. *)
Fixpoint calls {St} (b : ChainBackend St) (cs : list Call) (st : St) : St * list (Call * Reply) :=
  match cs with
  | [] => (st, [])
  | c :: cs =>
      let '(st, r) := call b c st in
      let '(st, rs) := calls b cs st in
      (st, (c, r) :: rs)
  end.

(** Two separate backends as backends over the pair of their states. *)
Definition on_fst {A B} (b : ChainBackend A) : ChainBackend (A * B) :=
  mkBackend
    (λ q w, let '(x, r) := full_scan b q w.1 in ((x, w.2), r))
    (λ q w, let '(x, r) := sync b q w.1 in ((x, w.2), r))
    (λ q w, let '(x, r) := broadcast b q w.1 in ((x, w.2), r))
    (λ w, let '(x, r) := fee_estimates b w.1 in ((x, w.2), r))
    (λ w, let '(x, r) := tip_height b w.1 in ((x, w.2), r))
    (λ w, privacy_profile b w.1).
Definition on_snd {A B} (b : ChainBackend B) : ChainBackend (A * B) :=
  mkBackend
    (λ q w, let '(x, r) := full_scan b q w.2 in ((w.1, x), r))
    (λ q w, let '(x, r) := sync b q w.2 in ((w.1, x), r))
    (λ q w, let '(x, r) := broadcast b q w.2 in ((w.1, x), r))
    (λ w, let '(x, r) := fee_estimates b w.2 in ((w.1, x), r))
    (λ w, let '(x, r) := tip_height b w.2 in ((w.1, x), r))
    (λ w, privacy_profile b w.2).

(** The broadcasts of a run that were accepted. *)
Definition accepted (log : list (Call * Reply)) : list Transaction :=
  omap (λ cr, match cr with (CallBroadcast tx, ReplyTxid (Ok _)) => Some tx | _ => None end) log.
Definition calls_to (q : Call → bool) (log : list (Call * Reply)) : list (Call * Reply) :=
  List.filter (λ cr, q cr.1) log.

(** ** Lemmas *)

Lemma call_split {A B} (a : ChainBackend A) (b : ChainBackend B) c w :
  call (split_backend (mkSplit (on_fst a) (on_snd b))) c w =
  if is_broadcast c then let '(y, r) := call b c w.2 in ((w.1, y), r)
  else let '(x, r) := call a c w.1 in ((x, w.2), r).
Proof. destruct c; cbn; by repeat case_match; simplify_eq. Qed.

(** A split keeps the two backends apart. Over any sequence of calls, the
    backend configured for sync ends in the state, and gives the replies, of a
    run that has only the scans, syncs, fee and tip queries; the one configured
    for broadcast those of a run that has only the broadcasts. So neither
    backend learns anything of the calls routed to the other. *)
Lemma split_separates {A B} (a : ChainBackend A) (b : ChainBackend B) cs x y :
  let '(w, log) := calls (split_backend (mkSplit (on_fst a) (on_snd b))) cs (x, y) in
  calls a (List.filter (λ c, negb (is_broadcast c)) cs) x = (w.1, calls_to (λ c, negb (is_broadcast c)) log) ∧
  calls b (List.filter is_broadcast cs) y = (w.2, calls_to is_broadcast log).
Proof.
  revert x y. induction cs as [|c cs IH]; intros x y; cbn [calls List.filter]; [done|].
  rewrite call_split. destruct (is_broadcast c) eqn:Hc; cbn [negb fst snd calls].
  - destruct (call b c y) as [y' r]. specialize (IH x y').
    destruct (calls (split_backend _) cs (x, y')) as [w log]. destruct IH as [IHa IHb].
    cbn. rewrite Hc, IHa, IHb. done.
  - destruct (call a c x) as [x' r]. specialize (IH x' y).
    destruct (calls (split_backend _) cs (x', y)) as [w log]. destruct IH as [IHa IHb].
    cbn. rewrite Hc, IHa, IHb. done.
Qed.

Section MemoryLaws.
Context `{codec : Codec}.

Lemma call_broadcasted c m :
  let '(m', r) := call memory_backend c m in
  broadcasted m' = broadcasted m ++ accepted [(c, r)] ∧
  (∀ tx i, c = CallBroadcast tx → r = ReplyTxid (Ok i) → i = compute_txid tx).
Proof.
  destruct c; cbn;
    unfold memory_full_scan, memory_sync, memory_broadcast, memory_fee_estimates, memory_tip_height;
    repeat case_match; simplify_eq; cbn; rewrite ?app_nil_r; (split; [done|intros ? ? [=] [=]; congruence]).
Qed.

(** The in-memory backend retains exactly the accepted broadcasts, in the
    order of the calls, whatever else is called in between and whichever
    failures are injected; each accepted one was answered with its txid. *)
Lemma memory_retains_broadcasts cs m :
  let '(m', log) := calls memory_backend cs m in
  broadcasted m' = broadcasted m ++ accepted log ∧
  Forall (λ cr, ∀ tx i, cr = (CallBroadcast tx, ReplyTxid (Ok i)) → i = compute_txid tx) log.
Proof.
  revert m. induction cs as [|c cs IH]; intros m; cbn [calls]; [by rewrite app_nil_r|].
  pose proof (call_broadcasted c m) as Hc. destruct (call memory_backend c m) as [m1 r].
  specialize (IH m1). destruct (calls memory_backend cs m1) as [m2 rs].
  destruct Hc as [Hb Hi], IH as [IH1 IH2]. split.
  - rewrite IH1, Hb, <-app_assoc. cbn. by repeat case_match.
  - constructor; [|done]. intros tx i [= -> ->]. by apply Hi.
Qed.
End MemoryLaws.

(** A selection warning is required exactly of the profiles that show the whole
    wallet to somebody else. *)
Lemma warning_iff_exposed p :
  p ∈ [electrum_own_server; electrum_third_party; profile_core_rpc; profile_cbf; profile_in_memory] →
  requires_selection_warning p = reveals_full_wallet_graph p && third_party_counterparty p.
Proof. rewrite !elem_of_cons, elem_of_nil. intros [->|[->|[->|[->|[->|[]]]]]]; reflexivity. Qed.

(** Fee estimates by target: the last pair for a target counts. *)
Lemma from_targets_lookup l t :
  sat_per_vb_for (from_targets l) t = snd <$> last (filter (λ p, p.1 = t) l).
Proof.
  unfold sat_per_vb_for, from_targets. cbn. rewrite <-(reverse_involutive l).
  induction (reverse l) as [|p k IH]; [done|]. rewrite reverse_cons, foldl_app, filter_app. cbn [foldl].
  rewrite filter_cons, filter_nil. case_decide as Hp.
  - rewrite last_snoc, <-Hp. apply bmap_get_insert_eq.
  - rewrite app_nil_r, bmap_get_insert_ne by done. apply IH.
Qed.
