(* ===== verification/CoreRpc.v ===== *)
(** [trinity-chain/src/core_rpc.rs]: the Bitcoin Core backend.

    The JSON-RPC client and BDK's [FilterIter] are the class [RpcClient]: the
    answers the node gives during one operation ([FilterIter] translates the
    iterator, and [Sync] uses it here). Everything above them is
    translated: the two-pass scan of matching blocks and of the mempool, the
    stop-gap expansion of the keychains, the incremental sync with its
    evictions and explicit lookups, fee estimates and error mapping. A
    [HashSet] is a [gset], a [HashMap] a [gmap] iterated in some order.

    [scan_complete] compares the two passes with a one-line closure;
    [keychain_found] and [keychain_bounded] describe the stop gap;
    [eviction_sound] says what an eviction means. *)
From S2P Require Import Prelude Ordered Types Bitcoin Parse Text Checkpoint Chain.

Definition CORE_STOP_GAP : Z := 20.
Definition FEE_TARGETS : list Z := [1; 2; 3; 6; 12; 24; 144; 1008].

(** ** Configuration *)

Inductive CoreRpcAuth :=
  | AuthNone
  | AuthUserPass (username password : bytes)
  | AuthCookieFile (path : bytes).
Record CoreRpcConfig := mkCoreRpcConfig { rpc_url : bytes; rpc_auth : CoreRpcAuth; rpc_stop_gap : Z }.
Definition user_pass (url username password : bytes) : CoreRpcConfig :=
  mkCoreRpcConfig url (AuthUserPass username password) CORE_STOP_GAP.
Definition cookie (url cookie_path : bytes) : CoreRpcConfig :=
  mkCoreRpcConfig url (AuthCookieFile cookie_path) CORE_STOP_GAP.
Definition with_stop_gap (c : CoreRpcConfig) (stop_gap : Z) : CoreRpcConfig :=
  mkCoreRpcConfig (rpc_url c) (rpc_auth c) stop_gap.

(** ** The client *)

(** [bitcoincore_rpc::Error]: the node's own error object, or anything else. *)
Inductive RpcError :=
  | RpcApp (code : Z) (message : bytes)
  | RpcTransport.

(** One step of [FilterIter]: the checkpoint it reached and, on a match, the
    transactions of the block. *)
Record FilterEvent := mkFilterEvent { ev_cp : CheckPoint; ev_block : option (list Transaction) }.

(** [getrawtransaction] verbose: the decoded transaction (or the decoder's
    error) and the block it is in. *)
Record RawTxInfo := mkRawTxInfo { info_transaction : res bytes Transaction; info_blockhash : option bytes }.

Class RpcClient := {
  (** [Client::new] (a cookie file may be missing) *)
  client_new : bytes → CoreRpcAuth → res bytes unit;
  get_block_count : res RpcError Z;
  get_block_hash : Z → res RpcError bytes;
  (** height and time of a header *)
  get_block_header_info : bytes → res RpcError (Z * Z);
  get_raw_mempool : res RpcError (list bytes);
  get_raw_transaction : bytes → res RpcError Transaction;
  get_raw_transaction_info : bytes → res RpcError RawTxInfo;
  send_raw_transaction : Transaction → res RpcError bytes;
  (** [estimatesmartfee]: sat per 1000 vB, if the node has an estimate *)
  estimate_smart_fee : Z → res RpcError (option Z);
  (** [FilterIter::new(client, cp, spks)], run to its end or first error *)
  filter_iter : CheckPoint → list bytes → list (res bytes FilterEvent);
  (** [impl Display for Error] *)
  rpc_text : RpcError → bytes
}.

(** ** Errors *)

Definition rpc_app_error (err : RpcError) : option (Z * bytes) :=
  match err with RpcApp c m => Some (c, m) | RpcTransport => None end.
Definition lookup_requires_index (message : bytes) : bool :=
  let m := to_ascii_lowercase message in
  contains (str "txindex") m || contains (str "block hash") m.
Definition is_not_found (err : RpcError) : bool :=
  match rpc_app_error err with
  | Some (code, message) => if code =? -5 then negb (lookup_requires_index message) else false
  | None => false
  end.
Definition is_lookup_unavailable (err : RpcError) : bool :=
  match rpc_app_error err with
  | Some (code, message) => if code =? -5 then lookup_requires_index message else false
  | None => false
  end.

(** ** Relevance *)

Definition tx_is_relevant (tx : Transaction) (spks : gset bytes) (known_outpoints : gset OutPoint) : bool :=
  if existsb (λ o, bool_decide (txo_script o ∈ spks)) (tx_output tx) then true
  else existsb (λ i, bool_decide (previous_output i ∈ known_outpoints)) (tx_input tx).

Section Backend.
Context `{codec : Codec} `{rpc : RpcClient}.

Record CoreRpcBackend := mkCoreRpcBackend { stop_gap : Z }.

Definition core_connect (config : CoreRpcConfig) : res ChainError CoreRpcBackend :=
  _ ← map_err (λ e, ChNetwork (str "rpc client: " ++ e)) (client_new (rpc_url config) (rpc_auth config));
  Ok (mkCoreRpcBackend (Z.max (rpc_stop_gap config) 1)).

Definition map_rpc (err : RpcError) : ChainError := ChNetwork (str "rpc: " ++ rpc_text err).
Definition map_broadcast (err : RpcError) : ChainError := ChBroadcast (str "sendrawtransaction: " ++ rpc_text err).

Definition genesis_checkpoint : res ChainError CheckPoint :=
  hash ← map_err map_rpc (get_block_hash 0);
  Ok (CheckPoint_new (mkBlockId 0 hash)).

(** [u32::try_from(height)] with the error the backend gives it. *)
Definition height_u32 (height : Z) : res ChainError Z :=
  if height <=? u32_max then Ok height
  else Err (ChProtocol (str "tip height out of range: " ++ dec height)).

Definition tip_checkpoint : res ChainError CheckPoint :=
  height ← map_err map_rpc get_block_count;
  h ← height_u32 height;
  hash ← map_err map_rpc (get_block_hash height);
  genesis ← genesis_checkpoint;
  cp_insert genesis (mkBlockId h hash).

(** [impl Display for Txid]: the bytes in reverse, in hex. *)
Definition txid_display (txid : bytes) : bytes := hex_encode (reverse txid).
Definition unavailable (txid : bytes) (e : RpcError) : ChainError :=
  ChUnavailable (str "rpc: cannot retrieve " ++ txid_display txid ++ str " without txindex or a block hash: " ++ rpc_text e).

Definition get_tx_optional (txid : bytes) : res ChainError (option Transaction) :=
  match get_raw_transaction txid with
  | Ok tx => Ok (Some tx)
  | Err e =>
      if is_not_found e then Ok None
      else if is_lookup_unavailable e then Err (unavailable txid e)
      else Err (map_rpc e)
  | Panic => Panic
  end.

(** ** [scan_spks] *)

(** The outputs of [tx] that pay a watched script. *)
Definition watched_outpoints (spks : gset bytes) (tx : Transaction) : list OutPoint :=
  omap (λ p, if bool_decide (txo_script (snd p) ∈ spks)
             then Some (mkOutPoint (compute_txid tx) (Z.of_nat (fst p) mod 2 ^ 32)) else None)
       (imap pair (tx_output tx)).

Record ScanState := mkScanState {
  known_outpoints : gset OutPoint;
  seen_txids : gset bytes;
  scan_update : TxUpdate
}.

(** What a round records about a new transaction: its anchor in a block, or the
    time it was seen in the mempool. *)
Definition mark_anchor (anchor : ConfirmationBlockTime) (txid : bytes) (u : TxUpdate) : TxUpdate :=
  mkTxUpdate (txs u) (txouts u) ({[(anchor, txid)]} ∪ anchors u) (seen_ats u) (evicted_ats u).
Definition mark_seen (start_time : Z) (txid : bytes) (u : TxUpdate) : TxUpdate :=
  mkTxUpdate (txs u) (txouts u) (anchors u) ({[(txid, start_time)]} ∪ seen_ats u) (evicted_ats u).
Definition push_tx (tx : Transaction) (u : TxUpdate) : TxUpdate :=
  mkTxUpdate (txs u ++ [tx]) (txouts u) (anchors u) (seen_ats u) (evicted_ats u).

(** The body of both inner loops. *)
Definition scan_tx (spks : gset bytes) (mark : bytes → TxUpdate → TxUpdate) (st : ScanState) (tx : Transaction) : ScanState :=
  if negb (tx_is_relevant tx spks (known_outpoints st)) then st else
  let txid := compute_txid tx in
  if bool_decide (txid ∈ seen_txids st) then st else
  mkScanState (list_to_set (watched_outpoints spks tx) ∪ known_outpoints st)
    ({[txid]} ∪ seen_txids st)
    (mark txid (push_tx tx (scan_update st))).

(** [for _ in 0..2 { for tx in txs { .. } }] *)
Definition scan_pass (spks : gset bytes) (mark : bytes → TxUpdate → TxUpdate) (l : list Transaction) (st : ScanState) : ScanState :=
  foldl (scan_tx spks mark) st l.
Definition scan_two_passes (spks : gset bytes) (mark : bytes → TxUpdate → TxUpdate) (l : list Transaction) (st : ScanState) : ScanState :=
  scan_pass spks mark l (scan_pass spks mark l st).

Definition scan_event (spks : gset bytes) (start_time : Z) (s : ScanState * CheckPoint) (item : res bytes FilterEvent)
    : res ChainError (ScanState * CheckPoint) :=
  event ← map_err (λ e, ChNetwork (str "filter scan: " ++ e)) item;
  let tip_cp := ev_cp event in
  match ev_block event with
  | None => Ok (s.1, tip_cp)
  | Some block =>
      let header_time := match get_block_header_info (cp_hash tip_cp) with Ok h => h.2 | _ => start_time end in
      let anchor := mkAnchor (block_id tip_cp) header_time in
      Ok (scan_two_passes spks (mark_anchor anchor) block s.1, tip_cp)
  end.

(** The transactions of the mempool that were not seen in a block. *)
Definition collect_pending (seen : gset bytes) (mempool : list bytes) : res ChainError (list Transaction) :=
  fold_res (λ pending txid,
      if bool_decide (txid ∈ seen) then Ok pending else
      o ← get_tx_optional txid;
      Ok (match o with Some tx => pending ++ [tx] | None => pending end))
    [] mempool.

Definition scan_spks (spks : list bytes) (chain_tip : option CheckPoint) (start_time : Z) (known : gset OutPoint)
    : res ChainError (TxUpdate * option CheckPoint) :=
  start_cp ← match chain_tip with Some cp => Ok cp | None => genesis_checkpoint end;
  if (length spks =? 0)%nat then tip ← tip_checkpoint; Ok (TxUpdate_default, Some tip) else
  let spk_set := list_to_set spks : gset bytes in
  '(st, tip_cp) ← fold_res (scan_event spk_set start_time) (mkScanState known ∅ TxUpdate_default, start_cp)
                    (filter_iter start_cp spks);
  mempool ← map_err map_rpc get_raw_mempool;
  pending ← collect_pending (seen_txids st) mempool;
  let st := scan_two_passes spk_set (mark_seen start_time) pending st in
  Ok (scan_update st, Some tip_cp).

(** ** [collect_full_scan_spks] *)

(** The scripts of [outs] that are watched. *)
Definition watched_scripts (spks : gset bytes) (l : list Transaction) : gset bytes :=
  list_to_set (tx ← l; o ← tx_output tx; if bool_decide (txo_script o ∈ spks) then [txo_script o] else []).

Definition active_spks_in (spks : list bytes) (start_cp : CheckPoint) : res ChainError (gset bytes) :=
  let spk_set := list_to_set spks : gset bytes in
  active ← fold_res (λ active item,
      event ← map_err (λ e, ChNetwork (str "filter probe: " ++ e)) item;
      Ok (match ev_block event with
          | None => active
          | Some block => active ∪ watched_scripts spk_set block
          end))
    ∅ (filter_iter start_cp spks);
  mempool ← map_err map_rpc get_raw_mempool;
  fold_res (λ active txid,
      o ← get_tx_optional txid;
      Ok (match o with Some tx => active ∪ watched_scripts spk_set [tx] | None => active end))
    active mempool.

Record FullScanSpkPlan := mkPlan { plan_spks : list bytes; plan_last_active : gmap KeychainKind Z }.

(** The loop over one batch: the run of unused scripts, the last active index. *)
Definition batch_step (active : gset bytes) (s : Z * option Z) (p : Z * bytes) : Z * option Z :=
  if bool_decide (p.2 ∈ active) then (0, Some p.1) else (sat_add s.1 1, s.2).

(** The loop over the batches of one keychain. Every round but the last takes
    at least one script, so [length spks + 1] rounds are enough. *)
Fixpoint keychain_loop (probe : list bytes → res ChainError (gset bytes)) (gap : Z) (fuel : nat)
    (spks : list (Z * bytes)) (s : Z * option Z) (acc : list bytes) : res ChainError (list bytes * option Z) :=
  match fuel with
  | O => Panic
  | S fuel =>
      let batch := take (Z.to_nat gap) spks in
      if (length batch =? 0)%nat then Ok (acc, s.2) else
      active ← probe (batch.*2);
      let s := foldl (batch_step active) s batch in
      let acc := acc ++ batch.*2 in
      if gap <=? s.1 then Ok (acc, s.2)
      else keychain_loop probe gap fuel (drop (Z.to_nat gap) spks) s acc
  end.

Definition core_collect_full_scan_spks (b : CoreRpcBackend) (req : FullScanRequest) : res ChainError FullScanSpkPlan :=
  probe_cp ← genesis_checkpoint;
  fold_res (λ plan kc,
      '(spks, l) ← keychain_loop (λ batch, active_spks_in batch probe_cp) (stop_gap b)
                     (S (length kc.2)) kc.2 (0, None) (plan_spks plan);
      Ok (mkPlan spks (match l with
                       | Some i => <[kc.1 := i]> (plan_last_active plan)
                       | None => plan_last_active plan
                       end)))
    (mkPlan [] ∅) (spks_by_keychain req).

Definition core_full_scan (b : CoreRpcBackend) (req : FullScanRequest) : res ChainError Update :=
  let start_time := fs_start_time req in
  let chain_tip := fs_chain_tip req in
  plan ← core_collect_full_scan_spks b req;
  '(tx_update, chain) ← scan_spks (plan_spks plan) chain_tip start_time ∅;
  Ok (mkUpdate (plan_last_active plan) tx_update chain).

(** ** [sync] *)

(** Expected histories by script; the last item of a script counts. *)
Definition expected_map (items : list SpkWithExpectedTxids) : gmap bytes (gset bytes) :=
  foldl (λ m item, <[item_spk item := expected_txids item]> m) ∅ items.
Definition expected_list (m : gmap bytes (gset bytes)) : list bytes :=
  kv ← map_to_list m; elements kv.2.

(** Fetch the expected transactions: which are still there, and their watched
    outputs. *)
Definition fetch_one (spk_set : gset bytes) (s : gset OutPoint * gset bytes) (txid : bytes)
    : res ChainError (gset OutPoint * gset bytes) :=
  o ← get_tx_optional txid;
  Ok (match o with
      | None => s
      | Some tx =>
          (list_to_set (omap (λ p, if bool_decide (txo_script (snd p) ∈ spk_set)
                                   then Some (mkOutPoint txid (Z.of_nat (fst p) mod 2 ^ 32)) else None)
                             (imap pair (tx_output tx))) ∪ s.1,
           {[txid]} ∪ s.2)
      end).
Definition fetch_expected (spk_set : gset bytes) (txids : list bytes) : res ChainError (gset OutPoint * gset bytes) :=
  fold_res (fetch_one spk_set) (∅, ∅) txids.

Definition mark_evicted (start_time : Z) (txid : bytes) (u : TxUpdate) : TxUpdate :=
  mkTxUpdate (txs u) (txouts u) (anchors u) (seen_ats u) ({[(txid, start_time)]} ∪ evicted_ats u).
Definition insert_txout (op : OutPoint) (o : TxOut) (u : TxUpdate) : TxUpdate :=
  mkTxUpdate (txs u) (<[op := o]> (txouts u)) (anchors u) (seen_ats u) (evicted_ats u).

Definition evict_missing (present : gset bytes) (start_time : Z) (txids : list bytes) (u : TxUpdate) : TxUpdate :=
  foldl (λ u txid, if bool_decide (txid ∈ present) then u else mark_evicted start_time txid u) u txids.

(** One explicit txid lookup. *)
Definition lookup_txid (start_time : Z) (s : TxUpdate * gset bytes) (txid : bytes) : res ChainError (TxUpdate * gset bytes) :=
  let '(u, present) := s in
  if bool_decide (txid ∈ present) then Ok s else
  match get_raw_transaction_info txid with
  | Ok info =>
      tx ← map_err (λ e, ChProtocol (str "decode tx " ++ txid_display txid ++ str ": " ++ e)) (info_transaction info);
      let u := push_tx tx u in
      let present := {[txid]} ∪ present in
      let anchor :=
        hash ← info_blockhash info;
        match get_block_header_info hash with
        | Ok header => if header.1 <=? u32_max then Some (mkAnchor (mkBlockId header.1 hash) header.2) else None
        | _ => None
        end in
      match anchor with
      | Some a => Ok (mark_anchor a txid u, present)
      | None => Ok (mark_seen start_time txid u, present)
      end
  | Err e =>
      if is_not_found e then Ok (mark_evicted start_time txid u, present)
      else if is_lookup_unavailable e then Err (unavailable txid e)
      else Err (map_rpc e)
  | Panic => Panic
  end.

(** One requested outpoint. *)
Definition lookup_outpoint (s : TxUpdate * gset bytes) (op : OutPoint) : res ChainError (TxUpdate * gset bytes) :=
  let '(u, present) := s in
  if bool_decide (op_txid op ∈ present) then Ok s else
  o ← get_tx_optional (op_txid op);
  match o with
  | None => Ok s
  | Some tx =>
      let u := match tx_output tx !! Z.to_nat (op_vout op) with
               | Some txout => insert_txout op txout u
               | None => u
               end in
      Ok (push_tx tx u, {[op_txid op]} ∪ present)
  end.

Definition core_sync (req : SyncRequest) : res ChainError Update :=
  let start_time := sy_start_time req in
  let chain_tip := sy_chain_tip req in
  let spks := item_spk <$> sy_spks req in
  let expected := expected_list (expected_map (sy_spks req)) in
  '(known, present) ← fetch_expected (list_to_set spks) expected;
  let request_outpoints := sy_outpoints req in
  let known := known ∪ list_to_set request_outpoints in
  '(tx_update, chain) ← scan_spks spks chain_tip start_time known;
  let present := present ∪ list_to_set (compute_txid <$> txs tx_update) in
  let tx_update := evict_missing present start_time expected tx_update in
  '(tx_update, present) ← fold_res (lookup_txid start_time) (tx_update, present) (sy_txids req);
  '(tx_update, _) ← fold_res lookup_outpoint (tx_update, present) request_outpoints;
  Ok (mkUpdate ∅ tx_update chain).

(** ** The other operations *)

Definition core_broadcast (tx : Transaction) : res ChainError bytes := map_err map_broadcast (send_raw_transaction tx).

Definition core_fee_step (m : list (Z * Z)) (target : Z) : list (Z * Z) :=
  match estimate_smart_fee target with
  | Ok fee_rate =>
      let sat_per_vb := default 0 ((λ rate, rate / 1000) <$> fee_rate) in
      if 0 <? sat_per_vb then bmap_insert target sat_per_vb m else m
  | _ => m
  end.
Definition core_fee_estimates : res ChainError FeeEstimates :=
  _ ← map_err map_rpc get_block_count;
  Ok (mkFeeEstimates (foldl core_fee_step [] FEE_TARGETS)).

Definition core_tip_height : res ChainError Z :=
  height ← map_err map_rpc get_block_count;
  height_u32 height.

(** [impl ChainBackend for CoreRpcBackend]: the backend itself never changes. *)
Definition core_backend : ChainBackend CoreRpcBackend :=
  mkBackend (λ req b, (b, core_full_scan b req)) (λ req b, (b, core_sync req)) (λ tx b, (b, core_broadcast tx))
    (λ b, (b, core_fee_estimates)) (λ b, (b, core_tip_height)) (λ _, profile_core_rpc).
End Backend.

Arguments tx_is_relevant : simpl never.
Arguments scan_tx : simpl never.
Arguments watched_outpoints : simpl never.

(** ** The scan against its specification *)

Section ScanLaws.
Context `{codec : Codec} `{rpc : RpcClient} (spks : gset bytes).

(** The watched outputs of some transactions. *)
Definition outpoints_of (l : list Transaction) : gset OutPoint := list_to_set (l ≫= watched_outpoints spks).
(** What the update records of the transactions [l]. *)
Definition record_txs (mark : bytes → TxUpdate → TxUpdate) (l : list Transaction) (u : TxUpdate) : TxUpdate :=
  foldl (λ u tx, mark (compute_txid tx) (push_tx tx u)) u l.
Definition relevant_txs (known : gset OutPoint) (l : list Transaction) : list Transaction :=
  filter (λ tx, tx_is_relevant tx spks known = true) l.

(** The specification: a transaction of a block counts if it pays a watched
    script or spends an outpoint that is known or is a watched output of this
    or an earlier block. *)
Fixpoint block_txs (known : gset OutPoint) (blocks : list (list Transaction)) : list Transaction :=
  match blocks with
  | [] => []
  | b :: bs => relevant_txs (known ∪ outpoints_of b) b ++ block_txs (known ∪ outpoints_of b) bs
  end.

Lemma outpoints_of_cons tx l : outpoints_of (tx :: l) = list_to_set (watched_outpoints spks tx) ∪ outpoints_of l.
Proof. unfold outpoints_of. cbn. apply list_to_set_app_L. Qed.
Lemma outpoints_of_app l k : outpoints_of (l ++ k) = outpoints_of l ∪ outpoints_of k.
Proof. unfold outpoints_of. by rewrite bind_app, list_to_set_app_L. Qed.
Lemma elem_of_outpoints_of op l : op ∈ outpoints_of l ↔ ∃ tx, tx ∈ l ∧ op ∈ watched_outpoints spks tx.
Proof. unfold outpoints_of. rewrite elem_of_list_to_set, list_elem_of_bind. naive_solver. Qed.

Lemma tx_is_relevant_spec tx k :
  tx_is_relevant tx spks k = true ↔
  (∃ o, o ∈ tx_output tx ∧ txo_script o ∈ spks) ∨ (∃ i, i ∈ tx_input tx ∧ previous_output i ∈ k).
Proof.
  unfold tx_is_relevant. case_match eqn:E.
  - apply existsb_exists in E as (o & Ho%list_elem_of_In & Hs). bool_simp. naive_solver.
  - rewrite existsb_exists. split.
    + intros (i & Hi%list_elem_of_In & Hk). bool_simp. naive_solver.
    + intros [(o & Ho & Hs)|(i & Hi & Hk)].
      * rewrite <-not_true_iff_false, existsb_exists in E. exfalso. apply E.
        exists o. by rewrite <-list_elem_of_In, bool_decide_eq_true.
      * exists i. by rewrite <-list_elem_of_In, bool_decide_eq_true.
Qed.
Lemma tx_is_relevant_mono tx k k' : k ⊆ k' → tx_is_relevant tx spks k = true → tx_is_relevant tx spks k' = true.
Proof. rewrite !tx_is_relevant_spec. set_solver. Qed.
Lemma watched_relevant op tx k : op ∈ watched_outpoints spks tx → tx_is_relevant tx spks k = true.
Proof.
  unfold watched_outpoints. rewrite list_elem_of_omap. intros ([v o] & Hv & Hs).
  apply list_elem_of_lookup in Hv as [n Hn]. rewrite list_lookup_imap in Hn.
  apply fmap_Some in Hn as (o' & Ho & [= -> ->]). case_bool_decide; [|done].
  apply tx_is_relevant_spec. left. exists o'. split; [|done]. by eapply list_elem_of_lookup_2.
Qed.

(** One pass records some transactions [new] of the list, among them all that
    were relevant from the start. *)
Lemma scan_pass_spec mark l st K :
  known_outpoints st ⊆ K → outpoints_of l ⊆ K →
  ∃ new, scan_pass spks mark l st =
      mkScanState (outpoints_of new ∪ known_outpoints st) (list_to_set (compute_txid <$> new) ∪ seen_txids st)
        (record_txs mark new (scan_update st)) ∧
    new ⊆ l ∧ NoDup (compute_txid <$> new) ∧
    (∀ tx, tx ∈ new → compute_txid tx ∉ seen_txids st ∧ tx_is_relevant tx spks K = true) ∧
    (∀ tx, tx ∈ l → tx_is_relevant tx spks (known_outpoints st) = true →
      compute_txid tx ∈ compute_txid <$> new ∨ compute_txid tx ∈ seen_txids st).
Proof.
  revert st. induction l as [|tx l IH]; intros st HK HW; cbn [scan_pass foldl].
  { exists []. split_and!; try set_solver; [|constructor]. destruct st; cbn. f_equal; set_solver. }
  rewrite outpoints_of_cons in HW. fold (scan_pass spks mark l (scan_tx spks mark st tx)).
  unfold scan_tx. destruct (tx_is_relevant tx spks (known_outpoints st)) eqn:Hr; cbn [negb];
    [case_bool_decide as Hs|].
  - destruct (IH st) as (new & -> & Hl & Hn & Hin & Hc); [set_solver..|].
    exists new. split_and!; [done|set_solver|done..|]. intros y [->|Hy]%elem_of_cons; auto.
  - edestruct IH as (new & -> & Hl & Hn & Hin & Hc); [..|cbn [known_outpoints seen_txids scan_update] in *].
    { cbn. set_solver. } { set_solver. }
    exists (tx :: new). rewrite outpoints_of_cons, fmap_cons, list_to_set_cons. split_and!.
    + cbn [record_txs foldl]. f_equal; set_solver.
    + set_solver.
    + constructor; [|done]. intros (y & He & Hy)%list_elem_of_fmap. apply Hin in Hy as [Hy _].
      rewrite <-He in Hy. set_solver.
    + intros y [->|Hy]%elem_of_cons; [split; [done|by apply (tx_is_relevant_mono _ _ _ HK)]|].
      apply Hin in Hy. set_solver.
    + intros y [->|Hy]%elem_of_cons Hy'; [set_solver|].
      destruct (Hc y Hy) as [?|?]; [eapply tx_is_relevant_mono, Hy'; set_solver|set_solver|set_solver].
  - destruct (IH st) as (new & -> & Hl & Hn & Hin & Hc); [set_solver..|].
    exists new. split_and!; [done|set_solver|done..|]. intros y [->|Hy]%elem_of_cons Hy'; [congruence|auto].
Qed.

(** Equal txids, equal transactions, within a list of distinct txids. *)
Lemma txid_inj l tx tx' :
  NoDup (compute_txid <$> l) → tx ∈ l → tx' ∈ l → compute_txid tx = compute_txid tx' → tx = tx'.
Proof.
  intros Hn [i Hi]%list_elem_of_lookup [j Hj]%list_elem_of_lookup He.
  assert (i = j) as ->; [|congruence]. eapply NoDup_lookup; [exact Hn|..].
  - by rewrite list_lookup_fmap, Hi.
  - by rewrite list_lookup_fmap, Hj, He.
Qed.

(** Among [l], a txid stands for one list of outputs. *)
Definition txids_agree (l : list Transaction) : Prop :=
  ∀ tx tx', tx ∈ l → tx' ∈ l → compute_txid tx = compute_txid tx' → tx_output tx = tx_output tx'.
Lemma txids_agree_sub l k : l ⊆ k → txids_agree k → txids_agree l.
Proof. unfold txids_agree. set_solver. Qed.
Lemma watched_outpoints_eq tx tx' :
  compute_txid tx = compute_txid tx' → tx_output tx = tx_output tx' → watched_outpoints spks tx = watched_outpoints spks tx'.
Proof. unfold watched_outpoints. by intros -> ->. Qed.

(** The outputs of every transaction seen so far, the [recorded] ones, are known. *)
Definition recorded_known (recorded : list Transaction) (st : ScanState) : Prop :=
  seen_txids st = list_to_set (compute_txid <$> recorded) ∧ outpoints_of recorded ⊆ known_outpoints st.

(** Two passes are enough, in whatever order the transactions come: they record
    the transactions relevant to all known and watched outputs, each txid once. *)
Lemma scan_two_passes_spec mark l st recorded :
  txids_agree (recorded ++ l) → recorded_known recorded st →
  ∃ new, scan_two_passes spks mark l st =
      mkScanState (known_outpoints st ∪ outpoints_of l) (list_to_set (compute_txid <$> new) ∪ seen_txids st)
        (record_txs mark new (scan_update st)) ∧
    new ⊆ l ∧ NoDup (compute_txid <$> new) ∧
    (∀ tx, tx ∈ new → compute_txid tx ∉ seen_txids st ∧ tx_is_relevant tx spks (known_outpoints st ∪ outpoints_of l) = true) ∧
    (∀ tx, tx ∈ l → tx_is_relevant tx spks (known_outpoints st ∪ outpoints_of l) = true →
      compute_txid tx ∈ compute_txid <$> new ∨ compute_txid tx ∈ seen_txids st).
Proof.
  intros Hag [Hseen Hrec]. set (K := known_outpoints st ∪ outpoints_of l). unfold scan_two_passes.
  destruct (scan_pass_spec mark l st K) as (n1 & -> & Hl1 & Hn1 & Hin1 & Hc1); [set_solver..|].
  assert (outpoints_of n1 ∪ known_outpoints st = K) as Hk.
  { apply leibniz_equiv, set_equiv_subseteq. split.
    - apply union_least; [|set_solver]. intros op (tx & Htx & Ho)%elem_of_outpoints_of.
      apply elem_of_union_r, elem_of_outpoints_of. set_solver.
    - intros op [Ho|(tx & Htx & Ho)%elem_of_outpoints_of]%elem_of_union; [set_solver|].
      destruct (Hc1 tx Htx (watched_relevant _ _ _ Ho)) as [(y & He & Hy)%list_elem_of_fmap|Hs].
      + apply elem_of_union_l, elem_of_outpoints_of. exists y. split; [done|].
        rewrite <-(watched_outpoints_eq tx y); [done..|]. apply Hag; set_solver.
      + rewrite Hseen in Hs. apply elem_of_list_to_set, list_elem_of_fmap in Hs as (y & He & Hy).
        apply elem_of_union_r, Hrec, elem_of_outpoints_of. exists y. split; [done|].
        rewrite <-(watched_outpoints_eq tx y); [done..|]. apply Hag; set_solver. }
  edestruct (scan_pass_spec mark l) as (n2 & -> & Hl2 & Hn2 & Hin2 & Hc2);
    [..|cbn [known_outpoints seen_txids scan_update] in *].
  { cbn. by rewrite Hk. } { set_solver. }
  exists (n1 ++ n2). rewrite Hk in *. split_and!.
  - f_equal.
    + assert (outpoints_of n2 ⊆ outpoints_of l); [|set_solver].
      intros op (tx & Htx & Ho)%elem_of_outpoints_of. apply elem_of_outpoints_of. set_solver.
    + rewrite fmap_app, list_to_set_app_L. set_solver.
    + unfold record_txs. by rewrite foldl_app.
  - set_solver.
  - rewrite fmap_app. apply NoDup_app. split_and!; [done| |done].
    intros i Hi (y & -> & Hy)%list_elem_of_fmap. apply Hin2 in Hy as [Hy _]. set_solver.
  - intros tx [Hx|Hx]%elem_of_app; [by apply Hin1|]. specialize (Hin2 tx Hx). set_solver.
  - intros tx Hx Hr. rewrite fmap_app. specialize (Hc2 tx Hx Hr). set_solver.
Qed.

Lemma record_txs_txs mark l u :
  (∀ i u, txs (mark i u) = txs u) → txs (record_txs mark l u) = txs u ++ l.
Proof.
  intros Hm. revert u. induction l as [|tx l IH]; intros u; cbn; [by rewrite app_nil_r|].
  unfold record_txs in IH. rewrite IH, Hm. cbn. by rewrite <-app_assoc.
Qed.


(** The blocks a filter run delivered. *)
Definition matched_blocks (items : list (res bytes FilterEvent)) : list (list Transaction) :=
  omap (λ i, match i with Ok e => ev_block e | _ => None end) items.

(** What the matched blocks leave: their relevant txids, each once. *)
Lemma scan_events_spec t items st cp st' cp' :
  let blocks := matched_blocks items in
  fold_res (scan_event spks t) (st, cp) items = Ok (st', cp') →
  txids_agree (txs (scan_update st) ++ concat blocks) → recorded_known (txs (scan_update st)) st →
  NoDup (compute_txid <$> txs (scan_update st)) →
  recorded_known (txs (scan_update st')) st' ∧ NoDup (compute_txid <$> txs (scan_update st')) ∧
  txs (scan_update st') ⊆ txs (scan_update st) ++ concat blocks ∧
  known_outpoints st' = known_outpoints st ∪ outpoints_of (concat blocks) ∧
  (∀ i, i ∈ seen_txids st' ↔ i ∈ seen_txids st ∨ i ∈ compute_txid <$> block_txs (known_outpoints st) blocks).
Proof.
  cbn zeta. revert st cp. induction items as [|item items IH]; intros st cp; cbn [fold_res matched_blocks omap list_omap].
  { intros [= <- <-] _ ? ?. cbn. rewrite app_nil_r. split_and!; [done..|set_solver|set_solver]. }
  intros ([st1 cp1] & He & H)%bind_Ok Hag Hrec Hnd. unfold scan_event in He.
  apply bind_Ok in He as (ev & Hev%map_err_Ok & He). subst item.
  destruct (ev_block ev) as [b|]; [|injection He as <- <-; by eapply IH].
  cbn [concat fst] in Hag, He |- *. injection He as <- <-. fold (matched_blocks items) in *.
  match type of H with fold_res _ (scan_two_passes _ ?m _ _, _) _ = _ =>
    destruct (scan_two_passes_spec m b st (txs (scan_update st))) as (new & Heq & Hl & Hn & Hin & Hc);
      [eapply txids_agree_sub, Hag; set_solver|done|] end.
  rewrite Heq in H. clear Heq. destruct Hrec as [Hseen Hrec].
  apply IH in H; cbn [known_outpoints seen_txids scan_update] in *; rewrite ?record_txs_txs in * by done.
  - destruct H as (Hr' & Hn' & Hs' & Hk' & Hi'). cbn [block_txs]. split_and!; [done..|set_solver| |].
    + rewrite Hk', outpoints_of_app. set_solver.
    + intros i. rewrite Hi', fmap_app, elem_of_app, elem_of_union, elem_of_list_to_set.
      assert (i ∈ compute_txid <$> new ∨ i ∈ seen_txids st ↔
        i ∈ seen_txids st ∨ i ∈ compute_txid <$> relevant_txs (known_outpoints st ∪ outpoints_of b) b) as Hx; [|tauto].
      rewrite (list_elem_of_fmap _ (relevant_txs _ _)). unfold relevant_txs. setoid_rewrite list_elem_of_filter. split.
      * intros [(tx & -> & Hx)%list_elem_of_fmap|?]; [right|by left]. exists tx. specialize (Hin tx Hx). set_solver.
      * intros [?|(tx & -> & Hr & Hx)]; [by right|auto].
  - eapply txids_agree_sub, Hag. set_solver.
  - split.
    + rewrite fmap_app, list_to_set_app_L, Hseen. set_solver.
    + rewrite outpoints_of_app. apply union_least; [set_solver|].
      intros op (tx & Htx & Ho)%elem_of_outpoints_of. apply elem_of_union_r, elem_of_outpoints_of. set_solver.
  - rewrite fmap_app. apply NoDup_app. split_and!; [done| |done].
    intros i Hi (y & -> & Hy)%list_elem_of_fmap. apply Hin in Hy as [Hy _]. rewrite Hseen in Hy. set_solver.
Qed.

(** The retrievable transactions of the mempool outside [seen]. *)
Definition pending_txs (seen : gset bytes) (mempool : list bytes) : list Transaction :=
  omap (λ i, if bool_decide (i ∈ seen) then None
             else match get_raw_transaction i with Ok tx => Some tx | _ => None end) mempool.

Lemma collect_pending_Ok seen mempool acc l :
  fold_res (λ pending txid,
      if bool_decide (txid ∈ seen) then Ok pending else
      o ← get_tx_optional txid;
      Ok (match o with Some tx => pending ++ [tx] | None => pending end)) acc mempool = Ok l →
  l = acc ++ pending_txs seen mempool.
Proof.
  revert acc. induction mempool as [|i mempool IH]; intros acc; cbn [fold_res pending_txs omap list_omap].
  { intros [= <-]. by rewrite app_nil_r. }
  intros (acc' & Ha & H%IH)%bind_Ok. rewrite H. clear H. case_bool_decide; [by injection Ha as <-|].
  apply bind_Ok in Ha as (o & Ho & [= <-]). unfold get_tx_optional in Ho.
  destruct (get_raw_transaction i) as [tx|e|]; [injection Ho as <-; by rewrite <-app_assoc| |done].
  repeat case_match; naive_solver.
Qed.
End ScanLaws.

(** ** Properties of the scan *)

Section ScanTheorems.
Context `{codec : Codec} `{rpc : RpcClient}.

(** What the client's documentation says of a node: a transaction is returned
    for its own txid, and the mempool lists a txid once. *)
Class NodeLaws : Prop := {
  raw_transaction_txid i tx : get_raw_transaction i = Ok tx → compute_txid tx = i;
  mempool_NoDup ids : get_raw_mempool = Ok ids → NoDup ids
}.
Context {laws : NodeLaws}.

Lemma pending_NoDup seen ids :
  NoDup ids → NoDup (compute_txid <$> pending_txs seen ids) ∧
  (∀ tx, tx ∈ pending_txs seen ids → compute_txid tx ∈ ids ∧ compute_txid tx ∉ seen).
Proof.
  assert (∀ tx, tx ∈ pending_txs seen ids → compute_txid tx ∈ ids ∧ compute_txid tx ∉ seen) as Hin.
  { intros tx. unfold pending_txs. rewrite list_elem_of_omap. intros (i & Hi & H).
    case_bool_decide; [done|]. destruct (get_raw_transaction i) eqn:E; simplify_eq.
    apply raw_transaction_txid in E as ->. done. }
  intros Hn. split; [|done]. clear Hin. induction Hn as [|i ids Hi Hn IH]; [constructor|]. unfold pending_txs in *.
  cbn [omap list_omap]. case_bool_decide; [done|]. destruct (get_raw_transaction i) as [tx|e|] eqn:E; [|done..].
  apply raw_transaction_txid in E. cbn. constructor; [|done]. rewrite E.
  intros (y & Hy & (j & Hj & H')%list_elem_of_omap)%list_elem_of_fmap. case_bool_decide; [done|].
  destruct (get_raw_transaction j) eqn:E'; simplify_eq. apply raw_transaction_txid in E'. congruence.
Qed.

Lemma txids_agree_pending l pending :
  txids_agree l → NoDup (compute_txid <$> pending) → (∀ tx, tx ∈ pending → compute_txid tx ∉ compute_txid <$> l) →
  txids_agree (l ++ pending).
Proof.
  intros Hl Hn Hp tx tx' [Hx|Hx]%elem_of_app [Hy|Hy]%elem_of_app He; [by apply Hl| | |].
  - destruct (Hp tx' Hy). rewrite <-He. by apply list_elem_of_fmap_2.
  - destruct (Hp tx Hx). rewrite He. by apply list_elem_of_fmap_2.
  - by rewrite (txid_inj pending tx tx').
Qed.

Lemma block_txs_sublist W K bs : block_txs W K bs `sublist_of` concat bs.
Proof. revert K. induction bs as [|b bs IH]; intros K; cbn; [done|]. apply sublist_app; [apply sublist_filter|apply IH]. Qed.

(** Two selections from a list of distinct txids with the same txids. *)
Lemma same_txids_perm l k k' :
  NoDup (compute_txid <$> l) → k ⊆ l → k' ⊆ l → NoDup k → NoDup k' →
  (∀ i, i ∈ compute_txid <$> k ↔ i ∈ compute_txid <$> k') → k ≡ₚ k'.
Proof.
  intros Hl Hk Hk' Hn Hn' Hi. apply NoDup_Permutation; [done..|].
  assert (∀ k k', k ⊆ l → k' ⊆ l → (∀ i, i ∈ compute_txid <$> k → i ∈ compute_txid <$> k') → k ⊆ k') as Hx;
    [|intros tx; split; apply Hx; try done; intros i; apply Hi].
  intros a b Ha Hb Hab tx Htx. pose proof (list_elem_of_fmap_2 compute_txid a tx Htx) as Hy.
  apply Hab, list_elem_of_fmap in Hy as (y & He & Hy).
  by rewrite (txid_inj l tx y) by auto.
Qed.

(** What was recorded of the blocks and of the mempool, put together. *)
Lemma scan_found W K recorded new blocks confirmed pending :
  NoDup (compute_txid <$> recorded) → NoDup (compute_txid <$> new) → NoDup (compute_txid <$> pending) →
  recorded ⊆ blocks → new ⊆ pending → confirmed `sublist_of` blocks →
  (∀ i, i ∈ compute_txid <$> recorded ↔ i ∈ compute_txid <$> confirmed) →
  (∀ tx, tx ∈ new → compute_txid tx ∉ compute_txid <$> recorded ∧ tx_is_relevant tx W K = true) →
  (∀ tx, tx ∈ pending → tx_is_relevant tx W K = true → compute_txid tx ∈ compute_txid <$> new) →
  let found := confirmed ++ relevant_txs W K pending in
  NoDup (compute_txid <$> recorded ++ new) ∧ recorded ++ new ⊆ blocks ++ pending ∧
  (∀ i, i ∈ compute_txid <$> recorded ++ new ↔ i ∈ compute_txid <$> found) ∧
  (NoDup (compute_txid <$> blocks) → recorded ++ new ≡ₚ found).
Proof.
  intros Hr Hn Hp Hrb Hnp Hcb Hi Hin Hc. cbn zeta.
  assert (∀ i, i ∈ compute_txid <$> new ↔ i ∈ compute_txid <$> relevant_txs W K pending) as Hj.
  { intros i. rewrite !list_elem_of_fmap. unfold relevant_txs. setoid_rewrite list_elem_of_filter. split.
    - intros (tx & -> & Hx). exists tx. split; [done|]. split; [by apply Hin|by apply Hnp].
    - intros (tx & -> & Hx & Hx'). apply list_elem_of_fmap. by apply Hc. }
  split_and!.
  - rewrite fmap_app. apply NoDup_app. split_and!; [done| |done]. intros i Hi' (y & -> & Hy)%list_elem_of_fmap. by apply Hin in Hy as [].
  - set_solver.
  - intros i. by rewrite !fmap_app, !elem_of_app, Hi, Hj.
  - intros Hb. apply Permutation_app.
    + apply (same_txids_perm blocks); [done..| |by eapply NoDup_fmap_1| |done].
      * intros x Hx. eapply elem_of_submseteq; [exact Hx|]. by apply sublist_submseteq.
      * eapply sublist_NoDup; [|exact Hcb]. by eapply NoDup_fmap_1.
    + apply (same_txids_perm pending); [done..| |by eapply NoDup_fmap_1|by eapply NoDup_filter, NoDup_fmap_1|done].
      intros x [_ Hx]%list_elem_of_filter. done.
Qed.

(** Where a scan starts. *)
Definition scan_start (chain_tip : option CheckPoint) : res ChainError CheckPoint :=
  match chain_tip with Some cp => Ok cp | None => genesis_checkpoint end.

(** C11: the scan returns exactly what it is meant to. A scan over a non-empty
    set of scripts that succeeds reports the txids of every transaction of the
    matched blocks that pays a watched script or spends an outpoint known at
    the start or created for the wallet up to that block, and of every mempool
    transaction not yet reported that does so for the outpoints of the blocks
    and of the whole mempool; no other txid, and each txid once, also when a
    block delivers a transaction again (after a reorganisation during the scan,
    for example). The transactions reported are those of the blocks and the
    mempool; when no txid comes twice in the blocks they are, up to order,
    exactly the ones described. Two passes over each list find them all, in
    whatever order the node lists them. Assumed of the blocks: two transactions
    with the same txid have the same outputs. *)
Theorem scan_complete spks tip start t known u cp ids :
  spks ≠ [] → scan_start tip = Ok start → get_raw_mempool = Ok ids →
  txids_agree (concat (matched_blocks (filter_iter start spks))) →
  scan_spks spks tip t known = Ok (u, cp) →
  let W := list_to_set spks : gset bytes in
  let blocks := matched_blocks (filter_iter start spks) in
  let confirmed := block_txs W known blocks in
  let pending := pending_txs (list_to_set (compute_txid <$> confirmed)) ids in
  let found := confirmed ++ relevant_txs W (known ∪ outpoints_of W (concat blocks) ∪ outpoints_of W pending) pending in
  NoDup (compute_txid <$> txs u) ∧ txs u ⊆ concat blocks ++ pending ∧
  (∀ i, i ∈ compute_txid <$> txs u ↔ i ∈ compute_txid <$> found) ∧
  (NoDup (compute_txid <$> concat blocks) → txs u ≡ₚ found).
Proof.
  intros Hne Hst Hm Hag H W. unfold scan_spks in H. fold (scan_start tip) in H. rewrite Hst in H.
  cbn [mbind res_bind] in H. destruct spks as [|s spks]; [done|]. cbn [length Nat.eqb] in H.
  apply bind_Ok in H as ([st c] & He & H). fold W in He, H. rewrite Hm in H. cbn [map_err mbind res_bind] in H.
  apply bind_Ok in H as (pend & Hp & [= <- <-]). cbn zeta.
  set (blocks := matched_blocks (filter_iter start (s :: spks))) in *.
  apply scan_events_spec in He as ([Hseen Hrec] & Hn & Hsub & Hk & Hi); [|done|by split; [done|set_solver]|constructor].
  fold blocks in Hi, Hk, Hsub. cbn [known_outpoints seen_txids scan_update txs TxUpdate_default app] in *.
  set (confirmed := block_txs W known blocks) in *.
  assert (seen_txids st = list_to_set (compute_txid <$> confirmed)) as Hsc by set_solver.
  apply collect_pending_Ok in Hp. cbn [app] in Hp. rewrite Hsc in Hp. subst pend.
  destruct (pending_NoDup (list_to_set (compute_txid <$> confirmed)) ids) as [Hpn Hps]; [by eapply mempool_NoDup|].
  set (pending := pending_txs _ ids) in *.
  destruct (scan_two_passes_spec W (mark_seen t) pending st (txs (scan_update st))) as (new & -> & Hl & Hnn & Hin & Hc).
  { apply txids_agree_pending; [eapply txids_agree_sub, Hag; set_solver|done|].
    intros tx Htx. rewrite <-(elem_of_list_to_set (C:=gset bytes)), <-Hseen, Hsc. by apply Hps. }
  { done. }
  cbn [scan_update]. rewrite record_txs_txs by done. rewrite Hk in *.
  assert (∀ i, i ∈ seen_txids st ↔ i ∈ compute_txid <$> txs (scan_update st)) as Hrs by set_solver.
  apply scan_found; try done; [apply block_txs_sublist|..].
  - intros i. rewrite <-Hrs, Hsc. apply elem_of_list_to_set.
  - intros tx Htx. rewrite <-Hrs. by apply Hin.
  - intros tx Htx Hr. destruct (Hc tx Htx Hr) as [|Hs]; [done|]. apply Hps in Htx as [_ Hx]. by rewrite Hsc in Hs.
Qed.
End ScanTheorems.

(** ** The stop gap *)

Section StopGap.
Context (probe : list bytes → res ChainError (gset bytes)) (gap : Z) (act : bytes → bool).
Implicit Types (spks pre : list (Z * bytes)) (s : Z * option Z).

(** The probe answers for every script of a batch whether it is active. *)
Definition probe_decides : Prop :=
  ∀ batch, ∃ active, probe batch = Ok active ∧ ∀ x, x ∈ batch → x ∈ active ↔ act x = true.

(** [batch_step] with the activity in place of the probed set. *)
Definition gap_step s (p : Z * bytes) : Z * option Z :=
  if act p.2 then (0, Some p.1) else (sat_add s.1 1, s.2).

Lemma batch_step_gap active s pre :
  (∀ x, x ∈ pre.*2 → x ∈ active ↔ act x = true) → foldl (batch_step active) s pre = foldl gap_step s pre.
Proof.
  revert s. induction pre as [|p pre IH]; intros s Ha; cbn; [done|].
  assert (batch_step active s p = gap_step s p) as ->.
  { unfold batch_step, gap_step. specialize (Ha p.2). destruct (act p.2).
    - by rewrite bool_decide_eq_true_2 by set_solver.
    - by rewrite bool_decide_eq_false_2 by set_solver. }
  apply IH. set_solver.
Qed.

(** The loop returns: it stops after a number [n] of scripts, at the end of the
    list or with [gap] unused scripts behind it, and had not seen as many one
    batch earlier. *)
Lemma keychain_loop_spec fuel spks s acc :
  probe_decides → 1 ≤ gap → (length spks < fuel)%nat →
  ∃ n m, keychain_loop probe gap fuel spks s acc =
      Ok (acc ++ (take n spks).*2, (foldl gap_step s (take n spks)).2) ∧
    (n ≤ length spks)%nat ∧ (n = length spks ∨ gap ≤ (foldl gap_step s (take n spks)).1) ∧
    (m ≤ n ≤ m + Z.to_nat gap)%nat ∧ (m = 0%nat ∨ (foldl gap_step s (take m spks)).1 < gap).
Proof.
  intros Hp Hg. revert spks s acc. induction fuel as [|fuel IH]; intros spks s acc Hf; [lia|].
  cbn [keychain_loop]. destruct (length (take (Z.to_nat gap) spks) =? 0)%nat eqn:E; bool_simp.
  { destruct spks; [|rewrite length_take in E; cbn in E; lia].
    exists 0%nat, 0%nat. cbn. rewrite app_nil_r. split_and!; auto; lia. }
  destruct (Hp ((take (Z.to_nat gap) spks).*2)) as (active & -> & Ha). cbn [mbind res_bind].
  rewrite batch_step_gap by done. set (s' := foldl gap_step s (take (Z.to_nat gap) spks)).
  destruct (Z.leb_spec gap s'.1).
  { exists (length (take (Z.to_nat gap) spks)), 0%nat. rewrite length_take.
    assert (take (Z.to_nat gap `min` length spks) spks = take (Z.to_nat gap) spks) as ->
      by (rewrite <-take_take; f_equal; apply take_ge; lia).
    split_and!; auto; lia. }
  destruct (IH (drop (Z.to_nat gap) spks) s' (acc ++ (take (Z.to_nat gap) spks).*2))
    as (n & m & -> & Hn & Hstop & Hm & Hnot).
  { rewrite length_drop, length_take in *. lia. }
  rewrite length_drop, length_take in *.
  destruct (decide (Z.to_nat gap ≤ length spks)%nat) as [Hle|Hle].
  - exists (Z.to_nat gap + n)%nat, (Z.to_nat gap + m)%nat.
    rewrite <-!take_take_drop, !foldl_app, fmap_app, app_assoc. fold s'.
    split_and!; [done|lia|destruct Hstop; [left; lia|by right]|lia..|].
    right. destruct Hnot as [->|?]; [|done]. by rewrite take_0.
  - assert (drop (Z.to_nat gap) spks = []) as Hd by (apply nil_length_inv; rewrite length_drop; lia).
    exists (length spks), 0%nat. rewrite Hd, !take_nil in *. cbn [foldl fmap list_fmap]. rewrite app_nil_r.
    assert (s' = foldl gap_step s spks) as -> by (unfold s'; by rewrite take_ge by lia).
    rewrite (take_ge spks), firstn_all by lia. split_and!; auto; lia.
Qed.

(** What the run of unused scripts says about the scripts passed: the last
    [unused] of them are inactive, and unless the counter saturated the one
    before is active. *)
Lemma gap_step_trailing pre :
  let u := (foldl gap_step (0, None) pre).1 in
  0 ≤ u ≤ Z.of_nat (length pre) ∧
  (∀ r p, pre !! r = Some p → Z.of_nat (length pre) - u ≤ Z.of_nat r → act p.2 = false) ∧
  (u = u64_max ∨ u = Z.of_nat (length pre) ∨
   ∃ r p, pre !! r = Some p ∧ act p.2 = true ∧ Z.of_nat r + 1 + u = Z.of_nat (length pre)).
Proof.
  cbn zeta. induction pre as [|p pre IH] using rev_ind; [cbn; split_and!; [lia..|done|auto]|].
  rewrite foldl_app, length_app. cbn [foldl length]. destruct IH as (Hu & Hin & Hlast).
  set (s := foldl gap_step (0, None) pre) in *.
  change (gap_step s p) with (if act p.2 then (0, Some p.1) else (sat_add s.1 1, s.2)). set (u := s.1) in *.
  destruct (act p.2) eqn:Ha; cbn [fst].
  - split_and!; [lia..| |].
    + intros r q Hr. apply lookup_lt_Some in Hr. rewrite length_app in Hr. cbn in Hr. lia.
    + right; right. exists (length pre), p. split_and!; [by rewrite lookup_app_r, Nat.sub_diag by lia|done|lia].
  - unfold sat_add, u64_max in *. split_and!; [lia..| |].
    + intros r q Hr Hge. apply lookup_app_Some in Hr as [Hr|[_ Hr]]; [apply (Hin r q Hr); lia|].
      by apply list_lookup_singleton_Some in Hr as [_ <-].
    + destruct (decide (u + 1 < 2 ^ 64 - 1)); [|left; lia].
      destruct Hlast as [?|[?|(r & q & Hr & Hq & He)]]; [lia|right; left; lia|].
      right; right. exists r, q. split_and!; [by apply lookup_app_l_Some|done|lia].
Qed.

Lemma gap_step_last pre s :
  (foldl gap_step s pre).2 = match last (filter (λ p, act p.2 = true) pre) with Some p => Some p.1 | None => s.2 end.
Proof.
  revert s. induction pre as [|p pre IH] using rev_ind; intros s; [done|].
  rewrite foldl_app, filter_app, filter_cons, filter_nil. cbn [foldl]. unfold gap_step at 1.
  destruct (act p.2) eqn:E; cbn [snd].
  - rewrite decide_True by done. by rewrite last_snoc.
  - rewrite decide_False, app_nil_r by congruence. apply IH.
Qed.

(** C24: the stop gap finds what it should. With a probe that decides activity,
    expanding one keychain returns a prefix of its scripts together with the
    index of the last active script of that prefix; and every active script
    that is not preceded by a full gap of unused ones lies in the prefix. *)
Theorem keychain_found spks :
  probe_decides → 1 ≤ gap →
  ∃ n, keychain_loop probe gap (S (length spks)) spks (0, None) [] =
      Ok ((take n spks).*2, fst <$> last (filter (λ p, act p.2 = true) (take n spks))) ∧
    ∀ k p, spks !! k = Some p → act p.2 = true →
      (∀ q, (q + Z.to_nat gap ≤ k)%nat →
        ∃ r p', (q ≤ r < q + Z.to_nat gap)%nat ∧ spks !! r = Some p' ∧ act p'.2 = true) →
      (k < n)%nat.
Proof.
  intros Hp Hg. destruct (keychain_loop_spec (S (length spks)) spks (0, None) [] Hp Hg) as (n & m & -> & Hn & Hs & _); [lia|].
  exists n. rewrite gap_step_last. split; [do 2 f_equal; by destruct (last _)|].
  intros k p Hk Ha Hw. destruct (decide (k < n)%nat) as [?|Hlt]; [done|exfalso].
  pose proof (lookup_lt_Some _ _ _ Hk) as Hkl. destruct Hs as [->|Hs]; [lia|].
  destruct (gap_step_trailing (take n spks)) as (Hu & Hin & _). rewrite length_take in *.
  destruct (Hw (n - Z.to_nat gap)%nat) as (r & p' & Hr & Hlr & Ha'); [lia|].
  rewrite (Hin r p') in Ha'; [done|by rewrite lookup_take_lt by lia|lia].
Qed.

(** C25: the expansion stops. The loop over an iterator of any length returns
    after at most two gaps beyond the last active script it passed (or beyond
    the start when it passed none), so an unbounded descriptor range is not
    walked. *)
Theorem keychain_bounded spks :
  probe_decides → 1 ≤ gap < u64_max →
  ∃ n l, keychain_loop probe gap (S (length spks)) spks (0, None) [] = Ok ((take n spks).*2, l) ∧
    (n ≤ length spks)%nat ∧
    (Z.of_nat n ≤ 2 * gap ∨
     ∃ k p, spks !! k = Some p ∧ act p.2 = true ∧ (k < n)%nat ∧ Z.of_nat n ≤ Z.of_nat k + 2 * gap).
Proof.
  intros Hp Hg. destruct (keychain_loop_spec (S (length spks)) spks (0, None) [] Hp) as (n & m & -> & Hn & _ & Hm & Hnot); [lia..|].
  exists n. eexists. split; [done|]. split; [done|]. destruct Hnot as [->|Hu]; [left; lia|].
  destruct (gap_step_trailing (take m spks)) as (Hu0 & _ & [H|[H|(r & p & Hr & Ha & He)]]).
  - lia.
  - left. rewrite length_take in *. lia.
  - right. exists r, p. pose proof (lookup_lt_Some _ _ _ Hr) as Hrl. rewrite length_take in *.
    rewrite lookup_take_lt in Hr by lia. split_and!; [done..|lia|lia].
Qed.
End StopGap.

(** ** Evictions *)

Section Evictions.
Context `{codec : Codec} `{rpc : RpcClient}.

Lemma scan_two_passes_evicted spks mark l st :
  (∀ i u, evicted_ats (mark i u) = evicted_ats u) →
  evicted_ats (scan_update (scan_two_passes spks mark l st)) = evicted_ats (scan_update st).
Proof.
  intros Hm. assert (∀ st, evicted_ats (scan_update (scan_pass spks mark l st)) = evicted_ats (scan_update st)) as Hp.
  { induction l as [|tx l IH]; intros st0; cbn; [done|]. unfold scan_pass in IH. rewrite IH.
    unfold scan_tx. repeat case_match; cbn; rewrite ?Hm; done. }
  unfold scan_two_passes. by rewrite !Hp.
Qed.

Lemma scan_spks_evicted spks tip t known u cp : scan_spks spks tip t known = Ok (u, cp) → evicted_ats u = ∅.
Proof.
  unfold scan_spks. intros (start & _ & H)%bind_Ok. case_match; [apply bind_Ok in H as (? & _ & [= <- <-]); done|].
  apply bind_Ok in H as ([st c] & He & H). apply bind_Ok in H as (ids & _ & H).
  apply bind_Ok in H as (pend & _ & [= <- <-]). rewrite scan_two_passes_evicted by done.
  assert (∀ items s s', fold_res (scan_event (list_to_set spks) t) s items = Ok s' →
    evicted_ats (scan_update s'.1) = evicted_ats (scan_update s.1)) as Hev; [|by apply Hev in He].
  clear. induction items as [|i items IH]; intros s s'; cbn [fold_res]; [by intros [= <-]|].
  intros (s1 & H1 & H)%bind_Ok. rewrite (IH _ _ H). unfold scan_event in H1.
  apply bind_Ok in H1 as (ev & _ & H1). case_match; injection H1 as <-; cbn [fst]; [|done].
  by apply scan_two_passes_evicted.
Qed.

Lemma get_tx_optional_Ok i o :
  get_tx_optional i = Ok o →
  match o with
  | Some tx => get_raw_transaction i = Ok tx
  | None => ∃ e, get_raw_transaction i = Err e ∧ is_not_found e = true
  end.
Proof.
  unfold get_tx_optional. destruct (get_raw_transaction i) as [tx|e|]; [by intros [= <-]| |done].
  destruct (is_not_found e) eqn:E; [intros [= <-]; eauto|]. by case_match.
Qed.

(** After the fetch, the absent expected transactions are those the node does
    not have. *)
Lemma fetch_expected_Ok spk_set ids known present :
  fetch_expected spk_set ids = Ok (known, present) →
  (∀ i, i ∈ ids → i ∈ present ∨ ∃ e, get_raw_transaction i = Err e ∧ is_not_found e = true) ∧
  (∀ i, i ∈ present → ∃ tx, get_raw_transaction i = Ok tx).
Proof.
  unfold fetch_expected. intros H.
  assert (∀ s, fold_res (fetch_one spk_set) s ids = Ok (known, present) → s.2 ⊆ present ∧
    (∀ i, i ∈ ids → i ∈ present ∨ ∃ e, get_raw_transaction i = Err e ∧ is_not_found e = true) ∧
    (∀ i, i ∈ present → i ∈ s.2 ∨ ∃ tx, get_raw_transaction i = Ok tx)) as Hs;
    [|apply Hs in H; set_solver]. clear H. induction ids as [|j ids IH]; intros s; cbn [fold_res]; [intros [= ->]; set_solver|].
  intros (s' & (o & Ho%get_tx_optional_Ok & [= <-])%bind_Ok & H)%bind_Ok.
  apply IH in H as (Hs & Hi & Hj). destruct o as [tx|]; cbn [snd] in Hs, Hj; (split; [set_solver|]).
  - split; [intros i [->|?]%elem_of_cons; [set_solver|auto]|].
    intros i [[->%elem_of_singleton|?]%elem_of_union|?]%Hj; eauto.
  - split; [intros i [->|?]%elem_of_cons; [by right|auto]|done].
Qed.

Lemma evict_missing_spec present t ids u i t' :
  (i, t') ∈ evicted_ats (evict_missing present t ids u) ↔
  (i, t') ∈ evicted_ats u ∨ t' = t ∧ i ∈ ids ∧ i ∉ present.
Proof.
  unfold evict_missing. revert u. induction ids as [|j ids IH]; intros u; cbn [foldl]; [set_solver|].
  rewrite IH. case_bool_decide; cbn; set_solver.
Qed.
Lemma evict_missing_txs present t ids u : txs (evict_missing present t ids u) = txs u.
Proof.
  unfold evict_missing. revert u. induction ids as [|j ids IH]; intros u; cbn [foldl]; [done|].
  rewrite IH. by case_bool_decide.
Qed.

Lemma lookup_txids_spec t ids s s' :
  fold_res (lookup_txid t) s ids = Ok s' →
  (∀ x, x ∈ evicted_ats s.1 → x ∈ evicted_ats s'.1) ∧ (∀ tx, tx ∈ txs s.1 → tx ∈ txs s'.1) ∧
  (∀ i t', (i, t') ∈ evicted_ats s'.1 → (i, t') ∈ evicted_ats s.1 ∨
    t' = t ∧ i ∈ ids ∧ ∃ e, get_raw_transaction_info i = Err e ∧ is_not_found e = true).
Proof.
  revert s. induction ids as [|j ids IH]; intros s; cbn [fold_res]; [intros [= <-]; naive_solver|].
  intros (s1 & H1 & H)%bind_Ok. apply IH in H as (He & Ht & Hi).
  assert ((∀ x, x ∈ evicted_ats s.1 → x ∈ evicted_ats s1.1) ∧ (∀ tx, tx ∈ txs s.1 → tx ∈ txs s1.1) ∧
    (∀ i t', (i, t') ∈ evicted_ats s1.1 → (i, t') ∈ evicted_ats s.1 ∨
      t' = t ∧ i = j ∧ ∃ e, get_raw_transaction_info i = Err e ∧ is_not_found e = true)) as (H2 & H3 & H4).
  { clear -H1. unfold lookup_txid in H1. destruct s as [u present].
    case_bool_decide; [by injection H1 as <-; naive_solver|].
    destruct (get_raw_transaction_info j) as [info|e|] eqn:E; [| |done].
    - apply bind_Ok in H1 as (tx & _ & H1). case_match; injection H1 as <-; cbn; set_solver.
    - destruct (is_not_found e) eqn:En; [|by case_match]. injection H1 as <-. cbn.
      split_and!; [set_solver..|]. intros i t' [[= -> ->]%elem_of_singleton|?]%elem_of_union; eauto 7. }
  split_and!; [naive_solver..|]. intros i t' [?%H4|?]%Hi; set_solver.
Qed.

Lemma lookup_outpoints_spec ops s s' :
  fold_res lookup_outpoint s ops = Ok s' →
  evicted_ats s'.1 = evicted_ats s.1 ∧ (∀ tx, tx ∈ txs s.1 → tx ∈ txs s'.1).
Proof.
  revert s. induction ops as [|op ops IH]; intros s; cbn [fold_res]; [by intros [= <-]|].
  intros (s1 & H1 & H)%bind_Ok. apply IH in H as (-> & Ht). unfold lookup_outpoint in H1. destruct s as [u present].
  case_bool_decide; [by injection H1 as <-|]. apply bind_Ok in H1 as ([tx|] & _ & H1); injection H1 as <-; [|done].
  cbn in *. case_match; cbn in *; set_solver.
Qed.

(** The parts of a successful sync. *)
Lemma core_sync_inv req u :
  core_sync req = Ok u →
  ∃ known present scanned chain u1 p1 u2 p2,
    let ids := expected_list (expected_map (sy_spks req)) in
    let present' := present ∪ list_to_set (compute_txid <$> txs scanned) in
    fetch_expected (list_to_set (item_spk <$> sy_spks req)) ids = Ok (known, present) ∧
    scan_spks (item_spk <$> sy_spks req) (sy_chain_tip req) (sy_start_time req)
      (known ∪ list_to_set (sy_outpoints req)) = Ok (scanned, chain) ∧
    fold_res (lookup_txid (sy_start_time req)) (evict_missing present' (sy_start_time req) ids scanned, present')
      (sy_txids req) = Ok (u1, p1) ∧
    fold_res lookup_outpoint (u1, p1) (sy_outpoints req) = Ok (u2, p2) ∧
    u = mkUpdate ∅ u2 chain.
Proof.
  unfold core_sync. intros ([known present] & H1 & H)%bind_Ok. apply bind_Ok in H as ([scanned chain] & H2 & H).
  apply bind_Ok in H as ([u1 p1] & H3 & H). apply bind_Ok in H as ([u2 p2] & H4 & [= <-]).
  by exists known, present, scanned, chain, u1, p1, u2, p2.
Qed.

(** C23: an eviction means that the node does not have the transaction. A
    successful sync reports a txid as evicted only at its start time, and only
    if it was an expected transaction or an explicitly requested one, and the
    node answered for it with its genuine "not found"; an answer that the node
    merely cannot look it up never evicts. *)
Theorem eviction_sound req u i t :
  core_sync req = Ok u → (i, t) ∈ evicted_ats (up_tx_update u) →
  t = sy_start_time req ∧
  ((i ∈ expected_list (expected_map (sy_spks req)) ∧
    ∃ e, get_raw_transaction i = Err e ∧ is_not_found e = true ∧ is_lookup_unavailable e = false) ∨
   (i ∈ sy_txids req ∧
    ∃ e, get_raw_transaction_info i = Err e ∧ is_not_found e = true ∧ is_lookup_unavailable e = false)).
Proof.
  intros (known & present & scanned & chain & u1 & p1 & u2 & p2 & H1 & H2 & H3 & H4 & ->)%core_sync_inv. cbn.
  assert (∀ e, is_not_found e = true → is_lookup_unavailable e = false) as Hx.
  { intros e. unfold is_not_found, is_lookup_unavailable. repeat case_match; try done. by intros ->%negb_true_iff. }
  apply lookup_outpoints_spec in H4 as [He _]. cbn in He. rewrite He.
  apply lookup_txids_spec in H3 as (_ & _ & Hi). intros [H|(-> & Hr & e & Hg & Hn)]%Hi; [|eauto 10].
  cbn in H. apply evict_missing_spec in H as [H|(-> & Hx' & Hp)].
  - erewrite scan_spks_evicted in H by done. set_solver.
  - split; [done|]. left. split; [done|].
    apply fetch_expected_Ok in H1 as [H1 _]. destruct (H1 i Hx') as [?|(e & ? & ?)]; [set_solver|eauto].
Qed.

(** No vanished transaction is kept. If a sync succeeds, every expected
    txid for which the node returns an error, and that is not among the
    transactions the sync reports, is reported as evicted. *)
Lemma eviction_complete req u i e :
  core_sync req = Ok u → i ∈ expected_list (expected_map (sy_spks req)) →
  get_raw_transaction i = Err e → i ∉ compute_txid <$> txs (up_tx_update u) →
  (i, sy_start_time req) ∈ evicted_ats (up_tx_update u).
Proof.
  intros (known & present & scanned & chain & u1 & p1 & u2 & p2 & H1 & H2 & H3 & H4 & ->)%core_sync_inv Hx He Hn.
  cbn in *. apply lookup_outpoints_spec in H4 as [Hev Ht]. apply lookup_txids_spec in H3 as (Hk & Ht' & _).
  cbn in Hev, Ht, Hk, Ht'. rewrite Hev. apply Hk, evict_missing_spec. right. split; [done|]. split; [done|].
  rewrite evict_missing_txs in Ht'. intros [Hp|Hp]%elem_of_union.
  - apply fetch_expected_Ok in H1 as [_ H1]. apply H1 in Hp as [tx Hp]. congruence.
  - apply Hn. apply elem_of_list_to_set, list_elem_of_fmap in Hp as (tx & -> & Htx).
    by apply list_elem_of_fmap_2, Ht, Ht'.
Qed.

(** A lookup the node cannot answer fails loudly: if an expected transaction
    exists only behind a missing index, the sync ends with an error before
    anything is scanned or evicted. *)
Lemma sync_fails_loud req i e :
  i ∈ expected_list (expected_map (sy_spks req)) →
  get_raw_transaction i = Err e → is_not_found e = false → ∀ u, core_sync req ≠ Ok u.
Proof.
  intros Hx He Hf u (known & present & scanned & chain & u1 & p1 & u2 & p2 & H1 & _)%core_sync_inv.
  apply fetch_expected_Ok in H1 as [H1 H2]. destruct (H1 i Hx) as [[tx Hp]%H2|(e' & He' & Hn)]; congruence.
Qed.

(** ** Fee estimates *)

(** Every recorded feerate is positive and belongs to a requested target. *)
Lemma core_fee_estimates_positive f t r :
  core_fee_estimates = Ok f → (t, r) ∈ sat_per_vb_by_target_blocks f → 0 < r ∧ t ∈ FEE_TARGETS.
Proof.
  unfold core_fee_estimates. intros (n & _ & Hf)%bind_Ok. injection Hf as <-.
  change (sat_per_vb_by_target_blocks _) with (foldl core_fee_step [] FEE_TARGETS).
  assert (∀ l m, (∀ t r, (t, r) ∈ m → 0 < r ∧ t ∈ FEE_TARGETS) → (∀ x, x ∈ l → x ∈ FEE_TARGETS) →
    (t, r) ∈ foldl core_fee_step m l → 0 < r ∧ t ∈ FEE_TARGETS) as Hl; [|apply Hl; [set_solver|done]].
  induction l as [|x l IH]; intros m Hm Hx; cbn [foldl]; [apply Hm|]. apply IH; [|set_solver].
  intros t' r'. unfold core_fee_step. repeat case_match; try apply Hm. bool_simp.
  intros [[-> ->]|?]%bmap_insert_elem; [split; [done|set_solver]|by apply Hm].
Qed.
End Evictions.
