(* ===== verification/Electrum.v ===== *)
(** [trinity-chain/src/electrum.rs]: the Electrum backend.

    [bdk_electrum]'s client is the class [ElectrumClient], which [ElectrumSync]
    instantiates with the model of that client; its error type is
    the vendored one, with the texts of wrapped errors as they print. Feerates
    arrive as [f64]: they are [spec_float]s of 53 bits, multiplied and compared
    by IEEE 754 as the Standard Library's [SpecFloat] defines it; [f64::round]
    and the cast to [u64] are written out. *)
From Stdlib Require Import SpecFloat.
From S2P Require Import Prelude Ordered Types Bitcoin Parse Text Checkpoint Chain.

Definition ELECTRUM_STOP_GAP : Z := 20.
Definition ELECTRUM_BATCH_SIZE : Z := 20.
Definition FEE_TARGETS_BLOCKS : list Z := [1; 3; 6; 144].

(** ** Configuration *)

Record Socks5Proxy := mkSocks5Proxy { socks_addr : bytes; socks_credentials : option (bytes * bytes) }.
Definition Socks5Proxy_new (addr : bytes) : Socks5Proxy := mkSocks5Proxy addr None.

(** [s.replacen(pat, "", 1)] for a non-empty pattern. *)
Fixpoint remove_first (pat s : bytes) : bytes :=
  match strip_prefix pat s with
  | Some r => r
  | None => match s with [] => [] | c :: s => c :: remove_first pat s end
  end.

(** The vendored [Socks5Config] and [Config]. *)
Record Socks5Config := mkSocks5Config { s5_addr : bytes; s5_credentials : option (bytes * bytes) }.
Definition Socks5Config_new (addr : bytes) : Socks5Config := mkSocks5Config (remove_first (str "socks5://") addr) None.
Definition Socks5Config_with_credentials (addr username password : bytes) : Socks5Config :=
  mkSocks5Config (s5_addr (Socks5Config_new addr)) (Some (username, password)).
Record ClientConfig := mkClientConfig {
  cc_socks5 : option Socks5Config;
  cc_timeout : option Z;
  cc_retry : Z;
  cc_validate_domain : bool
}.

Definition to_electrum (p : Socks5Proxy) : Socks5Config :=
  match socks_credentials p with
  | Some (user, pass) => Socks5Config_with_credentials (socks_addr p) user pass
  | None => Socks5Config_new (socks_addr p)
  end.

(** Durations are in milliseconds. *)
Record ElectrumConfig := mkElectrumConfig {
  host : bytes;
  port : Z;
  use_tls : bool;
  tls_pin : option bytes;
  socks5 : option Socks5Proxy;
  own_server : bool;
  el_stop_gap : Z;
  batch_size : Z;
  timeout : option Z;
  retry : Z;
  validate_domain : bool;
  fetch_prev_txouts : bool
}.

Definition ElectrumConfig_new (host : bytes) (port : Z) : ElectrumConfig :=
  mkElectrumConfig host port false None None true ELECTRUM_STOP_GAP ELECTRUM_BATCH_SIZE (Some 30000) 1 true false.
Definition regtest_electrs : ElectrumConfig :=
  let c := ElectrumConfig_new (str "127.0.0.1") 60401 in
  mkElectrumConfig (host c) (port c) false (tls_pin c) (socks5 c) true (el_stop_gap c) (batch_size c)
    (Some 10000) 0 (validate_domain c) (fetch_prev_txouts c).
Definition set_own_server (own : bool) (c : ElectrumConfig) : ElectrumConfig :=
  mkElectrumConfig (host c) (port c) (use_tls c) (tls_pin c) (socks5 c) own (el_stop_gap c) (batch_size c)
    (timeout c) (retry c) (validate_domain c) (fetch_prev_txouts c).
Definition third_party (c : ElectrumConfig) : ElectrumConfig := set_own_server false c.
Definition config_own_server (c : ElectrumConfig) : ElectrumConfig := set_own_server true c.
Definition with_tls (pin : option bytes) (c : ElectrumConfig) : ElectrumConfig :=
  mkElectrumConfig (host c) (port c) true pin (socks5 c) (own_server c) (el_stop_gap c) (batch_size c)
    (timeout c) (retry c) (validate_domain c) (fetch_prev_txouts c).
Definition with_socks5 (proxy : Socks5Proxy) (c : ElectrumConfig) : ElectrumConfig :=
  mkElectrumConfig (host c) (port c) (use_tls c) (tls_pin c) (Some proxy) (own_server c) (el_stop_gap c) (batch_size c)
    (timeout c) (retry c) (validate_domain c) (fetch_prev_txouts c).

Definition server_url (c : ElectrumConfig) : bytes :=
  let scheme := if use_tls c then str "ssl" else str "tcp" in
  scheme ++ str "://" ++ host c ++ str ":" ++ dec (port c).

Definition config_validate (c : ElectrumConfig) : res ChainError unit :=
  if bool_decide (trim (host c) = []) then Err (ChOther (str "electrum host must not be empty")) else
  if bool_decide (is_Some (tls_pin c)) && negb (use_tls c)
  then Err (ChOther (str "tls_pin requires use_tls (ssl connection)")) else
  if el_stop_gap c =? 0 then Err (ChOther (str "stop_gap must be >= 1")) else
  if batch_size c =? 0 then Err (ChOther (str "batch_size must be >= 1")) else
  Ok tt.

Definition electrum_config (c : ElectrumConfig) : ClientConfig :=
  mkClientConfig (to_electrum <$> socks5 c) (timeout c) (retry c) (validate_domain c).

(** ** Errors *)

(** The vendored [electrum_client::Error]; a wrapped error is its text. *)
Inductive ElectrumError :=
  | EIOError (text : bytes)
  | EJSON (text : bytes)
  | EHex (text : bytes)
  | EProtocol (value : bytes)
  | EBitcoin (text : bytes)
  | EAlreadySubscribed (script_hash : bytes)
  | ENotSubscribed (script_hash : bytes)
  | EInvalidResponse (value : bytes)
  | EMessage (text : bytes)
  | EInvalidDNSNameError (domain : bytes)
  | EMissingDomain
  | EAllAttemptsErrored (errors : list ElectrumError)
  | ESharedIOError (text : bytes)
  | ECouldntLockReader
  | EMpsc
  | ECouldNotCreateConnection (text : bytes).

(** [impl Display for Error] *)
Fixpoint error_text (err : ElectrumError) : bytes :=
  match err with
  | EIOError e | EJSON e | EHex e | EBitcoin e | ESharedIOError e | ECouldNotCreateConnection e | EMessage e => e
  | EInvalidDNSNameError domain => str "Invalid domain name " ++ domain ++ str " not matching SSL certificate"
  | EAllAttemptsErrored errors =>
      str "Made one or multiple attempts, all errored:" ++ [10] ++
      concat (map (λ e, [9] ++ str "- " ++ error_text e ++ [10]) errors)
  | EProtocol v => str "Electrum server error: " ++ v
  | EInvalidResponse v => str "Error during the deserialization of a response from the server: " ++ v
  | EAlreadySubscribed _ => str "Already subscribed to the notifications of an address"
  | ENotSubscribed _ => str "Not subscribed to the notifications of an address"
  | EMissingDomain => str "Missing domain while it was explicitly asked to validate it"
  | ECouldntLockReader => str "Couldn't take a lock on the reader mutex. This means that there's already another reader thread is running"
  | EMpsc => str "Broken IPC communication channel: the other thread probably has exited"
  end.

Definition is_transport_error (err : ElectrumError) : bool :=
  match err with
  | EIOError _ | ESharedIOError _ | EAllAttemptsErrored _ | ECouldNotCreateConnection _
  | EInvalidDNSNameError _ | EMissingDomain => true
  | _ => false
  end.

(** [parts.join(sep)] *)
Fixpoint join_parts (sep : bytes) (parts : list bytes) : bytes :=
  match parts with
  | [] => []
  | [p] => p
  | p :: ps => p ++ sep ++ join_parts sep ps
  end.

Definition map_electrum_error (err : ElectrumError) : ChainError :=
  if is_transport_error err then
    ChNetwork (match err with
               | EAllAttemptsErrored errs => str "all attempts failed: " ++ join_parts (str "; ") (map error_text errs)
               | other => error_text other
               end)
  else
  match err with
  | EProtocol v | EInvalidResponse v => ChProtocol v
  | EJSON e => ChProtocol (str "json: " ++ e)
  | EBitcoin e => ChProtocol (str "bitcoin decode: " ++ e)
  | EHex e => ChProtocol (str "hex: " ++ e)
  | EMessage m =>
      if contains (str "cannot find agreement") m || contains (str "connect") m then ChNetwork m else ChOther m
  | EAlreadySubscribed _ | ENotSubscribed _ | ECouldntLockReader | EMpsc => ChUnavailable (error_text err)
  | other => ChOther (error_text other)
  end.

Definition map_broadcast_error (err : ElectrumError) : ChainError :=
  if is_transport_error err then map_electrum_error err else ChBroadcast (error_text err).

(** ** [f64] *)

Definition f64 (z : Z) : spec_float := binary_normalize 53 1024 z 0 false.
Definition is_finite (x : spec_float) : bool :=
  match x with S754_zero _ | S754_finite _ _ _ => true | _ => false end.

(** The magnitude [m * 2^e] rounded to an integer, half away from zero. *)
Definition round_mag (m : positive) (e : Z) : Z :=
  if 0 <=? e then Zpos m * 2 ^ e else (2 * Zpos m + 2 ^ (- e)) / 2 ^ (1 - e).
(** [f64::round] *)
Definition f64_round (x : spec_float) : spec_float :=
  match x with
  | S754_finite s m e => binary_normalize 53 1024 (cond_Zopp s (round_mag m e)) 0 s
  | _ => x
  end.
(** [x as u64]: truncated, saturating; NaN is 0. *)
Definition f64_as_u64 (x : spec_float) : Z :=
  match x with
  | S754_finite false m e => Z.min (if 0 <=? e then Zpos m * 2 ^ e else Zpos m / 2 ^ (- e)) u64_max
  | S754_infinity false => u64_max
  | _ => 0
  end.

Definition btc_per_kb_to_sat_per_vb (btc_per_kb : spec_float) : option Z :=
  if negb (is_finite btc_per_kb) || SFltb btc_per_kb (f64 0) then None else
  let sat := f64_round (SFmul 53 1024 btc_per_kb (f64 100000)) in
  if SFltb sat (f64 0) || SFltb (f64 u64_max) sat then None else
  Some (f64_as_u64 sat).

(** ** The backend *)

Record FullScanResponse := mkFullScanResponse {
  fsr_tx_update : TxUpdate;
  fsr_last_active_indices : gmap KeychainKind Z;
  fsr_chain_update : option CheckPoint
}.
Record SyncResponse := mkSyncResponse { syr_tx_update : TxUpdate; syr_chain_update : option CheckPoint }.
(** [impl From<FullScanResponse> for Update], [From<SyncResponse>] *)
Definition update_of_full_scan (r : FullScanResponse) : Update :=
  mkUpdate (fsr_last_active_indices r) (fsr_tx_update r) (fsr_chain_update r).
Definition update_of_sync (r : SyncResponse) : Update := mkUpdate ∅ (syr_tx_update r) (syr_chain_update r).

Class ElectrumClient := {
  client_from_config : bytes → ClientConfig → res ElectrumError unit;
  (** request, stop gap, batch size, fetch previous outputs *)
  client_full_scan : FullScanRequest → Z → Z → bool → res ElectrumError FullScanResponse;
  client_sync : SyncRequest → Z → bool → res ElectrumError SyncResponse;
  transaction_broadcast : Transaction → res ElectrumError bytes;
  (** BTC per kB for a target *)
  estimate_fee : Z → res ElectrumError spec_float;
  (** the height of the subscribed header, a [usize] *)
  block_headers_subscribe : res ElectrumError Z
}.

Section Backend.
Context `{client : ElectrumClient}.

Record ElectrumBackend := mkElectrumBackend { el_config : ElectrumConfig }.

Definition electrum_connect (config : ElectrumConfig) : res ChainError ElectrumBackend :=
  _ ← config_validate config;
  let url := server_url config in
  let ecfg := electrum_config config in
  _ ← map_err map_electrum_error (client_from_config url ecfg);
  Ok (mkElectrumBackend config).

Definition electrum_full_scan (b : ElectrumBackend) (req : FullScanRequest) : res ChainError Update :=
  response ← map_err map_electrum_error
    (client_full_scan req (el_stop_gap (el_config b)) (batch_size (el_config b)) (fetch_prev_txouts (el_config b)));
  Ok (update_of_full_scan response).
Definition electrum_sync (b : ElectrumBackend) (req : SyncRequest) : res ChainError Update :=
  response ← map_err map_electrum_error
    (client_sync req (batch_size (el_config b)) (fetch_prev_txouts (el_config b)));
  Ok (update_of_sync response).
Definition electrum_broadcast (tx : Transaction) : res ChainError bytes :=
  map_err map_broadcast_error (transaction_broadcast tx).

Definition electrum_fee_step (targets : list (Z * Z)) (blocks : Z) : res ChainError (list (Z * Z)) :=
  btc_per_kb ← map_err map_electrum_error (estimate_fee blocks);
  Ok (match btc_per_kb_to_sat_per_vb btc_per_kb with
      | Some sat_vb => targets ++ [(blocks, sat_vb)]
      | None => targets
      end).
Definition electrum_fee_estimates : res ChainError FeeEstimates :=
  targets ← fold_res electrum_fee_step [] FEE_TARGETS_BLOCKS;
  Ok (from_targets targets).

Definition electrum_tip_height : res ChainError Z :=
  height ← map_err map_electrum_error block_headers_subscribe;
  Ok (height mod 2 ^ 32).

Definition electrum_privacy_profile (b : ElectrumBackend) : PrivacyProfile :=
  if own_server (el_config b) then electrum_own_server else electrum_third_party.

Definition electrum_backend : ChainBackend ElectrumBackend :=
  mkBackend (λ req b, (b, electrum_full_scan b req)) (λ req b, (b, electrum_sync b req))
    (λ tx b, (b, electrum_broadcast tx)) (λ b, (b, electrum_fee_estimates)) (λ b, (b, electrum_tip_height))
    electrum_privacy_profile.
End Backend.

(** ** Feerates *)

Lemma f64_as_u64_range x : is_u64 (f64_as_u64 x).
Proof.
  unfold f64_as_u64, is_u64, u64_max.
  assert (∀ m e, 0 ≤ (if 0 <=? e then Zpos m * 2 ^ e else Zpos m / 2 ^ (- e))) as Hp.
  { intros m e. destruct (Z.leb_spec 0 e); [pose proof (Z.pow_pos_nonneg 2 e); nia|].
    apply Z.div_pos; [lia|]. apply Z.pow_pos_nonneg; lia. }
  destruct x as [[]|[]| |[] m e]; try lia. specialize (Hp m e). lia.
Qed.

(** "No estimate" is any negative or non-finite answer; everything else is a
    [u64] or too large to be one. *)
Lemma btc_per_kb_spec x r :
  btc_per_kb_to_sat_per_vb x = Some r → is_u64 r ∧ is_finite x = true ∧ SFltb x (f64 0) = false.
Proof.
  unfold btc_per_kb_to_sat_per_vb. case_match eqn:E; [done|]. bool_simp. case_match; [done|]. intros [= <-].
  split; [apply f64_as_u64_range|done].
Qed.

(** The closest double to each whole rate of up to 40 sat/vB, in BTC per kB,
    converts back to that rate. *)
Example btc_per_kb_whole :
  forallb (λ k, bool_decide (btc_per_kb_to_sat_per_vb (SFdiv 53 1024 (f64 (Z.of_nat k)) (f64 100000)) = Some (Z.of_nat k)))
    (seq 0 41) = true.
Proof. vm_compute. reflexivity. Qed.

Section Laws.
Context `{client : ElectrumClient}.

Lemma filter_key_none {V} (l : list (Z * V)) k : k ∉ l.*1 → filter (λ p, p.1 = k) l = [].
Proof.
  induction l as [|p l IH]; [done|]. rewrite fmap_cons, not_elem_of_cons. intros [Hk Hl].
  rewrite filter_cons, decide_False by congruence. by apply IH.
Qed.

Lemma electrum_fee_step_spec l acc targets t :
  fold_res electrum_fee_step acc l = Ok targets → NoDup l →
  (t ∈ l → t ∉ acc.*1 → ∃ x, estimate_fee t = Ok x ∧
    filter (λ p, p.1 = t) targets = match btc_per_kb_to_sat_per_vb x with Some r => [(t, r)] | None => [] end) ∧
  (t ∉ l → filter (λ p, p.1 = t) targets = filter (λ p, p.1 = t) acc).
Proof.
  revert acc. induction l as [|b l IH]; intros acc; cbn [fold_res]; [intros [= <-]; set_solver|].
  intros (acc' & (x & Hx%map_err_Ok & [= Ha])%bind_Ok & H)%bind_Ok [Hb Hn]%NoDup_cons.
  destruct (IH acc' H Hn) as [IH1 IH2]. clear IH H. split.
  - intros [->|Ht]%elem_of_cons Hacc.
    + exists x. split; [done|]. rewrite IH2 by done. subst acc'.
      pose proof (filter_key_none acc b Hacc) as Hf.
      destruct (btc_per_kb_to_sat_per_vb x); [|done]. rewrite filter_app, Hf, filter_cons, decide_True by done. done.
    + apply IH1; [done|]. subst acc'. case_match; [|done]. rewrite fmap_app. set_solver.
  - intros [Ht ?]%not_elem_of_cons. rewrite IH2 by done. subst acc'. case_match; [|done].
    rewrite filter_app, filter_cons, decide_False by (cbn; congruence). by rewrite filter_nil, app_nil_r.
Qed.

(** The fee estimates are the server's. When the backend returns estimates,
    the server answered for every requested target, and the estimate of a
    target is that answer converted to sat/vB, absent exactly when the answer
    means "no estimate" or does not fit; no other target is present. *)
Lemma electrum_fees_exact f t :
  electrum_fee_estimates = Ok f →
  (t ∈ FEE_TARGETS_BLOCKS → ∃ x, estimate_fee t = Ok x ∧ sat_per_vb_for f t = btc_per_kb_to_sat_per_vb x) ∧
  (t ∉ FEE_TARGETS_BLOCKS → sat_per_vb_for f t = None).
Proof.
  unfold electrum_fee_estimates. intros (targets & H & Hf)%bind_Ok. injection Hf as <-.
  assert (NoDup FEE_TARGETS_BLOCKS) as Hn by (apply (bool_decide_eq_true_1 _); reflexivity).
  destruct (electrum_fee_step_spec _ _ _ t H Hn) as [H1 H2]. rewrite from_targets_lookup. split.
  - intros Ht. destruct (H1 Ht) as (x & Hx & ->); [set_solver|]. exists x. split; [done|]. by case_match.
  - intros Ht. by rewrite H2.
Qed.

(** A failed announcement is classified by its cause. If the transport
    failed the error is [Network]; in every other case the server refused, and
    the error is [Broadcast] with the server's text. *)
Lemma electrum_broadcast_errors tx err :
  electrum_broadcast tx = Err err →
  ∃ e, transaction_broadcast tx = Err e ∧
    (if is_transport_error e then ∃ m, err = ChNetwork m else err = ChBroadcast (error_text e)).
Proof.
  unfold electrum_broadcast. intros (e & He & ->)%map_err_Err. exists e. split; [done|].
  unfold map_broadcast_error. destruct (is_transport_error e) eqn:E; [|done].
  unfold map_electrum_error. rewrite E. eauto.
Qed.

(** What a connection stands for. Connecting succeeds exactly when the host
    is not blank, a certificate pin comes with TLS, both sizes are positive and
    the client opens the configured URL; and the user is warned about the
    backend exactly when the server is not their own. *)
Lemma electrum_connect_spec c b :
  electrum_connect c = Ok b ↔
  b = mkElectrumBackend c ∧ trim (host c) ≠ [] ∧ (is_Some (tls_pin c) → use_tls c = true) ∧
  el_stop_gap c ≠ 0 ∧ batch_size c ≠ 0 ∧ client_from_config (server_url c) (electrum_config c) = Ok tt ∧
  requires_selection_warning (electrum_privacy_profile b) = negb (own_server c).
Proof.
  unfold electrum_connect. split.
  - intros ([] & Hv & ([] & Hc%map_err_Ok & [= <-])%bind_Ok)%bind_Ok. unfold config_validate in Hv.
    if_inv Hv E1. if_inv Hv E2. if_inv Hv E3. if_inv Hv E4. bool_simp. split_and!; try done.
    + intros Hs. rewrite bool_decide_eq_true_2 in E2 by done. by destruct (use_tls c).
    + unfold electrum_privacy_profile. cbn. by destruct (own_server c).
  - intros (-> & H1 & H2 & H3 & H4 & H5 & _). unfold config_validate.
    rewrite bool_decide_eq_false_2 by done.
    assert (bool_decide (is_Some (tls_pin c)) && negb (use_tls c) = false) as ->.
    { case_bool_decide; [by rewrite H2|done]. }
    rewrite (proj2 (Z.eqb_neq _ _) H3), (proj2 (Z.eqb_neq _ _) H4). cbn [mbind res_bind]. by rewrite H5.
Qed.
End Laws.
