(* ===== verification/Cbf.v ===== *)
(** [trinity-chain/src/cbf.rs]: the compact-filter backend.

    The bip157 node is the class [CbfNode]: the events it emits for given
    options, its answers to requests, and how the worker thread that drives it
    ends. BDK's transaction graph is the class [TxGraph]; its script index, on
    which the backend's own code works, is translated. [Handoff] below is the
    concurrent part: the worker (its event loop, [run_ready_op], and the points
    where it may hang or die) and the caller with its deadline, as step
    relations and their interleaving. *)
From S2P Require Import Prelude Ordered Types Bitcoin Parse Text Checkpoint Chain.

Definition DEFAULT_OP_TIMEOUT : Z := 120000.
Definition DEFAULT_FULL_SCAN_SCRIPT_LIMIT : Z := 200.
Definition REORG_WALKBACK : nat := 7.

(** ** Configuration *)

(** A socket address, as [TrustedPeer] keeps it. *)
Record TrustedPeer := mkPeer { peer_address : bytes; peer_port : option Z }.

(** Durations are in milliseconds. *)
Record CbfConfig := mkCbfConfig {
  cbf_network : Network;
  peers : list TrustedPeer;
  whitelist_only : bool;
  required_peers : Z;
  data_dir : option bytes;
  socks5_proxy : option bytes;
  handshake_timeout : option Z;
  response_timeout : option Z;
  operation_timeout : Z;
  full_scan_script_limit : Z
}.

Definition regtest_peer (addr : bytes * Z) : CbfConfig :=
  mkCbfConfig Regtest [mkPeer addr.1 (Some addr.2)] true 1 None None (Some 5000) (Some 10000)
    DEFAULT_OP_TIMEOUT DEFAULT_FULL_SCAN_SCRIPT_LIMIT.
Definition CbfConfig_new (network : Network) : CbfConfig :=
  mkCbfConfig network [] false 1 None None None None DEFAULT_OP_TIMEOUT DEFAULT_FULL_SCAN_SCRIPT_LIMIT.
Definition set_peers (l : list TrustedPeer) (c : CbfConfig) : CbfConfig :=
  mkCbfConfig (cbf_network c) l (whitelist_only c) (required_peers c) (data_dir c) (socks5_proxy c)
    (handshake_timeout c) (response_timeout c) (operation_timeout c) (full_scan_script_limit c).
Definition peer (p : TrustedPeer) (c : CbfConfig) : CbfConfig := set_peers (peers c ++ [p]) c.
Definition peer_ip (ip : bytes) (port : Z) (c : CbfConfig) : CbfConfig := set_peers (peers c ++ [mkPeer ip (Some port)]) c.
Definition config_whitelist_only (c : CbfConfig) : CbfConfig :=
  mkCbfConfig (cbf_network c) (peers c) true (required_peers c) (data_dir c) (socks5_proxy c)
    (handshake_timeout c) (response_timeout c) (operation_timeout c) (full_scan_script_limit c).
Definition config_data_dir (path : bytes) (c : CbfConfig) : CbfConfig :=
  mkCbfConfig (cbf_network c) (peers c) (whitelist_only c) (required_peers c) (Some path) (socks5_proxy c)
    (handshake_timeout c) (response_timeout c) (operation_timeout c) (full_scan_script_limit c).
Definition config_socks5_proxy (proxy : bytes) (c : CbfConfig) : CbfConfig :=
  mkCbfConfig (cbf_network c) (peers c) (whitelist_only c) (required_peers c) (data_dir c) (Some proxy)
    (handshake_timeout c) (response_timeout c) (operation_timeout c) (full_scan_script_limit c).
Definition config_required_peers (n : Z) (c : CbfConfig) : CbfConfig :=
  mkCbfConfig (cbf_network c) (peers c) (whitelist_only c) n (data_dir c) (socks5_proxy c)
    (handshake_timeout c) (response_timeout c) (operation_timeout c) (full_scan_script_limit c).
Definition config_operation_timeout (t : Z) (c : CbfConfig) : CbfConfig :=
  mkCbfConfig (cbf_network c) (peers c) (whitelist_only c) (required_peers c) (data_dir c) (socks5_proxy c)
    (handshake_timeout c) (response_timeout c) t (full_scan_script_limit c).
Definition config_full_scan_script_limit (limit : Z) (c : CbfConfig) : CbfConfig :=
  mkCbfConfig (cbf_network c) (peers c) (whitelist_only c) (required_peers c) (data_dir c) (socks5_proxy c)
    (handshake_timeout c) (response_timeout c) (operation_timeout c) (Z.max limit 1).

(** ** The script index, vendored [spk_txout.rs] *)

Notation SpkIx := (KeychainKind * Z)%type.

(** [spk_txouts] is the set the backend reads through [outpoints()]. *)
Record SpkTxOutIndex := mkSpkIndex {
  ix_spks : gmap SpkIx bytes;
  spk_indices : gmap bytes SpkIx;
  ix_txouts : gmap OutPoint (SpkIx * TxOut);
  spk_txouts : gset (SpkIx * OutPoint)
}.
Definition SpkTxOutIndex_default : SpkTxOutIndex := mkSpkIndex ∅ ∅ ∅ ∅.

Definition insert_spk (index : SpkIx) (spk : bytes) (ix : SpkTxOutIndex) : SpkTxOutIndex :=
  match spk_indices ix !! spk with
  | None => mkSpkIndex (<[index := spk]> (ix_spks ix)) (<[spk := index]> (spk_indices ix)) (ix_txouts ix) (spk_txouts ix)
  | Some _ => ix
  end.
Definition scan_txout (op : OutPoint) (o : TxOut) (ix : SpkTxOutIndex) : SpkTxOutIndex :=
  match spk_indices ix !! txo_script o with
  | Some i => mkSpkIndex (ix_spks ix) (spk_indices ix) (<[op := (i, o)]> (ix_txouts ix)) ({[(i, op)]} ∪ spk_txouts ix)
  | None => ix
  end.
Definition is_relevant (ix : SpkTxOutIndex) (tx : Transaction) : bool :=
  existsb (λ i, bool_decide (is_Some (ix_txouts ix !! previous_output i))) (tx_input tx)
  || existsb (λ o, bool_decide (is_Some (spk_indices ix !! txo_script o))) (tx_output tx).

(** [cbf.rs]: the highest index with a found output, per keychain. *)
Definition last_active_step (out : gmap KeychainKind Z) (e : SpkIx * OutPoint) : gmap KeychainKind Z :=
  let '((keychain, idx), _) := e in
  <[keychain := match out !! keychain with Some cur => Z.max cur idx | None => idx end]> out.
Definition last_active_indices (ix : SpkTxOutIndex) : gmap KeychainKind Z :=
  foldl last_active_step ∅ (elements (spk_txouts ix)).

(** ** Requests to script indices *)

Definition collect_keychain (limit : Z) (ix : SpkTxOutIndex) (kc : KeychainKind * list (Z * bytes)) : SpkTxOutIndex :=
  foldl (λ ix p, insert_spk (kc.1, p.1) p.2 ix) ix (take (Z.to_nat limit) kc.2).
Definition cbf_collect_full_scan_spks (req : FullScanRequest) (script_limit : Z) : SpkTxOutIndex * option CheckPoint :=
  let limit := Z.max script_limit 1 in
  (foldl (collect_keychain limit) SpkTxOutIndex_default (spks_by_keychain req), fs_chain_tip req).

(** The scripts get the indices of a counter on the external keychain. *)
Definition collect_sync_step (s : SpkTxOutIndex * Z) (item : SpkWithExpectedTxids) : SpkTxOutIndex * Z :=
  (insert_spk (KeychainExternal, s.2) (item_spk item) s.1, Z.min (s.2 + 1) u32_max).
Definition collect_sync_spks (req : SyncRequest) : SpkTxOutIndex * option CheckPoint :=
  ((foldl collect_sync_step (SpkTxOutIndex_default, 0) (sy_spks req)).1, sy_chain_tip req).

(** ** Chain events *)

Inductive BlockHeaderChanges :=
  | Connected (at_ : BlockId)
  | Reorganized (accepted reorganized : list BlockId)
  | ForkAdded (at_ : BlockId).

Definition apply_chain_event (cp : CheckPoint) (event : BlockHeaderChanges) : res ChainError CheckPoint :=
  match event with
  | Connected b => cp_insert cp b
  | Reorganized accepted _ => fold_res cp_insert cp accepted
  | ForkAdded _ => Ok cp
  end.

(** [HashCheckpoint] is a height with a hash, like [BlockId]. *)
Fixpoint walk_back_loop (ret : BlockId) (index : nat) (l : list BlockId) : BlockId :=
  match l with
  | [] => ret
  | next :: l => if (REORG_WALKBACK <? index)%nat then ret else walk_back_loop next (S index) l
  end.
Definition walk_back_reorg (cp : CheckPoint) : BlockId := walk_back_loop (block_id cp) 0 (cp_iter cp).

(** ** The node *)

Record IndexedFilter := mkIndexedFilter { filter_block_hash : bytes; contains_any : gset bytes → bool }.
Inductive NodeEvent :=
  | EvIndexedFilter (f : IndexedFilter)
  | EvChainUpdate (c : BlockHeaderChanges)
  | EvFiltersSynced (tip : BlockId).
Record IndexedBlock := mkIndexedBlock { ib_height : Z; ib_hash : bytes; ib_time : Z; ib_txdata : list Transaction }.

(** The options [build_node] hands to the builder. *)
Record NodeOptions := mkNodeOptions {
  no_network : Network;
  no_required_peers : Z;
  no_chain_state : BlockId;
  no_whitelist_only : bool;
  no_peers : list TrustedPeer;
  no_data_dir : option bytes;
  no_socks5_proxy : option bytes;
  no_handshake_timeout : option Z;
  no_response_timeout : option Z
}.

(** How the worker thread and the caller's [recv_timeout] end. *)
Inductive WorkerFate := SpawnFailed (e : bytes) | Finished | TimedOut | Disconnected.

Class CbfNode := {
  genesis_hash : Network → bytes;
  node_events : NodeOptions → list NodeEvent;
  get_block : bytes → res bytes IndexedBlock;
  requester_chain_tip : res bytes Z;
  (** sat per 1000 weight units *)
  broadcast_min_feerate : res bytes Z;
  submit_package : Transaction → res bytes unit;
  worker_fate : NodeOptions → WorkerFate;
  (** the flag [reached_submit] as the deadline finds it *)
  submit_reached : NodeOptions → bool;
  runtime_build : res bytes unit
}.

(** [TxGraph<ConfirmationBlockTime>] of [bdk_chain]. *)
Class TxGraph := {
  Graph : Type;
  graph_empty : Graph;
  graph_insert_tx : Graph → Transaction → Graph;
  graph_insert_anchor : Graph → bytes → ConfirmationBlockTime → Graph;
  direct_conflict_txs : Graph → Transaction → list Transaction;
  (** [impl From<TxGraph> for TxUpdate] *)
  graph_update : Graph → TxUpdate
}.

Section Backend.
Context `{codec : Codec} `{node : CbfNode} `{tg : TxGraph}.

(** [SpkTxOutIndex::scan] *)
Definition scan_tx_outputs (ix : SpkTxOutIndex) (tx : Transaction) : SpkTxOutIndex :=
  let txid := compute_txid tx in
  foldl (λ ix p, scan_txout (mkOutPoint txid (Z.of_nat (fst p) mod 2 ^ 32)) (snd p) ix) ix (imap pair (tx_output tx)).

Definition is_tx_or_conflict_relevant (g : SpkTxOutIndex * Graph) (tx : Transaction) : bool :=
  is_relevant g.1 tx || existsb (is_relevant g.1) (direct_conflict_txs g.2 tx).

(** [IndexedTxGraph::apply_block_relevant] *)
Definition apply_block_tx (anchor : ConfirmationBlockTime) (g : SpkTxOutIndex * Graph) (tx : Transaction) : SpkTxOutIndex * Graph :=
  let g := (scan_tx_outputs g.1 tx, g.2) in
  if is_tx_or_conflict_relevant g tx then
    (g.1, graph_insert_anchor (graph_insert_tx g.2 tx) (compute_txid tx) anchor)
  else g.
Definition apply_block_relevant (g : SpkTxOutIndex * Graph) (b : IndexedBlock) : SpkTxOutIndex * Graph :=
  foldl (apply_block_tx (mkAnchor (mkBlockId (ib_height b) (ib_hash b)) (ib_time b))) g (ib_txdata b).

(** The loop of [scan_indexed] over the node's events. *)
Fixpoint scan_loop (spk_cache : gset bytes) (events : list NodeEvent) (g : SpkTxOutIndex * Graph)
    (cp : CheckPoint) (queued : list bytes) : res ChainError Update :=
  match events with
  | [] => Err (ChNetwork (str "cbf node stopped before filters synced"))
  | EvIndexedFilter f :: es =>
      scan_loop spk_cache es g cp (if contains_any f spk_cache then queued ++ [filter_block_hash f] else queued)
  | EvChainUpdate c :: es =>
      cp ← apply_chain_event cp c;
      scan_loop spk_cache es g cp queued
  | EvFiltersSynced tip :: _ =>
      g ← fold_res (λ g hash,
            b ← map_err (λ e, ChNetwork (str "cbf get_block: " ++ e)) (get_block hash);
            Ok (apply_block_relevant g b)) g queued;
      cp ← cp_insert cp tip;
      Ok (mkUpdate (last_active_indices g.1) (graph_update g.2) (Some cp))
  end.

(** A closure that panics unwinds its thread and drops the sender. *)
Definition run_with_wall_timeout_or {T} (fate : WorkerFate) (on_timeout : ChainError) (f : res ChainError T) : res ChainError T :=
  match fate with
  | SpawnFailed e => Err (ChOther (str "cbf worker spawn: " ++ e))
  | Finished => match f with Panic => Err (ChNetwork (str "cbf worker ended without a result")) | r => r end
  | TimedOut => Err on_timeout
  | Disconnected => Err (ChNetwork (str "cbf worker ended without a result"))
  end.
Definition timed_out_after (timeout_secs : Z) : ChainError :=
  ChNetwork (str "cbf operation timed out after " ++ dec timeout_secs ++ str "s").
Definition run_with_wall_timeout {T} (timeout : Z) (fate : WorkerFate) (f : res ChainError T) : res ChainError T :=
  run_with_wall_timeout_or fate (timed_out_after (timeout / 1000)) f.
Definition map_operation_timeout (is_broadcast reached_submit : bool) (timeout_secs : Z) : ChainError :=
  if is_broadcast && reached_submit then ChDeliveryUnconfirmed else timed_out_after timeout_secs.

(** ** The backend *)

Record CbfBackend := mkCbfBackend { cbf_config : CbfConfig; tip_cache : option Z }.

Definition CbfBackend_new (config : CbfConfig) : res ChainError CbfBackend :=
  _ ← map_err (λ e, ChOther (str "tokio runtime: " ++ e)) runtime_build;
  Ok (mkCbfBackend config None).

Definition build_node (c : CbfConfig) (chain_state : BlockId) : NodeOptions :=
  mkNodeOptions (cbf_network c) (Z.min (Z.max (required_peers c) 1) 15) chain_state (whitelist_only c) (peers c)
    (data_dir c) (socks5_proxy c) (handshake_timeout c) (response_timeout c).

Definition chain_state_for_network (network : Network) (tip : option CheckPoint) : BlockId :=
  match tip with
  | Some cp => walk_back_reorg cp
  | None => mkBlockId 0 (genesis_hash network)
  end.
Definition cbf_genesis_checkpoint (network : Network) : CheckPoint := CheckPoint_new (mkBlockId 0 (genesis_hash network)).

Definition scan_indexed (b : CbfBackend) (index : SpkTxOutIndex) (chain_tip : option CheckPoint)
    : CbfBackend * res ChainError Update :=
  let network := cbf_network (cbf_config b) in
  let spk_cache := list_to_set (map_to_list (ix_spks index)).*2 : gset bytes in
  let options := build_node (cbf_config b) (chain_state_for_network network chain_tip) in
  let initial_cp := default (cbf_genesis_checkpoint network) chain_tip in
  let result := run_with_wall_timeout (operation_timeout (cbf_config b)) (worker_fate options)
    (scan_loop spk_cache (node_events options) (index, graph_empty) initial_cp []) in
  match result with
  | Ok (mkUpdate _ _ (Some chain)) => (mkCbfBackend (cbf_config b) (Some (cp_height chain)), result)
  | _ => (b, result)
  end.

Inductive ReadyOp := OpTip | OpFees | OpBroadcast (tx : Transaction).
Inductive ReadyResult := ResTip (h : Z) | ResFees (f : FeeEstimates) | ResBroadcast (txid : bytes).
Definition op_is_broadcast (op : ReadyOp) : bool := match op with OpBroadcast _ => true | _ => false end.

(** [FeeRate::to_sat_per_vb_ceil] on a [u64] *)
Definition to_sat_per_vb_ceil (rate : Z) : Z := ((rate + 249) mod 2 ^ 64) / 250.

Definition run_ready_op (op : ReadyOp) : res ChainError ReadyResult :=
  match op with
  | OpTip =>
      tip ← map_err (λ e, ChUnavailable (str "cbf chain tip: " ++ e)) requester_chain_tip;
      Ok (ResTip tip)
  | OpFees =>
      rate ← map_err (λ e, ChUnavailable (str "cbf fee filter: " ++ e)) broadcast_min_feerate;
      let sat_vb := Z.max (to_sat_per_vb_ceil rate) 1 in
      Ok (ResFees (from_targets [(1, sat_vb); (6, sat_vb)]))
  | OpBroadcast tx =>
      let txid := compute_txid tx in
      _ ← map_err (λ e, ChBroadcast (str "cbf broadcast: " ++ e)) (submit_package tx);
      Ok (ResBroadcast txid)
  end.

(** Wait for [FiltersSynced]. *)
Fixpoint wait_synced (events : list NodeEvent) : res ChainError unit :=
  match events with
  | [] => Err (ChNetwork (str "cbf node stopped before ready"))
  | EvFiltersSynced _ :: _ => Ok tt
  | _ :: es => wait_synced es
  end.

Definition with_synced (c : CbfConfig) (op : ReadyOp) : res ChainError ReadyResult :=
  let options := build_node c (chain_state_for_network (cbf_network c) None) in
  run_with_wall_timeout_or (worker_fate options)
    (map_operation_timeout (op_is_broadcast op) (submit_reached options) (operation_timeout c / 1000))
    (_ ← wait_synced (node_events options); run_ready_op op).

Definition cbf_full_scan (req : FullScanRequest) (b : CbfBackend) : CbfBackend * res ChainError Update :=
  let '(index, tip) := cbf_collect_full_scan_spks req (full_scan_script_limit (cbf_config b)) in
  scan_indexed b index tip.
Definition cbf_sync (req : SyncRequest) (b : CbfBackend) : CbfBackend * res ChainError Update :=
  let '(index, tip) := collect_sync_spks req in
  scan_indexed b index tip.
Definition cbf_broadcast (tx : Transaction) (b : CbfBackend) : res ChainError bytes :=
  r ← with_synced (cbf_config b) (OpBroadcast tx);
  match r with
  | ResBroadcast txid => Ok txid
  | _ => Err (ChOther (str "cbf broadcast: internal result mismatch"))
  end.
Definition cbf_fee_estimates (b : CbfBackend) : res ChainError FeeEstimates :=
  r ← with_synced (cbf_config b) OpFees;
  match r with
  | ResFees fees => Ok fees
  | _ => Err (ChOther (str "cbf fees: internal result mismatch"))
  end.
Definition cbf_tip_height (b : CbfBackend) : CbfBackend * res ChainError Z :=
  match with_synced (cbf_config b) OpTip with
  | Ok (ResTip h) => (mkCbfBackend (cbf_config b) (Some h), Ok h)
  | Ok _ => (b, Err (ChOther (str "cbf tip: internal result mismatch")))
  | Err e => (b, Err e)
  | Panic => (b, Panic)
  end.

Definition cbf_backend : ChainBackend CbfBackend :=
  mkBackend cbf_full_scan cbf_sync (λ tx b, (b, cbf_broadcast tx b)) (λ b, (b, cbf_fee_estimates b)) cbf_tip_height
    (λ _, profile_cbf).
End Backend.

(** ** Handing the result over: worker, caller and deadline *)

Section Handoff.
Context `{codec : Codec} `{node : CbfNode} (op : ReadyOp) (events : list NodeEvent) (timeout_secs : Z).

(** The worker of [with_synced]: waiting for the filters, ready, flag stored,
    inside [submit_package], result sent, gone without a result, parked for
    good (the bip157 node may park its thread on a dead peer). *)
Inductive WorkerPhase :=
  | WSyncing (rest : list NodeEvent)
  | WReady
  | WMarked
  | WSubmitting
  | WSent (r : res ChainError ReadyResult)
  | WDead
  | WHung.
(** The caller: in [recv_timeout], about to map the timeout, returned. *)
Inductive CallerPhase := CWaiting | CExpired | CReturned (r : res ChainError ReadyResult).

Record HandoffState := mkHandoff {
  h_worker : WorkerPhase;
  h_flag : bool;              (** [reached_submit] *)
  h_submitted : bool;         (** [submit_package] was entered *)
  h_caller : CallerPhase;
  h_read : option bool        (** [h_submitted] when the deadline read the flag *)
}.
Definition handoff_start : HandoffState := mkHandoff (WSyncing events) false false CWaiting None.

(** [tx.send(f())]: a closure that panics sends nothing. *)
Definition worker_end (r : res ChainError ReadyResult) : WorkerPhase := match r with Panic => WDead | _ => WSent r end.

(** The event loop of the worker's closure. *)
Inductive wait_step : HandoffState → HandoffState → Prop :=
  | step_event e es f s c r :
      (∀ tip, e ≠ EvFiltersSynced tip) →
      wait_step (mkHandoff (WSyncing (e :: es)) f s c r) (mkHandoff (WSyncing es) f s c r)
  | step_synced tip es f s c r :
      wait_step (mkHandoff (WSyncing (EvFiltersSynced tip :: es)) f s c r) (mkHandoff WReady f s c r)
  | step_stopped f s c r :
      wait_step (mkHandoff (WSyncing []) f s c r)
        (mkHandoff (WSent (Err (ChNetwork (str "cbf node stopped before ready")))) f s c r).

(** [run_ready_op]: a query ends with its answer; a broadcast stores the flag,
    enters [submit_package], and ends with its outcome. *)
Inductive ready_step : HandoffState → HandoffState → Prop :=
  | step_query f s c r :
      op_is_broadcast op = false →
      ready_step (mkHandoff WReady f s c r) (mkHandoff (worker_end (run_ready_op op)) f s c r)
  | step_mark f s c r :
      op_is_broadcast op = true →
      ready_step (mkHandoff WReady f s c r) (mkHandoff WMarked true s c r)
  | step_submit f s c r :
      ready_step (mkHandoff WMarked f s c r) (mkHandoff WSubmitting f true c r)
  | step_submitted f s c r :
      ready_step (mkHandoff WSubmitting f s c r) (mkHandoff (worker_end (run_ready_op op)) f s c r).

(** The worker stands at an [await]: the event loop, a query, [submit_package]. *)
Definition awaits (w : WorkerPhase) : Prop :=
  match w with WSyncing _ | WSubmitting => True | WReady => op_is_broadcast op = false | _ => False end.
(** At an [await], and only there, the worker may die or hang. *)
Inductive worker_step : HandoffState → HandoffState → Prop :=
  | step_wait h h' : wait_step h h' → worker_step h h'
  | step_ready h h' : ready_step h h' → worker_step h h'
  | step_die w f s c r : awaits w → worker_step (mkHandoff w f s c r) (mkHandoff WDead f s c r)
  | step_hang w f s c r : awaits w → worker_step (mkHandoff w f s c r) (mkHandoff WHung f s c r).

(** [rx.recv_timeout] of [run_with_wall_timeout_or]: a result or a closed
    channel is taken, otherwise the deadline may pass; then the flag is read. *)
Inductive caller_step : HandoffState → HandoffState → Prop :=
  | step_receive x f s r :
      caller_step (mkHandoff (WSent x) f s CWaiting r) (mkHandoff (WSent x) f s (CReturned x) r)
  | step_disconnect f s r :
      caller_step (mkHandoff WDead f s CWaiting r)
        (mkHandoff WDead f s (CReturned (Err (ChNetwork (str "cbf worker ended without a result")))) r)
  | step_deadline w f s r :
      (∀ x, w ≠ WSent x) → w ≠ WDead →
      caller_step (mkHandoff w f s CWaiting r) (mkHandoff w f s CExpired r)
  | step_map w f s r :
      caller_step (mkHandoff w f s CExpired r)
        (mkHandoff w f s (CReturned (Err (map_operation_timeout (op_is_broadcast op) f timeout_secs))) (Some s)).

Definition handoff_step (h h' : HandoffState) : Prop := worker_step h h' ∨ caller_step h h'.
Definition handoff_reachable : HandoffState → Prop := rtc handoff_step handoff_start.

(** The result the worker computes when it is left alone. *)
Definition worker_result : res ChainError ReadyResult := _ ← wait_synced events; run_ready_op op.

(** What holds in every reachable state. *)
Record handoff_inv (h : HandoffState) : Prop := {
  inv_flag : h_flag h = true → op_is_broadcast op = true ∧ (h_submitted h = true ∨ h_worker h = WMarked);
  inv_submitted : h_submitted h = true → h_flag h = true;
  inv_worker :
    match h_worker h with
    | WSyncing rest => wait_synced events = wait_synced rest
    | WReady => wait_synced events = Ok tt
    | WMarked | WSubmitting => wait_synced events = Ok tt ∧ h_flag h = true
    | WSent x => x = worker_result ∧ x ≠ Panic
    | WDead | WHung => True
    end;
  inv_caller :
    match h_caller h with
    | CReturned x =>
        ∃ fate reached, x = run_with_wall_timeout_or fate
            (map_operation_timeout (op_is_broadcast op) reached timeout_secs) worker_result ∧
          (fate = TimedOut → reached = true → h_flag h = true) ∧
          (h_read h = Some true → fate = TimedOut ∧ reached = true)
    | _ => h_read h = None
    end
}.

Lemma handoff_inv_start : handoff_inv handoff_start.
Proof. by constructor. Qed.

Lemma wait_step_inv h h' : wait_step h h' → handoff_inv h → handoff_inv h'.
Proof.
  intros Hs [I1 I2 I3 I4]. destruct Hs; cbn in *; constructor; cbn; try done;
    try (intros Hf; destruct (I1 Hf) as [? [?|?]]; by auto).
  - rewrite I3. destruct e; try done. by destruct (H tip).
  - unfold worker_result. by rewrite I3.
Qed.
Lemma worker_end_inv (r : res ChainError ReadyResult) :
  r = worker_result → match worker_end r with WSent x => x = worker_result ∧ x ≠ Panic | WDead => True | _ => False end.
Proof. by intros <-; destruct r. Qed.
Lemma worker_end_marked r : worker_end r ≠ WMarked.
Proof. by destruct r. Qed.
Lemma ready_step_inv h h' : ready_step h h' → handoff_inv h → handoff_inv h'.
Proof.
  intros Hs [I1 I2 I3 I4].
  assert (wait_synced events = Ok tt → run_ready_op op = worker_result) as Hr by (unfold worker_result; by intros ->).
  destruct Hs as [f s c r Hb|f s c r Hb|f s c r|f s c r]; cbn in *.
  - apply worker_end_inv in Hr; [|done]. constructor; cbn; [|done| |done].
    + intros Hf. destruct (I1 Hf). congruence.
    + by destruct (worker_end _).
  - constructor; cbn; try done; [by auto|]. destruct c as [| |x]; [done..|]. destruct I4 as (fate & re & -> & _ & Hx).
    by exists fate, re.
  - destruct I3 as [Hw Hf]. destruct (I1 Hf) as [Hb _]. constructor; cbn; try done. by auto.
  - destruct I3 as [Hw Hf]. apply worker_end_inv in Hr; [|done]. constructor; cbn; [|done| |done].
    + intros _. destruct (I1 Hf) as [? [?|?]]; [|done]. auto.
    + by destruct (worker_end _).
Qed.
Lemma caller_step_inv h h' : caller_step h h' → handoff_inv h → handoff_inv h'.
Proof.
  intros Hs [I1 I2 I3 I4]. destruct Hs as [x f s r|f s r|w f s r ??|w f s r]; cbn in *; constructor; cbn; try done.
  - exists Finished, false. rewrite I4. destruct I3 as [Hx Hn]. split_and!; [|done..]. cbn. rewrite <-Hx. by destruct x.
  - exists Disconnected, false. rewrite I4. by split_and!.
  - exists TimedOut, f. split_and!; [done..|]. intros [= ->]. auto.
Qed.
Lemma handoff_inv_step h h' : handoff_step h h' → handoff_inv h → handoff_inv h'.
Proof.
  intros [[h1 h2 Hs|h1 h2 Hs|w f s c r Ha|w f s c r Ha]|Hs]; [by apply wait_step_inv|by apply ready_step_inv| | |by apply caller_step_inv];
    intros [I1 I2 I3 I4]; (constructor; cbn in *; [|done..]); intros Hf; destruct (I1 Hf) as [? [?| ->]]; auto; done.
Qed.

Lemma handoff_inv_reachable h : handoff_reachable h → handoff_inv h.
Proof.
  unfold handoff_reachable. pose proof handoff_inv_start as H0. revert H0. generalize handoff_start.
  intros h0 H0 H. induction H as [|x y z Hs _ IH]; [done|]. apply IH. by eapply handoff_inv_step.
Qed.

Lemma worker_result_confirmed : worker_result ≠ Err ChDeliveryUnconfirmed.
Proof.
  unfold worker_result. intros [H|([] & _ & H)]%bind_Err.
  - induction events as [|[] es IH]; naive_solver.
  - destruct op; cbn in H; apply bind_Err in H as [(e & _ & ?)%map_err_Err|(? & _ & ?)]; done.
Qed.

(** The worker stands between storing the flag and entering [submit_package]:
    it can move, and every move it can make enters [submit_package]. *)
Definition about_to_submit (h : HandoffState) : Prop :=
  h_worker h = WMarked ∧ (∃ h', worker_step h h') ∧ ∀ h', worker_step h h' → h_worker h' = WSubmitting ∧ h_submitted h' = true.
Lemma marked_submits h : h_worker h = WMarked → about_to_submit h.
Proof.
  destruct h as [w f s c r]. cbn. intros ->. split; [done|]. split.
  - eexists. apply step_ready, step_submit.
  - intros h' Hs. remember (mkHandoff WMarked f s c r) as h eqn:Eh. destruct Hs as [h h' Hs|h h' Hs|w f' s' c' r' Ha|w f' s' c' r' Ha].
    + by destruct Hs.
    + by destruct Hs.
    + by injection Eh as -> _ _ _ _.
    + by injection Eh as -> _ _ _ _.
Qed.

(** C21: a timed-out broadcast is reported truthfully, in every interleaving of
    the worker, the caller and the deadline, also when the worker hangs or dies
    at an [await]. The caller is told "delivery unconfirmed" only of a broadcast
    for which the worker entered [submit_package], or stands right before it,
    with the flag stored and the call as its only next step; never while the
    filters are still being synced, nor between the sync and the call. And if
    [submit_package] had been entered when the deadline read the flag, the
    caller is told exactly this, never a plain network timeout. *)
Theorem handoff_truthful h :
  handoff_reachable h →
  (h_caller h = CReturned (Err ChDeliveryUnconfirmed) →
    op_is_broadcast op = true ∧ (h_submitted h = true ∨ about_to_submit h)) ∧
  (h_read h = Some true → h_caller h = CReturned (Err ChDeliveryUnconfirmed)).
Proof.
  intros [I1 I2 I3 I4]%handoff_inv_reachable. destruct (h_caller h) as [| |x]; [split; congruence..|].
  destruct I4 as (fate & re & Hx & Hf & Hr). split.
  - intros [= ->]. assert (h_flag h = true) as Hfl.
    { destruct fate; cbn in Hx; try done.
      - pose proof worker_result_confirmed. by destruct worker_result.
      - unfold map_operation_timeout in Hx. destruct re; [by apply Hf|]. by rewrite andb_false_r in Hx. }
    destruct (I1 Hfl) as [Hb [Hs|Hm]]; split; auto. right. by apply marked_submits.
  - intros Ht. destruct (Hr Ht) as [-> ->]. rewrite Hx. cbn. unfold map_operation_timeout.
    destruct (I1 (Hf eq_refl eq_refl)) as [-> _]. done.
Qed.

(** The sequential account of an operation is right. Whatever the
    interleaving, the value the caller returns is the one [with_synced] gives
    for some fate of the worker and some reading of the flag. *)
Lemma handoff_refines h x :
  handoff_reachable h → h_caller h = CReturned x →
  ∃ fate reached, x = run_with_wall_timeout_or fate
    (map_operation_timeout (op_is_broadcast op) reached timeout_secs) (_ ← wait_synced events; run_ready_op op).
Proof.
  intros [_ _ _ I4]%handoff_inv_reachable Hc. rewrite Hc in I4. destruct I4 as (fate & re & Hx & _). eauto.
Qed.

(** Every step uses up some of this. *)
Definition worker_left (w : WorkerPhase) : nat :=
  match w with
  | WSyncing rest => 4 + length rest
  | WReady => 3
  | WMarked => 2
  | WSubmitting => 1
  | WSent _ | WDead | WHung => 0
  end.
Definition caller_left (c : CallerPhase) : nat :=
  match c with CWaiting => 2 | CExpired => 1 | CReturned _ => 0 end.
Definition handoff_left (h : HandoffState) : nat := worker_left (h_worker h) + caller_left (h_caller h).

Lemma worker_end_left r : worker_left (worker_end r) = 0%nat.
Proof. by destruct r. Qed.
Lemma worker_step_left h h' :
  worker_step h h' → (worker_left (h_worker h') < worker_left (h_worker h))%nat ∧ h_caller h' = h_caller h ∧ h_read h' = h_read h.
Proof.
  intros [h1 h2 []|h1 h2 []|w f s c r Ha|w f s c r Ha]; cbn [h_worker h_caller h_read] in *; rewrite ?worker_end_left; cbn;
    (split; [|done]); try lia; by destruct w; cbn in *; try lia.
Qed.
Lemma caller_step_left h h' :
  caller_step h h' → (caller_left (h_caller h') < caller_left (h_caller h))%nat ∧ h_worker h' = h_worker h.
Proof. destruct 1; cbn; split; try done; lia. Qed.
Lemma handoff_step_left h h' : handoff_step h h' → (handoff_left h' < handoff_left h)%nat.
Proof.
  unfold handoff_left. intros [(? & -> & _)%worker_step_left|(? & ->)%caller_step_left]; lia.
Qed.

(** A worker that hangs from the start is one of the runs. *)
Lemma hung_reachable : handoff_reachable (mkHandoff WHung false false CWaiting None).
Proof. apply rtc_once. left. by apply step_hang. Qed.

(** C22: every operation comes back. However the worker, the deadline and the
    caller interleave, a run has at most six steps more than the node sends
    events. A caller that has not returned can always take a step of its own,
    in every reachable state and whatever the worker does, also when it hangs at
    an [await] or died; two steps of its own suffice, and no step of the worker
    changes the caller. So a run in which the caller keeps going ends with the
    value the caller returned. *)
Theorem handoff_returns :
  (∀ n h, nsteps handoff_step n handoff_start h → (n ≤ length events + 6)%nat) ∧
  (∀ h, handoff_reachable h → (∃ h', caller_step h h') ∨ ∃ x, h_caller h = CReturned x) ∧
  (∀ n h h', nsteps caller_step n h h' → (n ≤ 2)%nat) ∧
  (∀ h h', worker_step h h' → h_caller h' = h_caller h).
Proof.
  split_and!.
  - intros n h H. assert (n + handoff_left h ≤ handoff_left handoff_start)%nat as Hn.
    { induction H as [|n x y z Hs _ IH]; [lia|]. apply handoff_step_left in Hs. lia. }
    cbn in Hn. lia.
  - intros [w f s c r] _. destruct c as [| |x]; [left|left; eexists; apply step_map|right; by eexists].
    destruct w; eexists; first [apply step_receive|apply step_disconnect|by apply step_deadline].
  - intros n h h' H. assert (n + caller_left (h_caller h') ≤ caller_left (h_caller h))%nat as Hn.
    { induction H as [|n x y z Hs _ IH]; [lia|]. apply caller_step_left in Hs as [? _]. lia. }
    assert (caller_left (h_caller h) ≤ 2)%nat by (destruct (h_caller h); cbn; lia). lia.
  - intros h h' (_ & ? & _)%worker_step_left. done.
Qed.
End Handoff.

(** The deadline only decides what is reported: an abandoned worker that had
    not stored the flag may still announce the transaction afterwards. *)
Lemma late_announcement `{codec : Codec} `{node : CbfNode} tx tip secs :
  ∃ h, handoff_reachable (OpBroadcast tx) [EvFiltersSynced tip] secs h ∧
    h_caller h = CReturned (Err (timed_out_after secs)) ∧ h_submitted h = true.
Proof.
  exists (mkHandoff WSubmitting true true (CReturned (Err (timed_out_after secs))) (Some false)).
  split; [|done]. unfold handoff_reachable, handoff_start.
  eapply rtc_l; [right; by apply step_deadline|]. eapply rtc_l; [right; apply step_map|].
  eapply rtc_l; [left; apply step_wait, step_synced|]. eapply rtc_l; [left; by apply step_ready, step_mark|].
  eapply rtc_l; [left; apply step_ready, step_submit|]. apply rtc_refl.
Qed.

(** ** Where a scan resumes *)

Lemma walk_back_loop_spec ret i l :
  walk_back_loop ret i l =
  match last (take (S REORG_WALKBACK - i) l) with Some b => b | None => ret end.
Proof.
  revert ret i. induction l as [|b l IH]; intros ret i; cbn [walk_back_loop]; [by rewrite take_nil|].
  destruct (Nat.ltb_spec REORG_WALKBACK i).
  - by replace (S REORG_WALKBACK - i)%nat with 0%nat by lia.
  - rewrite IH. replace (S REORG_WALKBACK - i)%nat with (S (S REORG_WALKBACK - S i)) by lia.
    cbn [take firstn]. rewrite last_cons. by destruct (last _).
Qed.

(** A resumed scan starts seven checkpoints below the wallet's tip, or at
    the first checkpoint of a shorter chain. *)
Lemma walk_back_depth cp :
  cp_iter cp !! (REORG_WALKBACK `min` (length (cp_iter cp) - 1))%nat = Some (walk_back_reorg cp).
Proof.
  unfold walk_back_reorg. rewrite walk_back_loop_spec, last_lookup.
  assert (0 < length (cp_iter cp))%nat as Hl by (destruct cp; cbn; lia).
  rewrite length_take. replace (S REORG_WALKBACK - 0)%nat with (S REORG_WALKBACK) by lia.
  replace (pred _) with (REORG_WALKBACK `min` (length (cp_iter cp) - 1))%nat by lia.
  rewrite lookup_take_lt by lia.
  destruct (lookup_lt_is_Some_2 (cp_iter cp) (REORG_WALKBACK `min` (length (cp_iter cp) - 1))) as [b ->]; [lia|done].
Qed.

(** ** Reorganisations *)

Lemma fold_insert_above cp bs :
  cp_wf cp → StronglySorted (λ x y, bi_height x < bi_height y) bs →
  (∀ b, b ∈ bs → cp_height cp < bi_height b) →
  ∃ cp', fold_res (E:=ChainError) cp_insert cp bs = Ok cp' ∧ cp_wf cp' ∧ cp_iter cp' = reverse bs ++ cp_iter cp.
Proof.
  revert cp. induction bs as [|b bs IH]; intros cp Hw Hs Hb; cbn [fold_res]; [by exists cp|].
  apply StronglySorted_inv in Hs as [Hs Hf]. rewrite Forall_forall in Hf.
  assert (cp_height cp < bi_height b) as Hlt by (apply Hb; left).
  pose proof (cp_height_nonneg cp Hw).
  destruct (cp_insert_spec (E:=ChainError) cp b Hw) as (cp1 & -> & Hw1 & _ & Hi); [lia..|]. cbn [mbind res_bind].
  destruct (no_height cp b Hw Hlt) as [Hni Hx], (below_all cp b Hw Hlt) as [Hbe Hab].
  unfold insert_spec in Hi. rewrite bool_decide_eq_false_2, Hx, Hab, Hbe in Hi by done.
  destruct (IH cp1 Hw1 Hs) as (cp' & -> & Hw' & Hi').
  { intros c Hc. assert (block_id cp1 = b) as E.
    { destruct cp1; cbn in *; congruence. }
    unfold cp_height. rewrite E. by apply Hf. }
  exists cp'. split_and!; [done..|]. by rewrite Hi', Hi, reverse_cons, <-app_assoc.
Qed.

(** A reorganisation replaces the old branch. If the first accepted block
    conflicts with the block the wallet has at its height (or extends the tip),
    and the accepted blocks come in ascending order, the new local chain is the
    accepted blocks on top of everything below them: no block of the old branch
    survives, none below the fork is lost, and nothing panics. *)
Lemma reorg_replaces cp b0 bs old :
  cp_wf cp → 0 < bi_height b0 → b0 ∉ cp_iter cp →
  StronglySorted (λ x y, bi_height x < bi_height y) (b0 :: bs) →
  (existsb (λ c, bi_height c =? bi_height b0) (cp_iter cp) = true ∨ cp_height cp < bi_height b0) →
  ∃ cp', apply_chain_event cp (Reorganized (b0 :: bs) old) = Ok cp' ∧ cp_wf cp' ∧
    cp_iter cp' = reverse (b0 :: bs) ++ below b0 (cp_iter cp).
Proof.
  intros Hw H0 Hni [Hs Hf]%StronglySorted_inv Hc. cbn [apply_chain_event fold_res].
  destruct (cp_insert_spec (E:=ChainError) cp b0 Hw) as (cp1 & -> & Hw1 & _ & Hi); [lia..|]. cbn [mbind res_bind].
  unfold insert_spec in Hi. rewrite bool_decide_eq_false_2 in Hi by done.
  assert (cp_iter cp1 = b0 :: below b0 (cp_iter cp)) as Hi1.
  { destruct Hc as [Hc|Hlt]; [by rewrite Hc in Hi|]. destruct (no_height cp b0 Hw Hlt) as [_ Hx], (below_all cp b0 Hw Hlt) as [_ Hab].
    by rewrite Hx, Hab in Hi. }
  destruct (fold_insert_above cp1 bs Hw1 Hs) as (cp' & -> & Hw' & Hi').
  { intros c Hcc. rewrite Forall_forall in Hf. assert (block_id cp1 = b0) as E by (destruct cp1; cbn in *; congruence).
    unfold cp_height. rewrite E. by apply Hf. }
  exists cp'. split_and!; [done..|]. by rewrite Hi', Hi1, reverse_cons, <-app_assoc.
Qed.

(** ** Last active indices *)

Lemma last_active_fold l out kc :
  foldl last_active_step out l !! kc =
  match foldr (λ e acc, if bool_decide (e.1.1 = kc) then Some (match acc with Some m => Z.max e.1.2 m | None => e.1.2 end) else acc)
          None l, out !! kc with
  | Some m, Some o => Some (Z.max o m)
  | Some m, None => Some m
  | None, o => o
  end.
Proof.
  revert out. induction l as [|[[k i] op] l IH]; intros out; cbn [foldl foldr fst snd]; [by destruct (out !! kc)|].
  rewrite IH. cbn [last_active_step]. case_bool_decide as Hk; [subst k|by rewrite lookup_insert_ne].
  rewrite lookup_insert_eq. destruct (foldr _ _ l), (out !! kc); f_equal; lia.
Qed.

Lemma last_active_highest (l : list (SpkIx * OutPoint)) kc :
  match foldr (λ e acc, if bool_decide (e.1.1 = kc) then Some (match acc with Some m => Z.max e.1.2 m | None => e.1.2 end) else acc)
          None l with
  | Some m => (∃ op, ((kc, m), op) ∈ l) ∧ ∀ i op, ((kc, i), op) ∈ l → i ≤ m
  | None => ∀ i op, ((kc, i), op) ∉ l
  end.
Proof.
  induction l as [|[[k i] op] l IH]; cbn [foldr fst snd]; [set_solver|]. case_bool_decide as Hk.
  - subst k. destruct (foldr _ None l) as [m|].
    + destruct IH as [[op' Ho] Hm]. split.
      * destruct (Z.max_spec i m) as [[_ ->]|[_ ->]]; [exists op'; by right|exists op; left].
      * intros j q [[= -> ->]|Hj%Hm]%elem_of_cons; lia.
    + split; [exists op; left|]. intros j q [[= -> ->]|Hj]%elem_of_cons; [lia|]. by apply IH in Hj.
  - destruct (foldr _ None l) as [m|].
    + destruct IH as [[op' Ho] Hm]. split; [exists op'; by right|]. intros j q [[= -> ->]|Hj%Hm]%elem_of_cons; done.
    + intros j q [[= -> ->]|Hj]%elem_of_cons; [done|]. by apply IH in Hj.
Qed.

(** The last active index of a keychain is the highest index with an output. *)
Lemma last_active_indices_spec ix kc m :
  last_active_indices ix !! kc = Some m ↔
  (∃ op, ((kc, m), op) ∈ spk_txouts ix) ∧ ∀ i op, ((kc, i), op) ∈ spk_txouts ix → i ≤ m.
Proof.
  unfold last_active_indices. rewrite last_active_fold, lookup_empty.
  setoid_rewrite <-elem_of_elements. pose proof (last_active_highest (elements (spk_txouts ix)) kc) as H.
  destruct (foldr _ None _) as [n|].
  - destruct H as [[op Ho] Hm]. split; [intros [= <-]; eauto|]. intros [[q Hq%Hm] Hb]. specialize (Hb n op Ho). f_equal. lia.
  - split; [done|]. intros [[q Hq%H] _]. done.
Qed.

(** ** What a sync reports *)

Section SyncLaws.
Context `{codec : Codec} `{node : CbfNode} `{tg : TxGraph}.

(** Every script index in use satisfies [P]. *)
Definition indices_ok (P : SpkIx → Prop) (ix : SpkTxOutIndex) : Prop :=
  (∀ spk i, spk_indices ix !! spk = Some i → P i) ∧ (∀ i op, (i, op) ∈ spk_txouts ix → P i).

Lemma scan_txout_ok P op o ix : indices_ok P ix → indices_ok P (scan_txout op o ix).
Proof.
  intros [H1 H2]. unfold scan_txout. destruct (spk_indices ix !! txo_script o) as [i|] eqn:E; [|done].
  split; [done|]. cbn. intros j q [[= -> ->]%elem_of_singleton|?]%elem_of_union; eauto.
Qed.
Lemma scan_tx_outputs_ok P ix tx : indices_ok P ix → indices_ok P (scan_tx_outputs ix tx).
Proof.
  unfold scan_tx_outputs. generalize (imap pair (tx_output tx)). intros l. revert ix.
  induction l as [|p l IH]; intros ix H; cbn; [done|]. by apply IH, scan_txout_ok.
Qed.
Lemma apply_block_relevant_ok P g blk : indices_ok P g.1 → indices_ok P (apply_block_relevant g blk).1.
Proof.
  unfold apply_block_relevant. revert g. induction (ib_txdata blk) as [|tx l IH]; intros g H; cbn [foldl]; [done|].
  apply IH. unfold apply_block_tx. case_match; by apply scan_tx_outputs_ok.
Qed.

Lemma apply_blocks_ok P blocks g : indices_ok P g.1 → indices_ok P (foldl apply_block_relevant g blocks).1.
Proof.
  revert g. induction blocks as [|blk bs IH]; intros g H; cbn [foldl]; [done|]. by apply IH, apply_block_relevant_ok.
Qed.

(** The blocks whose filters match the scripts [cache]. *)
Definition matched_hashes (cache : gset bytes) (events : list NodeEvent) : list bytes :=
  omap (λ e, match e with
             | EvIndexedFilter f => if contains_any f cache then Some (filter_block_hash f) else None
             | _ => None
             end) events.

(** A successful scan ends with a fold of the fetched blocks over the graph. *)
Lemma scan_loop_Ok cache events g cp queued u :
  scan_loop cache events g cp queued = Ok u →
  ∃ blocks, (∀ blk, blk ∈ blocks → ∃ hash, hash ∈ queued ++ matched_hashes cache events ∧ get_block hash = Ok blk) ∧
    up_last_active_indices u = last_active_indices (foldl apply_block_relevant g blocks).1 ∧
    up_tx_update u = graph_update (foldl apply_block_relevant g blocks).2.
Proof.
  revert cp queued. induction events as [|[f|c|tip] es IH]; intros cp queued; cbn [scan_loop matched_hashes omap list_omap]; [done|..].
  - intros (blocks & Hb & H)%IH. exists blocks. split; [|done]. intros blk (hash & Hh & ?)%Hb. exists hash. split; [|done].
    destruct (contains_any f cache); [by rewrite <-app_assoc in Hh|done].
  - intros (cp' & _ & H)%bind_Ok. by apply IH in H.
  - intros (g' & Hg & (cp' & _ & [= <-])%bind_Ok)%bind_Ok. cbn.
    assert (∃ blocks, (∀ blk, blk ∈ blocks → ∃ hash, hash ∈ queued ∧ get_block hash = Ok blk) ∧ g' = foldl apply_block_relevant g blocks)
      as (blocks & Hb & ->); [|exists blocks; split; [|done]; intros blk (hash & ? & ?)%Hb; exists hash; set_solver].
    clear IH. revert g Hg. induction queued as [|h q IHq]; intros g; cbn [fold_res]; [intros [= <-]; exists []; set_solver|].
    intros (g1 & (blk & Hb%map_err_Ok & [= <-])%bind_Ok & H)%bind_Ok.
    apply IHq in H as (bs & Hbs & ->). exists (blk :: bs). split; [|done].
    intros x [->|(hash & ? & ?)%Hbs]%elem_of_cons; [exists h|exists hash]; set_solver.
Qed.

(** The blocks a sync fetches: those whose filters match the request's scripts. *)
Definition fetched (req : SyncRequest) (b : CbfBackend) (blk : IndexedBlock) : Prop :=
  let options := build_node (cbf_config b) (chain_state_for_network (cbf_network (cbf_config b)) (sy_chain_tip req)) in
  let cache := list_to_set (map_to_list (ix_spks (collect_sync_spks req).1)).*2 : gset bytes in
  ∃ hash, hash ∈ matched_hashes cache (node_events options) ∧ get_block hash = Ok blk.

Lemma cbf_sync_Ok req b b' u :
  cbf_sync req b = (b', Ok u) →
  ∃ blocks, let g := foldl apply_block_relevant ((collect_sync_spks req).1, graph_empty) blocks in
    (∀ blk, blk ∈ blocks → fetched req b blk) ∧
    up_last_active_indices u = last_active_indices g.1 ∧ up_tx_update u = graph_update g.2.
Proof.
  unfold cbf_sync, fetched. assert (sy_chain_tip req = (collect_sync_spks req).2) as -> by done.
  destruct (collect_sync_spks req) as [ix tip]. unfold scan_indexed. cbn [fst snd].
  set (options := build_node _ _). destruct (run_with_wall_timeout _ _ _) as [v|e|] eqn:E.
  - intros H. assert (v = u) as ->. { destruct v as [? ? [cp|]]; by injection H. }
    unfold run_with_wall_timeout, run_with_wall_timeout_or in E. destruct (worker_fate options); try done.
    destruct (scan_loop _ _ _ _ _) eqn:El in E; try done. injection E as ->. by apply scan_loop_Ok in El.
  - done.
  - done.
Qed.

Lemma insert_spk_ok P i spk ix : P i → indices_ok P ix → indices_ok P (insert_spk i spk ix).
Proof.
  intros Hi [H1 H2]. unfold insert_spk. destruct (spk_indices ix !! spk) eqn:E; [done|]. split; [|done].
  cbn. intros s j. rewrite lookup_insert_Some. naive_solver.
Qed.
Lemma insert_spk_dom i spk ix s :
  is_Some (spk_indices (insert_spk i spk ix) !! s) ↔ s = spk ∨ is_Some (spk_indices ix !! s).
Proof.
  unfold insert_spk. destruct (spk_indices ix !! spk) eqn:E; [split; [by right|intros [->|?]; [eauto|done]]|].
  cbn. rewrite lookup_insert_is_Some'. naive_solver.
Qed.

(** The indices a sync works with: positions in the request, all external. *)
Lemma collect_sync_spks_ok req :
  Z.of_nat (length (sy_spks req)) ≤ u32_max →
  indices_ok (λ i, i.1 = KeychainExternal ∧ is_Some (sy_spks req !! Z.to_nat i.2)) (collect_sync_spks req).1.
Proof.
  intros Hl. unfold collect_sync_spks. cbn [fst].
  assert (∀ pre post ix, sy_spks req = pre ++ post →
    indices_ok (λ i, i.1 = KeychainExternal ∧ is_Some (sy_spks req !! Z.to_nat i.2)) ix →
    indices_ok (λ i, i.1 = KeychainExternal ∧ is_Some (sy_spks req !! Z.to_nat i.2))
      (foldl collect_sync_step (ix, Z.of_nat (length pre)) post).1) as H.
  { intros pre post. revert pre. induction post as [|item post IH]; intros pre ix He Hi; cbn [foldl]; [done|].
    unfold collect_sync_step at 2. cbn [fst snd].
    replace (Z.min (Z.of_nat (length pre) + 1) u32_max) with (Z.of_nat (length (pre ++ [item]))).
    - apply IH; [by rewrite <-app_assoc|]. apply insert_spk_ok; [|done]. split; [done|]. cbn.
      rewrite Nat2Z.id, He, lookup_app_r, Nat.sub_diag by lia. eauto.
    - rewrite He, length_app in Hl. cbn in Hl. rewrite length_app. cbn. lia. }
  apply (H [] (sy_spks req)); [done|]. split; set_solver.
Qed.

(** The indices a compact-filter sync reports are not derivation indices.
    Any last active index of a successful sync is on the external keychain,
    also for an output on a change script, and its value is the position of a
    script in the request. *)
Lemma sync_reports_positions req b b' u kc m :
  Z.of_nat (length (sy_spks req)) ≤ u32_max →
  cbf_sync req b = (b', Ok u) → up_last_active_indices u !! kc = Some m →
  kc = KeychainExternal ∧ is_Some (sy_spks req !! Z.to_nat m).
Proof.
  intros Hl (blocks & _ & Hu & _)%cbf_sync_Ok. rewrite Hu. intros [[op Ho] _]%last_active_indices_spec.
  assert (indices_ok (λ i, i.1 = KeychainExternal ∧ is_Some (sy_spks req !! Z.to_nat i.2))
    (foldl apply_block_relevant ((collect_sync_spks req).1, graph_empty) blocks).1) as [_ H].
  { by apply apply_blocks_ok, collect_sync_spks_ok. }
  by apply H in Ho.
Qed.

(** ** What a sync does not see *)

(** The empty graph has no conflicts and makes the empty update. *)
Definition empty_graph_law : Prop :=
  (∀ tx, direct_conflict_txs graph_empty tx = []) ∧ graph_update graph_empty = TxUpdate_default.

Lemma collect_sync_spks_dom req spk :
  is_Some (spk_indices (collect_sync_spks req).1 !! spk) ↔ spk ∈ item_spk <$> sy_spks req.
Proof.
  unfold collect_sync_spks. cbn [fst].
  assert (∀ l s, is_Some (spk_indices (foldl collect_sync_step s l).1 !! spk) ↔
    spk ∈ item_spk <$> l ∨ is_Some (spk_indices s.1 !! spk)) as H.
  { induction l as [|item l IH]; intros s; cbn [foldl]; [set_solver|]. rewrite IH. cbn [collect_sync_step fst].
    rewrite insert_spk_dom, fmap_cons, elem_of_cons. tauto. }
  rewrite H. cbn. rewrite lookup_empty. split; [intros [?|[? ?]]; done|auto].
Qed.
Lemma collect_sync_spks_txouts req : ix_txouts (collect_sync_spks req).1 = ∅.
Proof.
  unfold collect_sync_spks. cbn [fst].
  assert (∀ l s, ix_txouts (foldl collect_sync_step s l).1 = ix_txouts s.1) as H; [|by rewrite H].
  induction l as [|item l IH]; intros s; cbn [foldl]; [done|]. rewrite IH. cbn. unfold insert_spk. by case_match.
Qed.

Lemma unpaid_block ix blk :
  empty_graph_law → ix_txouts ix = ∅ →
  (∀ tx o, tx ∈ ib_txdata blk → o ∈ tx_output tx → spk_indices ix !! txo_script o = None) →
  apply_block_relevant (ix, graph_empty) blk = (ix, graph_empty).
Proof.
  intros He Ht Hn. unfold apply_block_relevant. induction (ib_txdata blk) as [|tx l IH]; cbn [foldl]; [done|].
  assert (scan_tx_outputs ix tx = ix) as Hs.
  { unfold scan_tx_outputs.
    assert (∀ p, p ∈ imap pair (tx_output tx) → spk_indices ix !! txo_script p.2 = None) as Hp.
    { intros [v o] [k Hk]%list_elem_of_lookup. rewrite list_lookup_imap in Hk. apply fmap_Some in Hk as (o' & Ho & [= -> ->]).
      eapply Hn; [left|by eapply list_elem_of_lookup_2]. }
    induction (imap pair (tx_output tx)) as [|p k IHk]; cbn [foldl]; [done|].
    unfold scan_txout at 2. rewrite Hp by left. apply IHk. set_solver. }
  unfold apply_block_tx at 2. cbn [fst snd]. rewrite Hs. unfold is_tx_or_conflict_relevant. cbn [fst snd].
  rewrite (proj1 He), orb_false_r. assert (is_relevant ix tx = false) as ->; [|apply IH; set_solver].
  unfold is_relevant. rewrite Ht. apply orb_false_iff. split; apply not_true_iff_false; rewrite existsb_exists.
  - intros (i & _ & [? Hi]%bool_decide_eq_true). by rewrite lookup_empty in Hi.
  - intros (o & Ho%list_elem_of_In & Hi%bool_decide_eq_true). rewrite (Hn tx o) in Hi by (left || done). by destruct Hi.
Qed.

(** C36: a compact-filter sync does not see spends. If none of the blocks it
    fetches (the ones whose filters match the requested scripts) pays a
    requested script, the update has no transaction, no anchor and no last
    active index, whichever outpoints those blocks spend and whichever the
    request names: the graph of the scan starts empty and knows none of the
    wallet's coins. So a spend without change of a coin received before the
    scan is not reported, although its block was fetched. Of BDK's graph it is
    assumed that the empty one has no conflicts and makes the empty update. *)
Theorem sync_misses_spends req b b' u :
  empty_graph_law → cbf_sync req b = (b', Ok u) →
  (∀ blk tx o, fetched req b blk → tx ∈ ib_txdata blk → o ∈ tx_output tx → txo_script o ∉ item_spk <$> sy_spks req) →
  up_tx_update u = TxUpdate_default ∧ up_last_active_indices u = ∅.
Proof.
  intros He (blocks & Hb & Hu & Ht)%cbf_sync_Ok Hn. rewrite Hu, Ht.
  assert (foldl apply_block_relevant ((collect_sync_spks req).1, graph_empty) blocks =
    ((collect_sync_spks req).1, graph_empty)) as ->.
  { clear Hu Ht. induction blocks as [|blk bs IH]; cbn [foldl]; [done|].
    rewrite unpaid_block, IH; [done|set_solver|done|apply collect_sync_spks_txouts|].
    intros tx o Htx Ho. apply eq_None_not_Some. rewrite collect_sync_spks_dom. eapply Hn; [|done..]. apply Hb. left. }
  split; [apply He|]. unfold last_active_indices. unfold collect_sync_spks. cbn [fst].
  assert (∀ l s, spk_txouts (foldl collect_sync_step s l).1 = spk_txouts s.1) as Hs.
  { induction l as [|item l IH]; intros s; cbn [foldl]; [done|]. rewrite IH. cbn. unfold insert_spk. by case_match. }
  rewrite Hs. cbn. by rewrite elements_empty.
Qed.

(** ** Broadcast *)

(** The outcome of a broadcast. The error "delivery unconfirmed" is
    returned exactly when the deadline passed after the announcement had begun;
    success means that the node accepted the package, and returns its txid. *)
Lemma cbf_broadcast_spec tx b :
  let options := build_node (cbf_config b) (chain_state_for_network (cbf_network (cbf_config b)) None) in
  (cbf_broadcast tx b = Err ChDeliveryUnconfirmed ↔ worker_fate options = TimedOut ∧ submit_reached options = true) ∧
  (∀ txid, cbf_broadcast tx b = Ok txid ↔
    worker_fate options = Finished ∧ wait_synced (node_events options) = Ok tt ∧
    submit_package tx = Ok tt ∧ txid = compute_txid tx).
Proof.
  cbn zeta. unfold cbf_broadcast, with_synced. set (options := build_node _ _). cbn [op_is_broadcast].
  assert (∀ es, wait_synced es ≠ Err ChDeliveryUnconfirmed) as Hw by (induction es as [|[] es IH]; naive_solver).
  destruct (worker_fate options) eqn:Ef; cbn [run_with_wall_timeout_or mbind res_bind run_ready_op].
  - split; [naive_solver|]. naive_solver.
  - destruct (wait_synced _) as [[]|e|] eqn:Ew; cbn [mbind res_bind].
    + destruct (submit_package tx) as [[]|e|] eqn:Es; cbn [map_err mbind res_bind]; split; naive_solver.
    + specialize (Hw (node_events options)). split; naive_solver.
    + split; naive_solver.
  - unfold map_operation_timeout, timed_out_after. destruct (submit_reached options); cbn; split; naive_solver.
  - split; naive_solver.
Qed.
End SyncLaws.
