(* ===== verification/BdkElectrum.v ===== *)
(** BDK's Electrum client, the vendored [bdk_electrum/src/bdk_electrum_client.rs].

    [BdkElectrumClient] is what the Electrum backend of [trinity-chain] scans
    with. It keeps three caches behind mutexes: transactions, block headers by
    height, and confirmation anchors; they survive the operation that filled
    them, also one that failed, so an operation is a function of the caches to
    the caches and an outcome, with the monad [CM]. The server is the class
    [ElectrumApi]: its answers during one operation. A later operation may meet
    another instance. [validate_merkle_proof] is that of the vendored
    [electrum-client/src/utils.rs].

    The theory is in [ElectrumScan] (scripts and batches), [ElectrumAnchors]
    (proofs and caches) and [ElectrumTip] (checkpoints). *)
From S2P Require Import Prelude Ordered Types Bitcoin Parse Text Checkpoint LocalChain Chain Electrum.

Definition CHAIN_SUFFIX_LENGTH : Z := 8.
Definition usize_max : Z := u64_max.

(** ** What the server sends *)

(** [bitcoin::block::Header] *)
Record Header := mkHeader {
  hdr_version : Z;
  hdr_prev_blockhash : bytes;
  hdr_merkle_root : bytes;
  hdr_time : Z;
  hdr_bits : Z;
  hdr_nonce : Z
}.
(** [height] is an [i32]: 0 and -1 are unconfirmed. *)
Record GetHistoryRes := mkHistory { hist_height : Z; hist_tx_hash : bytes }.
Record GetMerkleRes := mkMerkle { mk_block_height : Z; mk_pos : Z; mk_merkle : list bytes }.

Class ElectrumApi := {
  batch_script_get_history : list bytes → res ElectrumError (list (list GetHistoryRes));
  transaction_get : bytes → res ElectrumError Transaction;
  batch_block_header : list Z → res ElectrumError (list Header);
  block_header : Z → res ElectrumError Header;
  (** start height and count *)
  block_headers : Z → Z → res ElectrumError (list Header);
  batch_transaction_get_merkle : list (bytes * Z) → res ElectrumError (list GetMerkleRes);
  (** the height of the notification, a [usize] *)
  api_headers_subscribe : res ElectrumError Z
}.

Section Hashing.
Context `{hashes : Hashes}.

Definition sha256d (b : bytes) : bytes := sha256 (sha256 b).

(** [consensus_encode] of the 80 bytes, then the double hash. *)
Definition block_hash (h : Header) : bytes :=
  sha256d (le_bytes 4 (hdr_version h mod 2 ^ 32) ++ hdr_prev_blockhash h ++ hdr_merkle_root h ++
    le_bytes 4 (hdr_time h) ++ le_bytes 4 (hdr_bits h) ++ le_bytes 4 (hdr_nonce h)).

(** One round of the loop: the sibling goes to the side the index says. *)
Definition merkle_step (st : Z * bytes) (sibling : bytes) : Z * bytes :=
  let '(index, cur) := st in
  let next_hash := reverse sibling in
  (index / 2, if index mod 2 =? 0 then sha256d (cur ++ next_hash) else sha256d (next_hash ++ cur)).
Definition validate_merkle_proof (txid merkle_root : bytes) (proof : GetMerkleRes) : bool :=
  bool_decide ((foldl merkle_step (mk_pos proof, txid) (mk_merkle proof)).2 = merkle_root).
End Hashing.

(** ** The client *)

Record Caches := mkCaches {
  tx_cache : gmap bytes Transaction;
  block_header_cache : gmap Z Header;
  anchor_cache : gmap (bytes * bytes) ConfirmationBlockTime
}.
Definition BdkElectrumClient_new : Caches := mkCaches ∅ ∅ ∅.

Definition CM (A : Type) : Type := Caches → Caches * res ElectrumError A.
#[global] Instance CM_ret : MRet CM := λ A a c, (c, Ok a).
#[global] Instance CM_bind : MBind CM := λ A B f m c,
  match m c with
  | (c', Ok a) => f a c'
  | (c', Err e) => (c', Err e)
  | (c', Panic) => (c', Panic)
  end.
Definition lift {A} (r : res ElectrumError A) : CM A := λ c, (c, r).
Definition get_caches : CM Caches := λ c, (c, Ok c).
Definition put_caches (c : Caches) : CM unit := λ _, (c, Ok tt).
(** [for x in l { st = f(st, x)?; }] *)
Fixpoint fold_cm {A B} (f : B → A → CM B) (b : B) (l : list A) : CM B :=
  match l with
  | [] => mret b
  | x :: l => b' ← f b x; fold_cm f b' l
  end.

Definition cache_tx (txid : bytes) (tx : Transaction) (c : Caches) : Caches :=
  mkCaches (<[txid := tx]> (tx_cache c)) (block_header_cache c) (anchor_cache c).
Definition cache_header (height : Z) (h : Header) (c : Caches) : Caches :=
  mkCaches (tx_cache c) (<[height := h]> (block_header_cache c)) (anchor_cache c).
Definition cache_anchor (txid hash : bytes) (a : ConfirmationBlockTime) (c : Caches) : Caches :=
  mkCaches (tx_cache c) (block_header_cache c) (<[(txid, hash) := a]> (anchor_cache c)).

Definition populate_anchor_cache (tx_anchors : list (bytes * list ConfirmationBlockTime)) (c : Caches) : Caches :=
  foldl (λ c ta, foldl (λ c a, cache_anchor ta.1 (bi_hash (anchor_block a)) a c) c ta.2) c tx_anchors.

(** Updates of the [TxUpdate] under construction. *)
Definition push_update_tx (tx : Transaction) (u : TxUpdate) : TxUpdate :=
  mkTxUpdate (txs u ++ [tx]) (txouts u) (anchors u) (seen_ats u) (evicted_ats u).
Definition insert_anchor (a : ConfirmationBlockTime) (txid : bytes) (u : TxUpdate) : TxUpdate :=
  mkTxUpdate (txs u) (txouts u) ({[(a, txid)]} ∪ anchors u) (seen_ats u) (evicted_ats u).
Definition insert_seen (txid : bytes) (t : Z) (u : TxUpdate) : TxUpdate :=
  mkTxUpdate (txs u) (txouts u) (anchors u) ({[(txid, t)]} ∪ seen_ats u) (evicted_ats u).
Definition insert_evicted (ids : gset bytes) (t : Z) (u : TxUpdate) : TxUpdate :=
  mkTxUpdate (txs u) (txouts u) (anchors u) (seen_ats u) (set_map (λ i, (i, t)) ids ∪ evicted_ats u).

Notation Pending := (list (bytes * Z)).

Section Client.
Context `{hashes : Hashes} `{codec : Codec} `{api : ElectrumApi}.

Definition populate_tx_cache (l : list Transaction) (c : Caches) : Caches :=
  foldl (λ c tx, cache_tx (compute_txid tx) tx c) c l.

Definition fetch_tx (txid : bytes) : CM Transaction :=
  c ← get_caches;
  match tx_cache c !! txid with
  | Some tx => mret tx
  | None =>
      tx ← lift (transaction_get txid);
      _ ← put_caches (cache_tx txid tx c);
      mret tx
  end.

(** The [match] on a reported height: confirmed above 0, else seen. *)
Definition note_height (start_time : Z) (txid : bytes) (height : Z) (st : TxUpdate * Pending) : TxUpdate * Pending :=
  if 0 <? height then (st.1, st.2 ++ [(txid, height)]) else (insert_seen txid start_time st.1, st.2).

(** *** By script *)

Record SpkScan := mkSpkScan {
  sc_update : TxUpdate * Pending;
  sc_unused : Z;
  sc_last_active : option Z
}.
(** The outcome of a round: go on, or return from the function. *)
Inductive Flow := Go (st : SpkScan) | Return (st : SpkScan).

Definition history_step (start_time : Z) (st : TxUpdate * Pending) (tx_res : GetHistoryRes) : CM (TxUpdate * Pending) :=
  tx ← fetch_tx (hist_tx_hash tx_res);
  mret (note_height start_time (hist_tx_hash tx_res) (hist_height tx_res) (push_update_tx tx st.1, st.2)).

Definition spk_step (start_time stop_gap : Z) (st : SpkScan) (e : (Z * SpkWithExpectedTxids) * list GetHistoryRes) : CM Flow :=
  let '((spk_index, spk), spk_history) := e in
  match (if bool_decide (spk_history = [])
         then match checked_add (sc_unused st) 1 with
              | Some i => if i <? stop_gap then Some (mkSpkScan (sc_update st) i (sc_last_active st)) else None
              | None => None
              end
         else Some (mkSpkScan (sc_update st) 0 (Some spk_index))) with
  | None => mret (Return st)
  | Some st =>
      let spk_history_set : gset bytes := list_to_set (map hist_tx_hash spk_history) in
      let u := insert_evicted (expected_txids spk ∖ spk_history_set) start_time (sc_update st).1 in
      up ← fold_cm (history_step start_time) (u, (sc_update st).2) spk_history;
      mret (Go (mkSpkScan up (sc_unused st) (sc_last_active st)))
  end.

Fixpoint spk_loop (start_time stop_gap : Z) (l : list ((Z * SpkWithExpectedTxids) * list GetHistoryRes)) (st : SpkScan) : CM Flow :=
  match l with
  | [] => mret (Go st)
  | e :: l =>
      f ← spk_step start_time stop_gap st e;
      match f with Go st => spk_loop start_time stop_gap l st | Return st => mret (Return st) end
  end.

(** The [loop]: one batch per round. Every round takes a script, so one round
    more than there are scripts is enough. *)
Fixpoint populate_loop (fuel : nat) (start_time stop_gap batch_size : Z) (spks : list (Z * SpkWithExpectedTxids)) (st : SpkScan) : CM SpkScan :=
  match fuel with
  | O => lift Panic
  | S fuel =>
      let batch := take (Z.to_nat batch_size) spks in
      if bool_decide (batch = []) then mret st else
      spk_histories ← lift (batch_script_get_history (map (λ s, item_spk s.2) batch));
      f ← spk_loop start_time stop_gap (zip batch spk_histories) st;
      match f with
      | Go st => populate_loop fuel start_time stop_gap batch_size (drop (Z.to_nat batch_size) spks) st
      | Return st => mret st
      end
  end.
Definition populate_with_spks (start_time : Z) (up : TxUpdate * Pending) (spks : list (Z * SpkWithExpectedTxids))
    (stop_gap batch_size : Z) : CM ((TxUpdate * Pending) * option Z) :=
  st ← populate_loop (S (length spks)) start_time stop_gap batch_size spks (mkSpkScan up 0 None);
  mret (sc_update st, sc_last_active st).

(** *** By outpoint *)

(** [if let Ok(tx) = self.fetch_tx(..)] *)
Definition fetch_tx_ok (txid : bytes) : CM (option Transaction) := λ c,
  match fetch_tx txid c with
  | (c', Ok tx) => (c', Ok (Some tx))
  | (c', Err _) => (c', Ok None)
  | (c', Panic) => (c', Panic)
  end.

Definition collect_outpoint (l : list (OutPoint * bytes * Transaction)) (op : OutPoint) : CM (list (OutPoint * bytes * Transaction)) :=
  otx ← fetch_tx_ok (op_txid op);
  mret (match otx with
        | Some tx => match tx_output tx !! Z.to_nat (op_vout op) with
                     | Some txout => l ++ [(op, txo_script txout, tx)]
                     | None => l
                     end
        | None => l
        end).

Definition spends (outpoint : OutPoint) (tx : Transaction) : bool :=
  existsb (λ txin, bool_decide (previous_output txin = outpoint)) (tx_input tx).

(** The loop over a script's history, with [has_residing] and [has_spending]. *)
Fixpoint outpoint_loop (start_time : Z) (outpoint : OutPoint) (tx : Transaction) (has_residing has_spending : bool)
    (history : list GetHistoryRes) (st : TxUpdate * Pending) : CM (TxUpdate * Pending) :=
  match history with
  | [] => mret st
  | r :: history =>
      if has_residing && has_spending then mret st else
      let resides := negb has_residing && bool_decide (hist_tx_hash r = op_txid outpoint) in
      let st := if resides then note_height start_time (hist_tx_hash r) (hist_height r) (push_update_tx tx st.1, st.2) else st in
      let has_residing := has_residing || resides in
      if negb has_spending && bool_decide (hist_tx_hash r ≠ op_txid outpoint) then
        res_tx ← fetch_tx (hist_tx_hash r);
        if spends outpoint res_tx then
          outpoint_loop start_time outpoint tx has_residing true history
            (note_height start_time (hist_tx_hash r) (hist_height r) (push_update_tx res_tx st.1, st.2))
        else outpoint_loop start_time outpoint tx has_residing false history st
      else outpoint_loop start_time outpoint tx has_residing has_spending history st
  end.

(** The unique scripts are asked for in the set's own order, here some order. *)
Definition populate_with_outpoints (start_time : Z) (up : TxUpdate * Pending) (outpoints : list OutPoint) : CM (TxUpdate * Pending) :=
  ops_spks_txs ← fold_cm collect_outpoint [] outpoints;
  let unique_spks := elements (list_to_set (map (λ e, e.1.2) ops_spks_txs) : gset bytes) in
  histories ← lift (batch_script_get_history unique_spks);
  let spk_map : gmap bytes (list GetHistoryRes) := foldl (λ m e, <[e.1 := e.2]> m) ∅ (zip unique_spks histories) in
  fold_cm (λ st e, let '(outpoint, spk, tx) := e in
             match spk_map !! spk with
             | Some spk_history => outpoint_loop start_time outpoint tx false false spk_history st
             | None => mret st
             end) up ops_spks_txs.

(** *** By txid *)

(** A [Protocol] error skips the transaction, every other one is returned. *)
Definition collect_txid (l : list (bytes * Transaction) * list bytes) (txid : bytes) : CM (list (bytes * Transaction) * list bytes) := λ c,
  match fetch_tx txid c with
  | (c', Ok tx) =>
      match tx_output tx with
      | txo :: _ => (c', Ok (l.1 ++ [(txid, tx)], l.2 ++ [txo_script txo]))
      | [] => (c', Panic)
      end
  | (c', Err (EProtocol _)) => (c', Ok l)
  | (c', Err e) => (c', Err e)
  | (c', Panic) => (c', Panic)
  end.

Definition populate_with_txids (start_time : Z) (up : TxUpdate * Pending) (txids : list bytes) : CM (TxUpdate * Pending) :=
  l ← fold_cm collect_txid ([], []) txids;
  spk_histories ← lift (batch_script_get_history l.2);
  mret (foldl (λ st e,
    let '((txid, tx), spk_history) := e in
    let st := match List.find (λ r, bool_decide (hist_tx_hash r = txid)) spk_history with
              | Some r => note_height start_time txid (hist_height r) st
              | None => st
              end in
    (push_update_tx tx st.1, st.2)) up (zip l.1 spk_histories)).

(** *** Anchors *)

(** Headers for the needed heights: from the cache, or fetched and cached. *)
Definition cached_hashes (c : Caches) (needed_heights : list Z) : gmap Z bytes * list Z :=
  foldl (λ st height, match block_header_cache c !! height with
                      | Some header => (<[height := block_hash header]> st.1, st.2)
                      | None => (st.1, st.2 ++ [height])
                      end) (∅, []) needed_heights.
Definition collect_headers (needed_heights : list Z) : CM (gmap Z bytes) :=
  c ← get_caches;
  let '(height_to_hash, missing_heights) := cached_hashes c needed_heights in
  if bool_decide (missing_heights = []) then mret height_to_hash else
  headers ← lift (batch_block_header missing_heights);
  _ ← put_caches (foldl (λ c e, cache_header e.1 e.2 c) c (zip missing_heights headers));
  mret (foldl (λ m e, <[e.1 := block_hash e.2]> m) height_to_hash (zip missing_heights headers)).

Definition check_cache (height_to_hash : gmap Z bytes) (st : list (bytes * ConfirmationBlockTime) * Pending) (e : bytes * Z)
    : CM (list (bytes * ConfirmationBlockTime) * Pending) :=
  c ← get_caches;
  hash ← lift (expect (height_to_hash !! (e.2 mod 2 ^ 32)));
  mret (match anchor_cache c !! (e.1, hash) with
        | Some anchor => (st.1 ++ [(e.1, anchor)], st.2)
        | None => (st.1, st.2 ++ [e])
        end).

(** One retry with a fresh header when the proof does not match the cached one. *)
Definition validate_step (results : list (bytes * ConfirmationBlockTime)) (e : (bytes * Z) * GetMerkleRes)
    : CM (list (bytes * ConfirmationBlockTime)) :=
  let '((txid, height), proof) := e in
  c ← get_caches;
  header ← lift (expect (block_header_cache c !! (height mod 2 ^ 32)));
  header_valid ←
    (if validate_merkle_proof txid (hdr_merkle_root header) proof then mret (header, true) else
     header ← lift (block_header height);
     c ← get_caches;
     _ ← put_caches (cache_header (height mod 2 ^ 32) header c);
     mret (header, validate_merkle_proof txid (hdr_merkle_root header) proof));
  let '(header, valid) := header_valid in
  if valid : bool then
    let hash := block_hash header in
    let anchor := mkAnchor (mkBlockId (height mod 2 ^ 32) hash) (hdr_time header) in
    c ← get_caches;
    _ ← put_caches (cache_anchor txid hash anchor c);
    mret (results ++ [(txid, anchor)])
  else mret results.

(** Sorting and removing duplicates gives the sorted set of the heights. *)
Definition batch_fetch_anchors (txs_with_heights : Pending) : CM (list (bytes * ConfirmationBlockTime)) :=
  let needed_heights := bset_of_list (map (λ e, e.2 mod 2 ^ 32) txs_with_heights) in
  height_to_hash ← collect_headers needed_heights;
  st ← fold_cm (check_cache height_to_hash) ([], []) txs_with_heights;
  let '(results, to_fetch) := st in
  proofs ← lift (batch_transaction_get_merkle to_fetch);
  fold_cm validate_step results (zip to_fetch proofs).

(** *** Previous outputs *)

Definition is_null (o : OutPoint) : bool := bool_decide (o = mkOutPoint (replicate 32 0) u32_max).
Definition is_coinbase (tx : Transaction) : bool :=
  match tx_input tx with [txin] => is_null (previous_output txin) | _ => false end.
(** [impl Display for OutPoint]: the txid prints in reverse byte order. *)
Definition outpoint_display (o : OutPoint) : bytes := hex_encode (reverse (op_txid o)) ++ str ":" ++ dec (op_vout o).

Definition prev_txout_step (m : gmap OutPoint TxOut) (vin : TxIn) : CM (gmap OutPoint TxOut) :=
  let outpoint := previous_output vin in
  prev_tx ← fetch_tx (op_txid outpoint);
  txout ← lift (ok_or (tx_output prev_tx !! Z.to_nat (op_vout outpoint))
                  (EMessage (str "prevout " ++ outpoint_display outpoint ++ str " does not exist")));
  mret (<[outpoint := txout]> m).
Definition prev_tx_step (st : gset bytes * gmap OutPoint TxOut) (tx : Transaction) : CM (gset bytes * gmap OutPoint TxOut) :=
  if is_coinbase tx || bool_decide (compute_txid tx ∈ st.1) then mret st else
  m ← fold_cm prev_txout_step st.2 (tx_input tx);
  mret ({[compute_txid tx]} ∪ st.1, m).
Definition fetch_prev_txout (u : TxUpdate) : CM TxUpdate :=
  st ← fold_cm prev_tx_step (∅, txouts u) (txs u);
  mret (mkTxUpdate (txs u) st.2 (anchors u) (seen_ats u) (evicted_ats u)).

(** *** The chain *)

(** The server's hash at a height: from the blocks fetched so far, or asked for. *)
Definition hash_at (new_tip_height height : Z) (new_blocks : gmap Z bytes) : res ElectrumError (bytes * gmap Z bytes) :=
  match new_blocks !! height with
  | Some hash => Ok (hash, new_blocks)
  | None =>
      if new_tip_height <? height then Panic else
      header ← block_header height;
      Ok (block_hash header, <[height := block_hash header]> new_blocks)
  end.
(** The walk down the wallet's chain to the first block the server has too;
    every block passed is fetched into [new_blocks]. *)
Fixpoint find_agreement (new_tip_height : Z) (cp : CheckPoint) (new_blocks : gmap Z bytes)
    : res ElectrumError (option CheckPoint * gmap Z bytes) :=
  st ← hash_at new_tip_height (cp_height cp) new_blocks;
  let '(hash, new_blocks) := st in
  if bool_decide (hash = cp_hash cp) then Ok (Some cp, new_blocks) else
  match cp with
  | CPBase _ => Ok (None, new_blocks)
  | CPLink _ prev => find_agreement new_tip_height prev new_blocks
  end.

Definition fetch_tip_and_latest_blocks (prev_tip : CheckPoint) : res ElectrumError (CheckPoint * gmap Z bytes) :=
  height ← api_headers_subscribe;
  let new_tip_height := height mod 2 ^ 32 in
  if new_tip_height <? cp_height prev_tip then Ok (prev_tip, ∅) else
  let start_height := sat_sub new_tip_height (CHAIN_SUFFIX_LENGTH - 1) in
  headers ← block_headers start_height CHAIN_SUFFIX_LENGTH;
  let new_blocks := map_seqZ start_height (map block_hash headers) in
  found ← find_agreement new_tip_height prev_tip new_blocks;
  let '(agreement, new_blocks) := found in
  agreement_cp ← ok_or agreement (EMessage (str "cannot find agreement block with server"));
  let extension := map block_of (List.filter (λ e, cp_height agreement_cp <? e.1) (entries new_blocks)) in
  new_tip ← expect (cp_extend agreement_cp extension);
  Ok (new_tip, new_blocks).

(** Anchors in the order of the [BTreeSet]: height, hash, time, txid. *)
Definition anchor_key (e : ConfirmationBlockTime * bytes) : (Z * bytes) * Z * bytes :=
  ((bi_height (anchor_block e.1), bi_hash (anchor_block e.1)), confirmation_time e.1, e.2).
Definition by_anchor (x y : ConfirmationBlockTime * bytes) : Prop := cleb (anchor_key x) (anchor_key y) = true.
#[global] Instance by_anchor_dec : RelDecision by_anchor.
Proof. intros x y. unfold by_anchor. apply _. Defined.
Definition sorted_anchors (s : gset (ConfirmationBlockTime * bytes)) : list (ConfirmationBlockTime * bytes) :=
  merge_sort by_anchor (elements s).

Definition chain_update_step (latest_blocks : gmap Z bytes) (tip : CheckPoint) (e : ConfirmationBlockTime * bytes)
    : res ElectrumError CheckPoint :=
  let anchor := anchor_block e.1 in
  let height := bi_height anchor in
  if bool_decide (cp_get tip height = None) && (height <=? cp_height tip) then
    cp_insert tip (mkBlockId height (default (bi_hash anchor) (latest_blocks !! height)))
  else Ok tip.
Definition chain_update (tip : CheckPoint) (latest_blocks : gmap Z bytes) (l : list (ConfirmationBlockTime * bytes))
    : res ElectrumError CheckPoint :=
  fold_res (chain_update_step latest_blocks) tip l.

(** ** The two operations *)

Definition tip_and_latest_blocks (chain_tip : option CheckPoint) : res ElectrumError (option (CheckPoint * gmap Z bytes)) :=
  match chain_tip with
  | Some chain_tip => r ← fetch_tip_and_latest_blocks chain_tip; Ok (Some r)
  | None => Ok None
  end.

(** What follows the scripts in both operations: previous outputs, anchors, and
    the checkpoint. *)
Definition finish_update (fetch_prev_txouts : bool) (tip_blocks : option (CheckPoint * gmap Z bytes)) (up : TxUpdate * Pending)
    : CM (TxUpdate * option CheckPoint) :=
  u ← (if fetch_prev_txouts then fetch_prev_txout up.1 else mret up.1);
  u ← (if bool_decide (up.2 = []) then mret u else
       l ← batch_fetch_anchors up.2;
       mret (foldl (λ u e, insert_anchor e.2 e.1 u) u l));
  match tip_blocks with
  | Some (chain_tip, latest_blocks) =>
      cp ← lift (chain_update chain_tip latest_blocks (sorted_anchors (anchors u)));
      mret (u, Some cp)
  | None => mret (u, None)
  end.

Definition keychain_step (start_time stop_gap batch_size : Z) (st : (TxUpdate * Pending) * gmap KeychainKind Z)
    (k : KeychainKind * list (Z * bytes)) : CM ((TxUpdate * Pending) * gmap KeychainKind Z) :=
  r ← populate_with_spks start_time st.1 (map (λ s, (s.1, mkSpkItem s.2 ∅)) k.2) stop_gap batch_size;
  mret (r.1, match r.2 with Some i => <[k.1 := i]> st.2 | None => st.2 end).

Definition bdk_full_scan (request : FullScanRequest) (stop_gap batch_size : Z) (fetch_prev_txouts : bool) : CM FullScanResponse :=
  tip_blocks ← lift (tip_and_latest_blocks (fs_chain_tip request));
  st ← fold_cm (keychain_step (fs_start_time request) stop_gap batch_size) ((TxUpdate_default, []), ∅) (spks_by_keychain request);
  r ← finish_update fetch_prev_txouts tip_blocks st.1;
  mret (mkFullScanResponse r.1 st.2 r.2).

Definition bdk_sync (request : SyncRequest) (batch_size : Z) (fetch_prev_txouts : bool) : CM SyncResponse :=
  tip_blocks ← lift (tip_and_latest_blocks (sy_chain_tip request));
  let start_time := sy_start_time request in
  r ← populate_with_spks start_time (TxUpdate_default, []) (imap (λ i spk, (Z.of_nat i mod 2 ^ 32, spk)) (sy_spks request)) usize_max batch_size;
  up ← populate_with_txids start_time r.1 (sy_txids request);
  up ← populate_with_outpoints start_time up (sy_outpoints request);
  r ← finish_update fetch_prev_txouts tip_blocks up;
  mret (mkSyncResponse r.1 r.2).
End Client.
