(* ===== verification/Merkle.v ===== *)
(** Merkle proofs.

    The root of a block's transaction ids as the vendored
    [bitcoin/src/merkle_tree/mod.rs] computes it, the path a server sends for one
    of them, and what [validate_merkle_proof] of the Electrum client decides:
    the path of every transaction of the block is accepted, and a path of the
    tree's depth that is accepted is about a transaction of the block, or it
    exhibits a collision of the hash ([merkle_proof_decides]). The client does
    not know the depth and does not check it. *)
From S2P Require Import Prelude Ordered Types Bitcoin Chain Electrum BdkElectrum.

Section Merkle.
Context `{hashes : Hashes}.

(** One level: neighbours are hashed together, an odd last one with itself. *)
Fixpoint pair_up (l : list bytes) : list bytes :=
  match l with
  | [] => []
  | [x] => [sha256d (x ++ x)]
  | x :: y :: l => sha256d (x ++ y) :: pair_up l
  end.
(** The source works in place; a level here is a new list. Each level is shorter
    than the one before as long as there are two hashes. *)
Fixpoint merkle_root_r (fuel : nat) (l : list bytes) : option bytes :=
  match l, fuel with
  | [x], _ => Some x
  | [], _ | _, O => None
  | _, S fuel => merkle_root_r fuel (pair_up l)
  end.
Definition calculate_root (l : list bytes) : option bytes :=
  match l with
  | [] => None
  | [x] => Some x
  | _ => merkle_root_r (length l) (pair_up l)
  end.

(** ** The tree *)

Inductive merkle_tree : nat → list bytes → bytes → Prop :=
  | tree_root x : merkle_tree 0 [x] x
  | tree_level n l r : (1 < length l)%nat → merkle_tree n (pair_up l) r → merkle_tree (S n) l r.

Lemma pairs_ind {A} (P : list A → Prop) :
  P [] → (∀ x, P [x]) → (∀ x y l, P l → P (x :: y :: l)) → ∀ l, P l.
Proof.
  intros H0 H1 H2. fix IH 1. intros [|x [|y l]]; [exact H0|apply H1|]. apply H2, IH.
Qed.

Lemma pair_up_length l : (1 < length l)%nat → (0 < length (pair_up l) < length l)%nat.
Proof.
  assert (∀ l, length (pair_up l) ≤ length l ∧ (0 < length l → 0 < length (pair_up l)))%nat as H.
  { apply pairs_ind; cbn; intros; lia. }
  destruct l as [|x [|y l]]; cbn; [lia..|]. destruct (H l). lia.
Qed.

Lemma pair_up_lookup l j :
  pair_up l !! j = (λ x, sha256d (x ++ default x (l !! S (2 * j)))) <$> l !! (2 * j)%nat.
Proof.
  revert j. induction l as [|x|x y l IH] using pairs_ind; intros [|j]; cbn [pair_up]; try done.
  replace (2 * S j)%nat with (S (S (2 * j))) by lia. cbn. rewrite IH. f_equal.
Qed.

(** Every block has a tree, and its root is the one the vendored code computes. *)
Lemma merkle_root_tree fuel l :
  l ≠ [] → (length l ≤ S fuel)%nat → ∃ n r, merkle_root_r fuel l = Some r ∧ merkle_tree n l r.
Proof.
  revert l. induction fuel as [|fuel IH]; intros l Hl Hf.
  - destruct l as [|x [|y l]]; cbn in *; [done| |lia]. exists O, x. split; [done|constructor].
  - destruct (decide (length l = 1)%nat) as [H1|H1].
    + destruct l as [|x [|y l]]; [done| |done]. exists O, x. split; [done|constructor].
    + assert (1 < length l)%nat as H2 by (destruct l; [done|cbn in *; lia]). pose proof (pair_up_length l H2) as Hp.
      destruct (IH (pair_up l)) as (n & r & Hr & Ht); [by destruct (pair_up l); cbn in *; [lia|]|lia|].
      exists (S n), r. split; [|by constructor]. by destruct l as [|x [|y l]].
Qed.
Lemma calculate_root_tree l : l ≠ [] → ∃ n r, calculate_root l = Some r ∧ merkle_tree n l r.
Proof.
  intros Hl. destruct (merkle_root_tree (length l) l Hl ltac:(lia)) as (n & r & Hr & Ht). exists n, r. split; [|done].
  destruct l as [|x [|y l]]; [done..|]. inversion Ht as [|n' ? ? H2 Ht']; subst. cbn [calculate_root].
  destruct (merkle_root_tree (length (x :: y :: l)) (pair_up (x :: y :: l))) as (m & r' & -> & Hm); [done|cbn; pose proof (pair_up_length (x :: y :: l) H2); cbn in *; lia|].
  f_equal. clear -Ht' Hm. revert m r' Hm. induction Ht'; inversion 1; subst; cbn in *; [done|lia|lia|eauto].
Qed.

(** ** The path of a transaction *)

(** The hash next to position [i], the same one when it has no neighbour. *)
Definition sibling (l : list bytes) (i : nat) : bytes :=
  default (default [] (l !! i)) (l !! (if Nat.even i then S i else pred i)).
(** What the server sends: a sibling per level, in display order. *)
Fixpoint merkle_path (n : nat) (l : list bytes) (i : nat) : list bytes :=
  match n with
  | O => []
  | S n => reverse (sibling l i) :: merkle_path n (pair_up l) (Nat.div2 i)
  end.

Lemma merkle_step_pair l i x :
  l !! i = Some x →
  ∃ y, merkle_step (Z.of_nat i, x) (reverse (sibling l i)) = (Z.of_nat (Nat.div2 i), y) ∧ pair_up l !! Nat.div2 i = Some y.
Proof.
  intros Hx. unfold merkle_step. rewrite reverse_involutive, pair_up_lookup. unfold sibling. rewrite Hx.
  destruct (Nat.even i) eqn:E.
  - apply Nat.even_spec in E as [k ->]. rewrite Nat.div2_double, Hx. replace (Z.of_nat (2 * k) / 2) with (Z.of_nat k) by (Z.to_euclidean_division_equations; lia).
    replace (Z.of_nat (2 * k) mod 2) with 0 by (Z.to_euclidean_division_equations; lia). by eexists.
  - assert (Nat.odd i = true) as Ho by (by rewrite <-Nat.negb_even, E). apply Nat.odd_spec in Ho as [k ->].
    replace (pred (2 * k + 1)) with (2 * k)%nat by lia. replace (2 * k + 1)%nat with (S (2 * k)) in Hx |- * by lia.
    rewrite Nat.div2_succ_double. destruct (lookup_lt_is_Some_2 l (2 * k)) as [z Hz]; [apply lookup_lt_Some in Hx; lia|].
    rewrite Hz, Hx. replace (Z.of_nat (S (2 * k)) / 2) with (Z.of_nat k) by (Z.to_euclidean_division_equations; lia).
    replace (Z.of_nat (S (2 * k)) mod 2) with 1 by (Z.to_euclidean_division_equations; lia). by eexists.
Qed.

Lemma merkle_fold n l r i x :
  merkle_tree n l r → l !! i = Some x → (foldl merkle_step (Z.of_nat i, x) (merkle_path n l i)).2 = r.
Proof.
  intros Ht. revert i x. induction Ht as [y|n l r Hl Ht IH]; intros i x Hx; cbn [merkle_path foldl].
  - by apply list_lookup_singleton_Some in Hx as [-> ->].
  - destruct (merkle_step_pair l i x Hx) as (y & -> & Hy). by apply IH.
Qed.

(** The client accepts the path of every transaction of a block. *)
Lemma merkle_path_validates l i x n r h :
  merkle_tree n l r → l !! i = Some x → validate_merkle_proof x r (mkMerkle h (Z.of_nat i) (merkle_path n l i)) = true.
Proof. intros Ht Hx. unfold validate_merkle_proof. cbn [mk_pos mk_merkle]. by apply bool_decide_eq_true, merkle_fold. Qed.

(** ** What an accepted path proves *)

(** SHA-256 digests have 32 bytes. *)
Context (sha32 : ∀ b, length (sha256 b) = 32%nat).

Definition collision : Prop := ∃ x y, length x = 64%nat ∧ length y = 64%nat ∧ x ≠ y ∧ sha256d x = sha256d y.

Lemma pair_up_sizes l : Forall (λ x, length x = 32%nat) (pair_up l).
Proof. induction l using pairs_ind; cbn; repeat constructor; try done; apply sha32. Qed.
Lemma pair_up_elem l z : z ∈ pair_up l → ∃ x y, x ∈ l ∧ y ∈ l ∧ z = sha256d (x ++ y).
Proof.
  induction l as [|x|x y l IH] using pairs_ind; cbn [pair_up].
  - by intros ?%elem_of_nil.
  - intros ->%list_elem_of_singleton. exists x, x. split_and!; [left|left|done].
  - intros [->|Hz]%elem_of_cons; [exists x, y; split_and!; [left|right; left|done]|].
    destruct (IH Hz) as (u & v & Hu & Hv & ->). exists u, v. split_and!; [by right; right|by right; right|done].
Qed.

(** Hashing a pair into a level is hashing two of the level below. *)
Lemma pair_binds l a b :
  Forall (λ x, length x = 32%nat) l → length a = 32%nat → length b = 32%nat →
  sha256d (a ++ b) ∈ pair_up l → (a ∈ l ∧ b ∈ l) ∨ collision.
Proof.
  intros Hl Ha Hb (x & y & Hx & Hy & He)%pair_up_elem. rewrite Forall_forall in Hl.
  destruct (decide (a ++ b = x ++ y)) as [Heq|Hne].
  - left. apply app_inj_1 in Heq as [-> ->]; [done|]. by rewrite Ha, (Hl x).
  - right. exists (a ++ b), (x ++ y). rewrite !length_app, Ha, Hb, (Hl x Hx), (Hl y Hy). done.
Qed.

Lemma merkle_fold_binds n l r i cur path :
  merkle_tree n l r → Forall (λ x, length x = 32%nat) l → length cur = 32%nat → Forall (λ x, length x = 32%nat) path → length path = n →
  (foldl merkle_step (i, cur) path).2 = r → cur ∈ l ∨ collision.
Proof.
  intros Ht. revert i cur path. induction Ht as [y|n l r Hl Ht IH]; intros i cur path Hs Hc Hp Hn; cbn.
  - destruct path; [|done]. cbn. intros ->. left. by left.
  - destruct path as [|s path]; [done|]. inversion Hp as [|? ? Hlen Hp']; subst. injection Hn as Hn. cbn [foldl].
    unfold merkle_step at 2. assert (length (reverse s) = 32%nat) as Hr by (by rewrite length_reverse). intros Hf.
    eapply IH in Hf as [Hin|]; [|by right|apply pair_up_sizes|by case_match; apply sha32|done..].
    case_match; apply pair_binds in Hin as [[? ?]|]; auto.
Qed.

Lemma merkle_path_length n l i : length (merkle_path n l i) = n.
Proof. revert l i. induction n; intros l i; cbn; auto. Qed.

(** Merkle proofs decide membership in a block. For a block whose root the
    header carries there is a depth such that the client accepts the server's
    path, of this depth, for every transaction of the block; and whoever makes
    it accept some path of this depth for another id has found two different
    inputs with one double SHA-256. *)
Lemma merkle_proof_decides l root :
  calculate_root l = Some root → Forall (λ x, length x = 32%nat) l →
  ∃ n, (∀ i txid h, l !! i = Some txid →
          let proof := mkMerkle h (Z.of_nat i) (merkle_path n l i) in
          length (mk_merkle proof) = n ∧ validate_merkle_proof txid root proof = true) ∧
       (∀ txid proof, length txid = 32%nat → length (mk_merkle proof) = n → Forall (λ x, length x = 32%nat) (mk_merkle proof) →
          validate_merkle_proof txid root proof = true → txid ∈ l ∨ collision).
Proof.
  intros Hr Hl. destruct (calculate_root_tree l) as (n & r & Hr' & Ht); [by destruct l|]. rewrite Hr in Hr'. injection Hr' as <-.
  exists n. split.
  - intros i txid h Hx. split; [apply merkle_path_length|by apply merkle_path_validates].
  - intros txid proof Hlen Hn Hs Hv%bool_decide_eq_true. by eapply merkle_fold_binds.
Qed.
End Merkle.
