(* ===== verification/ClientLogic.v ===== *)
(** Two triples for operations over the client's caches.

    [keeps I m Q]: whatever the server answers, [m] leaves the caches in [I], also
    when it fails, and a result satisfies [Q]. [yields I m Q]: [m] succeeds, with
    caches in [I] and a result in [Q]. Both have the usual rules for the monad
    and its loop. *)
From S2P Require Import Prelude Ordered Types Bitcoin Chain Electrum BdkElectrum.

Section Keeps.
Context (I : Caches → Prop).

Definition keeps {A} (m : CM A) (Q : A → Prop) : Prop := ∀ c, I c → I (m c).1 ∧ ∀ a, (m c).2 = Ok a → Q a.

Lemma keeps_ret {A} (a : A) (Q : A → Prop) : Q a → keeps (mret a) Q.
Proof. intros Hq c Hc. split; [done|]. by intros ? [= <-]. Qed.
Lemma keeps_lift {A} (r : res ElectrumError A) (Q : A → Prop) : (∀ a, r = Ok a → Q a) → keeps (lift r) Q.
Proof. intros Hq c Hc. split; [done|]. cbn. auto. Qed.
Lemma keeps_get : keeps get_caches I.
Proof. intros c Hc. split; [done|]. by intros ? [= <-]. Qed.
Lemma keeps_put c : I c → keeps (put_caches c) (λ _, True).
Proof. by intros Hc c' _. Qed.
Lemma keeps_bind {A B} (m : CM A) (f : A → CM B) P Q : keeps m P → (∀ a, P a → keeps (f a) Q) → keeps (m ≫= f) Q.
Proof.
  intros Hm Hf c Hc. unfold mbind, CM_bind. destruct (Hm c Hc) as [Hc' Hp]. destruct (m c) as [c' [a|e|]]; cbn in *; [|done..].
  by apply Hf; [apply Hp|].
Qed.
Lemma keeps_mono {A} (m : CM A) (P Q : A → Prop) : keeps m P → (∀ a, P a → Q a) → keeps m Q.
Proof. intros Hm Hi c Hc. destruct (Hm c Hc). auto. Qed.
Lemma keeps_fold {A B} (f : B → A → CM B) (J : B → Prop) b l :
  J b → (∀ b x, x ∈ l → J b → keeps (f b x) J) → keeps (fold_cm f b l) J.
Proof.
  revert b. induction l as [|x l IH]; intros b Hb Hf; cbn [fold_cm]; [by apply keeps_ret|].
  eapply keeps_bind; [apply Hf; [left|done]|]. intros b' Hb'. apply IH; [done|]. intros c y Hy. apply Hf. by right.
Qed.
End Keeps.

Section Yields.
Context (I : Caches → Prop).

Definition yields {A} (m : CM A) (Q : A → Prop) : Prop := ∀ c, I c → ∃ c' a, m c = (c', Ok a) ∧ I c' ∧ Q a.

Lemma yields_ret {A} (a : A) (Q : A → Prop) : Q a → yields (mret a) Q.
Proof. intros Hq c Hc. by exists c, a. Qed.
Lemma yields_lift {A} (r : res ElectrumError A) (Q : A → Prop) : (∃ a, r = Ok a ∧ Q a) → yields (lift r) Q.
Proof. intros (a & -> & Hq) c Hc. by exists c, a. Qed.
Lemma yields_get : yields get_caches I.
Proof. intros c Hc. by exists c, c. Qed.
Lemma yields_put c : I c → yields (put_caches c) (λ _, True).
Proof. intros Hc c' _. by exists c, tt. Qed.
Lemma yields_bind {A B} (m : CM A) (f : A → CM B) P Q : yields m P → (∀ a, P a → yields (f a) Q) → yields (m ≫= f) Q.
Proof. intros Hm Hf c Hc. unfold mbind, CM_bind. destruct (Hm c Hc) as (c' & a & -> & Hc' & Ha). by apply Hf. Qed.
Lemma yields_mono {A} (m : CM A) (P Q : A → Prop) : yields m P → (∀ a, P a → Q a) → yields m Q.
Proof. intros Hm Hi c Hc. destruct (Hm c Hc) as (c' & a & ? & ? & ?). exists c', a. auto. Qed.
Lemma yields_fold {A B} (f : B → A → CM B) (J : B → Prop) b l :
  J b → (∀ b x, x ∈ l → J b → yields (f b x) J) → yields (fold_cm f b l) J.
Proof.
  revert b. induction l as [|x l IH]; intros b Hb Hf; cbn [fold_cm]; [by apply yields_ret|].
  eapply yields_bind; [apply Hf; [left|done]|]. intros b' Hb'. apply IH; [done|]. intros c y Hy. apply Hf. by right.
Qed.
End Yields.

(** Equality of results for every cache. *)
Lemma cm_bind_ext {A B} (m m' : CM A) (f f' : A → CM B) c :
  m c = m' c → (∀ a c', f a c' = f' a c') → (m ≫= f) c = (m' ≫= f') c.
Proof. intros Hm Hf. unfold mbind, CM_bind. rewrite Hm. destruct (m' c) as [c' [a|e|]]; auto. Qed.
Lemma cm_bind_assoc {A B D} (m : CM A) (f : A → CM B) (g : B → CM D) c : ((m ≫= f) ≫= g) c = (m ≫= (λ a, f a ≫= g)) c.
Proof. unfold mbind, CM_bind. by destruct (m c) as [c' [a|e|]]. Qed.
Lemma fold_cm_ext {A B} (f g : B → A → CM B) b l c : (∀ b x c, f b x c = g b x c) → fold_cm f b l c = fold_cm g b l c.
Proof.
  intros He. revert b c. induction l as [|x l IH]; intros b c; [done|]. cbn [fold_cm]. apply cm_bind_ext; [apply He|]. apply IH.
Qed.
Lemma fold_cm_app {A B} (f : B → A → CM B) b l k c : fold_cm f b (l ++ k) c = (fold_cm f b l ≫= λ b, fold_cm f b k) c.
Proof.
  revert b c. induction l as [|x l IH]; intros b c; [done|]. cbn [fold_cm app]. rewrite cm_bind_assoc. by apply cm_bind_ext.
Qed.
