(* ===== verification/ElectrumTip.v ===== *)
(** The Electrum client's checkpoints against the server's chain.

    [fetch_tip_and_latest_blocks] replaces the wallet's blocks above the highest
    one the server shares with blocks of the server, and [chain_update] adds the
    blocks of the anchors. On a server that serves one chain of headers the
    result [tracks] that chain ([tip_tracks], [chain_update_tracks]), so the
    wallet takes it for its own chain. *)
From S2P Require Import Prelude Ordered Types Bitcoin Checkpoint LocalChain MergeChains ChainStore Tracking Chain Electrum BdkElectrum.

Section Tip.
Context `{hashes : Hashes} `{codec : Codec} `{api : ElectrumApi}.
Context (chain : list Header) (fork : Z).

Definition server_best : gmap Z bytes := map_seqZ 0 (block_hash <$> chain).

(** The headers the server has during the operation are [chain]. *)
Record serves_headers : Prop := {
  sh_length : 0 < Z.of_nat (length chain) ≤ 2 ^ 32;
  sh_tip : api_headers_subscribe = Ok (Z.of_nat (length chain) - 1);
  sh_header h hdr : 0 ≤ h → chain !! Z.to_nat h = Some hdr → block_header h = Ok hdr;
  sh_headers s n : block_headers s n = Ok (take (Z.to_nat n) (drop (Z.to_nat s) chain))
}.

Lemma server_best_lookup h x :
  server_best !! h = Some x ↔ 0 ≤ h ∧ ∃ hdr, chain !! Z.to_nat h = Some hdr ∧ x = block_hash hdr.
Proof.
  unfold server_best. rewrite lookup_map_seqZ_Some, Z.sub_0_r, list_lookup_fmap, fmap_Some. done.
Qed.
Lemma server_best_range h : is_Some (server_best !! h) ↔ 0 ≤ h < Z.of_nat (length chain).
Proof. unfold server_best. rewrite lookup_map_seqZ_is_Some, length_fmap. lia. Qed.

(** The suffix of the chain in one answer. *)
Lemma suffix_best s n :
  0 ≤ s → map_seqZ (M:=gmap Z bytes) s (map block_hash (take n (drop (Z.to_nat s) chain))) ⊆ server_best.
Proof.
  intros Hs. apply map_subseteq_spec. intros h x [Hh Hx]%lookup_map_seqZ_Some. apply server_best_lookup. split; [lia|].
  change (map block_hash) with (fmap (M:=list) block_hash) in Hx. rewrite list_lookup_fmap, fmap_Some in Hx. destruct Hx as (hdr & [Hl _]%lookup_take_Some & ->).
  rewrite lookup_drop in Hl. exists hdr. split; [|done]. rewrite <-Hl. f_equal. lia.
Qed.

Lemma suffix_lookup s h x n :
  s ≤ h < s + Z.of_nat n → server_best !! h = Some x →
  0 ≤ s → map_seqZ (M:=gmap Z bytes) s (map block_hash (take n (drop (Z.to_nat s) chain))) !! h = Some x.
Proof.
  intros Hh (_ & hdr & Hx & ->)%server_best_lookup Hs. apply lookup_map_seqZ_Some. split; [lia|].
  change (map block_hash) with (fmap (M:=list) block_hash). rewrite list_lookup_fmap, lookup_take_lt by lia.
  rewrite lookup_drop. replace (Z.to_nat s + Z.to_nat (h - s))%nat with (Z.to_nat h) by lia. by rewrite Hx.
Qed.

(** The lowest block above a height. *)
Lemma lowest_above o h0 :
  (∀ h, h0 < h → cp_map o !! h = None) ∨
  ∃ c, h0 < c ∧ is_Some (cp_map o !! c) ∧ ∀ h, h0 < h → is_Some (cp_map o !! h) → c ≤ h.
Proof.
  set (m := filter (λ e, h0 < e.1) (cp_map o)). pose proof (entries_head m) as He. destruct (entries m) as [|[c x] l].
  - left. intros h Hh. apply eq_None_not_Some. intros [x Hx].
    assert (m !! h = Some x) as Hm by (by apply map_lookup_filter_Some). by rewrite He in Hm.
  - right. destruct He as [[Hx Hc]%map_lookup_filter_Some Hmin]. exists c. split_and!; [done|by eexists|].
    intros h Hh [y Hy]. apply Hmin. exists y. by apply map_lookup_filter_Some.
Qed.

(** ** The point of agreement *)

(** [a] is [cp] cut off at its own height. *)
Definition cut_at (cp a : CheckPoint) : Prop :=
  cp_wf a ∧ ∀ h x, cp_map a !! h = Some x ↔ cp_map cp !! h = Some x ∧ h ≤ cp_height a.

Lemma cut_at_refl cp : cp_wf cp → cut_at cp cp.
Proof.
  intros Hw. split; [done|]. intros h x. split; [|tauto]. intros Hx. split; [done|]. apply Z.nlt_ge. intros Hlt.
  by rewrite cp_map_above in Hx by (done || by apply cp_wf_desc).
Qed.
Lemma cut_at_link b p a : cp_wf (CPLink b p) → cut_at p a → cut_at (CPLink b p) a.
Proof.
  intros [Hb Hp] [Ha Hc]. split; [done|]. intros h x. rewrite cp_map_link. rewrite Hc.
  assert (cp_height a ≤ cp_height p) as Hle.
  { apply Z.nlt_ge. intros Hlt. pose proof (cp_map_tip a) as Ht. apply Hc in Ht as [Ht _].
    by rewrite cp_map_above in Ht by (done || by apply cp_wf_desc). }
  split; intros [Hx Hh]; (split; [|done]); [by rewrite lookup_insert_ne by lia|by rewrite lookup_insert_ne in Hx by lia].
Qed.

Lemma hash_at_best h nb :
  serves_headers → 0 ≤ h < Z.of_nat (length chain) → nb ⊆ server_best →
  ∃ y nb', hash_at (Z.of_nat (length chain) - 1) h nb = Ok (y, nb') ∧ nb ⊆ nb' ∧ nb' ⊆ server_best ∧
    nb' !! h = Some y ∧ server_best !! h = Some y.
Proof.
  intros Hs Hh Hnb. unfold hash_at. destruct (nb !! h) as [z|] eqn:E.
  - exists z, nb. split_and!; [done..|by eapply lookup_weaken].
  - rewrite (proj2 (Z.ltb_ge _ _)) by lia. destruct (proj2 (server_best_range h) Hh) as [y Hy].
    pose proof Hy as (_ & hdr & Hhdr & ->)%server_best_lookup. rewrite (sh_header Hs h hdr) by (done || lia).
    eexists _, _. split_and!; [done|by apply insert_subseteq|by apply insert_subseteq_l|apply lookup_insert_eq|done].
Qed.

(** The walk stops at the highest common block; the server's blocks at the
    heights it passed are known. *)
Lemma find_agreement_best cp nb :
  serves_headers → cp_wf cp → cp_height cp < Z.of_nat (length chain) → nb ⊆ server_best →
  ∃ a nb', find_agreement (Z.of_nat (length chain) - 1) cp nb = Ok (a, nb') ∧ nb ⊆ nb' ∧ nb' ⊆ server_best ∧
    match a with
    | Some a => cut_at cp a ∧ server_best !! cp_height a = Some (cp_hash a)
    | None => server_best !! 0 ≠ Some (bi_hash (cp_genesis cp))
    end ∧
    (∀ h x, cp_map cp !! h = Some x → (∀ a', a = Some a' → cp_height a' < h) → is_Some (nb' !! h) ∧ server_best !! h ≠ Some x).
Proof.
  intros Hs. revert nb. induction cp as [b|b p IH]; intros nb Hw Hle Hnb; cbn [find_agreement];
    pose proof (cp_height_nonneg _ Hw) as H0; unfold cp_hash; cbn [block_id].
  - destruct (hash_at_best (cp_height (CPBase b)) nb) as (y & nb1 & -> & Hsub & Hb1 & Hl & Hy); [done|lia|done|].
    cbn [mbind res_bind]. cbn in Hw. change (cp_height (CPBase b)) with (bi_height b) in *. rewrite Hw in *. case_bool_decide as Heq.
    + exists (Some (CPBase b)), nb1. split_and!; [done..|by apply cut_at_refl| |].
      { change (cp_height (CPBase b)) with (bi_height b). cbn. rewrite Hw. congruence. }
      intros h x Hx Ha. specialize (Ha _ eq_refl). by rewrite cp_map_above in Hx by (done || by apply cp_wf_desc).
    + exists None, nb1. split_and!; [done..|cbn; congruence|]. intros h x Hx _. rewrite cp_map_base in Hx.
      apply lookup_singleton_Some in Hx as [<- <-]. rewrite Hw. split; [by eexists|congruence].
  - destruct (hash_at_best (cp_height (CPLink b p)) nb) as (y & nb1 & -> & Hsub & Hb1 & Hl & Hy); [done|lia|done|].
    cbn [mbind res_bind]. change (cp_height (CPLink b p)) with (bi_height b) in *. pose proof Hw as [Hb Hp]. case_bool_decide as Heq.
    + exists (Some (CPLink b p)), nb1. split_and!; [done..|by apply cut_at_refl| |].
      { change (cp_height (CPLink b p)) with (bi_height b). cbn. congruence. }
      intros h x Hx Ha. specialize (Ha _ eq_refl). by rewrite cp_map_above in Hx by (done || by apply cp_wf_desc).
    + destruct (IH nb1 Hp ltac:(lia) Hb1) as (a & nb' & -> & H1 & H2 & H3 & H4). exists a, nb'. split; [done|]. split; [by etrans|]. split; [done|]. split.
      * destruct a as [a|]; [|done]. destruct H3 as [Hcut Hon]. split; [by apply cut_at_link|done].
      * intros h x Hx Ha. rewrite cp_map_link in Hx. apply lookup_insert_Some in Hx as [[<- <-]|[_ Hx]]; [|by apply H4].
        split; [exists y; apply (lookup_weaken _ _ _ _ Hl H1)|congruence].
Qed.

(** ** The new tip *)

Lemma extend_above a (nb : gmap Z bytes) :
  cp_wf a → ∃ u, cp_extend a (map block_of (List.filter (λ e, cp_height a <? e.1) (entries nb))) = Some u ∧ cp_wf u ∧
    ∀ h x, cp_map u !! h = Some x ↔ (cp_height a < h ∧ nb !! h = Some x) ∨ cp_map a !! h = Some x.
Proof.
  intros Hw. set (bs := map block_of _).
  assert (∀ b, b ∈ bs ↔ cp_height a < bi_height b ∧ nb !! bi_height b = Some (bi_hash b)) as Hb.
  { intros b. unfold bs. rewrite <-elem_of_blocks, !list_elem_of_In, !in_map_iff. setoid_rewrite filter_In. setoid_rewrite Z.ltb_lt. split.
    - intros ([h x] & <- & Hin & Hh). split; [done|]. by exists (h, x).
    - intros (Hh & [h x] & <- & Hin). by exists (h, x). }
  destruct (cp_extend_spec a bs Hw) as (u & He & Hwu & Hi); [|by intros b [? _]%Hb|].
  - unfold bs. apply StronglySorted_fmap with (R1 := λ x y, x.1 < y.1); [done|].
    clear Hb bs. induction (entries_sorted nb) as [|e l Hs IH Hf]; cbn; [constructor|]. destruct (cp_height a <? e.1); [|apply IH]. constructor; [done|].
    rewrite Forall_forall in *. intros y Hy%list_elem_of_In. apply filter_In in Hy as [Hy%list_elem_of_In _]. by apply Hf.
  - exists u. split_and!; [done..|]. intros h x.
    rewrite cp_map_iter, Hi, elem_of_app, elem_of_reverse, Hb, <-cp_map_iter by (by apply cp_wf_desc). done.
Qed.

(** The client's new tip tracks the server's chain and ends at its last block,
    unless the server is behind the wallet: then the wallet's chain stays. *)
Lemma tip_tracks o :
  serves_headers → cp_wf o → forks_at server_best fork o →
  ∃ u nb, fetch_tip_and_latest_blocks o = Ok (u, nb) ∧ tracks server_best fork o u ∧ nb ⊆ server_best ∧
    (if Z.of_nat (length chain) - 1 <? cp_height o then u = o
     else cp_height u = Z.of_nat (length chain) - 1 ∧ ∀ h x, cp_map u !! h = Some x → server_best !! h = Some x).
Proof.
  intros Hs Hw [Hf0 Hf]. unfold fetch_tip_and_latest_blocks. pose proof (sh_length Hs) as Hlen. rewrite (sh_tip Hs). cbn [mbind res_bind].
  rewrite Z.mod_small by lia. destruct (Z.ltb_spec (Z.of_nat (length chain) - 1) (cp_height o)) as [Hlt|Hge].
  { exists o, ∅. split_and!; [done|by apply tracks_refl|apply map_empty_subseteq|done]. }
  rewrite (sh_headers Hs). cbn [mbind res_bind]. set (s := sat_sub _ _). assert (0 ≤ s) as Hs0 by (unfold s, sat_sub; lia).
  destruct (find_agreement_best o _ Hs Hw ltac:(lia) (suffix_best s (Z.to_nat CHAIN_SUFFIX_LENGTH) Hs0))
    as (a & nb & -> & Hsub & Hnb & Ha & Hpass). cbn [mbind res_bind].
  destruct a as [a|]; cycle 1.
  { exfalso. apply Ha. pose proof (cp_genesis_in o) as Hg. pose proof (cp_genesis_height o Hw) as Hg0.
    destruct (cp_genesis o) as [gh gx]. cbn in Hg0. subst gh. apply cp_map_iter in Hg; [|by apply cp_wf_desc]. by apply Hf in Hg as [_ Hg]; apply Hg. }
  destruct Ha as [[Hwa Hcut] Hon]. cbn [ok_or mbind res_bind].
  destruct (extend_above a nb Hwa) as (u & -> & Hwu & Hu). cbn [expect mbind res_bind]. exists u, nb.
  assert (cp_height a ≤ fork) as Haf. { pose proof (cp_map_tip a) as Ht. apply Hcut in Ht as [Ht _]. by apply Hf in Hon. }
  assert (∀ h x, cp_map u !! h = Some x → server_best !! h = Some x) as Hub.
  { intros h x [[_ Hx]|Hx]%Hu; [by eapply lookup_weaken|]. apply Hcut in Hx as [Hx Hh]. apply Hf in Hx as [_ Hx]. apply Hx. lia. }
  split_and!; [done| |done| |done].
  - split; [done|by left; apply Hub|]. destruct (lowest_above o (cp_height a)) as [Hnone|(c & Hc & [x Hx] & Hmin)].
    + left. intros h x Hx. apply Hu. right. apply Hcut. split; [done|]. apply Z.nlt_ge. intros Hlt. rewrite (Hnone h Hlt) in Hx. done.
    + right. destruct (Hpass c x Hx) as [[y Hy] Hno]; [by intros ? [= <-]|]. exists c. split_and!; [|by eexists|eexists; apply Hu; by left| |].
      * apply Z.nle_gt. intros Hle. by apply Hno, (Hf _ _ Hx).
      * intros h z Hh Hz. apply Hu. right. apply Hcut. split; [done|]. apply Z.nlt_ge. intros Hlt. specialize (Hmin h Hlt ltac:(eauto)). lia.
      * intros h z _ Hz. by apply Hub.
  - apply Z.le_antisymm.
    + pose proof (cp_map_tip u) as Ht%Hub. apply (mk_is_Some _ _), server_best_range in Ht. lia.
    + apply Z.nlt_ge. intros Hlt. set (T := Z.of_nat (length chain) - 1) in *.
      assert (is_Some (cp_map u !! T)) as [z Hz]; [|by rewrite cp_map_above in Hz by (done || by apply cp_wf_desc)].
      destruct (Z.lt_trichotomy (cp_height a) T) as [Ht|[Ht|Ht]].
      * destruct (proj2 (server_best_range T) ltac:(lia)) as [y Hy]. exists y. apply Hu. left. split; [done|].
        eapply lookup_weaken; [|exact Hsub]. apply suffix_lookup; [unfold s, sat_sub, CHAIN_SUFFIX_LENGTH; lia|done|done].
      * exists (cp_hash a). apply Hu. right. rewrite <-Ht. apply cp_map_tip.
      * apply (mk_is_Some _ _), server_best_range in Hon. lia.
Qed.

(** ** The blocks of the anchors *)

(** What a block of the server's chain in a gap changes. *)
Lemma gap_insert o u b :
  cp_wf o → forks_at server_best fork o → tracks server_best fork o u → on_best server_best b →
  cp_map u !! bi_height b = None → bi_height b ≤ cp_height u →
  ∃ u', cp_insert (E:=ElectrumError) u b = Ok u' ∧ tracks server_best fork o u' ∧ cp_height u' = cp_height u ∧
    ∀ h x, cp_map u' !! h = Some x ↔ (h = bi_height b ∧ x = bi_hash b) ∨ cp_map u !! h = Some x.
Proof.
  intros Ho Hf Ht Hb Hgap Hle. pose proof (cp_wf_desc _ (tr_wf _ _ _ _ Ht)) as Hd. pose proof (mk_is_Some _ _ Hb) as Hr%server_best_range.
  destruct (tracks_insert (E:=ElectrumError) server_best fork o u b) as (u1 & Hi & Ht1 & _); [done..|lia|].
  destruct (cp_insert_map (E:=ElectrumError) u b (tr_wf _ _ _ _ Ht) ltac:(lia)) as (u2 & Hi2 & Hw2 & Hl2); [by eapply tracks_genesis|].
  rewrite Hi in Hi2. injection Hi2 as <-.
  assert (∀ h x, cp_map u1 !! h = Some x ↔ (h = bi_height b ∧ x = bi_hash b) ∨ cp_map u !! h = Some x) as Hl.
  { intros h x. rewrite Hl2. split; [tauto|]. intros [?|Hx]; [by left|right]. split_and!; [congruence|done|by rewrite Hgap]. }
  exists u1. split_and!; [done..| |done]. apply Z.le_antisymm.
  - pose proof (cp_map_tip u1) as [[-> _]|Hx]%Hl; [done|]. apply Z.nlt_ge. intros Hlt. by rewrite cp_map_above in Hx.
  - apply Z.nlt_ge. intros Hlt. pose proof (proj2 (Hl _ _) (or_intror (cp_map_tip u))) as Hx. by rewrite cp_map_above in Hx by (done || by apply cp_wf_desc).
Qed.

(** Anchors on the server's chain keep the checkpoint on track, and each has a
    block at its height afterwards. *)
Lemma chain_update_tracks o u nb l :
  cp_wf o → forks_at server_best fork o → tracks server_best fork o u → nb ⊆ server_best →
  (∀ e, e ∈ l → on_best server_best (anchor_block e.1)) →
  ∃ u', chain_update u nb l = Ok u' ∧ tracks server_best fork o u' ∧ cp_height u' = cp_height u ∧
    (∀ h x, cp_map u !! h = Some x → cp_map u' !! h = Some x) ∧
    (∀ h x, cp_map u' !! h = Some x → cp_map u !! h = Some x ∨ server_best !! h = Some x) ∧
    (∀ e, e ∈ l → bi_height (anchor_block e.1) ≤ cp_height u → is_Some (cp_map u' !! bi_height (anchor_block e.1))).
Proof.
  intros Ho Hf Ht Hnb. unfold chain_update. revert u Ht. induction l as [|e l IH]; intros u Ht Hl; cbn [fold_res].
  { exists u. split_and!; [done..|by left|by intros e ?%elem_of_nil]. }
  pose proof (cp_wf_desc _ (tr_wf _ _ _ _ Ht)) as Hd. set (h := bi_height (anchor_block e.1)) in *.
  assert (∃ u1, chain_update_step nb u e = Ok u1 ∧ tracks server_best fork o u1 ∧ cp_height u1 = cp_height u ∧
    (∀ h x, cp_map u !! h = Some x → cp_map u1 !! h = Some x) ∧
    (∀ h x, cp_map u1 !! h = Some x → cp_map u !! h = Some x ∨ server_best !! h = Some x) ∧
    (h ≤ cp_height u → is_Some (cp_map u1 !! h))) as (u1 & -> & Ht1 & Hh1 & Hk1 & Hb1 & Hs1).
  { unfold chain_update_step. fold h. rewrite cp_get_lookup by done. destruct (cp_map u !! h) as [x|] eqn:Eu.
    - rewrite bool_decide_eq_false_2 by done. exists u. split_and!; [done..|by left|by rewrite Eu].
    - rewrite bool_decide_eq_true_2 by done. destruct (Z.leb_spec h (cp_height u)) as [Hle|Hgt]; cbn [andb]; cycle 1.
      { exists u. split_and!; [done..|by left|lia]. }
      set (b := mkBlockId h _). assert (on_best server_best b) as Hb.
      { unfold on_best, b. cbn. destruct (nb !! h) as [x|] eqn:E; cbn; [by eapply lookup_weaken|apply (Hl e); left]. }
      destruct (gap_insert o u b) as (u1 & -> & Ht1 & Hh1 & Hl1); [done..|]. exists u1. split_and!; [done..|intros k x Hx; apply Hl1; by right| |].
      + intros k x [[-> ->]|Hx]%Hl1; [by right|by left].
      + intros _. eexists. apply Hl1. by left. }
  cbn [mbind res_bind]. destruct (IH u1 Ht1) as (u' & He & Ht' & Hh' & Hk' & Hb' & Hs'); [intros ? ?; apply Hl; by right|].
  exists u'. split_and!; [done..|congruence|by eauto| |].
  - intros k x [Hx|?]%Hb'; [by apply Hb1|by right].
  - intros e' [->|He']%elem_of_cons Hle; [destruct (Hs1 Hle) as [x Hx]; exists x; by apply Hk'|]. apply Hs'; [done|lia].
Qed.
End Tip.
