(* ===== verification/ElectrumAnchors.v ===== *)
(** What an anchor of the Electrum client stands for.

    [proved]: a header with the anchor's hash and time, and a Merkle path that
    the client checked against its root. The anchor cache holds proved anchors
    only ([cache_proved]); every operation keeps this, with any server, and
    reports proved anchors ([anchors_proved]). *)
From S2P Require Import Prelude Ordered Types Bitcoin Checkpoint LocalChain Chain Electrum BdkElectrum ClientLogic.

(** ** The phases that collect transactions *)

Section Collect.
Context `{codec : Codec} `{api : ElectrumApi}.
(** Any property of the caches that transactions do not matter to. *)
Context (I : Caches → Prop) (stable_tx : ∀ txid tx c, I c → I (cache_tx txid tx c)).

Lemma fetch_tx_keeps txid : keeps I (fetch_tx txid) (λ _, True).
Proof.
  unfold fetch_tx. eapply keeps_bind; [apply keeps_get|]. intros c Hc. destruct (tx_cache c !! txid); [by apply keeps_ret|].
  eapply keeps_bind; [by apply (keeps_lift _ _ (λ _, True))|]. intros tx _.
  eapply keeps_bind; [by apply keeps_put, stable_tx|]. intros _ _. by apply keeps_ret.
Qed.
Lemma note_height_anchors t txid h st : anchors (note_height t txid h st).1 = anchors st.1.
Proof. unfold note_height. by case_match. Qed.

(** The anchors of the update are untouched. *)
Definition same_anchors (u : TxUpdate) (st : TxUpdate * Pending) : Prop := anchors st.1 = anchors u.

Lemma history_keeps u t st l :
  same_anchors u st → keeps I (fold_cm (history_step t) st l) (same_anchors u).
Proof.
  intros Hst. apply keeps_fold; [done|]. intros b r _ Hb. unfold history_step. eapply keeps_bind; [apply fetch_tx_keeps|].
  intros tx _. apply keeps_ret. unfold same_anchors. by rewrite note_height_anchors.
Qed.

Lemma spk_loop_keeps u t gap l st :
  same_anchors u (sc_update st) →
  keeps I (spk_loop t gap l st) (λ f, same_anchors u (sc_update match f with Go st | Return st => st end)).
Proof.
  revert st. induction l as [|[[i s] hist] l IH]; intros st Hst; cbn [spk_loop]; [by apply keeps_ret|].
  apply keeps_bind with (P := λ f, same_anchors u (sc_update match f with Go st | Return st => st end)).
  - unfold spk_step. match goal with |- context [match ?o with Some _ => _ | None => _ end] => destruct o as [st'|] eqn:E end; [|by apply keeps_ret].
    eapply keeps_bind; [apply (history_keeps u)|intros up Hup; by apply keeps_ret].
    unfold same_anchors in *. cbn. assert (sc_update st' = sc_update st) as ->; [|done]. by repeat case_match; simplify_eq.
  - intros [st'|st'] Hst'; [by apply IH|by apply keeps_ret].
Qed.
Lemma populate_loop_keeps u fuel t gap b spks st :
  same_anchors u (sc_update st) → keeps I (populate_loop fuel t gap b spks st) (λ st, same_anchors u (sc_update st)).
Proof.
  revert spks st. induction fuel as [|fuel IH]; intros spks st Hst; cbn [populate_loop]; [by apply keeps_lift|].
  case_bool_decide; [by apply keeps_ret|]. eapply keeps_bind; [by apply (keeps_lift _ _ (λ _, True))|]. intros hs _.
  eapply keeps_bind; [by apply spk_loop_keeps|]. intros [st'|st'] Hst'; [by apply IH|by apply keeps_ret].
Qed.
Lemma populate_with_spks_keeps u t up spks gap b :
  same_anchors u up → keeps I (populate_with_spks t up spks gap b) (λ r, same_anchors u r.1).
Proof.
  intros Hup. eapply keeps_bind; [by apply (populate_loop_keeps u)|]. intros st Hst. by apply keeps_ret.
Qed.

Lemma outpoint_loop_keeps u t o tx hr hs l st :
  same_anchors u st → keeps I (outpoint_loop t o tx hr hs l st) (same_anchors u).
Proof.
  revert hr hs st. induction l as [|r l IH]; intros hr hs st Hst; cbn [outpoint_loop]; [by apply keeps_ret|].
  case_match; [by apply keeps_ret|].
  set (st' := if _ && _ then _ else st). assert (same_anchors u st') as Hst'.
  { unfold st', same_anchors. case_match; [by rewrite note_height_anchors|done]. }
  case_match; [|by apply IH]. eapply keeps_bind; [apply fetch_tx_keeps|]. intros tx' _.
  case_match; apply IH; [|done]. unfold same_anchors. by rewrite note_height_anchors.
Qed.
Lemma fetch_tx_ok_keeps txid : keeps I (fetch_tx_ok txid) (λ _, True).
Proof.
  intros c Hc. unfold fetch_tx_ok. destruct (fetch_tx_keeps txid c Hc) as [Hc' _]. by destruct (fetch_tx txid c) as [c' [tx|e|]].
Qed.
Lemma populate_with_outpoints_keeps u t up l :
  same_anchors u up → keeps I (populate_with_outpoints t up l) (same_anchors u).
Proof.
  intros Hup. unfold populate_with_outpoints. eapply keeps_bind.
  { apply keeps_fold with (J := λ _, True); [done|]. intros b op _ _. eapply keeps_bind; [apply fetch_tx_ok_keeps|]. intros otx _. by apply keeps_ret. }
  intros ops _. eapply keeps_bind; [by apply (keeps_lift _ _ (λ _, True))|]. intros hs _.
  apply keeps_fold; [done|]. intros st [[o s] tx] _ Hst. case_match; [by apply outpoint_loop_keeps|by apply keeps_ret].
Qed.
Lemma populate_with_txids_keeps u t up l :
  same_anchors u up → keeps I (populate_with_txids t up l) (same_anchors u).
Proof.
  intros Hup. unfold populate_with_txids. eapply keeps_bind.
  { apply keeps_fold with (J := λ _, True); [done|]. intros b txid _ _ c Hc. unfold collect_txid. destruct (fetch_tx_keeps txid c Hc) as [Hc' _].
    destruct (fetch_tx txid c) as [c' [tx|e|]]; [by destruct (tx_output tx)|by destruct e|done]. }
  intros ids _. eapply keeps_bind; [by apply (keeps_lift _ _ (λ _, True))|]. intros hs _. apply keeps_ret.
  revert up Hup. induction (zip ids.1 hs) as [|[[i tx] h] z IH]; intros up Hup; [done|]. cbn [foldl]. apply IH.
  unfold same_anchors in *. cbn. case_match; [by rewrite note_height_anchors|done].
Qed.
Lemma fetch_prev_txout_keeps u : keeps I (fetch_prev_txout u) (λ v, anchors v = anchors u).
Proof.
  unfold fetch_prev_txout. apply keeps_bind with (P := λ _, True); [|intros st _; by apply keeps_ret].
  apply keeps_fold; [done|]. intros st tx _ _. unfold prev_tx_step. case_match; [by apply keeps_ret|].
  apply keeps_bind with (P := λ _, True); [|intros m _; by apply keeps_ret]. apply keeps_fold; [done|]. intros m vin _ _.
  unfold prev_txout_step. eapply keeps_bind; [apply fetch_tx_keeps|]. intros ptx _.
  eapply keeps_bind; [by apply (keeps_lift _ _ (λ _, True))|]. intros o _. by apply keeps_ret.
Qed.
End Collect.

(** ** Proofs *)

Section Proofs.
Context `{hashes : Hashes} `{codec : Codec}.

(** The transaction has a Merkle path to the root of a header, and the anchor
    is that header's block. *)
Definition proved (txid : bytes) (a : ConfirmationBlockTime) : Prop :=
  ∃ hdr proof, bi_hash (anchor_block a) = block_hash hdr ∧ confirmation_time a = hdr_time hdr ∧
    validate_merkle_proof txid (hdr_merkle_root hdr) proof = true.
Definition cache_proved (c : Caches) : Prop := ∀ k a, anchor_cache c !! k = Some a → proved k.1 a.

Definition all_proved (l : list (bytes * ConfirmationBlockTime)) : Prop := ∀ e, e ∈ l → proved e.1 e.2.

Section Server.
Context `{api : ElectrumApi}.

Lemma cache_headers_proved l c : cache_proved c → cache_proved (foldl (λ c e, cache_header e.1 e.2 c) c l).
Proof. revert c. induction l as [|e l IH]; intros c Hc; [done|]. cbn. by apply IH. Qed.
Lemma collect_headers_keeps l : keeps cache_proved (collect_headers l) (λ _, True).
Proof.
  unfold collect_headers. eapply keeps_bind; [apply keeps_get|]. intros c Hc. destruct (cached_hashes c l) as [m missing].
  case_bool_decide; [by apply keeps_ret|]. eapply keeps_bind; [by apply (keeps_lift _ _ (λ _, True))|]. intros hs _.
  eapply keeps_bind; [by apply keeps_put, cache_headers_proved|]. intros _ _. by apply keeps_ret.
Qed.
Lemma check_cache_keeps m st e : all_proved st.1 → keeps cache_proved (check_cache m st e) (λ st, all_proved st.1).
Proof.
  intros Hst. unfold check_cache. eapply keeps_bind; [apply keeps_get|]. intros c Hc.
  eapply keeps_bind; [by apply (keeps_lift _ _ (λ _, True))|]. intros hash _. apply keeps_ret.
  case_match eqn:Ea; [|done]. cbn. intros x [Hx| ->%list_elem_of_singleton]%elem_of_app; [by apply Hst|by apply Hc in Ea].
Qed.
Lemma validate_step_keeps l e : all_proved l → keeps cache_proved (validate_step l e) all_proved.
Proof.
  intros Hl. destruct e as [[txid h] proof]. unfold validate_step. eapply keeps_bind; [apply keeps_get|]. intros c Hc.
  eapply keeps_bind; [by apply (keeps_lift _ _ (λ _, True))|]. intros hdr0 _.
  apply keeps_bind with (P := λ hv, hv.2 = true → validate_merkle_proof txid (hdr_merkle_root hv.1) proof = true).
  { case_match eqn:Ev; [by apply keeps_ret|]. eapply keeps_bind; [by apply (keeps_lift _ _ (λ _, True))|]. intros hdr _.
    eapply keeps_bind; [apply keeps_get|]. intros c1 Hc1. eapply keeps_bind; [by apply keeps_put|]. intros _ _. by apply keeps_ret. }
  intros [hdr valid] Hv. destruct valid; [|by apply keeps_ret]. specialize (Hv eq_refl). cbn in Hv. set (a := mkAnchor _ _).
  assert (proved txid a) as Ha by (by exists hdr, proof).
  eapply keeps_bind; [apply keeps_get|]. intros c2 Hc2. eapply keeps_bind.
  { apply keeps_put. intros k b Hb. cbn [cache_anchor anchor_cache] in Hb. apply lookup_insert_Some in Hb as [[<- <-]|[_ Hb]]; [done|by apply Hc2]. }
  intros _ _. apply keeps_ret. intros x [Hx| ->%list_elem_of_singleton]%elem_of_app; [by apply Hl|done].
Qed.

Lemma batch_fetch_anchors_keeps p : keeps cache_proved (batch_fetch_anchors p) all_proved.
Proof.
  unfold batch_fetch_anchors. eapply keeps_bind; [apply collect_headers_keeps|]. intros m _.
  apply keeps_bind with (P := λ st, all_proved st.1).
  { apply keeps_fold; [by intros e ?%elem_of_nil|]. intros st e _ Hst. by apply check_cache_keeps. }
  intros [l fetch] Hl. eapply keeps_bind; [by apply (keeps_lift _ _ (λ _, True))|]. intros ps _.
  apply keeps_fold; [done|]. intros l' e _ Hl'. by apply validate_step_keeps.
Qed.

Definition update_proved (u : TxUpdate) : Prop := ∀ a txid, (a, txid) ∈ anchors u → proved txid a.

Lemma insert_anchors_elem l u a txid :
  (a, txid) ∈ anchors (foldl (λ u e, insert_anchor e.2 e.1 u) u l) ↔ (txid, a) ∈ l ∨ (a, txid) ∈ anchors u.
Proof.
  revert u. induction l as [|[i b] l IH]; intros u; cbn [foldl]; [set_solver|]. rewrite IH. cbn. set_solver.
Qed.

Lemma finish_update_keeps b tip up :
  anchors up.1 = ∅ → keeps cache_proved (finish_update b tip up) (λ r, update_proved r.1).
Proof.
  intros Hup. unfold finish_update. apply keeps_bind with (P := λ u, anchors u = ∅).
  { destruct b; [|by apply keeps_ret]. eapply keeps_mono; [apply fetch_prev_txout_keeps|].
    - intros txid tx c Hc. exact Hc.
    - cbn. congruence. }
  intros u Hu. apply keeps_bind with (P := update_proved).
  { case_bool_decide; [apply keeps_ret; intros a txid; rewrite Hu; set_solver|].
    eapply keeps_bind; [apply batch_fetch_anchors_keeps|]. intros l Hl. apply keeps_ret. intros a txid [Ha|Ha]%insert_anchors_elem.
    - by apply Hl in Ha.
    - rewrite Hu in Ha. set_solver. }
  intros v Hv. destruct tip as [[cp nb]|]; [|by apply keeps_ret].
  eapply keeps_bind; [by apply (keeps_lift _ _ (λ _, True))|]. intros cp' _. by apply keeps_ret.
Qed.
End Server.

(** ** Operations *)

(** What a backend asks of the client. *)
Inductive ClientOp :=
  | OpFullScan (request : FullScanRequest) (stop_gap batch_size : Z) (fetch_prev_txouts : bool)
  | OpSync (request : SyncRequest) (batch_size : Z) (fetch_prev_txouts : bool).

Definition run_op (api : ElectrumApi) (op : ClientOp) : CM TxUpdate :=
  match op with
  | OpFullScan req gap b prev => r ← bdk_full_scan req gap b prev; mret (fsr_tx_update r)
  | OpSync req b prev => r ← bdk_sync req b prev; mret (syr_tx_update r)
  end.

(** Operations one after the other, each with a server of its own. *)
Inductive client_step : Caches → Caches → Prop :=
  | step_op api op c : client_step c (run_op api op c).1.

Lemma run_op_keeps api op : keeps cache_proved (run_op api op) update_proved.
Proof.
  assert (∀ txid tx c, cache_proved c → cache_proved (cache_tx txid tx c)) as Hst by (intros txid tx c Hc; exact Hc).
  destruct op as [req gap b prev|req b prev]; unfold run_op.
  - eapply keeps_bind with (P := λ r, update_proved (fsr_tx_update r)); [|intros r Hr; by apply keeps_ret].
    unfold bdk_full_scan. eapply keeps_bind; [by apply (keeps_lift _ _ (λ _, True))|]. intros tip _.
    apply keeps_bind with (P := λ st, anchors st.1.1 = ∅).
    { apply keeps_fold; [done|]. intros st k _ Hs. unfold keychain_step.
      eapply keeps_bind; [by apply (populate_with_spks_keeps _ Hst TxUpdate_default)|]. intros r Hr. by apply keeps_ret. }
    intros st Hs. eapply keeps_bind; [by apply finish_update_keeps|]. intros r Hr. by apply keeps_ret.
  - eapply keeps_bind with (P := λ r, update_proved (syr_tx_update r)); [|intros r Hr; by apply keeps_ret].
    unfold bdk_sync. eapply keeps_bind; [by apply (keeps_lift _ _ (λ _, True))|]. intros tip _.
    eapply keeps_bind; [by apply (populate_with_spks_keeps _ Hst TxUpdate_default)|]. intros r Hr.
    eapply keeps_bind; [by apply (populate_with_txids_keeps _ Hst TxUpdate_default)|]. intros up Hup.
    eapply keeps_bind; [by apply (populate_with_outpoints_keeps _ Hst TxUpdate_default)|]. intros up' Hup'.
    eapply keeps_bind; [by apply finish_update_keeps|]. intros r' Hr'. by apply keeps_ret.
Qed.

(** C16: a server cannot place a transaction in a block without a proof. Over any
    sequence of scans and syncs from a fresh client, with servers that answer as
    they like and also fail, every anchor that an operation reports comes with a
    header of its hash and time and a Merkle path from the transaction to the
    root of that header. *)
Theorem anchors_proved c api op u a txid :
  rtc client_step BdkElectrumClient_new c → (run_op api op c).2 = Ok u → (a, txid) ∈ anchors u → proved txid a.
Proof.
  intros Hr Hu Ha. assert (cache_proved c) as Hc.
  { refine (rtc_ind_r cache_proved _ _ _ _ Hr); [by intros k b Hb|]. intros c1 c2 _ [api' op' c'] Hc'. by apply run_op_keeps. }
  by eapply run_op_keeps.
Qed.
End Proofs.
