(* ===== verification/ElectrumScan.v ===== *)
(** The script scan of the Electrum client.

    The client asks for histories in batches and stops after a gap of unused
    scripts. On a server with one history per script, the batches make no
    difference ([populate_whole], [batch_size_irrelevant]), and what is found is
    described by the prefix up to the gap: [scan_exact]. *)
From S2P Require Import Prelude Ordered Types Bitcoin Checkpoint LocalChain Chain Electrum BdkElectrum ClientLogic ElectrumAnchors.

Section Scan.
Context `{codec : Codec} `{api : ElectrumApi}.
(** The server's history of a script, however many scripts are asked for at once. *)
Context (hist : bytes → list GetHistoryRes).
Definition serves_history : Prop := ∀ l, batch_script_get_history l = Ok (map hist l).

Notation Entry := ((Z * SpkWithExpectedTxids) * list GetHistoryRes)%type.
Definition with_history (spks : list (Z * SpkWithExpectedTxids)) : list Entry := map (λ s, (s, hist (item_spk s.2))) spks.
Definition flow_state (f : Flow) : SpkScan := match f with Go st | Return st => st end.

Lemma with_history_lookup spks k : with_history spks !! k = (λ s, (s, hist (item_spk s.2))) <$> spks !! k.
Proof. apply list_lookup_fmap. Qed.

(** ** Batches *)

Lemma zip_history spks : zip spks (map hist (map (λ s, item_spk s.2) spks)) = with_history spks.
Proof. induction spks as [|s spks IH]; [done|]. cbn [map zip zip_with]. unfold with_history. cbn [map]. f_equal. exact IH. Qed.

Lemma spk_loop_app t gap l k st c :
  spk_loop t gap (l ++ k) st c =
  (spk_loop t gap l st ≫= λ f, match f with Go st => spk_loop t gap k st | Return st => mret (Return st) end) c.
Proof.
  revert st c. induction l as [|e l IH]; intros st c; [done|]. cbn [spk_loop app]. rewrite cm_bind_assoc.
  apply cm_bind_ext; [done|]. intros [st'|st'] c'; [apply IH|done].
Qed.

(** The batched loop is the loop over all scripts at once, and its fuel is enough. *)
Lemma populate_whole fuel t gap b spks st c :
  serves_history → 1 ≤ b → (length spks < fuel)%nat →
  populate_loop fuel t gap b spks st c = (spk_loop t gap (with_history spks) st ≫= λ f, mret (flow_state f)) c.
Proof.
  intros Hh Hb. revert spks st c. induction fuel as [|fuel IH]; intros spks st c Hf; [lia|]. cbn [populate_loop].
  destruct (decide (spks = [])) as [->|Hne]; [by rewrite take_nil|].
  assert (0 < length spks)%nat as Hl by (destruct spks; [done|cbn; lia]).
  rewrite bool_decide_eq_false_2 by (intros Ht%(f_equal length); rewrite length_take in Ht; cbn in Ht; lia).
  unfold lift at 1. unfold mbind at 1, CM_bind at 1. rewrite Hh, zip_history.
  replace (with_history spks) with (with_history (take (Z.to_nat b) spks) ++ with_history (drop (Z.to_nat b) spks))
    by (unfold with_history; by rewrite <-map_app, take_drop).
  etransitivity; [|symmetry; etransitivity; [apply cm_bind_ext; [apply spk_loop_app|done]|apply cm_bind_assoc]].
  apply cm_bind_ext; [done|]. intros [st'|st'] c'; [|done]. apply IH. rewrite length_drop. lia.
Qed.

Lemma populate_batches t up spks gap b b' c :
  serves_history → 1 ≤ b → 1 ≤ b' → populate_with_spks t up spks gap b c = populate_with_spks t up spks gap b' c.
Proof.
  intros Hh Hb Hb'. apply cm_bind_ext; [|done]. by rewrite !populate_whole by (done || lia).
Qed.

(** The batch size is an optimisation. With a server that has one history per
    script, a full scan and a sync return the same response and leave the same
    caches whatever batch size the backend is configured with. *)
Lemma batch_size_irrelevant `{hashes : Hashes} scan_req sync_req gap b b' prev c :
  serves_history → 1 ≤ b → 1 ≤ b' →
  bdk_full_scan scan_req gap b prev c = bdk_full_scan scan_req gap b' prev c ∧
  bdk_sync sync_req b prev c = bdk_sync sync_req b' prev c.
Proof.
  intros Hh Hb Hb'. split; (apply cm_bind_ext; [done|]; intros tip c1).
  - apply cm_bind_ext; [|done]. apply fold_cm_ext. intros st k c2. apply cm_bind_ext; [by apply populate_batches|done].
  - apply cm_bind_ext; [by apply populate_batches|done].
Qed.

(** ** The stop gap *)

(** How many scripts are taken before the gap closes. *)
Fixpoint stop_at (gap unused : Z) (l : list Entry) : nat :=
  match l with
  | [] => O
  | e :: l =>
      if bool_decide (e.2 = []) then if unused + 1 <? gap then S (stop_at gap (unused + 1) l) else O
      else S (stop_at gap 0 l)
  end.
Definition used (e : Entry) : Prop := e.2 ≠ [].
#[global] Instance used_dec e : Decision (used e).
Proof. unfold used. apply _. Defined.

Lemma stop_at_length gap u l : (stop_at gap u l ≤ length l)%nat.
Proof.
  revert u. induction l as [|e l IH]; intros u; cbn [stop_at length]; [lia|]. pose proof (IH (u + 1)). pose proof (IH 0).
  repeat case_match; lia.
Qed.

(** A used script that no full gap of unused ones precedes is taken. *)
Lemma stop_at_found gap u l k e :
  0 ≤ u < gap → l !! k = Some e → used e →
  (∀ q, (q + Z.to_nat gap ≤ k)%nat → ∃ r e', (q ≤ r < q + Z.to_nat gap)%nat ∧ l !! r = Some e' ∧ used e') →
  ((Z.to_nat (gap - u) ≤ k)%nat → ∃ r e', (r < Z.to_nat (gap - u))%nat ∧ l !! r = Some e' ∧ used e') →
  (k < stop_at gap u l)%nat.
Proof.
  revert u k. induction l as [|x l IH]; intros u k Hu Hk He Ha Hb; [done|]. cbn [stop_at].
  assert (∀ q, (q + Z.to_nat gap ≤ pred k)%nat → ∃ r e', (q ≤ r < q + Z.to_nat gap)%nat ∧ l !! r = Some e' ∧ used e') as Ha'.
  { intros q Hq. destruct (Ha (S q) ltac:(lia)) as (r & e' & Hr & Hl & Hu'). exists (pred r), e'. destruct r; [lia|]. cbn in Hl. split_and!; [lia..|done|done]. }
  case_bool_decide as Hx.
  - destruct k as [|k]; [injection Hk as ->; done|]. cbn in Hk.
    assert (∀ P : nat → Entry → Prop, (∃ r e', P r e' ∧ (x :: l) !! r = Some e' ∧ used e') → ∃ r e', P (S r) e' ∧ l !! r = Some e' ∧ used e') as Hshift.
    { intros P (r & e' & HP & Hl & Hu'). destruct r as [|r]; [injection Hl as ->; done|]. by exists r, e'. }
    destruct (Z.ltb_spec (u + 1) gap) as [Hlt|Hge].
    + enough (k < stop_at gap (u + 1) l)%nat by lia. apply IH; [lia|done..|]. intros Hk'.
      destruct (Hshift (λ r _, r < Z.to_nat (gap - u))%nat) as (r & e' & Hr & Hl & Hu'); [apply Hb; lia|]. exists r, e'. split_and!; [lia|done..].
    + destruct (Hshift (λ r _, r < Z.to_nat (gap - u))%nat) as (r & e' & Hr & Hl & Hu'); [apply Hb; lia|]. lia.
  - destruct k as [|k]; [lia|]. enough (k < stop_at gap 0 l)%nat by lia. apply IH; [lia|done..|]. rewrite Z.sub_0_r. intros Hk'.
    destruct (Ha' 0%nat ltac:(cbn; lia)) as (r & e' & Hr & Hl & Hu'). exists r, e'. split_and!; [lia|done..].
Qed.

(** ** What is found *)

Definition add_txs (l : list Transaction) (st : TxUpdate * Pending) : TxUpdate * Pending :=
  (mkTxUpdate (txs st.1 ++ l) (txouts st.1) (anchors st.1) (seen_ats st.1) (evicted_ats st.1), st.2).
Definition note_all (t : Z) (l : list GetHistoryRes) (st : TxUpdate * Pending) : TxUpdate * Pending :=
  foldl (λ st r, note_height t (hist_tx_hash r) (hist_height r) st) st l.
(** Evictions and heights of scripts with their histories. *)
Definition absorb (t : Z) (l : list Entry) (st : TxUpdate * Pending) : TxUpdate * Pending :=
  foldl (λ st e, note_all t e.2 (insert_evicted (expected_txids e.1.2 ∖ list_to_set (map hist_tx_hash e.2)) t st.1, st.2)) st l.

Lemma note_all_add t l x st : note_all t l (add_txs x st) = add_txs x (note_all t l st).
Proof.
  revert st. induction l as [|r l IH]; intros st; [done|]. cbn [note_all foldl]. unfold note_all in IH. rewrite <-IH.
  f_equal. unfold note_height. by case_match.
Qed.
Lemma absorb_add t l x st : absorb t l (add_txs x st) = add_txs x (absorb t l st).
Proof.
  revert st. induction l as [|e l IH]; intros st; [done|]. cbn [absorb foldl]. unfold absorb in IH. rewrite <-IH. f_equal.
  rewrite <-note_all_add. done.
Qed.
Lemma add_txs_app x y st : add_txs y (add_txs x st) = add_txs (x ++ y) st.
Proof. unfold add_txs. cbn. by rewrite app_assoc. Qed.
Lemma add_txs_nil st : add_txs [] st = st.
Proof. destruct st as [[]]. unfold add_txs. cbn. by rewrite app_nil_r. Qed.

(** The transactions of a history, as the cache has them afterwards. *)
Definition fetched (c : Caches) (l : list GetHistoryRes) (txl : list Transaction) : Prop :=
  Forall2 (λ r tx, tx_cache c !! hist_tx_hash r = Some tx) l txl.
Lemma fetched_weaken c c' l txl : tx_cache c ⊆ tx_cache c' → fetched c l txl → fetched c' l txl.
Proof. intros Hs Hf. eapply Forall2_impl; [exact Hf|]. intros r tx Hx. exact (lookup_weaken _ _ _ _ Hx Hs). Qed.

Lemma fetch_tx_exact txid c c' tx :
  fetch_tx txid c = (c', Ok tx) → tx_cache c ⊆ tx_cache c' ∧ tx_cache c' !! txid = Some tx.
Proof.
  unfold fetch_tx, get_caches, put_caches, lift, mbind, CM_bind, mret, CM_ret. destruct (tx_cache c !! txid) as [tx'|] eqn:E.
  - by intros [= <- <-].
  - destruct (transaction_get txid); [|done..]. intros [= <- <-]. cbn. split; [by apply insert_subseteq|apply lookup_insert_eq].
Qed.
Lemma cm_bind_inv {A B} (m : CM A) (f : A → CM B) c c' b :
  (m ≫= f) c = (c', Ok b) → ∃ c1 a, m c = (c1, Ok a) ∧ f a c1 = (c', Ok b).
Proof. unfold mbind, CM_bind. destruct (m c) as [c1 [a|e|]]; [|done..]. by exists c1, a. Qed.

Lemma history_exact t l st c c' st' :
  fold_cm (history_step t) st l c = (c', Ok st') →
  tx_cache c ⊆ tx_cache c' ∧ ∃ txl, fetched c' l txl ∧ st' = note_all t l (add_txs txl st).
Proof.
  revert st c. induction l as [|r l IH]; intros st c; cbn [fold_cm].
  - intros [= <- <-]. split; [done|]. exists []. split; [constructor|]. by rewrite add_txs_nil.
  - intros (c1 & st1 & (c2 & tx & Htx & [= <- <-])%cm_bind_inv & H)%cm_bind_inv.
    apply fetch_tx_exact in Htx as [Hs Hx]. destruct (IH _ _ H) as [Hs' (txl & Hf & ->)]. split; [by etrans|].
    exists (tx :: txl). split; [constructor; [by eapply lookup_weaken|done]|]. cbn [note_all foldl].
    unfold note_all. f_equal. unfold note_height. case_match; unfold add_txs, push_update_tx; cbn; by rewrite <-app_assoc.
Qed.

Lemma spk_loop_exact t gap l st c c' f :
  0 ≤ sc_unused st < u64_max → gap ≤ u64_max → spk_loop t gap l st c = (c', Ok f) →
  let n := stop_at gap (sc_unused st) l in
  tx_cache c ⊆ tx_cache c' ∧
  ∃ txl, fetched c' (concat (take n l).*2) txl ∧ sc_update (flow_state f) = add_txs txl (absorb t (take n l) (sc_update st)) ∧
    sc_last_active (flow_state f) =
      match last (filter used (take n l)) with Some e => Some e.1.1 | None => sc_last_active st end.
Proof.
  intros Hu Hg. revert st c Hu. induction l as [|[[i s] h] l IH]; intros st c Hu; cbn [spk_loop stop_at].
  { intros [= <- <-]. split; [done|]. exists []. split_and!; [constructor|by rewrite add_txs_nil|done]. }
  intros (c1 & fl & Hstep & H)%cm_bind_inv. unfold spk_step in Hstep.
  rewrite (proj2 (checked_add_Some _ _ _) (conj eq_refl (ltac:(lia) : sc_unused st + 1 ≤ u64_max))) in Hstep. cbn [snd] in *.
  (* what one more script adds *)
  assert (∀ st1, 0 ≤ sc_unused st1 < u64_max → sc_update st1 = sc_update st →
    (up ← fold_cm (history_step t) (insert_evicted (expected_txids s ∖ list_to_set (map hist_tx_hash h)) t (sc_update st1).1, (sc_update st1).2) h;
     mret (Go (mkSpkScan up (sc_unused st1) (sc_last_active st1)))) c = (c1, Ok fl) →
    let n := stop_at gap (sc_unused st1) l in
    tx_cache c ⊆ tx_cache c' ∧
    ∃ txl, fetched c' (concat (((i, s), h) :: take n l).*2) txl ∧
      sc_update (flow_state f) = add_txs txl (absorb t (((i, s), h) :: take n l) (sc_update st)) ∧
      sc_last_active (flow_state f) =
        match last (filter used (take n l)) with Some e => Some e.1.1 | None => sc_last_active st1 end) as Hgo.
  { intros st1 Hu1 Hup (c2 & up & Hh & [= <- <-])%cm_bind_inv. apply history_exact in Hh as [Hs (txl & Hf & ->)].
    destruct (IH _ _ (Hu1 : 0 ≤ sc_unused (mkSpkScan _ (sc_unused st1) (sc_last_active st1)) < u64_max) H) as (Hs' & txl' & Hf' & Hup' & Hl).
    split; [by etrans|]. exists (txl ++ txl'). cbn [fmap list_fmap concat snd]. split_and!.
    - apply Forall2_app; [by eapply fetched_weaken|done].
    - rewrite Hup'. cbn [sc_update]. rewrite note_all_add, absorb_add, add_txs_app, Hup. done.
    - done. }
  case_bool_decide as Eh.
  - destruct (Z.ltb_spec (sc_unused st + 1) gap) as [Hlt|Hge].
    + specialize (Hgo (mkSpkScan (sc_update st) (sc_unused st + 1) (sc_last_active st)) ltac:(cbn; lia) eq_refl Hstep). cbn [sc_unused sc_last_active] in Hgo.
      cbn [take]. rewrite filter_cons, decide_False by (unfold used; cbn; by intros []). exact Hgo.
    + injection Hstep as <- <-. injection H as <- <-. split; [done|]. exists []. split_and!; [constructor|by rewrite add_txs_nil|done].
  - specialize (Hgo (mkSpkScan (sc_update st) 0 (Some i)) ltac:(cbn; unfold u64_max; lia) eq_refl Hstep). cbn [sc_unused sc_last_active] in Hgo.
    cbn [take]. rewrite filter_cons, decide_True by done. destruct Hgo as (? & txl & ? & ? & Hl). split; [done|]. exists txl. split_and!; [done..|].
    rewrite Hl, last_cons. by case_match.
Qed.

(** *** Field by field *)

Definition confirmed_of (l : list GetHistoryRes) : Pending :=
  concat (map (λ r, if 0 <? hist_height r then [(hist_tx_hash r, hist_height r)] else []) l).

Lemma note_all_fields t l st :
  (note_all t l st).2 = st.2 ++ confirmed_of l ∧
  (∀ i s, (i, s) ∈ seen_ats (note_all t l st).1 ↔
    (i, s) ∈ seen_ats st.1 ∨ (s = t ∧ ∃ r, r ∈ l ∧ hist_tx_hash r = i ∧ hist_height r ≤ 0)) ∧
  txs (note_all t l st).1 = txs st.1 ∧ evicted_ats (note_all t l st).1 = evicted_ats st.1.
Proof.
  revert st. induction l as [|r l IH]; intros st.
  { unfold confirmed_of. cbn. rewrite app_nil_r. split_and!; [done| |done..]. intros i s. split; [by left|].
    intros [?|(_ & r & []%elem_of_nil & _)]. done. }
  cbn [note_all foldl]. unfold note_all in IH. destruct (IH (note_height t (hist_tx_hash r) (hist_height r) st)) as (-> & Hs & -> & ->).
  unfold confirmed_of. cbn [map concat]. unfold note_height in *. destruct (Z.ltb_spec 0 (hist_height r)) as [Hp|Hp]; cbn in *.
  - rewrite <-app_assoc. split_and!; [done| |done..]. intros i s. rewrite Hs. setoid_rewrite elem_of_cons. split.
    + intros [?|(? & r' & ? & ? & ?)]; [by left|right; eauto 6].
    + intros [?|(? & r' & [->|?] & ? & ?)]; [by left|lia|right; eauto 6].
  - split_and!; [done| |done..]. intros i s. rewrite Hs, elem_of_union, elem_of_singleton. setoid_rewrite elem_of_cons. split.
    + intros [[[= -> ->]|?]|(? & r' & ? & ? & ?)]; [right; eauto 7|by left|right; eauto 7].
    + intros [?|(-> & r' & [->|?] & <- & ?)]; [by left; right|by left; left|right; eauto 6].
Qed.

Lemma absorb_fields t l st :
  (absorb t l st).2 = st.2 ++ confirmed_of (concat l.*2) ∧
  (∀ i s, (i, s) ∈ seen_ats (absorb t l st).1 ↔
    (i, s) ∈ seen_ats st.1 ∨ (s = t ∧ ∃ r, r ∈ concat l.*2 ∧ hist_tx_hash r = i ∧ hist_height r ≤ 0)) ∧
  (∀ i s, (i, s) ∈ evicted_ats (absorb t l st).1 ↔
    (i, s) ∈ evicted_ats st.1 ∨ (s = t ∧ ∃ e, e ∈ l ∧ i ∈ expected_txids e.1.2 ∧ i ∉ map hist_tx_hash e.2)) ∧
  txs (absorb t l st).1 = txs st.1.
Proof.
  revert st. induction l as [|e l IH]; intros st.
  { unfold confirmed_of. cbn. rewrite app_nil_r. split_and!; [done|set_solver|set_solver|done]. }
  cbn [absorb foldl]. unfold absorb in IH. set (st1 := note_all _ _ _). destruct (IH st1) as (-> & Hs & He & ->).
  destruct (note_all_fields t e.2 (insert_evicted (expected_txids e.1.2 ∖ list_to_set (map hist_tx_hash e.2)) t st.1, st.2)) as (H1 & H2 & H3 & H4).
  fold st1 in H1, H2, H3, H4. cbn in *. split_and!; [|..|done].
  - rewrite H1. unfold confirmed_of. by rewrite <-app_assoc, map_app, concat_app.
  - intros i s. rewrite Hs, H2. setoid_rewrite elem_of_app. naive_solver.
  - intros i s. rewrite He, H4, elem_of_union, elem_of_map. setoid_rewrite elem_of_cons. setoid_rewrite elem_of_difference.
    setoid_rewrite elem_of_list_to_set. naive_solver.
Qed.

(** A scan of one keychain finds what its server reports. It covers a prefix
    of the scripts; every used script that is not preceded by a full gap of
    unused ones is in it. Of that prefix it reports every transaction of every
    history, the heights of the confirmed ones for anchoring, the others as seen,
    the expected ones that are missing as evicted, and the last used index. *)
Lemma scan_exact t up spks gap b c c' up' last_active :
  serves_history → 1 ≤ b → 1 ≤ gap ≤ usize_max →
  populate_with_spks t up spks gap b c = (c', Ok (up', last_active)) →
  ∃ n txl, let found := with_history (take n spks) in
    (∀ k s, spks !! k = Some s → hist (item_spk s.2) ≠ [] →
      (∀ q, (q + Z.to_nat gap ≤ k)%nat → ∃ r s', (q ≤ r < q + Z.to_nat gap)%nat ∧ spks !! r = Some s' ∧ hist (item_spk s'.2) ≠ []) →
      (k < n)%nat) ∧
    txs up'.1 = txs up.1 ++ txl ∧ fetched c' (concat found.*2) txl ∧
    up'.2 = up.2 ++ confirmed_of (concat found.*2) ∧
    (∀ i s, (i, s) ∈ seen_ats up'.1 ↔ (i, s) ∈ seen_ats up.1 ∨ (s = t ∧ ∃ r, r ∈ concat found.*2 ∧ hist_tx_hash r = i ∧ hist_height r ≤ 0)) ∧
    (∀ i s, (i, s) ∈ evicted_ats up'.1 ↔
      (i, s) ∈ evicted_ats up.1 ∨ (s = t ∧ ∃ e, e ∈ found ∧ i ∈ expected_txids e.1.2 ∧ i ∉ map hist_tx_hash e.2)) ∧
    last_active = (λ e, e.1.1) <$> last (filter used found).
Proof.
  intros Hh Hb Hg H. apply cm_bind_inv in H as (c1 & st & H & [= <- <- <-]). rewrite populate_whole in H by (done || lia).
  apply cm_bind_inv in H as (c2 & f & H & [= <- <-]).
  destruct (spk_loop_exact t gap _ (mkSpkScan up 0 None) _ _ _ ltac:(cbn; unfold u64_max; lia) (proj2 Hg) H) as (_ & txl & Hf & Hup & Hl). cbn [sc_unused] in *.
  set (n := stop_at gap 0 (with_history spks)) in *. exists n, txl.
  assert (with_history (take n spks) = take n (with_history spks)) as -> by (unfold with_history; symmetry; apply firstn_map).
  cbn [sc_update] in Hup. rewrite Hup. destruct (absorb_fields t (take n (with_history spks)) up) as (H1 & H2 & H3 & H4).
  cbn zeta. split_and!; [|cbn; by rewrite H4|done|done|done|done|rewrite Hl; cbn; by case_match].
  intros k s Hk Hs Hw. unfold n.
  assert (∀ q, (q + Z.to_nat gap ≤ k)%nat → ∃ r e', (q ≤ r < q + Z.to_nat gap)%nat ∧ with_history spks !! r = Some e' ∧ used e') as Hw'.
  { intros q Hq. destruct (Hw q Hq) as (r & s' & Hr & Hl' & Hu). exists r, (s', hist (item_spk s'.2)). by rewrite with_history_lookup, Hl'. }
  apply (stop_at_found gap 0 _ k (s, hist (item_spk s.2))); [lia|by rewrite with_history_lookup, Hk|done..|].
  rewrite Z.sub_0_r. intros Hk0. destruct (Hw' 0%nat ltac:(lia)) as (r & e' & Hr & Hl' & Hu). exists r, e'. split_and!; [lia|done..].
Qed.
End Scan.
