(* ===== verification/ElectrumSync.v ===== *)
(** From the Electrum client to the wallet's chain.

    [electrum_update_applies] follows both operations against a server that
    serves one chain: they succeed, their anchors lie on that chain and the wallet
    takes their checkpoint as its new chain, as long as the caches agree with the
    server ([cache_on_chain], which the operations keep). [stale_anchor_kept] is
    the other case: after a reorganisation the caches may still know the old
    block. *)
From S2P Require Import Prelude Ordered Types Bitcoin Checkpoint LocalChain MergeChains Tracking Chain Electrum.
From S2P Require Import BdkElectrum ClientLogic ElectrumTip ElectrumAnchors ElectrumScan.

(** ** Headers *)

Section Headers.
Context `{hashes : Hashes} `{codec : Codec} `{api : ElectrumApi}.

Lemma cached_hashes_spec c l :
  (∀ h, (cached_hashes c l).1 !! h = if decide (h ∈ l) then block_hash <$> block_header_cache c !! h else None) ∧
  (cached_hashes c l).2 = filter (λ h, block_header_cache c !! h = None) l.
Proof.
  unfold cached_hashes. induction l as [|x l [IH1 IH2]] using rev_ind; [done|]. rewrite foldl_app. cbn [foldl]. rewrite filter_app, filter_cons, filter_nil.
  destruct (foldl _ _ l) as [m miss]. cbn [fst snd] in *. destruct (block_header_cache c !! x) as [hdr|] eqn:E; cbn [fst snd].
  - rewrite decide_False, app_nil_r by done. split; [|done]. intros h. destruct (decide (h = x)) as [->|Hne].
    + rewrite lookup_insert_eq, decide_True, E by set_solver. done.
    + rewrite lookup_insert_ne, IH1 by done. destruct (decide (h ∈ l)); [rewrite decide_True by set_solver|rewrite decide_False by set_solver]; done.
  - rewrite decide_True by done. split; [|by rewrite IH2]. intros h. rewrite IH1. destruct (decide (h = x)) as [->|Hne].
    + rewrite E, (decide_True (P := x ∈ l ++ [x])) by set_solver. cbn. by case_decide.
    + destruct (decide (h ∈ l)); [rewrite decide_True by set_solver|rewrite decide_False by set_solver]; done.
Qed.

(** Fetched headers go to the cache and to the map alike. *)
Lemma cache_headers_fold z c (m : gmap Z bytes) h :
  m !! h = block_hash <$> block_header_cache c !! h →
  foldl (λ m e, <[e.1 := block_hash e.2]> m) m z !! h = block_hash <$> block_header_cache (foldl (λ c e, cache_header e.1 e.2 c) c z) !! h.
Proof.
  revert c m. induction z as [|[k x] z IH]; intros c m Hm; [done|]. cbn [foldl]. apply IH. cbn [cache_header block_header_cache].
  destruct (decide (k = h)) as [->|Hne]; [by rewrite !lookup_insert_eq|by rewrite !lookup_insert_ne].
Qed.
Lemma cache_headers_other z c :
  let c' := foldl (λ c e, cache_header e.1 e.2 c) c z in
  tx_cache c' = tx_cache c ∧ anchor_cache c' = anchor_cache c ∧ (∀ h, h ∉ z.*1 → block_header_cache c' !! h = block_header_cache c !! h) ∧
  (∀ h x, block_header_cache c' !! h = Some x → block_header_cache c !! h = Some x ∨ (h, x) ∈ z).
Proof.
  revert c. induction z as [|[k x] z IH]; intros c; cbn zeta; cbn [foldl fst snd]; [by eauto|].
  destruct (IH (cache_header k x c)) as (-> & -> & H1 & H2). split_and!; [done..| |].
  - intros h [Hk Hz]%not_elem_of_cons. rewrite H1 by done. cbn. by rewrite lookup_insert_ne by (cbn in Hk; congruence).
  - intros h y Hy. apply H2 in Hy as [Hy|Hy]; [|right; by right]. cbn in Hy. apply lookup_insert_Some in Hy as [[<- <-]|[_ ?]]; [right; left|by left].
Qed.

Lemma collect_headers_exact l c c' m :
  collect_headers l c = (c', Ok m) →
  anchor_cache c' = anchor_cache c ∧
  (∀ h, h ∈ l → m !! h = block_hash <$> block_header_cache c' !! h) ∧
  (∀ h hdr, block_header_cache c !! h = Some hdr → block_header_cache c' !! h = Some hdr).
Proof.
  unfold collect_headers. intros (c1 & cc & [= <- <-] & H)%cm_bind_inv. destruct (cached_hashes_spec c l) as [H1 H2].
  destruct (cached_hashes c l) as [m0 miss]. cbn [fst snd] in *.
  assert (∀ h, h ∈ l → m0 !! h = block_hash <$> block_header_cache c !! h) as Hm0 by (intros h Hh; by rewrite H1, decide_True).
  case_bool_decide; [by injection H as <- <-|]. apply cm_bind_inv in H as (c2 & hs & [= <- Hb] & H).
  apply cm_bind_inv in H as (c3 & [] & [= <-] & [= <- <-]). destruct (cache_headers_other (zip miss hs) c) as (_ & Ha & Ho & _).
  split_and!; [done|intros h Hh; by apply cache_headers_fold, Hm0|]. intros h hdr Hh. rewrite Ho; [done|].
  intros [[k x] [-> Hin]]%list_elem_of_fmap. apply elem_of_zip_l in Hin. rewrite H2 in Hin. apply list_elem_of_filter in Hin as [Hn _]. cbn in Hh. congruence.
Qed.

(** ** Cached anchors *)

Lemma check_cache_fold m p st c :
  ∃ r, fold_cm (check_cache m) st p c = (c, r) ∧
  ∀ st', r = Ok st' → (∀ e, e ∈ st.1 → e ∈ st'.1) ∧
    ∀ e hash a, e ∈ p → m !! (e.2 mod 2 ^ 32) = Some hash → anchor_cache c !! (e.1, hash) = Some a → (e.1, a) ∈ st'.1.
Proof.
  revert st. induction p as [|e p IH]; intros st; cbn [fold_cm].
  { eexists. split; [done|]. intros st' [= <-]. split; [done|]. by intros e hash a ?%elem_of_nil. }
  unfold mbind, CM_bind, check_cache, get_caches, lift, expect, mret, CM_ret. destruct (m !! (e.2 mod 2 ^ 32)) as [hash|] eqn:Em; [|by eexists].
  cbn. set (st1 := match anchor_cache c !! (e.1, hash) with Some a => (st.1 ++ [(e.1, a)], st.2) | None => (st.1, st.2 ++ [e]) end). destruct (IH st1) as (r & Hr & Hok).
  exists r. split; [exact Hr|]. intros st' Hst. destruct (Hok st' Hst) as [H1 H2].
  assert (∀ e', e' ∈ st.1 → e' ∈ st1.1) as Hmono by (intros e' He'; unfold st1; case_match; cbn; [apply elem_of_app; by left|done]).
  split; [intros e' He'; by apply H1, Hmono|]. intros e' hash' a [->|Hin]%elem_of_cons Hm Ha; [|by eapply H2].
  apply H1. unfold st1. rewrite Em in Hm. injection Hm as <-. rewrite Ha. cbn. apply elem_of_app. right. by left.
Qed.
Lemma validate_fold_mono l z c c' l' : fold_cm validate_step l z c = (c', Ok l') → ∀ e, e ∈ l → e ∈ l'.
Proof.
  revert l c. induction z as [|[[i h] pf] z IH]; intros l c; cbn [fold_cm]; [by intros [= _ <-]|].
  intros (c1 & l1 & Hs & H)%cm_bind_inv e He. apply (IH _ _ H). unfold validate_step in Hs.
  apply cm_bind_inv in Hs as (c2 & cc & _ & Hs). apply cm_bind_inv in Hs as (c3 & hdr & _ & Hs). apply cm_bind_inv in Hs as (c4 & [hdr' v] & _ & Hs).
  destruct v; [|by injection Hs as _ <-]. apply cm_bind_inv in Hs as (c5 & cc' & _ & Hs). apply cm_bind_inv in Hs as (c6 & [] & _ & [= _ <-]).
  apply elem_of_app. by left.
Qed.

(** Whatever the server says, an anchor of the caches is returned again. *)
Lemma cached_anchor_returned p txid h hdr a c c' l :
  (txid, h) ∈ p → is_u32 h → block_header_cache c !! h = Some hdr → anchor_cache c !! (txid, block_hash hdr) = Some a →
  batch_fetch_anchors p c = (c', Ok l) → (txid, a) ∈ l.
Proof.
  intros Hp Hh Hhdr Ha. unfold batch_fetch_anchors. intros (c1 & m & Hc & H)%cm_bind_inv.
  assert (h mod 2 ^ 32 = h) as Hmod by (apply Z.mod_small; unfold is_u32, u32_max in *; lia).
  apply collect_headers_exact in Hc as (Hac & Hm & Hk). apply cm_bind_inv in H as (c2 & [rs fetch] & Hf & H).
  destruct (check_cache_fold m p ([], []) c1) as (r & Hr & Hok). rewrite Hr in Hf. injection Hf as <- ->.
  destruct (Hok _ eq_refl) as [_ Hin]. apply cm_bind_inv in H as (c3 & ps & _ & H). eapply validate_fold_mono; [exact H|].
  apply (Hin (txid, h) (block_hash hdr) a Hp); cbn; rewrite ?Hmod, ?Hac; [|done]. rewrite Hm, (Hk _ _ Hhdr); [done|].
  apply elem_of_bset_of_list, list_elem_of_fmap. exists (txid, h). split; [symmetry; exact Hmod|done].
Qed.

(** *** Through a sync *)

(** The later phases only append to the pending anchors. *)
Definition appends (p : Pending) (st : TxUpdate * Pending) : Prop := p ⊆ st.2.
Lemma note_height_appends p t i h st : appends p st → appends p (note_height t i h st).
Proof. unfold appends, note_height. case_match; [|done]. cbn. set_solver. Qed.
Lemma outpoint_loop_appends p t o tx hr hs l st : appends p st → keeps (λ _, True) (outpoint_loop t o tx hr hs l st) (appends p).
Proof.
  revert hr hs st. induction l as [|r l IH]; intros hr hs st Hst; cbn [outpoint_loop]; [by apply keeps_ret|].
  case_match; [by apply keeps_ret|]. set (st' := if _ && _ then _ else st).
  assert (appends p st') as Hst' by (unfold st'; case_match; [by apply note_height_appends|done]).
  case_match; [|by apply IH]. eapply keeps_bind; [by apply (fetch_tx_keeps (λ _, True))|]. intros tx' _.
  case_match; apply IH; [by apply note_height_appends|done].
Qed.
Lemma populate_with_outpoints_appends p t up l : appends p up → keeps (λ _, True) (populate_with_outpoints t up l) (appends p).
Proof.
  intros Hup. unfold populate_with_outpoints. apply keeps_bind with (P := λ _, True); [by intros c _|].
  intros ops _. eapply keeps_bind; [by apply (keeps_lift _ _ (λ _, True))|]. intros hs _.
  apply keeps_fold; [done|]. intros st [[o s] tx] _ Hst. case_match; [by apply outpoint_loop_appends|by apply keeps_ret].
Qed.
Lemma populate_with_txids_appends p t up l : appends p up → keeps (λ _, True) (populate_with_txids t up l) (appends p).
Proof.
  intros Hup. unfold populate_with_txids. apply keeps_bind with (P := λ _, True); [by intros c _|].
  intros ids _. eapply keeps_bind; [by apply (keeps_lift _ _ (λ _, True))|]. intros hs _. apply keeps_ret.
  revert up Hup. induction (zip ids.1 hs) as [|[[i tx] h] z IH]; intros up Hup; [done|]. cbn [foldl]. apply IH.
  case_match; [by apply (note_height_appends p t i)|done].
Qed.

Lemma keeps_ok {A} I (m : CM A) Q c c' a : keeps I m Q → I c → m c = (c', Ok a) → I c' ∧ Q a.
Proof. intros Hk Hc Hm. destruct (Hk c Hc) as [H1 H2]. rewrite Hm in *. auto. Qed.

Lemma finish_update_cached b tip up txid h hdr a c c' r :
  (txid, h) ∈ up.2 → is_u32 h → block_header_cache c !! h = Some hdr → anchor_cache c !! (txid, block_hash hdr) = Some a →
  finish_update b tip up c = (c', Ok r) → (a, txid) ∈ anchors r.1.
Proof.
  intros Hp Hh Hhdr Ha. set (I c := block_header_cache c !! h = Some hdr ∧ anchor_cache c !! (txid, block_hash hdr) = Some a).
  unfold finish_update. intros (c1 & u & Hu & H)%cm_bind_inv. assert (I c1) as [Hhdr1 Ha1].
  { destruct b; [|by injection Hu as <-]. refine (proj1 (keeps_ok I _ _ _ _ _ (fetch_prev_txout_keeps I _ up.1) _ Hu)); [by intros ? ? ? ?|done]. }
  apply cm_bind_inv in H as (c2 & v & Hv & H). rewrite bool_decide_eq_false_2 in Hv by (intros He; rewrite He in Hp; by apply elem_of_nil in Hp).
  apply cm_bind_inv in Hv as (c3 & l & Hl & [= <- <-]).
  pose proof (cached_anchor_returned up.2 txid h hdr a c1 c3 l Hp Hh Hhdr1 Ha1 Hl) as Hin.
  assert (r.1 = foldl (λ u e, insert_anchor e.2 e.1 u) u l) as ->; [|by apply insert_anchors_elem; left].
  destruct tip as [[cp nb]|]; [|by injection H as _ <-]. apply cm_bind_inv in H as (c4 & cp' & _ & [= _ <-]). done.
Qed.

(** C37: the client reports an anchor in a block that is gone. When a sync
    starts with caches that hold the header of a height and an anchor of a
    transaction in that block, and hears of the transaction at this height, it
    reports the cached anchor, whatever chain the server serves by then. So
    after a reorganisation that moves the transaction to another block of the
    same height, such a sync anchors it in the abandoned block. The statement is
    about a sync from caches that still hold the old header and anchor; whether
    they hold them after it is not claimed. *)
Theorem stale_anchor_kept hist req b prev c c' r item txid h hdr a :
  serves_history hist → 1 ≤ b → Z.of_nat (length (sy_spks req)) ≤ usize_max →
  block_header_cache c !! h = Some hdr → anchor_cache c !! (txid, block_hash hdr) = Some a →
  bdk_sync req b prev c = (c', Ok r) →
  item ∈ sy_spks req → mkHistory h txid ∈ hist (item_spk item) → 0 < h ≤ u32_max →
  (a, txid) ∈ anchors (syr_tx_update r).
Proof.
  intros Hh Hb Hlen Hhdr Ha H Hitem Hin Hpos. set (I c := block_header_cache c !! h = Some hdr ∧ anchor_cache c !! (txid, block_hash hdr) = Some a).
  assert (∀ i tx c, I c → I (cache_tx i tx c)) as Hst by (by intros i tx c0 ?).
  unfold bdk_sync in H. apply cm_bind_inv in H as (c0 & tip & [= <- _] & H). apply cm_bind_inv in H as (c1 & [up la] & H1 & H).
  apply cm_bind_inv in H as (c2 & up2 & H2 & H). apply cm_bind_inv in H as (c3 & up3 & H3 & H). apply cm_bind_inv in H as (c4 & r' & H4 & [= <- <-]).
  assert ((txid, h) ∈ up.2) as Hp.
  { apply (scan_exact hist) in H1 as (n & txl & Hn & _ & _ & -> & _); [|done..|unfold usize_max, u64_max; lia]. cbn [snd app].
    apply list_elem_of_lookup in Hitem as [k Hk]. unfold confirmed_of. apply list_elem_of_In, in_concat.
    exists [(txid, h)]. split; [|by left]. apply in_map_iff. exists (mkHistory h txid). cbn. rewrite (proj2 (Z.ltb_lt _ _)) by lia. split; [done|].
    apply in_concat. exists (hist (item_spk item)). split; [|by apply list_elem_of_In].
    apply list_elem_of_In, list_elem_of_fmap. eexists (_, _). split; [done|]. unfold with_history. apply list_elem_of_fmap.
    exists (Z.of_nat k mod 2 ^ 32, item). split; [done|]. apply list_elem_of_lookup. exists k. rewrite lookup_take_lt.
    - rewrite list_lookup_imap, Hk. done.
    - apply (Hn k (Z.of_nat k mod 2 ^ 32, item)); [by rewrite list_lookup_imap, Hk|cbn; by intros He; rewrite He in Hin; apply elem_of_nil in Hin|].
      intros q Hq. apply lookup_lt_Some in Hk. lia. }
  destruct (keeps_ok I _ _ _ _ _ (populate_with_spks_keeps I Hst TxUpdate_default _ (TxUpdate_default, []) _ _ _ eq_refl) (conj Hhdr Ha) H1) as [Hc1 _].
  destruct (keeps_ok I _ _ _ _ _ (populate_with_txids_keeps I Hst up.1 _ up _ eq_refl) Hc1 H2) as [Hc2 _].
  destruct (keeps_ok I _ _ _ _ _ (populate_with_outpoints_keeps I Hst up2.1 _ up2 _ eq_refl) Hc2 H3) as [Hc3 _].
  destruct (keeps_ok _ _ _ _ _ _ (populate_with_txids_appends [(txid, h)] _ up _ ltac:(unfold appends; set_solver)) Logic.I H2) as [_ Hp2].
  destruct (keeps_ok _ _ _ _ _ _ (populate_with_outpoints_appends [(txid, h)] _ _ _ Hp2) Logic.I H3) as [_ Hp3].
  destruct Hc3. eapply (finish_update_cached _ _ _ txid h hdr); [apply Hp3; by left|unfold is_u32; lia|done|done|exact H4].
Qed.
End Headers.


(** ** One chain *)

Section OneChain.
Context `{hashes : Hashes} `{codec : Codec} `{api : ElectrumApi}.
Context (chain : list Header) (fork : Z) (hist : bytes → list GetHistoryRes).
Notation best := (server_best chain).

(** The server has the transactions of its histories, headers for their heights
    and a path, right or wrong, for whatever is asked. *)
Record serves_wallet : Prop := {
  sw_chain : serves_headers chain;
  sw_history : serves_history hist;
  sw_heights s r : r ∈ hist s → hist_height r < Z.of_nat (length chain);
  sw_txs s r : r ∈ hist s → ∃ tx, transaction_get (hist_tx_hash r) = Ok tx;
  sw_outputs i : (∃ tx, transaction_get i = Ok tx ∧ tx_output tx ≠ []) ∨ ∃ v, transaction_get i = Err (EProtocol v);
  sw_headers hs : (∀ h, h ∈ hs → 0 ≤ h < Z.of_nat (length chain)) →
    ∃ l, batch_block_header hs = Ok l ∧ Forall2 (λ h hdr, chain !! Z.to_nat h = Some hdr) hs l;
  sw_merkle l : ∃ ps, batch_transaction_get_merkle l = Ok ps
}.

(** The caches agree with the server's chain. *)
Record cache_on_chain (c : Caches) : Prop := {
  co_headers h hdr : block_header_cache c !! h = Some hdr → chain !! Z.to_nat h = Some hdr;
  co_anchors k a : anchor_cache c !! k = Some a → on_best best (anchor_block a);
  co_outputs i tx : tx_cache c !! i = Some tx → tx_output tx ≠ []
}.

Context (sw : serves_wallet).

Lemma co_cache_tx i tx c : tx_output tx ≠ [] → cache_on_chain c → cache_on_chain (cache_tx i tx c).
Proof.
  intros Ht [H1 H2 H3]. split; [exact H1|exact H2|]. intros j tx' Hj. cbn [cache_tx tx_cache] in Hj. apply lookup_insert_Some in Hj as [[_ <-]|[_ Hj]]; eauto.
Qed.

Lemma fetch_tx_cases i c :
  cache_on_chain c →
  (∃ c' tx, fetch_tx i c = (c', Ok tx) ∧ cache_on_chain c' ∧ tx_output tx ≠ []) ∨
  (fetch_tx i c = (c, transaction_get i) ∧ ∃ v, transaction_get i = Err (EProtocol v)).
Proof.
  intros Hc. unfold fetch_tx, get_caches, put_caches, lift, mbind, CM_bind, mret, CM_ret. destruct (tx_cache c !! i) as [tx|] eqn:E.
  - left. exists c, tx. split_and!; [done..|]. by eapply co_outputs.
  - destruct (sw_outputs sw i) as [(tx & -> & Ht)|[v ->]]; [left|right; eauto]. eexists _, tx. split_and!; [done| |done]. by apply co_cache_tx.
Qed.
Lemma fetch_tx_yields i : (∃ tx, transaction_get i = Ok tx) → yields cache_on_chain (fetch_tx i) (λ tx, tx_output tx ≠ []).
Proof.
  intros [tx Htx] c Hc. destruct (fetch_tx_cases i c Hc) as [(c' & tx' & ? & ? & ?)|(_ & v & Hv)]; [by exists c', tx'|congruence].
Qed.

(** No anchors yet, and pending heights of the chain. *)
Definition collecting (st : TxUpdate * Pending) : Prop :=
  anchors st.1 = ∅ ∧ ∀ e, e ∈ st.2 → 0 < e.2 < Z.of_nat (length chain).

Lemma note_height_collecting t i h st :
  h < Z.of_nat (length chain) → collecting st → collecting (note_height t i h st).
Proof.
  intros Hh [H1 H2]. unfold note_height. destruct (Z.ltb_spec 0 h); [|by split].
  split; [done|]. cbn. intros e [He| ->%list_elem_of_singleton]%elem_of_app; [by apply H2|done].
Qed.
Lemma push_collecting tx st : collecting st → collecting (push_update_tx tx st.1, st.2).
Proof. by intros [H1 H2]. Qed.

Lemma spk_loop_yields t gap spks st :
  collecting (sc_update st) →
  yields cache_on_chain (spk_loop t gap (with_history hist spks) st) (λ f, collecting (sc_update (flow_state f))).
Proof.
  revert st. induction spks as [|[i s] spks IH]; intros st Hst; [by apply yields_ret|]. cbn [with_history map spk_loop].
  apply yields_bind with (P := λ f, collecting (sc_update (flow_state f))).
  - unfold spk_step. match goal with |- context [match ?o with Some _ => _ | None => _ end] => destruct o as [st'|] eqn:E end; [|by apply yields_ret].
    eapply yields_bind; [|intros up Hup; by apply (yields_ret _ (Go _))]. apply yields_fold.
    + assert (sc_update st' = sc_update st) as -> by (by repeat case_match; simplify_eq). by destruct Hst.
    + intros b r Hr Hb. eapply yields_bind; [apply fetch_tx_yields; by eapply sw_txs|]. intros tx _. apply yields_ret.
      apply note_height_collecting; [by eapply sw_heights|by apply push_collecting].
  - intros [st'|st'] Hst'; [by apply IH|by apply yields_ret].
Qed.
Lemma populate_with_spks_yields t up spks gap b :
  1 ≤ b → collecting up → yields cache_on_chain (populate_with_spks t up spks gap b) (λ r, collecting r.1).
Proof.
  intros Hb Hup. apply yields_bind with (P := λ st, collecting (sc_update st)); [|intros st Hst; by apply yields_ret].
  intros c Hc. rewrite (populate_whole hist) by (done || lia || by apply sw_history).
  revert c Hc. eapply yields_bind; [by apply spk_loop_yields|]. intros f Hf. by apply yields_ret.
Qed.

Lemma outpoint_loop_yields t o tx hr hs s l st :
  l ⊆ hist s → collecting st → yields cache_on_chain (outpoint_loop t o tx hr hs l st) collecting.
Proof.
  revert hr hs st. induction l as [|r l IH]; intros hr hs st Hl Hst; cbn [outpoint_loop]; [by apply yields_ret|].
  assert (r ∈ hist s) as Hr by (apply Hl; left). assert (l ⊆ hist s) as Hl' by (intros x Hx; apply Hl; by right).
  case_match; [by apply yields_ret|]. set (st' := if _ && _ then _ else st). assert (collecting st') as Hst'.
  { unfold st'. case_match; [|done]. apply note_height_collecting; [by eapply sw_heights|by apply push_collecting]. }
  case_match; [|by apply IH]. eapply yields_bind; [apply fetch_tx_yields; by eapply sw_txs|]. intros tx' _.
  case_match; apply IH; try done. apply note_height_collecting; [by eapply sw_heights|by apply push_collecting].
Qed.
Lemma populate_with_outpoints_yields t up l :
  collecting up → yields cache_on_chain (populate_with_outpoints t up l) collecting.
Proof.
  intros Hup. unfold populate_with_outpoints. apply yields_bind with (P := λ _, True).
  { apply yields_fold; [done|]. intros b op _ _. apply yields_bind with (P := λ _, True); [|intros otx _; by apply yields_ret].
    intros c Hc. unfold fetch_tx_ok. destruct (fetch_tx_cases (op_txid op) c Hc) as [(c' & tx & -> & Hc' & _)|(-> & v & ->)]; by eexists _, _. }
  intros ops _. set (spks := elements _). eapply yields_bind with (P := λ hs, hs = map hist spks).
  { apply yields_lift. eexists. split; [apply (sw_history sw)|done]. }
  intros hs ->. set (m := foldl _ _ _).
  assert (∀ s h, m !! s = Some h → h = hist s) as Hm.
  { unfold m. assert (∀ m0 : gmap bytes (list GetHistoryRes), (∀ s h, m0 !! s = Some h → h = hist s) →
      ∀ s h, foldl (λ m e, <[e.1 := e.2]> m) m0 (zip spks (map hist spks)) !! s = Some h → h = hist s) as Hf; [|by apply Hf].
    clear m. induction spks as [|s spks' IH]; intros m0 H0; [done|]. cbn [map zip zip_with foldl]. apply IH. cbn.
    intros s' h [[<- <-]|[_ Hs]]%lookup_insert_Some; [done|by apply H0]. }
  apply yields_fold; [done|]. intros st [[o s] tx] _ Hst. case_match eqn:E; [|by apply yields_ret].
  apply (outpoint_loop_yields _ _ _ _ _ s); [by rewrite (Hm _ _ E)|done].
Qed.
Lemma populate_with_txids_yields t up l :
  collecting up → yields cache_on_chain (populate_with_txids t up l) collecting.
Proof.
  intros Hup. unfold populate_with_txids. apply yields_bind with (P := λ _, True).
  { apply yields_fold; [done|]. intros b i _ _ c Hc. unfold collect_txid.
    destruct (fetch_tx_cases i c Hc) as [(c' & tx & -> & Hc' & Ht)|(-> & v & ->)]; [destruct (tx_output tx); [done|]|]; by eexists _, _. }
  intros ids _. eapply yields_bind with (P := λ hs, hs = map hist ids.2).
  { apply yields_lift. eexists. split; [apply (sw_history sw)|done]. }
  intros hs ->. apply yields_ret. generalize dependent up. generalize ids.1 at 1. generalize ids.2. clear ids.
  intros ss. induction ss as [|s ss IH]; intros [|[i tx] ids] up Hup; try done. cbn [map zip zip_with foldl]. apply IH. apply push_collecting.
  case_match eqn:E; [|done]. apply find_some in E as [Hin%list_elem_of_In _]. apply note_height_collecting; [by eapply sw_heights|done].
Qed.

Lemma cache_headers_some z c h :
  h ∈ z.*1 ∨ is_Some (block_header_cache c !! h) → is_Some (block_header_cache (foldl (λ c e, cache_header e.1 e.2 c) c z) !! h).
Proof.
  revert c. induction z as [|[k x] z IH]; intros c; cbn [foldl fst snd fmap list_fmap]; [intros [?%elem_of_nil|?]; done|].
  intros Hh. apply IH. cbn [cache_header block_header_cache]. rewrite elem_of_cons in Hh.
  destruct (decide (k = h)) as [->|Hne]; [right; rewrite lookup_insert_eq; by eexists|rewrite lookup_insert_ne by done]. naive_solver.
Qed.

Definition on_chain_with (hs : list Z) (c : Caches) : Prop :=
  cache_on_chain c ∧ ∀ h, h ∈ hs → is_Some (block_header_cache c !! h).

Lemma collect_headers_total l c :
  (∀ h, h ∈ l → 0 ≤ h < Z.of_nat (length chain)) → cache_on_chain c →
  ∃ c' m, collect_headers l c = (c', Ok m) ∧ on_chain_with l c' ∧ ∀ h, h ∈ l → is_Some (m !! h).
Proof.
  intros Hl Hc. assert (∃ c' m, collect_headers l c = (c', Ok m) ∧ on_chain_with l c') as (c' & m & He & Hc').
  { unfold collect_headers, get_caches, put_caches, lift, mbind, CM_bind. destruct (cached_hashes_spec c l) as [H1 H2].
    destruct (cached_hashes c l) as [m miss]. cbn [fst snd] in *. case_bool_decide as Hm.
    - exists c, m. split; [done|]. split; [done|]. intros h Hh. destruct (block_header_cache c !! h) eqn:E; [by eexists|].
      assert (h ∈ miss) as Hin by (rewrite H2; by apply list_elem_of_filter). rewrite Hm in Hin. by apply elem_of_nil in Hin.
    - destruct (sw_headers sw miss) as (hs & -> & Hf); [intros h Hh; rewrite H2 in Hh; apply list_elem_of_filter in Hh as [_ Hh]; by apply Hl|].
      eexists _, _. split; [done|]. destruct (cache_headers_other (zip miss hs) c) as (Ht & Ha & Ho & Hx). split.
      + destruct Hc as [C1 C2 C3]. split; [|by rewrite Ha|by rewrite Ht]. intros h hdr [Hh|Hh]%Hx; [by apply C1|].
        apply elem_of_lookup_zip_with in Hh as (i & h' & hdr' & [= <- <-] & Hi & Hj). by eapply (Forall2_lookup_lr _ _ _ _ _ _ Hf).
      + intros h Hh. apply cache_headers_some. destruct (block_header_cache c !! h) eqn:E; [right; by eexists|left].
        rewrite fst_zip by (apply Forall2_length in Hf; lia). rewrite H2. by apply list_elem_of_filter. }
  exists c', m. split_and!; [done..|]. intros h Hh. apply collect_headers_exact in He as (_ & Hm & _). rewrite (Hm h Hh).
  destruct (proj2 Hc' h Hh) as [hdr ->]. by eexists.
Qed.

(** Anchors on the server's chain. *)
Definition anchors_on (l : list (bytes * ConfirmationBlockTime)) : Prop := ∀ e, e ∈ l → on_best best (anchor_block e.2).

Lemma on_chain_anchor hs i hash a c :
  on_best best (anchor_block a) → on_chain_with hs c → on_chain_with hs (cache_anchor i hash a c).
Proof.
  intros Ha [[C1 C2 C3] Hh]. split; [split; [exact C1| |exact C3]|exact Hh]. intros k b Hb. cbn [cache_anchor anchor_cache] in Hb.
  apply lookup_insert_Some in Hb as [[_ <-]|[_ Hb]]; eauto.
Qed.
Lemma on_chain_header hs h hdr c :
  chain !! Z.to_nat h = Some hdr → on_chain_with hs c → on_chain_with hs (cache_header h hdr c).
Proof.
  intros Hx [[C1 C2 C3] Hh]. split; [split; [|exact C2|exact C3]|]; cbn [cache_header block_header_cache].
  - intros k x Hk. apply lookup_insert_Some in Hk as [[<- <-]|[_ Hk]]; [done|by apply C1].
  - intros k Hk. destruct (decide (h = k)) as [->|Hne]; [rewrite lookup_insert_eq; by eexists|rewrite lookup_insert_ne by done; by apply Hh].
Qed.

Lemma validate_step_yields hs l i h pf :
  h ∈ hs → 0 ≤ h < Z.of_nat (length chain) → anchors_on l → yields (on_chain_with hs) (validate_step l ((i, h), pf)) anchors_on.
Proof.
  intros Hin Hh Hl. pose proof (sh_length _ (sw_chain sw)) as Hlen. assert (h mod 2 ^ 32 = h) as Hmod by (apply Z.mod_small; lia).
  assert (∃ hdr, chain !! Z.to_nat h = Some hdr) as [hdr Hhdr] by (apply lookup_lt_is_Some; lia).
  unfold validate_step. rewrite Hmod. eapply yields_bind; [apply yields_get|]. intros c Hc.
  apply yields_bind with (P := λ x, x = hdr).
  { apply yields_lift. destruct (proj2 Hc h Hin) as [x Hx]. rewrite Hx. exists x. split; [done|]. apply (co_headers _ (proj1 Hc)) in Hx. congruence. }
  intros x ->. apply yields_bind with (P := λ hv, hv.1 = hdr).
  { case_match; [by apply yields_ret|]. apply yields_bind with (P := λ x, x = hdr).
    { apply yields_lift. exists hdr. split; [|done]. apply (sh_header _ (sw_chain sw)); [lia|done]. }
    intros x ->. eapply yields_bind; [apply yields_get|]. intros c1 Hc1. eapply yields_bind; [by apply yields_put, on_chain_header|].
    intros _ _. by apply yields_ret. }
  intros [hdr' v] Hv. cbn in Hv. subst hdr'. destruct v; [|by apply yields_ret]. set (a := mkAnchor _ _).
  assert (on_best best (anchor_block a)) as Ha by (apply server_best_lookup; split; [cbn; lia|by exists hdr]).
  eapply yields_bind; [apply yields_get|]. intros c2 Hc2. eapply yields_bind; [by apply yields_put, on_chain_anchor|]. intros _ _.
  apply yields_ret. intros e [He| ->%list_elem_of_singleton]%elem_of_app; [by apply Hl|done].
Qed.

Lemma batch_fetch_anchors_yields p :
  (∀ e, e ∈ p → 0 < e.2 < Z.of_nat (length chain)) → yields cache_on_chain (batch_fetch_anchors p) anchors_on.
Proof.
  intros Hp c Hc. pose proof (sh_length _ (sw_chain sw)) as Hlen. unfold batch_fetch_anchors. set (needed := bset_of_list _).
  assert (∀ e, e ∈ p → e.2 mod 2 ^ 32 = e.2 ∧ e.2 ∈ needed) as Hn.
  { intros e He. assert (e.2 mod 2 ^ 32 = e.2) as Hm by (apply Z.mod_small; specialize (Hp e He); lia). split; [done|].
    apply elem_of_bset_of_list, list_elem_of_fmap. by exists e. }
  destruct (collect_headers_total needed c) as (c1 & m & Hcol & Hc1 & Hm); [|done|].
  { intros h (e & -> & He)%elem_of_bset_of_list%list_elem_of_fmap. destruct (Hn e He) as [Hmod _]. rewrite Hmod. specialize (Hp e He). lia. }
  unfold mbind at 1, CM_bind at 1. rewrite Hcol.
  enough (yields (on_chain_with needed) (st ← fold_cm (check_cache m) ([], []) p; let '(results, to_fetch) := st in
    proofs ← lift (batch_transaction_get_merkle to_fetch); fold_cm validate_step results (zip to_fetch proofs)) anchors_on) as Hy.
  { destruct (Hy c1 Hc1) as (c' & l & He & [Hc' _] & Hl). by exists c', l. }
  apply yields_bind with (P := λ st, anchors_on st.1 ∧ st.2 ⊆ p).
  - apply yields_fold; [split; [by intros e ?%elem_of_nil|set_solver]|]. intros st e He [Hs1 Hs2]. unfold check_cache.
    eapply yields_bind; [apply yields_get|]. intros c2 [Hc2 _]. destruct (Hn e He) as [Hmod Hneed]. rewrite Hmod.
    apply yields_bind with (P := λ _, True); [apply yields_lift; destruct (Hm _ Hneed) as [x ->]; by exists x|]. intros hash _. apply yields_ret.
    case_match eqn:Ea; cbn; [|split; [done|set_solver]]. split; [|done].
    intros x [Hx| ->%list_elem_of_singleton]%elem_of_app; [by apply Hs1|by eapply co_anchors].
  - intros [l fetch] [Hl Hf]. cbn in *. apply yields_bind with (P := λ _, True); [apply yields_lift; destruct (sw_merkle sw fetch) as [ps ->]; by exists ps|].
    intros ps _. apply yields_fold; [done|]. intros l' [[i h] pf] Hin Hl'. apply elem_of_zip_l in Hin. destruct (Hn _ (Hf _ Hin)) as [_ Hneed].
    specialize (Hp _ (Hf _ Hin)). cbn in *. by apply validate_step_yields; [done|lia|].
Qed.

(** ** The update *)

(** An update that the wallet takes: its checkpoint becomes the wallet's chain.
    When the server is not behind the wallet, it ends at the server's tip and has
    the block of every anchor. *)
Definition applies (eq_ptr : CheckPoint → CheckPoint → bool) (o : CheckPoint) (up : Update) : Prop :=
  ∃ u cs, up_chain up = Some u ∧ chain_apply_update eq_ptr o u = Ok (u, cs) ∧ cp_wf u ∧
    (cp_height o < Z.of_nat (length chain) →
      cp_height u = Z.of_nat (length chain) - 1 ∧ (∀ h x, cp_map u !! h = Some x → best !! h = Some x) ∧
      ∀ a txid, (a, txid) ∈ anchors (up_tx_update up) → cp_map u !! bi_height (anchor_block a) = Some (bi_hash (anchor_block a))).

Lemma finish_update_yields eq_ptr o tip nb up :
  (∀ x y, eq_ptr x y = true → x = y) → cp_wf o → forks_at best fork o → fetch_tip_and_latest_blocks o = Ok (tip, nb) → collecting up →
  yields cache_on_chain (finish_update false (Some (tip, nb)) up) (λ r, ∀ la, applies eq_ptr o (mkUpdate la r.1 r.2)).
Proof.
  intros Hp Ho Hf Htip [Ha Hpend]. destruct (tip_tracks chain fork o (sw_chain sw) Ho Hf) as (u0 & nb0 & Htip' & Ht & Hnb & Hcase).
  rewrite Htip in Htip'. injection Htip' as <- <-. unfold finish_update.
  apply yields_bind with (P := λ u, u = up.1); [by apply yields_ret|]. intros ? ->.
  apply yields_bind with (P := λ u, ∀ a txid, (a, txid) ∈ anchors u → on_best best (anchor_block a)).
  { case_bool_decide; [apply yields_ret; rewrite Ha; set_solver|].
    eapply yields_bind; [by apply batch_fetch_anchors_yields|]. intros l Hl. apply yields_ret. intros a txid [Hin|Hin]%insert_anchors_elem.
    - by apply Hl in Hin.
    - rewrite Ha in Hin. set_solver. }
  intros u Hu. destruct (chain_update_tracks chain fork o tip nb (sorted_anchors (anchors u))) as (cp & Hcp & Htc & Hh & Hk & Hb & Hs); [done..| |].
  { intros [a txid] Hin. apply (Hu a txid). unfold sorted_anchors in Hin. rewrite merge_sort_Permutation in Hin. by apply elem_of_elements. }
  apply yields_bind with (P := λ x, x = cp); [apply yields_lift; by exists cp|]. intros ? ->. apply yields_ret. intros la.
  destruct (tracks_applies best fork eq_ptr o cp Hp Hf Ho Htc) as [cs Hcs]. exists cp, cs. split_and!; [done..|apply Htc|]. intros Hlow.
  rewrite (proj2 (Z.ltb_ge _ _)) in Hcase by lia. destruct Hcase as [Hth Htb].
  assert (∀ h x, cp_map cp !! h = Some x → best !! h = Some x) as Hcb by (intros h x [Hx|Hx]%Hb; auto).
  split_and!; [congruence|done|]. cbn. intros a txid Hin. pose proof (Hu a txid Hin) as Hon.
  destruct (Hs (a, txid)) as [x Hx]; [unfold sorted_anchors; rewrite merge_sort_Permutation; by apply elem_of_elements| |].
  - pose proof (mk_is_Some _ _ Hon) as Hr%server_best_range. cbn. lia.
  - cbn in Hx. rewrite Hx. apply Hcb in Hx. unfold on_best in Hon. congruence.
Qed.

(** The client of the backend during one operation that starts with caches [c]. *)
Definition bdk_client (base : ElectrumClient) (c : Caches) : ElectrumClient := {|
  client_from_config := client_from_config;
  client_full_scan := λ req gap b prev, (bdk_full_scan req gap b prev c).2;
  client_sync := λ req b prev, (bdk_sync req b prev c).2;
  transaction_broadcast := transaction_broadcast;
  estimate_fee := estimate_fee;
  block_headers_subscribe := api_headers_subscribe
|}.

(** C15: an Electrum scan ends in an update the wallet applies. Assumed: the
    server serves one chain during the operation, with the histories of the
    scripts, their transactions, headers and proofs; the client's caches agree
    with that chain; the wallet's chain branched off it somewhere; and previous
    outputs are not fetched. Then a full scan and a sync both succeed, also when
    the wallet is on another branch; the wallet's chain afterwards is the
    update's checkpoint, and the caches still agree with the server. When the
    server is not behind the wallet's tip, the new chain moreover ends at the
    server's tip, consists of its blocks, and has the block of every reported
    confirmation; for a wallet on a higher stale branch this is not claimed. *)
Theorem electrum_update_applies eq_ptr base b c o scan_req sync_req :
  (∀ x y, eq_ptr x y = true → x = y) → cp_wf o → forks_at best fork o → cache_on_chain c →
  1 ≤ batch_size (el_config b) → fetch_prev_txouts (el_config b) = false →
  fs_chain_tip scan_req = Some o → sy_chain_tip sync_req = Some o →
  (∃ up, electrum_full_scan (client := bdk_client base c) b scan_req = Ok up ∧ applies eq_ptr o up ∧
    cache_on_chain (bdk_full_scan scan_req (el_stop_gap (el_config b)) (batch_size (el_config b)) false c).1) ∧
  (∃ up, electrum_sync (client := bdk_client base c) b sync_req = Ok up ∧ applies eq_ptr o up ∧
    cache_on_chain (bdk_sync sync_req (batch_size (el_config b)) false c).1).
Proof.
  intros Hp Ho Hf Hc Hb Hprev Hfs Hsy. unfold electrum_full_scan, electrum_sync. rewrite Hprev. cbn [client_full_scan client_sync bdk_client].
  destruct (tip_tracks chain fork o (sw_chain sw) Ho Hf) as (tip & nb & Htip & _).
  assert (yields cache_on_chain (lift (tip_and_latest_blocks (Some o))) (λ t, t = Some (tip, nb))) as Hty.
  { apply yields_lift. cbn. rewrite Htip. by eexists. }
  assert (collecting (TxUpdate_default, [])) as H0 by (split; [done|by intros e ?%elem_of_nil]). split.
  - assert (yields cache_on_chain (bdk_full_scan scan_req (el_stop_gap (el_config b)) (batch_size (el_config b)) false)
      (λ r, applies eq_ptr o (update_of_full_scan r))) as Hy.
    { unfold bdk_full_scan. rewrite Hfs. eapply yields_bind; [exact Hty|]. intros ? ->.
      apply yields_bind with (P := λ st, collecting st.1).
      { apply yields_fold; [done|]. intros st k _ Hst. eapply yields_bind; [by apply populate_with_spks_yields|]. intros r Hr. by apply yields_ret. }
      intros st Hst. eapply yields_bind; [by apply finish_update_yields|]. intros r Hr. apply yields_ret. apply Hr. }
    destruct (Hy c Hc) as (c' & r & -> & Hc' & Hr). by eexists.
  - assert (yields cache_on_chain (bdk_sync sync_req (batch_size (el_config b)) false) (λ r, applies eq_ptr o (update_of_sync r))) as Hy.
    { unfold bdk_sync. rewrite Hsy. eapply yields_bind; [exact Hty|]. intros ? ->.
      eapply yields_bind; [by apply populate_with_spks_yields|]. intros r Hr.
      eapply yields_bind; [by apply populate_with_txids_yields|]. intros up Hup.
      eapply yields_bind; [by apply populate_with_outpoints_yields|]. intros up' Hup'.
      eapply yields_bind; [by apply finish_update_yields|]. intros r' Hr'. apply yields_ret. apply Hr'. }
    destruct (Hy c Hc) as (c' & r & -> & Hc' & Hr). by eexists.
Qed.
End OneChain.
