(* ===== verification/FilterIter.v ===== *)
(** BDK's filter iterator, the vendored [bdk_bitcoind_rpc/src/bip158.rs].

    The Core backend walks the node's chain with [FilterIter]: it looks for the
    highest checkpoint the node still has, follows the node's [nextblockhash]
    links from there, inserts every block into its checkpoint, and fetches the
    blocks whose BIP-158 filter matches. The RPCs it makes are the class
    [HeaderClient].

    [filter_iter_walks] says what it yields on a node that serves one best
    chain: one event per block above the common one, in order, up to the tip.
    [event_tips] says, of any node, at which block the scan anchors the
    transactions of an event. *)
From S2P Require Import Prelude Ordered Types Bitcoin Checkpoint LocalChain Tracking Chain CoreRpc.

(** The fields of [GetBlockHeaderResult] that are read. *)
Record HeaderInfo := mkHeaderInfo {
  hd_hash : bytes;
  hd_confirmations : Z;
  hd_height : Z;
  hd_previous : option bytes;
  hd_next : option bytes
}.

Inductive FilterError :=
  | FeRpc (e : RpcError)
  | FeBip158 (e : bytes)
  | FeReorgDepthExceeded
  | FeTryFromInt.

Class HeaderClient := {
  header_info : bytes → res RpcError HeaderInfo;
  (** the content of a block's filter, and the test of scripts against it *)
  block_filter : bytes → res RpcError bytes;
  match_any : bytes → bytes → list bytes → res bytes bool;
  fetch_block : bytes → res RpcError (list Transaction);
  (** [impl Display for bitcoincore_rpc::Error] *)
  rpc_display : RpcError → bytes
}.

Definition iter_not_found (e : RpcError) : bool := match e with RpcApp code _ => code =? -5 | RpcTransport => false end.

Section Iterator.
Context `{hc : HeaderClient}.

Definition FilterError_display (e : FilterError) : bytes :=
  match e with
  | FeRpc e => rpc_display e
  | FeBip158 e => e
  | FeReorgDepthExceeded => str "maximum reorg depth exceeded"
  | FeTryFromInt => str "out of range integral type conversion attempted"
  end.

Record FilterIter := mkFilterIter { it_spks : list bytes; it_cp : CheckPoint; it_header : option HeaderInfo }.
Definition FilterIter_new (cp : CheckPoint) (spks : list bytes) : FilterIter := mkFilterIter spks cp None.

Fixpoint find_base (l : list BlockId) : res FilterError HeaderInfo :=
  match l with
  | [] => Err FeReorgDepthExceeded
  | c :: l =>
      match header_info (bi_hash c) with
      | Err e => if iter_not_found e then find_base l else Err (FeRpc e)
      | Ok header => if hd_confirmations header <=? 0 then find_base l else Ok header
      | Panic => Panic
      end
  end.

(** The [while] loop that leaves a stale branch. A header's predecessor is one
    lower, so the height of the header is enough fuel. *)
Fixpoint rewind (fuel : nat) (header : HeaderInfo) : res FilterError HeaderInfo :=
  if hd_confirmations header <? 0 then
    match fuel with
    | O => Panic
    | S fuel =>
        prev_hash ← ok_or (hd_previous header) FeReorgDepthExceeded;
        prev_header ← map_err FeRpc (header_info prev_hash);
        rewind fuel prev_header
    end
  else Ok header.

(** The closure of [next]: nothing at the tip, or the next event with the
    checkpoint and header to go on from. *)
Definition iter_step (it : FilterIter) : res FilterError (option (FilterEvent * FilterIter)) :=
  header ← match it_header it with Some h => Ok h | None => find_base (cp_iter (it_cp it)) end;
  match hd_next header with
  | None => Ok None
  | Some next_hash =>
      next_header ← map_err FeRpc (header_info next_hash);
      next_header ← rewind (S (Z.to_nat (hd_height next_header))) next_header;
      let next_hash := hd_hash next_header in
      next_height ← (if hd_height next_header <=? u32_max then Ok (hd_height next_header) else Err FeTryFromInt);
      cp ← cp_insert (it_cp it) (mkBlockId next_height next_hash);
      filter ← map_err FeRpc (block_filter next_hash);
      matched ← map_err FeBip158 (match_any filter next_hash (it_spks it));
      block ← (if matched : bool then txs ← map_err FeRpc (fetch_block next_hash); Ok (Some txs) else Ok None);
      Ok (Some (mkFilterEvent cp block, mkFilterIter (it_spks it) cp (Some next_header)))
  end.

(** [Iterator::next]: the cached header is taken first, so it is gone unless a
    new one is stored. *)
Definition iter_next (it : FilterIter) : FilterIter * option (res FilterError FilterEvent) :=
  match iter_step it with
  | Ok (Some (ev, it')) => (it', Some (Ok ev))
  | Ok None => (mkFilterIter (it_spks it) (it_cp it) None, None)
  | Err e => (mkFilterIter (it_spks it) (it_cp it) None, Some (Err e))
  | Panic => (mkFilterIter (it_spks it) (it_cp it) None, Some Panic)
  end.

(** What a caller that stops at the first error sees of the iterator. *)
Fixpoint iter_events (fuel : nat) (it : FilterIter) : list (res bytes FilterEvent) :=
  match fuel with
  | O => []
  | S fuel =>
      match iter_next it with
      | (_, None) => []
      | (it, Some (Ok ev)) => Ok ev :: iter_events fuel it
      | (_, Some (Err e)) => [Err (FilterError_display e)]
      | (_, Some Panic) => [Panic]
      end
  end.
Definition filter_events (fuel : nat) (cp : CheckPoint) (spks : list bytes) : list (res bytes FilterEvent) :=
  iter_events fuel (FilterIter_new cp spks).
End Iterator.

(** ** Walking the best chain *)

Section Walk.
Context `{hc : HeaderClient}.

(** A stale header leads back to one the node has on its chain. *)
Lemma rewind_ends x hd :
  (∀ x hd, header_info x = Ok hd → hd_hash hd = x ∧ 0 ≤ hd_height hd ∧
    (hd_confirmations hd < 0 → ∃ p ph, hd_previous hd = Some p ∧ header_info p = Ok ph ∧ hd_height ph = hd_height hd - 1)) →
  header_info x = Ok hd →
  ∃ hd', rewind (S (Z.to_nat (hd_height hd))) hd = Ok hd' ∧ 0 ≤ hd_confirmations hd' ∧ header_info (hd_hash hd') = Ok hd' ∧
    hd_height hd' ≤ hd_height hd.
Proof.
  intros Hlink. remember (S (Z.to_nat (hd_height hd))) as n eqn:En. revert x hd En.
  induction n as [|n IH]; intros x hd En Hx; [done|]. destruct (Hlink _ _ Hx) as (<- & Hh & Hp). cbn [rewind].
  destruct (Z.ltb_spec (hd_confirmations hd) 0) as [Hc|Hc]; [|exists hd; split_and!; [done..|lia]].
  destruct (Hp Hc) as (p & ph & -> & Hph & Hhp). cbn [ok_or mbind res_bind]. rewrite Hph. cbn [map_err mbind res_bind].
  destruct (Hlink _ _ Hph) as (_ & Hh' & _). destruct (IH p ph) as (hd' & ? & ? & ? & ?); [lia|done|].
  exists hd'. split_and!; [done..|lia].
Qed.

Context (best : list bytes).

(** The node's answers during a scan: [best] is its chain, with a filter and a
    block for every hash of it; every other hash is unknown or stale. *)
Record serves_chain : Prop := {
  sn_on h x : best !! h = Some x → ∃ hd, header_info x = Ok hd ∧ hd_hash hd = x ∧ hd_height hd = Z.of_nat h ∧
    0 < hd_confirmations hd ∧ hd_next hd = best !! S h;
  sn_off x : x ∉ best →
    (∃ e, header_info x = Err e ∧ iter_not_found e = true) ∨ (∃ hd, header_info x = Ok hd ∧ hd_confirmations hd ≤ 0);
  sn_height : Z.of_nat (length best) ≤ 2 ^ 32;
  sn_blocks x spks : x ∈ best →
    ∃ f m txs, block_filter x = Ok f ∧ match_any f x spks = Ok m ∧ fetch_block x = Ok txs
}.

(** The block an event carries: the whole block if its filter matches. *)
Definition event_block (spks : list bytes) (x : bytes) : option (list Transaction) :=
  match block_filter x with
  | Ok f => match match_any f x spks with
            | Ok true => match fetch_block x with Ok txs => Some txs | _ => None end
            | _ => None
            end
  | _ => None
  end.

(** The blocks of the best chain above height [a]. *)
Definition blocks_above (a : nat) : list BlockId := imap (λ i x, mkBlockId (Z.of_nat (S a + i)) x) (drop (S a) best).

(** One event for each of [bs], with the checkpoint after it. *)
Fixpoint walk (spks : list bytes) (cp : CheckPoint) (bs : list BlockId) : list FilterEvent :=
  match bs with
  | [] => []
  | b :: bs =>
      match cp_insert (E:=FilterError) cp b with
      | Ok cp => mkFilterEvent cp (event_block spks (bi_hash b)) :: walk spks cp bs
      | _ => []
      end
  end.

Lemma blocks_above_next a :
  blocks_above a = match best !! S a with Some x => mkBlockId (Z.of_nat (S a)) x :: blocks_above (S a) | None => [] end.
Proof.
  unfold blocks_above. destruct (best !! S a) as [x|] eqn:E; [|by rewrite drop_ge by (by apply lookup_ge_None)].
  rewrite (drop_S best x (S a) E). cbn [imap]. f_equal; [f_equal; lia|]. apply imap_ext. intros i y _. cbn. f_equal; lia.
Qed.

(** From a header of the best chain on, the iterator takes the next block. *)
Lemma iter_step_best spks cp o hd a :
  serves_chain → cp_wf cp → (o = Some hd ∨ (o = None ∧ find_base (cp_iter cp) = Ok hd)) → hd_next hd = best !! S a →
  iter_step (mkFilterIter spks cp o) =
    match best !! S a with
    | None => Ok None
    | Some x =>
        match cp_insert (E:=FilterError) cp (mkBlockId (Z.of_nat (S a)) x), header_info x with
        | Ok cp, Ok hd => Ok (Some (mkFilterEvent cp (event_block spks x), mkFilterIter spks cp (Some hd)))
        | _, _ => Panic
        end
    end.
Proof.
  intros Hs Hw Ho Hn. unfold iter_step. cbn [it_header it_cp it_spks].
  assert ((match o with Some h => Ok h | None => find_base (cp_iter cp) end) = Ok hd) as -> by (destruct Ho as [->|[-> ?]]; done).
  cbn [mbind res_bind]. rewrite Hn. destruct (best !! S a) as [x|] eqn:E; [|done].
  destruct (sn_on Hs _ _ E) as (hd' & Hx & Hhash & Hh & Hc & _). rewrite Hx. cbn [map_err mbind res_bind rewind].
  destruct (Z.ltb_spec (hd_confirmations hd') 0); [lia|]. cbn [mbind res_bind]. rewrite Hhash, Hh.
  pose proof (sn_height Hs). apply lookup_lt_Some in E as Hlt. rewrite (proj2 (Z.leb_le _ _)) by (unfold u32_max; lia).
  cbn [mbind res_bind].
  destruct (cp_insert_spec (E:=FilterError) cp (mkBlockId (Z.of_nat (S a)) x) Hw) as (cp' & -> & _); [cbn; lia..|].
  cbn [mbind res_bind]. destruct (sn_blocks Hs x spks) as (f & m & txs & Hf & Hm & Ht); [by eapply list_elem_of_lookup_2|].
  unfold event_block. rewrite Hf. cbn [map_err mbind res_bind]. rewrite Hm. cbn [map_err mbind res_bind].
  destruct m; [rewrite Ht|]; done.
Qed.

Lemma iter_events_best spks cp o hd a fuel :
  serves_chain → cp_wf cp → (o = Some hd ∨ (o = None ∧ find_base (cp_iter cp) = Ok hd)) → hd_next hd = best !! S a →
  (length best ≤ fuel + a)%nat → (0 < fuel)%nat →
  iter_events fuel (mkFilterIter spks cp o) = Ok <$> walk spks cp (blocks_above a).
Proof.
  intros Hs. revert a cp o hd. induction fuel as [|fuel IH]; intros a cp o hd Hw Ho Hn Hf Hpos; [lia|].
  cbn [iter_events]. unfold iter_next. rewrite (iter_step_best spks cp o hd a) by done. rewrite blocks_above_next.
  destruct (best !! S a) as [x|] eqn:E; [|done]. cbn [walk bi_hash].
  destruct (cp_insert_spec (E:=FilterError) cp (mkBlockId (Z.of_nat (S a)) x) Hw) as (cp' & -> & Hw' & _); [cbn; lia..|].
  destruct (sn_on Hs _ _ E) as (hd' & -> & _ & _ & _ & Hn'). cbn [fmap list_fmap]. f_equal.
  apply lookup_lt_Some in E. eapply IH; [done|by left|done|lia|lia].
Qed.

(** The base is the highest checkpoint on the best chain. *)
Lemma find_base_best fork o :
  serves_chain → cp_wf o → forks_at (map_seqZ 0 best) fork o →
  (∀ h x, cp_map o !! h = Some x → x ∈ best → best !! Z.to_nat h = Some x) →
  ∃ a hd, find_base (cp_iter o) = Ok hd ∧ hd_next hd = best !! S a ∧ (a < length best)%nat ∧
    Z.of_nat a ≤ fork ∧ is_Some (cp_map o !! Z.of_nat a) ∧ ∀ h, h ≤ fork → is_Some (cp_map o !! h) → h ≤ Z.of_nat a.
Proof.
  intros Hs Hw [Hf Hsh] Hone.
  assert (∀ h x, cp_map o !! h = Some x → h ≤ fork → best !! Z.to_nat h = Some x) as Hon.
  { intros h x Hx Hh. apply (Hsh _ _ Hx) in Hh. apply lookup_map_seqZ_Some in Hh as [_ Hh]. by rewrite Z.sub_0_r in Hh. }
  assert (∀ h x, cp_map o !! h = Some x → fork < h → x ∉ best) as Hoff.
  { intros h x Hx Hh Hin%(Hone _ _ Hx). assert (0 ≤ h).
    { destruct (Z.le_gt_cases 0 h); [done|]. by rewrite cp_map_neg in Hx by (done || by apply cp_wf_desc). }
    assert (map_seqZ (M:=gmap Z bytes) 0 best !! h = Some x) as Hb by (apply lookup_map_seqZ_Some; by rewrite Z.sub_0_r).
    apply (Hsh _ _ Hx) in Hb. lia. }
  clear Hsh Hone. induction o as [b|b p IH]; cbn [cp_iter find_base].
  - cbn in Hw. destruct (sn_on Hs 0%nat (bi_hash b)) as (hd & -> & _ & _ & Hc & Hn).
    { apply (Hon 0); [|lia]. rewrite cp_map_base, Hw. apply lookup_singleton_eq. }
    rewrite (proj2 (Z.leb_gt _ _)) by lia. exists 0%nat, hd. rewrite cp_map_base, Hw.
    split_and!; [done..| |lia|rewrite lookup_singleton_eq; by eexists|].
    + apply (lookup_lt_Some best 0 (bi_hash b)), (Hon 0); [|lia]. rewrite cp_map_base, Hw. apply lookup_singleton_eq.
    + intros h _ [x [? _]%lookup_singleton_Some]. lia.
  - destruct Hw as [Hb Hp]. pose proof (cp_height_nonneg p Hp) as Hp0. rewrite cp_map_link in *.
    destruct (Z.le_gt_cases (bi_height b) fork) as [Hle|Hgt].
    + assert (best !! Z.to_nat (bi_height b) = Some (bi_hash b)) as E by (apply Hon; [apply lookup_insert_eq|done]).
      destruct (sn_on Hs _ _ E) as (hd & -> & _ & _ & Hc & Hn). rewrite (proj2 (Z.leb_gt _ _)) by lia.
      exists (Z.to_nat (bi_height b)), hd. rewrite Z2Nat.id by lia.
      split_and!; [done..|by eapply lookup_lt_Some|done|rewrite lookup_insert_eq; by eexists|].
      intros h _ [x [[<- _]|[_ Hx]]%lookup_insert_Some]; [done|]. destruct (Z.le_gt_cases h (cp_height p)); [lia|].
      by rewrite cp_map_above in Hx by (done || by apply cp_wf_desc).
    + assert (bi_hash b ∉ best) as Hn by (eapply Hoff; [apply lookup_insert_eq|done]).
      assert (∀ h x, cp_map p !! h = Some x → <[bi_height b:=bi_hash b]> (cp_map p) !! h = Some x) as Hsub.
      { intros h x Hx. rewrite lookup_insert_ne; [done|]. intros <-. by rewrite cp_map_above in Hx by (done || by apply cp_wf_desc). }
      destruct IH as (a & hd & He & Hnx & Hlen & Ha & [x Hx] & Hmax); [done|eauto..|].
      exists a, hd. split_and!; [|done..|by eexists; eapply Hsub|].
      * destruct (sn_off Hs _ Hn) as [(e & -> & ->)|(hd' & -> & Hc)]; [done|]. by rewrite (proj2 (Z.leb_le _ _)).
      * intros h Hh [y [[<- _]|[_ Hy]]%lookup_insert_Some]; [lia|]. apply Hmax; [done|by eexists].
Qed.

Lemma walk_length spks cp bs : cp_wf cp → (∀ b, b ∈ bs → 0 < bi_height b) → length (walk spks cp bs) = length bs.
Proof.
  revert cp. induction bs as [|b bs IH]; intros cp Hw Hb; cbn [walk]; [done|]. specialize (Hb b ltac:(left)) as Hb0.
  destruct (cp_insert_spec (E:=FilterError) cp b Hw) as (cp' & -> & Hw' & _); [lia..|]. cbn. rewrite IH; [done..|].
  intros c Hc. apply Hb. by right.
Qed.
Lemma blocks_above_elem a b : b ∈ blocks_above a → Z.of_nat a < bi_height b ∧ best !! Z.to_nat (bi_height b) = Some (bi_hash b).
Proof.
  unfold blocks_above. intros (i & x & -> & Hx)%elem_of_lookup_imap_1. cbn [bi_height bi_hash]. rewrite lookup_drop in Hx.
  split; [lia|]. rewrite <-Hx. f_equal. lia.
Qed.

(** The iterator walks the whole best chain once. On a node that serves one
    chain during the scan, it starts at the highest checkpoint of the wallet on
    that chain and yields one event for every block above it, in order and up
    to the tip, with the block exactly when its filter matches; it stops by
    itself and no insertion panics. *)
Lemma filter_iter_walks fork o spks fuel :
  serves_chain → cp_wf o → forks_at (map_seqZ 0 best) fork o →
  (∀ h x, cp_map o !! h = Some x → x ∈ best → best !! Z.to_nat h = Some x) → (length best < fuel)%nat →
  ∃ a, Z.of_nat a ≤ fork ∧ is_Some (cp_map o !! Z.of_nat a) ∧ (∀ h, h ≤ fork → is_Some (cp_map o !! h) → h ≤ Z.of_nat a) ∧
    filter_events fuel o spks = Ok <$> walk spks o (blocks_above a) ∧
    length (walk spks o (blocks_above a)) = (length best - S a)%nat.
Proof.
  intros Hs Hw Hf Hone Hfuel. destruct (find_base_best fork o Hs Hw Hf Hone) as (a & hd & Hb & Hn & Hlen & Ha & Hsome & Hmax).
  exists a. split_and!; [done..| |].
  - unfold filter_events, FilterIter_new. eapply iter_events_best; [done..|by right|done|lia|lia].
  - rewrite walk_length; [|done|intros b [? _]%blocks_above_elem; lia]. unfold blocks_above. by rewrite length_imap, length_drop.
Qed.
End Walk.

(** ** The tip of an event *)

Lemma insert_loop_genesis {E} b cp tail r :
  cp_wf cp → bi_height b = 0 → insert_loop (E:=E) b cp tail = Ok r → b = cp_genesis cp.
Proof.
  revert tail. induction cp as [c|c p IH]; intros tail Hw Hb; cbn [insert_loop cp_genesis]; unfold cp_height, cp_hash; cbn [block_id].
  - cbn in Hw. rewrite Hb, Hw. cbn. case_bool_decide as E1; [|done]. intros _. destruct b, c; cbn in *. congruence.
  - destruct Hw as [Hc Hp]. pose proof (cp_height_nonneg p Hp). rewrite Hb.
    rewrite (proj2 (Z.eqb_neq _ _)), (proj2 (Z.ltb_ge _ _)) by lia. by apply IH.
Qed.
(** An insertion that returns makes the new block the tip, if it lies above the
    chain or replaces another block, and keeps the tip otherwise. *)
Lemma cp_insert_tips {E} cp b cp' :
  cp_wf cp → 0 ≤ bi_height b → cp_insert (E:=E) cp b = Ok cp' →
  let moves := cp_height cp < bi_height b ∨ ∃ y, cp_map cp !! bi_height b = Some y ∧ y ≠ bi_hash b in
  cp_wf cp' ∧ (moves → block_id cp' = b) ∧ (¬ moves → block_id cp' = block_id cp).
Proof.
  intros Hw Hb He. cbn zeta.
  assert (bi_height b = 0 → b = cp_genesis cp) as Hg.
  { intros H0. unfold cp_insert in He. destruct (insert_loop b cp []) eqn:El; [|done..]. by eapply insert_loop_genesis. }
  destruct (cp_insert_map (E:=E) cp b Hw Hb Hg) as (c & He' & Hw' & Hl). rewrite He in He'. injection He' as <-.
  pose proof (cp_wf_desc _ Hw) as Hd. split_and!; [done|..].
  - intros Hc. apply block_id_highest; [by apply cp_wf_desc|apply Hl; by left|]. intros h Hh. apply eq_None_not_Some.
    intros [x [[-> _]|(_ & Hx & Hy)]%Hl]; [lia|]. destruct Hc as [Hlt|(y & Hy' & Hne)]; [|by apply Hne, Hy].
    by rewrite cp_map_above in Hx by (done || lia).
  - intros Hno. assert (bi_height b ≤ cp_height cp) as Hle by (destruct (Z.le_gt_cases (bi_height b) (cp_height cp)); tauto).
    assert (∀ y, cp_map cp !! bi_height b = Some y → y = bi_hash b) as Hsame.
    { intros y Hy. destruct (decide (y = bi_hash b)); [done|]. destruct Hno. eauto. }
    pose proof (cp_map_tip cp) as Ht. apply block_id_highest; [by apply cp_wf_desc|apply Hl|].
    + change (bi_height (block_id cp)) with (cp_height cp). change (bi_hash (block_id cp)) with (cp_hash cp).
      destruct (decide (cp_height cp = bi_height b)) as [Heq|]; [left|right; by split_and!; auto].
      split; [done|]. apply Hsame. by rewrite <-Heq.
    + intros h Hh. change (bi_height (block_id cp)) with (cp_height cp) in Hh. apply eq_None_not_Some.
      intros [x [[-> _]|(_ & Hx & _)]%Hl]; [lia|]. by rewrite cp_map_above in Hx by (done || lia).
Qed.

Section EventTips.
Context `{codec : Codec} `{rpc : RpcClient} `{hc : HeaderClient}.

(** What a step of the iterator returns: a header it fetched last, the block of
    that header inserted, and that block's transactions if its filter matched. *)
Lemma iter_step_event it ev it' :
  iter_step it = Ok (Some (ev, it')) →
  ∃ x hd, header_info x = Ok hd ∧ it_header it' = Some hd ∧ it_cp it' = ev_cp ev ∧
    cp_insert (E:=FilterError) (it_cp it) (mkBlockId (hd_height hd) (hd_hash hd)) = Ok (ev_cp ev) ∧
    ∀ block, ev_block ev = Some block → fetch_block (hd_hash hd) = Ok block.
Proof.
  unfold iter_step. intros (h0 & _ & H)%bind_Ok. destruct (hd_next h0) as [nh|]; [|done].
  apply bind_Ok in H as (h1 & H1%map_err_Ok & H). apply bind_Ok in H as (hd & Hrw & H). cbn zeta in H.
  assert (∃ x, header_info x = Ok hd) as [x Hx].
  { revert Hrw H1. generalize (S (Z.to_nat (hd_height h1))) as n. intros n. revert h1 nh.
    induction n as [|n IH]; intros h1 nh; cbn [rewind]; (destruct (_ <? _); [|intros [= <-]; eauto]); [done|].
    intros (p & _ & (ph & Hph%map_err_Ok & Hr)%bind_Ok)%bind_Ok _. by eapply IH. }
  apply bind_Ok in H as (h & Hh & H). if_inv Hh E. injection Hh as <-. apply bind_Ok in H as (cp & Hcp & H).
  apply bind_Ok in H as (f & _ & H). apply bind_Ok in H as (m & _ & H). apply bind_Ok in H as (blk & Hblk & [= <- <-]).
  exists x, hd. split_and!; [done..|]. cbn [ev_block]. intros block ->. destruct m; [|done].
  by apply bind_Ok in Hblk as (txs & Ht%map_err_Ok & [= <-]).
Qed.

(** The anchors that recording adds. *)
Lemma record_txs_anchors a l u :
  anchors (record_txs (mark_anchor a) l u) = list_to_set ((λ tx, (a, compute_txid tx)) <$> l) ∪ anchors u.
Proof.
  revert u. induction l as [|tx l IH]; intros u; cbn [record_txs foldl fmap list_fmap list_to_set]; [set_solver|].
  unfold record_txs in IH. rewrite IH. cbn. set_solver.
Qed.

(** Two passes record some of the transactions they are given. *)
Lemma scan_two_passes_records W mark l st :
  ∃ new, new ⊆ l ∧ scan_update (scan_two_passes W mark l st) = record_txs mark new (scan_update st).
Proof.
  assert (∀ st, ∃ new, new ⊆ l ∧ scan_update (scan_pass W mark l st) = record_txs mark new (scan_update st)) as Hp.
  { intros s. destruct (scan_pass_spec W mark l s (known_outpoints s ∪ outpoints_of W l)) as (n & -> & Hl & _); [set_solver..|]. eauto. }
  unfold scan_two_passes. destruct (Hp st) as (n1 & Hl1 & H1). destruct (Hp (scan_pass W mark l st)) as (n2 & Hl2 & ->).
  exists (n1 ++ n2). split; [set_solver|]. rewrite H1. unfold record_txs. by rewrite foldl_app.
Qed.

(** C39: the block at which the transactions of a filter event are anchored.
    A step of the iterator that yields an event has fetched the header of a
    block [b], and the transactions of the event are those of [b]. The scan
    records some of them, the relevant ones, and anchors each at the tip of the
    event's checkpoint. That tip is [b] when the iterator's checkpoint ended
    below [b] or had another block at its height; otherwise (the checkpoint has
    a gap at that height, or [b] itself, and a tip above it) it is the old tip
    of the checkpoint, so that the transactions of [b] are anchored at another
    block. *)
Theorem event_tips it ev it' W t st c st' c' :
  (∀ x hd, header_info x = Ok hd → 0 ≤ hd_height hd) → cp_wf (it_cp it) →
  iter_step it = Ok (Some (ev, it')) → scan_event W t (st, c) (Ok ev) = Ok (st', c') →
  ∃ hd tip time new,
    let b := mkBlockId (hd_height hd) (hd_hash hd) in
    let moves := cp_height (it_cp it) < bi_height b ∨ ∃ y, cp_map (it_cp it) !! bi_height b = Some y ∧ y ≠ bi_hash b in
    it_header it' = Some hd ∧ it_cp it' = ev_cp ev ∧ c' = ev_cp ev ∧ block_id (ev_cp ev) = tip ∧
    (moves → tip = b) ∧ (¬ moves → tip = block_id (it_cp it)) ∧
    txs (scan_update st') = txs (scan_update st) ++ new ∧
    (∀ tx, tx ∈ new → ∃ block, fetch_block (bi_hash b) = Ok block ∧ tx ∈ block) ∧
    anchors (scan_update st') = list_to_set ((λ tx, (mkAnchor tip time, compute_txid tx)) <$> new) ∪ anchors (scan_update st).
Proof.
  intros Hpos Hw (x & hd & Hx & Hhd & Hcp & Hins & Hblk)%iter_step_event He.
  destruct (cp_insert_tips _ _ _ Hw (Hpos _ _ Hx : 0 ≤ bi_height (mkBlockId _ _)) Hins) as (_ & Hm & Hk).
  unfold scan_event in He. cbn [map_err mbind res_bind fst] in He. exists hd, (block_id (ev_cp ev)).
  destruct (ev_block ev) as [block|]; injection He as <- <-.
  - eexists. match goal with |- context [scan_two_passes W ?m block st] =>
      destruct (scan_two_passes_records W m block st) as (new & Hl & ->) end.
    exists new. split_and!; try done.
    + by rewrite record_txs_txs by done.
    + intros tx Htx. exists block. split; [by apply Hblk|]. by apply Hl.
    + apply record_txs_anchors.
  - exists 0, []. split_and!; try done; [by rewrite app_nil_r|set_solver|set_solver].
Qed.
End EventTips.
