(* ===== verification/Sync.v ===== *)
(** From a backend's update to the wallet's chain.

    A scan of the compact block filter backend or of the Core backend builds the
    checkpoint of its update by inserting blocks of the node's best chain into
    the checkpoint of the request, and the wallet merges the result with
    [LocalChain::apply_update]. [cbf_scan_applies] and [core_scan_applies] follow
    the checkpoint through the backend's loop and the merge, with the lemmas of
    [Tracking]; [core_empty_sync] is the case in which the Core backend makes
    the checkpoint from nothing. *)
From S2P Require Import Prelude Ordered Types Bitcoin Checkpoint LocalChain MergeChains Tracking Chain CoreRpc FilterIter Cbf.

(** ** The compact block filter backend *)

(** The blocks an event of the node names as connected. *)
Definition event_blocks (e : NodeEvent) : list BlockId :=
  match e with
  | EvIndexedFilter _ => []
  | EvChainUpdate (Connected b) => [b]
  | EvChainUpdate (Reorganized accepted _) => accepted
  | EvChainUpdate (ForkAdded _) => []
  | EvFiltersSynced tip => [tip]
  end.

Section Cbf.
Context `{codec : Codec} `{node : CbfNode} `{tg : TxGraph}.
Context (best : gmap Z bytes) (fork : Z).

(** The node follows [best], says that it is in sync, and has the blocks whose
    filters it announced. *)
Record serves_best (events : list NodeEvent) : Prop := {
  sv_blocks e b : e ∈ events → b ∈ event_blocks e → on_best best b ∧ 0 ≤ bi_height b;
  sv_synced : wait_synced events = Ok tt;
  sv_filters f : EvIndexedFilter f ∈ events → ∃ b, get_block (filter_block_hash f) = Ok b
}.

Lemma serves_best_tail e es : (∀ t, e ≠ EvFiltersSynced t) → serves_best (e :: es) → serves_best es.
Proof.
  intros Hne [Hb Hs Hf]. split; [|by destruct e; [..|edestruct Hne]|]; intros; [eapply Hb|eapply Hf]; try done; by right.
Qed.

Lemma apply_event_tracks o u c :
  forks_at best fork o → cp_wf o → tracks best fork o u →
  (∀ b, b ∈ event_blocks (EvChainUpdate c) → on_best best b ∧ 0 ≤ bi_height b) →
  ∃ u', apply_chain_event u c = Ok u' ∧ tracks best fork o u'.
Proof.
  intros Hf Ho Ht Hb. destruct c as [b|bs old|b]; cbn [apply_chain_event event_blocks] in *.
  - destruct (Hb b) as [Hon Hpos]; [left|]. destruct (tracks_insert (E:=ChainError) best fork o u b) as (u' & ? & ? & _); [done..|by exists u'].
  - destruct (tracks_inserts (E:=ChainError) best fork o u bs) as (u' & ? & ? & _); [done..|by exists u'].
  - by exists u.
Qed.

Lemma fetch_queued (g : SpkTxOutIndex * Graph) queued :
  (∀ h, h ∈ queued → ∃ b, get_block h = Ok b) →
  ∃ g', fold_res (λ g hash,
    b ← map_err (λ e, ChNetwork (str "cbf get_block: " ++ e)) (get_block hash);
    Ok (apply_block_relevant g b)) g queued = Ok g'.
Proof.
  intros Hq. apply fold_res_total. intros g' h Hh. destruct (Hq h Hh) as [b ->]. by eexists.
Qed.

Lemma scan_loop_tracks cache o events g cp queued :
  forks_at best fork o → cp_wf o → tracks best fork o cp → serves_best events →
  (∀ h, h ∈ queued → ∃ b, get_block h = Ok b) →
  ∃ la tu u tip, scan_loop cache events g cp queued = Ok (mkUpdate la tu (Some u)) ∧ tracks best fork o u ∧
    EvFiltersSynced tip ∈ events ∧ cp_map u !! bi_height tip = Some (bi_hash tip).
Proof.
  intros Hf Ho. revert g cp queued. induction events as [|e es IH]; intros g cp queued Ht Hs Hq; [by destruct Hs|].
  destruct e as [f|c|tip]; cbn [scan_loop].
  - destruct (IH g cp (if contains_any f cache then queued ++ [filter_block_hash f] else queued)) as (la & tu & u & tip & ? & ? & ? & ?);
      [done|by apply (serves_best_tail _ _) in Hs| |exists la, tu, u, tip; split_and!; [done..|by right|done]].
    destruct (contains_any f cache); [|done]. intros h [?|Hh%list_elem_of_singleton]%elem_of_app; [by apply Hq|subst h].
    eapply sv_filters; [done|left].
  - destruct (apply_event_tracks o cp c) as (cp' & -> & Ht'); [done..| |].
    { intros b Hb. eapply sv_blocks; [done|left|done]. }
    destruct (IH g cp' queued) as (la & tu & u & tip & ? & ? & ? & ?); [done|by apply (serves_best_tail _ _) in Hs|done|].
    exists la, tu, u, tip. split_and!; [done..|by right|done].
  - destruct (fetch_queued g queued Hq) as [g' ->]. cbn [mbind res_bind].
    destruct (sv_blocks _ Hs (EvFiltersSynced tip) tip) as [Hon Hpos]; [left|left|].
    destruct (tracks_insert (E:=ChainError) best fork o cp tip) as (u & -> & Htu & Hu); [done..|]. cbn [mbind res_bind].
    eexists _, _, u, tip. split_and!; [done..|left|done].
Qed.

(** C13: a compact block filter scan ends in an update the wallet applies, on a
    node that does its part: the worker finishes in time, the node announces
    blocks of one best chain only, reports that its filters are synced, and
    serves every block whose filter it announced. Then, in whatever order the
    blocks are announced and wherever the wallet's chain left the best chain, the
    scan reaches the announced tip without a panic, the wallet merges the
    update, and its chain afterwards is the update. *)
Theorem cbf_scan_applies eq_ptr b index o :
  let options := build_node (cbf_config b) (walk_back_reorg o) in
  (∀ x y, eq_ptr x y = true → x = y) → cp_wf o → forks_at best fork o →
  worker_fate options = Finished → serves_best (node_events options) →
  ∃ la tu u cs tip,
    scan_indexed b index (Some o) = (mkCbfBackend (cbf_config b) (Some (cp_height u)), Ok (mkUpdate la tu (Some u))) ∧
    chain_apply_update eq_ptr o u = Ok (u, cs) ∧ cp_wf u ∧
    EvFiltersSynced tip ∈ node_events options ∧ cp_map u !! bi_height tip = Some (bi_hash tip).
Proof.
  intros options Hp Ho Hf Hfate Hs. unfold scan_indexed. cbn [chain_state_for_network default from_option]. fold options.
  destruct (scan_loop_tracks (list_to_set (map_to_list (ix_spks index)).*2) o (node_events options) (index, graph_empty) o [])
    as (la & tu & u & tip & He & Ht & Htip & Hu); [done..|by apply tracks_refl|done|by intros h ?%elem_of_nil|].
  destruct (tracks_applies best fork eq_ptr o u Hp Hf Ho Ht) as [cs Hcs].
  exists la, tu, u, cs, tip. unfold run_with_wall_timeout, run_with_wall_timeout_or. rewrite Hfate. cbn [id] in *. rewrite He.
  split_and!; [done..|apply Ht|done|done].
Qed.
End Cbf.

(** ** The Core backend *)

Section Core.
Context `{codec : Codec} `{rpc : RpcClient} `{hc : HeaderClient}.

(** The scan's checkpoint is the iterator's. *)
Lemma scan_walk W t spks bs st cp u :
  fold_res (E:=FilterError) cp_insert cp bs = Ok u →
  ∃ st', fold_res (scan_event W t) (st, cp) (Ok <$> walk spks cp bs) = Ok (st', u).
Proof.
  revert st cp. induction bs as [|b bs IH]; intros st cp; cbn [fold_res walk].
  - intros [= <-]. by exists st.
  - intros (cp1 & -> & Hu)%bind_Ok. cbn [fmap list_fmap fold_res]. unfold scan_event at 1. cbn [map_err mbind res_bind ev_cp ev_block].
    destruct (event_block spks (bi_hash b)) as [txs|]; cbn [mbind res_bind]; by apply IH.
Qed.

Lemma collect_pending_total seen ids :
  (∀ i, i ∈ ids → ∃ o, get_tx_optional i = Ok o) → ∃ l, collect_pending seen ids = Ok l.
Proof.
  intros Hi. apply fold_res_total. intros acc i Hin. case_bool_decide; [by eexists|].
  destruct (Hi i Hin) as [o ->]. by eexists.
Qed.

Context (best : list bytes) (fork : Z).

(** C14: a Core scan ends in an update the wallet applies. On a node that serves
    one chain, a scan of at least one script succeeds; its checkpoint reaches
    the node's tip, the wallet merges it, and the wallet's chain afterwards is
    the update, whatever it had above the common block. *)
Theorem core_scan_applies eq_ptr o s spks t known ids fuel :
  (∀ x y, eq_ptr x y = true → x = y) → cp_wf o → forks_at (map_seqZ 0 best) fork o →
  (∀ h x, cp_map o !! h = Some x → x ∈ best → best !! Z.to_nat h = Some x) →
  serves_chain best → filter_iter o (s :: spks) = filter_events fuel o (s :: spks) → (length best < fuel)%nat →
  get_raw_mempool = Ok ids → (∀ i, i ∈ ids → ∃ tx, get_tx_optional i = Ok tx) →
  ∃ tu u cs, scan_spks (s :: spks) (Some o) t known = Ok (tu, Some u) ∧ chain_apply_update eq_ptr o u = Ok (u, cs) ∧
    cp_wf u ∧ cp_map u !! (Z.of_nat (length best) - 1) = last best.
Proof.
  intros Hp Ho Hf Hone Hs Hit Hfuel Hids Hpend.
  destruct (find_base_best best fork o Hs Ho Hf Hone) as (a & hd & Hb & Hn & Hlen & Ha & [x Hx] & _).
  assert (filter_events fuel o (s :: spks) = Ok <$> walk (s :: spks) o (blocks_above best a)) as Hev.
  { unfold filter_events, FilterIter_new. eapply iter_events_best; [done..|by right|done|lia|lia]. }
  destruct (tracks_inserts (E:=FilterError) (map_seqZ 0 best) fork o o (blocks_above best a)) as (u & Hu & Ht & Hlast & Hnil);
    [done..|by apply tracks_refl| |].
  { intros b [Hh Hbb]%blocks_above_elem. split; [|lia]. apply lookup_map_seqZ_Some. by rewrite Z.sub_0_r; split; [lia|]. }
  destruct (tracks_applies (map_seqZ 0 best) fork eq_ptr o u Hp Hf Ho Ht) as [cs Hcs].
  destruct (scan_walk (list_to_set (s :: spks)) t (s :: spks) _ (mkScanState known ∅ TxUpdate_default) o u Hu) as [st Hst].
  destruct (collect_pending_total (seen_txids st) ids Hpend) as [pend Hpe].
  unfold scan_spks. cbn [mbind res_bind length Nat.eqb]. rewrite Hit, Hev, Hst. cbn [mbind res_bind]. rewrite Hids.
  cbn [map_err mbind res_bind]. rewrite Hpe. cbn [mbind res_bind]. eexists _, u, cs. split_and!; [done..|apply Ht|].
  destruct (decide (S a = length best)) as [Hend|Hmore].
  - assert (blocks_above best a = []) as He by (unfold blocks_above; by rewrite drop_ge by lia). rewrite (Hnil He).
    replace (Z.of_nat (length best) - 1) with (Z.of_nat a) by lia. rewrite Hx, last_lookup, <-Hend. cbn [pred].
    rewrite <-(Nat2Z.id a) at 1. symmetry. apply (proj2 (proj2 Hf _ _ Hx)) in Ha. apply lookup_map_seqZ_Some in Ha as [_ Ha].
    by rewrite Z.sub_0_r in Ha.
  - destruct (last best) as [y|] eqn:El; [|by apply last_None in El; subst; cbn in *; lia].
    apply (Hlast (mkBlockId (Z.of_nat (length best) - 1) y)). rewrite last_lookup in El. rewrite last_lookup. unfold blocks_above.
    rewrite length_imap, length_drop, list_lookup_imap, lookup_drop.
    replace (S a + pred (length best - S a))%nat with (pred (length best)) by lia. rewrite El. cbn. do 2 f_equal. lia.
Qed.

(** What [tip_checkpoint] makes: the genesis block and the tip. *)
Lemma tip_checkpoint_map n hn g :
  get_block_count = Ok n → 0 < n ≤ u32_max → get_block_hash n = Ok hn → get_block_hash 0 = Ok g →
  ∃ u, tip_checkpoint = Ok u ∧ u = CPLink (mkBlockId n hn) (CPBase (mkBlockId 0 g)) ∧ cp_wf u ∧
    ∀ h x, cp_map u !! h = Some x ↔ (h = n ∧ x = hn) ∨ (h = 0 ∧ x = g).
Proof.
  intros Hc Hn Hh Hg. unfold tip_checkpoint, height_u32, genesis_checkpoint. rewrite Hc. cbn [map_err mbind res_bind].
  rewrite (proj2 (Z.leb_le _ _)) by lia. cbn [mbind res_bind]. rewrite Hh, Hg. cbn [map_err mbind res_bind].
  exists (CPLink (mkBlockId n hn) (CPBase (mkBlockId 0 g))). split_and!; [|done|split; [cbn; lia|done]|].
  - unfold cp_insert, CheckPoint_new. cbn [insert_loop]. unfold cp_height at 1 2 3. cbn [block_id bi_height].
    rewrite (proj2 (Z.eqb_neq _ _)), (proj2 (Z.ltb_lt _ _)) by lia. cbn [reverse cp_extend]. unfold cp_push, cp_height. cbn [block_id bi_height].
    by rewrite (proj2 (Z.ltb_lt _ _)) by lia.
  - intros h x. rewrite cp_map_link, cp_map_base. cbn [bi_height bi_hash]. rewrite lookup_insert_Some, lookup_singleton_Some. split; [naive_solver|].
    intros [[-> ->]|[-> ->]]; [by left|right]. split; [lia|done].
Qed.

(** A node of another network: the update shares no block with the wallet, and
    the wallet drops its whole chain for it. *)
Lemma empty_sync_foreign eq_ptr o n hn g x :
  (∀ x y, eq_ptr x y = true → x = y) → cp_wf o → cp_map o !! 0 = Some x → x ≠ g → cp_map o !! n ≠ Some hn →
  get_block_count = Ok n → 0 < n ≤ u32_max → get_block_hash n = Ok hn → get_block_hash 0 = Ok g →
  ∃ u cs, tip_checkpoint = Ok u ∧ chain_apply_update eq_ptr o u = Ok (u, cs).
Proof.
  intros Hp Ho Hx Hne Hnn Hc Hn Hh Hg. destruct (tip_checkpoint_map n hn g Hc Hn Hh Hg) as (u & Hu & Hue & Hw & Hl).
  assert (conflict (cp_map o) (cp_map u) 0) as H0 by (exists x, g; split_and!; [done|apply Hl; by right|done]).
  destruct (merges eq_ptr Hp o u Ho (cp_wf_desc _ Hw)) as [(new & cs & He & Hwn & Hm & _) _].
  - right. split; [|done]. intros h (y & Hy & Hy'). apply Hl in Hy' as [[-> ->]|[-> ->]]; congruence.
  - exists u, cs. rewrite He. split; [done|]. repeat f_equal. apply cp_map_inj; [done..|].
    eapply merged_unique; [exact Hm|]. intros h y. split; [by left|]. intros [?|(Hnu & Hy & Hnc)]; [done|]. exfalso.
    destruct (Z.lt_trichotomy h 0) as [Hlt|[->|Hgt]]; [|by destruct H0 as (? & ? & _ & ? & _); congruence|].
    + by rewrite cp_map_neg in Hy by (done || by apply cp_wf_desc).
    + apply Hnc. by exists 0.
Qed.

(** C38: an empty sync advances a new wallet only. Without a script to look for,
    the Core backend answers with a chain of two blocks, the node's genesis
    block and its tip. On a node with the wallet's own genesis block, the wallet
    takes this update when its chain is just the genesis block (it then becomes
    the update) or already has the tip (it then stays as it was); a wallet whose
    own tip is lower than the node's and not the genesis block refuses it. *)
Theorem core_empty_sync eq_ptr req o n hn g :
  (∀ x y, eq_ptr x y = true → x = y) → cp_wf o → cp_map o !! 0 = Some g →
  sy_chain_tip req = Some o → sy_spks req = [] → sy_txids req = [] → sy_outpoints req = [] →
  get_block_count = Ok n → 0 < n ≤ u32_max → get_block_hash n = Ok hn → get_block_hash 0 = Ok g →
  let u := CPLink (mkBlockId n hn) (CPBase (mkBlockId 0 g)) in
  core_sync req = Ok (mkUpdate ∅ TxUpdate_default (Some u)) ∧
  (cp_height o = 0 → ∃ cs, chain_apply_update eq_ptr o u = Ok (u, cs)) ∧
  (cp_map o !! n = Some hn → ∃ cs, chain_apply_update eq_ptr o u = Ok (o, cs)) ∧
  (0 < cp_height o < n → ∃ h, chain_apply_update eq_ptr o u = Err (CannotConnect h)).
Proof.
  intros Hp Ho Hg Htip Hsp Htx Hop Hc Hn Hh Hg'. destruct (tip_checkpoint_map n hn g Hc Hn Hh Hg') as (u & Hu & Hue & Hw & Hl).
  pose proof (cp_wf_desc _ Ho) as Hd.
  cbn zeta. rewrite <-Hue. split_and!.
  - unfold core_sync. rewrite Hsp, Htx, Hop, Htip. cbn -[tip_checkpoint]. rewrite Hu. done.
  - intros H0. assert (∀ h x, cp_map o !! h = Some x → h = 0 ∧ x = g) as Honly.
    { intros h x Hx. destruct (Z.lt_trichotomy h 0) as [|[->|]]; [by rewrite cp_map_neg in Hx|split; [done|congruence]|].
      by rewrite cp_map_above in Hx by (done || lia). }
    destruct (merges eq_ptr Hp o u Ho (cp_wf_desc _ Hw)) as [(new & cs & He & Hwn & Hm & _) _].
    { left. exists 0. split_and!; [exists g; split; [done|]; apply Hl; by right| |right; left].
      - intros h (x & Hx & _). by apply Honly in Hx as [-> _].
      - intros h Hgt. apply cp_map_above; [done|lia]. }
    exists cs. rewrite He. repeat f_equal. apply cp_map_inj; [done..|]. apply map_eq. intros h. apply option_eq. intros x.
    rewrite (Hm h x). split; [|by left]. intros [?|(Hn' & Hx & _)]; [done|]. apply Honly in Hx as [-> ->].
    by rewrite (proj2 (Hl 0 g)) in Hn' by (by right).
  - intros Ht. destruct (merges eq_ptr Hp o u Ho (cp_wf_desc _ Hw)) as [(new & cs & He & Hwn & Hm & _) _].
    { left. exists n. split_and!; [exists hn; split; [done|]; apply Hl; by left| |left].
      - intros h (x & _ & Hx). apply Hl in Hx as [[-> _]|[-> _]]; lia.
      - intros h Hgt. apply eq_None_not_Some. intros [x Hx]. apply Hl in Hx as [[-> _]|[-> _]]; lia. }
    assert (∀ h x, cp_map u !! h = Some x → cp_map o !! h = Some x) as Hsub by (intros h x [[-> ->]|[-> ->]]%Hl; done).
    exists cs. rewrite He. repeat f_equal. apply cp_map_inj; [done..|]. apply map_eq. intros h. apply option_eq. intros x.
    rewrite (Hm h x). split; [intros [?|(_ & ? & _)]; [by apply Hsub|done]|]. intros Hx.
    destruct (cp_map u !! h) as [y|] eqn:Ey; [left; apply Hsub in Ey; congruence|right]. split_and!; [done..|].
    intros (c & _ & a & b & Ha & Hb%Hsub & Hne). congruence.
  - intros Hlt. destruct (merges eq_ptr Hp o u Ho (cp_wf_desc _ Hw)) as [_ Hno]. apply Hno. clear Hno.
    assert (∀ h x, 0 < h → cp_map o !! h = Some x → cp_map u !! h = None) as Hou.
    { intros h x Hh0 Hx. apply eq_None_not_Some. intros [y Hy]. apply Hl in Hy as [[-> _]|[-> _]]; [|lia].
      by rewrite cp_map_above in Hx by (done || lia). }
    pose proof (cp_map_tip o) as Ht.
    assert (cp_map u !! n = Some hn) as Hun by (apply Hl; by left).
    intros [(a & (x & Hx & Hx') & _ & [Hq|[Hq|(c & Hac & (y & z & Hy & Hz & _) & _)]])|[Hq _]].
    + apply Hl in Hx' as Hx''. destruct Hx'' as [[-> _]|[-> _]]; [by rewrite cp_map_above in Hx by (done || lia)|].
      rewrite Hq in Hun by lia. done.
    + apply Hl in Hx' as Hx''. destruct Hx'' as [[-> _]|[-> _]]; [by rewrite cp_map_above in Hx by (done || lia)|].
      rewrite Hq in Ht by lia. done.
    + assert (0 ≤ a) by (destruct (Z.le_gt_cases 0 a); [done|by rewrite cp_map_neg in Hx by done]).
      rewrite (Hou c y) in Hz by (done || lia). done.
    + apply (Hq 0). exists g. split; [done|]. apply Hl. by right.
Qed.
End Core.
