(* ===== verification/ChainSamples.v ===== *)
(** Concrete runs of the chain backends.

    A node with one matched block, whose spend is listed before the coin it
    spends, and one mempool transaction; a fee server; a compact-filter node
    with a block that spends a wallet coin without change. The theorems on the
    backends are applied to them. *)
From Stdlib Require Import SpecFloat.
From S2P Require Import Prelude Ordered Types Bitcoin Parse Text Checkpoint Chain CoreRpc Electrum Cbf.

(** ** Transactions, identified by their version number *)

Definition sample_codec : Codec := {|
  xpub_from_str _ := None;
  address_of_script _ _ := None;
  compute_txid t := [tx_version t];
  tx_vsize _ := 100;
  p2wsh_signature_hash _ _ _ _ := None;
  verify_script _ _ _ _ := true;
  serialize_der s := s
|}.

Definition spending (txid : bytes) : TxIn := mkTxIn (mkOutPoint txid 0) [] 0 [].
Definition tx_fund : Transaction := mkTransaction 1 0 [spending [90]] [mkTxOut 500 [1]].
Definition tx_spend : Transaction := mkTransaction 2 0 [spending [1]] [mkTxOut 400 [77]].
Definition tx_mempool : Transaction := mkTransaction 3 0 [spending [91]] [mkTxOut 300 [1]].
Definition tx_foreign : Transaction := mkTransaction 4 0 [spending [92]] [mkTxOut 200 [78]].

Definition genesis : CheckPoint := CPBase (mkBlockId 0 [0]).
Definition block_one : CheckPoint := CPLink (mkBlockId 1 [11]) genesis.

(** ** A Core node *)

Definition not_found : RpcError := RpcApp (-5) (str "No such mempool or blockchain transaction").
Definition needs_index : RpcError := RpcApp (-5) (str "No such mempool transaction. Use -txindex").

Definition node : RpcClient := {|
  client_new _ _ := Ok tt;
  get_block_count := Ok 1;
  get_block_hash h := Ok [h];
  get_block_header_info _ := Ok (1, 1000);
  get_raw_mempool := Ok [[3]];
  get_raw_transaction i := if bool_decide (i = [3]) then Ok tx_mempool
                           else if bool_decide (i = [8]) then Err needs_index else Err not_found;
  get_raw_transaction_info _ := Err not_found;
  send_raw_transaction t := Ok [tx_version t];
  estimate_smart_fee _ := Ok None;
  filter_iter _ _ := [Ok (mkFilterEvent block_one (Some [tx_spend; tx_foreign; tx_fund]))];
  rpc_text _ := []
|}.

Lemma node_laws : @NodeLaws sample_codec node.
Proof.
  split.
  - intros i tx. cbn. repeat case_bool_decide; intros [= <-]. by subst.
  - intros ids [= <-]. repeat constructor; set_solver.
Qed.

Definition scan_result : TxUpdate * option CheckPoint :=
  match @scan_spks sample_codec node [[1]] (Some genesis) 50 ∅ with
  | Ok r => r
  | _ => (TxUpdate_default, None)
  end.

(** The spend is found on the second pass. *)
Lemma scan_complete_witness :
  tx_version <$> txs scan_result.1 = [1; 2; 3] ∧
  let W := list_to_set [[1]] : gset bytes in
  let blocks := matched_blocks (@filter_iter node genesis [[1]]) in
  let confirmed := @block_txs sample_codec W ∅ blocks in
  let pending := @pending_txs node (list_to_set (@compute_txid sample_codec <$> confirmed)) [[3]] in
  let found := confirmed ++
    relevant_txs W (∅ ∪ @outpoints_of sample_codec W (concat blocks) ∪ @outpoints_of sample_codec W pending) pending in
  NoDup (@compute_txid sample_codec <$> txs scan_result.1) ∧ txs scan_result.1 ⊆ concat blocks ++ pending ∧
  (∀ i, i ∈ @compute_txid sample_codec <$> txs scan_result.1 ↔ i ∈ @compute_txid sample_codec <$> found) ∧
  (NoDup (@compute_txid sample_codec <$> concat blocks) → txs scan_result.1 ≡ₚ found).
Proof.
  split; [vm_compute; reflexivity|].
  apply (@scan_complete sample_codec node node_laws [[1]] (Some genesis) genesis 50 ∅ scan_result.1 scan_result.2 [[3]]);
    [done|reflexivity|reflexivity| |vm_compute; reflexivity].
  intros tx tx' Hx Hx' He. f_equal. eapply (@txid_inj sample_codec); [|exact Hx|exact Hx'|exact He].
  apply (bool_decide_eq_true_1 _). vm_compute. reflexivity.
Defined.

(** ** The stop gap *)

Definition probe_even (batch : list bytes) : res ChainError (gset bytes) :=
  Ok (list_to_set (List.filter (λ s, bool_decide (s = [2]) || bool_decide (s = [5])) batch)).
Definition active_script (s : bytes) : bool := bool_decide (s = [2]) || bool_decide (s = [5]).
Lemma probe_even_decides : probe_decides probe_even active_script.
Proof.
  intros batch. eexists. split; [reflexivity|]. intros x Hx. rewrite elem_of_list_to_set.
  rewrite list_elem_of_In, List.filter_In, <-list_elem_of_In. unfold active_script. naive_solver.
Qed.
Definition scripts : list (Z * bytes) := map (λ i, (Z.of_nat i, [Z.of_nat i])) (seq 0 40).

Lemma keychain_found_witness :
  keychain_loop probe_even 4 41 scripts (0, None) [] = Ok ((take 12 scripts).*2, Some 5) ∧
  ∃ n, keychain_loop probe_even 4 (S (length scripts)) scripts (0, None) [] =
      Ok ((take n scripts).*2, fst <$> last (filter (λ p, active_script p.2 = true) (take n scripts))) ∧
    ∀ k p, scripts !! k = Some p → active_script p.2 = true →
      (∀ q, (q + Z.to_nat 4 ≤ k)%nat →
        ∃ r p', (q ≤ r < q + Z.to_nat 4)%nat ∧ scripts !! r = Some p' ∧ active_script p'.2 = true) →
      (k < n)%nat.
Proof.
  split; [vm_compute; reflexivity|]. apply (keychain_found probe_even 4 active_script scripts); [apply probe_even_decides|lia].
Defined.

Lemma keychain_bounded_witness :
  ∃ n l, keychain_loop probe_even 4 (S (length scripts)) scripts (0, None) [] = Ok ((take n scripts).*2, l) ∧
    (n ≤ length scripts)%nat ∧
    (Z.of_nat n ≤ 2 * 4 ∨
     ∃ k p, scripts !! k = Some p ∧ active_script p.2 = true ∧ (k < n)%nat ∧ Z.of_nat n ≤ Z.of_nat k + 2 * 4).
Proof.
  apply (keychain_bounded probe_even 4 active_script scripts); [apply probe_even_decides|unfold u64_max; lia].
Defined.

(** ** Evictions *)

(** An expected transaction the node does not know; then one it cannot look up. *)
Definition evicting : SyncRequest := mkSyncRequest 50 (Some genesis) [mkSpkItem [1] {[ [7] ]}] [] [].
Definition evict_result : Update :=
  match @core_sync sample_codec node evicting with Ok u => u | _ => Update_default end.
Lemma eviction_sound_witness :
  50 = sy_start_time evicting ∧
  (([7] ∈ expected_list (expected_map (sy_spks evicting)) ∧
    ∃ e, @get_raw_transaction node [7] = Err e ∧ is_not_found e = true ∧ is_lookup_unavailable e = false) ∨
   ([7] ∈ sy_txids evicting ∧
    ∃ e, @get_raw_transaction_info node [7] = Err e ∧ is_not_found e = true ∧ is_lookup_unavailable e = false)).
Proof.
  apply (@eviction_sound sample_codec node evicting evict_result [7] 50); [vm_compute; reflexivity|].
  apply (bool_decide_eq_true_1 _). vm_compute. reflexivity.
Defined.

Definition blind : SyncRequest := mkSyncRequest 50 (Some genesis) [mkSpkItem [1] {[ [8] ]}] [] [].
Lemma sync_fails_loud_witness :
  @core_sync sample_codec node blind = Err (@unavailable node [8] needs_index) ∧ ∀ u, @core_sync sample_codec node blind ≠ Ok u.
Proof.
  split; [vm_compute; reflexivity|].
  apply (@sync_fails_loud sample_codec node blind [8] needs_index); [|vm_compute; reflexivity..].
  apply (bool_decide_eq_true_1 _). vm_compute. reflexivity.
Defined.

(** ** A fee server: 0.00001, 0.00002 and "no estimate" *)

Definition fee_server : ElectrumClient := {|
  client_from_config _ _ := Ok tt;
  client_full_scan _ _ _ _ := Err EMissingDomain;
  client_sync _ _ _ := Err EMissingDomain;
  transaction_broadcast _ := Err EMissingDomain;
  estimate_fee t := Ok (if t =? 1 then SFdiv 53 1024 (f64 2) (f64 100000) else if t =? 6 then SFdiv 53 1024 (f64 1) (f64 100000)
                        else SFopp (f64 1));
  block_headers_subscribe := Ok 7
|}.
Definition fee_result : FeeEstimates :=
  match @electrum_fee_estimates fee_server with Ok f => f | _ => FeeEstimates_empty end.
Lemma electrum_fees_exact_witness :
  @electrum_fee_estimates fee_server = Ok fee_result ∧ sat_per_vb_for fee_result 1 = Some 2 ∧
  (6 ∈ FEE_TARGETS_BLOCKS → ∃ x, @estimate_fee fee_server 6 = Ok x ∧ sat_per_vb_for fee_result 6 = btc_per_kb_to_sat_per_vb x) ∧
  (6 ∉ FEE_TARGETS_BLOCKS → sat_per_vb_for fee_result 6 = None).
Proof.
  assert (@electrum_fee_estimates fee_server = Ok fee_result) as H by (vm_compute; reflexivity).
  split; [exact H|]. split; [vm_compute; reflexivity|]. exact (@electrum_fees_exact fee_server fee_result 6 H).
Defined.

(** ** A compact-filter node *)

(** It announces one matching block, with the transactions [txdata]; the block
    that paid the wallet it would serve, too. *)
Definition filter_node (txdata : list Transaction) : CbfNode := {|
  genesis_hash _ := [0];
  node_events _ := [EvChainUpdate (Connected (mkBlockId 1 [11])); EvIndexedFilter (mkIndexedFilter [11] (λ _, true));
                    EvFiltersSynced (mkBlockId 1 [11])];
  get_block x := Ok (mkIndexedBlock 1 x 1000 (if bool_decide (x = [11]) then txdata else [tx_fund]));
  requester_chain_tip := Ok 1;
  broadcast_min_feerate := Ok 250;
  submit_package _ := Ok tt;
  worker_fate _ := Finished;
  submit_reached _ := false;
  runtime_build := Ok tt
|}.
Definition list_graph : TxGraph := {|
  Graph := list Transaction * gset (ConfirmationBlockTime * bytes);
  graph_empty := ([], ∅);
  graph_insert_tx g tx := (g.1 ++ [tx], g.2);
  graph_insert_anchor g i a := (g.1, {[(a, i)]} ∪ g.2);
  direct_conflict_txs _ _ := [];
  graph_update g := mkTxUpdate g.1 ∅ g.2 ∅ ∅
|}.
Definition wallet_request : SyncRequest :=
  mkSyncRequest 50 (Some genesis) [mkSpkItem [5] ∅; mkSpkItem [1] {[ [1] ]}] [] [mkOutPoint [1] 0].
Definition cbf_sample : CbfBackend := mkCbfBackend (CbfConfig_new Regtest) None.
Definition cbf_run (txdata : list Transaction) : CbfBackend * res ChainError Update :=
  @cbf_sync sample_codec (filter_node txdata) list_graph wallet_request cbf_sample.
Definition cbf_update (txdata : list Transaction) : Update :=
  match (cbf_run txdata).2 with Ok u => u | _ => Update_default end.

(** The coin of script [1], at position 1 of the request, reported as index 1. *)
Lemma sync_reports_positions_witness :
  up_last_active_indices (cbf_update [tx_fund]) !! KeychainExternal = Some 1 ∧
  KeychainExternal = KeychainExternal ∧ is_Some (sy_spks wallet_request !! Z.to_nat 1).
Proof.
  assert (up_last_active_indices (cbf_update [tx_fund]) !! KeychainExternal = Some 1) as H by (vm_compute; reflexivity).
  split; [exact H|].
  apply (@sync_reports_positions sample_codec (filter_node [tx_fund]) list_graph wallet_request cbf_sample
    (cbf_run [tx_fund]).1 (cbf_update [tx_fund]) KeychainExternal 1); [vm_compute; discriminate|vm_compute; reflexivity|exact H].
Defined.

(** The same request against the block that spends the coin to a foreign
    script: nothing. *)
Lemma sync_misses_spends_witness :
  up_tx_update (cbf_update [tx_spend]) = TxUpdate_default ∧ up_last_active_indices (cbf_update [tx_spend]) = ∅.
Proof.
  apply (@sync_misses_spends sample_codec (filter_node [tx_spend]) list_graph wallet_request cbf_sample
    (cbf_run [tx_spend]).1 (cbf_update [tx_spend])); [done|vm_compute; reflexivity|].
  intros blk tx o (hash & Hh & Hblk) Htx Ho. cbn in Hh. apply list_elem_of_singleton in Hh as ->.
  injection Hblk as <-. cbn in Htx. apply list_elem_of_singleton in Htx as ->. cbn in Ho.
  apply list_elem_of_singleton in Ho as ->. apply (bool_decide_eq_false_1 _). vm_compute. reflexivity.
Defined.

(** A broadcast whose worker hangs in [submit_package] until the deadline. *)
Definition timed_out : HandoffState :=
  mkHandoff WHung true true (CReturned (Err ChDeliveryUnconfirmed)) (Some true).
Lemma handoff_truthful_witness :
  let reachable := @handoff_reachable sample_codec (filter_node []) (OpBroadcast tx_fund) [EvFiltersSynced (mkBlockId 1 [11])] 60 in
  reachable timed_out ∧
  (h_caller timed_out = CReturned (Err ChDeliveryUnconfirmed) →
    op_is_broadcast (OpBroadcast tx_fund) = true ∧
    (h_submitted timed_out = true ∨ @about_to_submit sample_codec (filter_node []) (OpBroadcast tx_fund) timed_out)) ∧
  (h_read timed_out = Some true → h_caller timed_out = CReturned (Err ChDeliveryUnconfirmed)).
Proof.
  assert (@handoff_reachable sample_codec (filter_node []) (OpBroadcast tx_fund) [EvFiltersSynced (mkBlockId 1 [11])] 60 timed_out) as H.
  { unfold handoff_reachable, handoff_start. eapply rtc_l; [left; apply step_wait, step_synced|].
    eapply rtc_l; [left; by apply step_ready, step_mark|]. eapply rtc_l; [left; apply step_ready, step_submit|].
    eapply rtc_l; [left; by apply step_hang|]. eapply rtc_l; [right; by apply step_deadline|].
    eapply rtc_l; [right; apply step_map|]. apply rtc_refl. }
  cbn zeta. split; [exact H|].
  exact (@handoff_truthful sample_codec (filter_node []) (OpBroadcast tx_fund) [EvFiltersSynced (mkBlockId 1 [11])] 60 timed_out H).
Defined.

(** A reorganisation of the two top blocks. *)
Definition forked : CheckPoint := CPLink (mkBlockId 2 [12]) block_one.
Lemma reorg_replaces_witness :
  ∃ cp', apply_chain_event forked (Reorganized [mkBlockId 1 [21]; mkBlockId 2 [22]] []) = Ok cp' ∧ cp_wf cp' ∧
    cp_iter cp' = reverse [mkBlockId 1 [21]; mkBlockId 2 [22]] ++ below (mkBlockId 1 [21]) (cp_iter forked).
Proof.
  apply (reorg_replaces forked (mkBlockId 1 [21]) [mkBlockId 2 [22]] []); [cbn; unfold cp_height; cbn; lia|cbn; lia| | |].
  - apply (bool_decide_eq_true_1 _). vm_compute. reflexivity.
  - repeat constructor.
  - left. vm_compute. reflexivity.
Defined.
