(* ===== verification/SyncSamples.v ===== *)
(** Concrete syncs: a node whose best chain replaces the two top blocks of the
    wallet's, scanned with the filter iterator and by a compact-filter node,
    and merged into the wallet's chain. The theorems of [LocalChain],
    [FilterIter] and [Sync] are applied to them. *)
From S2P Require Import Prelude Ordered Types Bitcoin Checkpoint LocalChain MergeChains ChainStore Tracking Chain CoreRpc FilterIter Cbf Sync ChainSamples.

(** [Arc] pointers that are never shared. *)
Definition no_ptr (a b : CheckPoint) : bool := false.
Lemma no_ptr_sound a b : no_ptr a b = true → a = b.
Proof. done. Qed.

(** ** The node's chain *)

Definition best_hashes : list bytes := [[0]; [21]; [22]; [23]].
Definition header_of (x : bytes) : res RpcError HeaderInfo :=
  match list_find (x =.) best_hashes with
  | Some (i, _) => Ok (mkHeaderInfo x (4 - Z.of_nat i) (Z.of_nat i) (if i is S j then best_hashes !! j else None) (best_hashes !! S i))
  | None => Err not_found
  end.
Definition header_node : HeaderClient := {|
  header_info := header_of;
  block_filter x := Ok x;
  match_any f _ _ := Ok (bool_decide (f = [21]));
  fetch_block _ := Ok [tx_fund];
  rpc_display _ := []
|}.
Definition filtering_node : RpcClient := {|
  client_new _ _ := Ok tt;
  get_block_count := Ok 3;
  get_block_hash h := match best_hashes !! Z.to_nat h with Some x => Ok x | None => Err not_found end;
  get_block_header_info _ := Ok (1, 1000);
  get_raw_mempool := Ok [];
  get_raw_transaction _ := Err not_found;
  get_raw_transaction_info _ := Err not_found;
  send_raw_transaction t := Ok [tx_version t];
  estimate_smart_fee _ := Ok None;
  filter_iter := @filter_events header_node 10;
  rpc_text _ := []
|}.

Lemma header_node_serves : @serves_chain header_node best_hashes.
Proof.
  split.
  - intros h x Hx. do 4 (destruct h as [|h]; [injection Hx as <-; eexists; split_and!; vm_compute; reflexivity|]). done.
  - intros x Hx. left. exists not_found. split; [|done]. cbn. unfold header_of.
    destruct (list_find (x =.) best_hashes) as [[i y]|] eqn:E; [|done].
    apply list_find_Some in E as (E & -> & _). by apply list_elem_of_lookup_2 in E.
  - vm_compute. discriminate.
  - intros x spks _. eexists _, _, _. done.
Qed.

Definition best_map : gmap Z bytes := map_seqZ 0 best_hashes.
(** A wallet with a gap above the genesis block. *)
Definition gapped : CheckPoint := CPLink (mkBlockId 2 [12]) genesis.

Lemma forked_wf : cp_wf forked.
Proof. repeat split. Qed.
Lemma gapped_wf : cp_wf gapped.
Proof. repeat split. Qed.
Lemma forked_forks : forks_at best_map 0 forked.
Proof.
  split; [done|]. change (map_Forall (λ h x, best_map !! h = Some x ↔ h ≤ 0) (cp_map forked)).
  apply (bool_decide_eq_true_1 _). vm_compute. reflexivity.
Qed.
Lemma forked_heights h x : cp_map forked !! h = Some x → x ∈ best_hashes → best_hashes !! Z.to_nat h = Some x.
Proof.
  revert h x. change (map_Forall (λ h x, x ∈ best_hashes → best_hashes !! Z.to_nat h = Some x) (cp_map forked)).
  apply (bool_decide_eq_true_1 _). vm_compute. reflexivity.
Qed.

(** ** The theorems *)

(** Both top blocks are replaced. *)
Definition reorged : CheckPoint := CPLink (mkBlockId 2 [22]) (CPLink (mkBlockId 1 [21]) genesis).
Lemma chain_update_merges_witness :
  ∃ new cs, chain_apply_update no_ptr forked reorged = Ok (new, cs) ∧ cp_wf new ∧
    merged (cp_map forked) (cp_map reorged) (cp_map new) ∧
    (replaces_all (cp_map forked) (cp_map reorged) → cp_map new = cp_map reorged) ∧ from_changeset (ChangeSet_merge (initial_changeset forked) cs) = Ok new.
Proof.
  assert (cp_desc reorged) as Hd by (cbn; unfold cp_height; cbn; lia).
  apply (chain_update_merges no_ptr forked reorged no_ptr_sound forked_wf Hd). left. exists 0. split_and!.
  - exists [0]. done.
  - intros h (x & Hx & Hy). revert Hy. revert h x Hx.
    change (map_Forall (λ h x, cp_map reorged !! h = Some x → h ≤ 0) (cp_map forked)).
    apply (bool_decide_eq_true_1 _). vm_compute. reflexivity.
  - right; right. exists 1. split_and!; [done|exists [11], [21]; done|]. intros h Hh _. lia.
Defined.

(** A block, a reorganisation of it with one more block on top, a block that is
    refused, and the top disconnected. *)
Definition stored_ops : list chain_op :=
  [OpInsert (mkBlockId 1 [11]); OpUpdate reorged; OpInsert (mkBlockId 1 [11]); OpDisconnect (mkBlockId 2 [22])].
Lemma stored_chain_reloads_witness :
  let '(tip, store) := foldl (chain_do no_ptr) (from_genesis_hash [0]) stored_ops in
  (tip = CPLink (mkBlockId 1 [21]) genesis ∧ store !! 2 = Some None) ∧
  cp_wf tip ∧ from_changeset store = Ok tip ∧ (Forall (keeps_genesis [0]) stored_ops → cp_map tip !! 0 = Some [0]).
Proof.
  assert (Forall op_wf stored_ops) as Hops by (repeat constructor; cbn; unfold cp_height; cbn; lia).
  pose proof (stored_chain_reloads no_ptr no_ptr_sound [0] stored_ops Hops) as H.
  split; [vm_compute; split; reflexivity|exact H].
Defined.

Lemma filter_iter_walks_witness :
  ∃ a, Z.of_nat a ≤ 0 ∧ is_Some (cp_map forked !! Z.of_nat a) ∧ (∀ h, h ≤ 0 → is_Some (cp_map forked !! h) → h ≤ Z.of_nat a) ∧
    @filter_events header_node 10 forked [[1]] = Ok <$> @walk header_node [[1]] forked (blocks_above best_hashes a) ∧
    length (@walk header_node [[1]] forked (blocks_above best_hashes a)) = (length best_hashes - S a)%nat.
Proof.
  apply (@filter_iter_walks header_node best_hashes 0 forked [[1]] 10);
    [exact header_node_serves|exact forked_wf|exact forked_forks|exact forked_heights|cbn; lia].
Defined.

(** The gapped wallet: block 1 is reported with the old tip at height 2, and its
    transaction is anchored there. *)
Definition gapped_step : FilterEvent * FilterIter :=
  match @iter_step header_node (FilterIter_new gapped [[1]]) with
  | Ok (Some r) => r
  | _ => (mkFilterEvent gapped None, FilterIter_new gapped [])
  end.
Definition gapped_scan : ScanState * CheckPoint :=
  match @scan_event sample_codec filtering_node {[ [1] ]} 50 (mkScanState ∅ ∅ TxUpdate_default, gapped) (Ok gapped_step.1) with
  | Ok r => r
  | _ => (mkScanState ∅ ∅ TxUpdate_default, gapped)
  end.
Lemma event_tips_witness :
  (anchors (scan_update gapped_scan.1) = {[ (mkAnchor (mkBlockId 2 [12]) 1000, [1]) ]}) ∧
  ∃ hd tip time new,
    let b := mkBlockId (hd_height hd) (hd_hash hd) in
    let moves := cp_height gapped < bi_height b ∨ ∃ y, cp_map gapped !! bi_height b = Some y ∧ y ≠ bi_hash b in
    it_header gapped_step.2 = Some hd ∧ it_cp gapped_step.2 = ev_cp gapped_step.1 ∧ gapped_scan.2 = ev_cp gapped_step.1 ∧
    block_id (ev_cp gapped_step.1) = tip ∧ (moves → tip = b) ∧ (¬ moves → tip = block_id gapped) ∧
    txs (scan_update gapped_scan.1) = [] ++ new ∧
    (∀ tx, tx ∈ new → ∃ block, @fetch_block header_node (bi_hash b) = Ok block ∧ tx ∈ block) ∧
    anchors (scan_update gapped_scan.1) =
      list_to_set ((λ tx, (mkAnchor tip time, @compute_txid sample_codec tx)) <$> new) ∪ ∅.
Proof.
  split; [vm_compute; reflexivity|].
  apply (@event_tips sample_codec filtering_node header_node (FilterIter_new gapped [[1]]) gapped_step.1 gapped_step.2 {[ [1] ]} 50
    (mkScanState ∅ ∅ TxUpdate_default) gapped gapped_scan.1 gapped_scan.2).
  - cbn. unfold header_of. intros x hd H. destruct (list_find _ _) as [[i y]|]; [|done]. injection H as <-. cbn. lia.
  - exact gapped_wf.
  - vm_compute. reflexivity.
  - vm_compute. reflexivity.
Defined.

Lemma core_scan_applies_witness :
  ∃ tu u cs, @scan_spks sample_codec filtering_node [[1]] (Some forked) 50 ∅ = Ok (tu, Some u) ∧
    chain_apply_update no_ptr forked u = Ok (u, cs) ∧ cp_wf u ∧ cp_map u !! 3 = last best_hashes.
Proof.
  apply (@core_scan_applies sample_codec filtering_node header_node best_hashes 0 no_ptr forked [1] [] 50 ∅ [] 10);
    [exact no_ptr_sound|exact forked_wf|exact forked_forks|exact forked_heights|exact header_node_serves|done|cbn; lia|done|].
  by intros i ?%elem_of_nil.
Defined.

Definition empty_request : SyncRequest := mkSyncRequest 50 (Some gapped) [] [] [].
Lemma core_empty_sync_witness :
  let u := CPLink (mkBlockId 3 [23]) (CPBase (mkBlockId 0 [0])) in
  @core_sync sample_codec filtering_node empty_request = Ok (mkUpdate ∅ TxUpdate_default (Some u)) ∧
  ∃ h, chain_apply_update no_ptr gapped u = Err (CannotConnect h).
Proof.
  destruct (@core_empty_sync sample_codec filtering_node no_ptr empty_request gapped 3 [23] [0] no_ptr_sound gapped_wf)
    as (Hu & _ & _ & Hr); [done..|by vm_compute|done|done|]. split; [exact Hu|apply Hr; unfold cp_height; cbn; lia].
Defined.

(** The compact-filter node announces the new branch from its top down. *)
Definition branch_node : CbfNode := {|
  genesis_hash _ := [0];
  node_events _ := [EvChainUpdate (Reorganized [mkBlockId 2 [22]; mkBlockId 1 [21]] [mkBlockId 2 [12]]);
                    EvIndexedFilter (mkIndexedFilter [21] (λ _, true)); EvFiltersSynced (mkBlockId 3 [23])];
  get_block _ := Ok (mkIndexedBlock 1 [21] 1000 [tx_fund]);
  requester_chain_tip := Ok 3;
  broadcast_min_feerate := Ok 250;
  submit_package _ := Ok tt;
  worker_fate _ := Finished;
  submit_reached _ := false;
  runtime_build := Ok tt
|}.
Lemma cbf_scan_applies_witness :
  ∃ la tu u cs tip,
    @scan_indexed sample_codec branch_node list_graph cbf_sample (cbf_collect_full_scan_spks (mkFullScanRequest 0 None []) 1).1 (Some forked) =
      (mkCbfBackend (cbf_config cbf_sample) (Some (cp_height u)), Ok (mkUpdate la tu (Some u))) ∧
    chain_apply_update no_ptr forked u = Ok (u, cs) ∧ cp_wf u ∧
    EvFiltersSynced tip ∈ @node_events branch_node (build_node (cbf_config cbf_sample) (walk_back_reorg forked)) ∧
    cp_map u !! bi_height tip = Some (bi_hash tip).
Proof.
  apply (@cbf_scan_applies sample_codec branch_node list_graph best_map 0 no_ptr cbf_sample _ forked);
    [exact no_ptr_sound|exact forked_wf|exact forked_forks|done|]. split.
  - intros e b He Hb. cbn in He. repeat (apply elem_of_cons in He as [->|He]); [..|by apply elem_of_nil in He]; cbn in Hb;
      repeat (apply elem_of_cons in Hb as [->|Hb]); try (by apply elem_of_nil in Hb); done.
  - done.
  - by eexists.
Defined.
