(* ===== verification/ElectrumSamples.v ===== *)
(** Concrete Electrum servers.

    [server l] serves the headers [l] and one script with one transaction in the
    block at height 2. The wallet's chain has another block at height 1. Two
    servers with different blocks at height 2 are a reorganisation between two
    syncs of one client. The theorems about the client are applied to them. *)
From S2P Require Import Prelude Ordered Types Bitcoin Checkpoint LocalChain MergeChains Tracking Chain Electrum.
From S2P Require Import BdkElectrum Merkle ClientLogic ElectrumTip ElectrumAnchors ElectrumScan ElectrumSync Toy ChainSamples SyncSamples.

#[local] Existing Instances Toy.hashes Toy.codec.

Definition paid_script : bytes := [1].
Definition paid_txid : bytes := replicate 32 5.
Definition paid_tx : Transaction := mkTransaction 2 0 [] [mkTxOut 700 paid_script].

(** The transaction is alone in its block, so its id is the root. *)
Definition header (nonce : Z) : Header := mkHeader 2 (replicate 32 0) paid_txid (1000 + nonce) 0 nonce.
Definition chain_a : list Header := [header 0; header 1; header 2].
Definition chain_b : list Header := [header 0; header 1; header 12; header 13].

Definition history_of (s : bytes) : list GetHistoryRes :=
  if bool_decide (s = paid_script) then [mkHistory 2 paid_txid] else [].
Definition server (l : list Header) : ElectrumApi := {|
  batch_script_get_history ss := Ok (map history_of ss);
  transaction_get i := if bool_decide (i = paid_txid) then Ok paid_tx else Err (EProtocol []);
  batch_block_header hs := match mapM (λ h, l !! Z.to_nat h) hs with Some x => Ok x | None => Err EMpsc end;
  block_header h := match l !! Z.to_nat h with Some x => Ok x | None => Err EMpsc end;
  block_headers s n := Ok (take (Z.to_nat n) (drop (Z.to_nat s) l));
  batch_transaction_get_merkle ps := Ok (map (λ p, mkMerkle p.2 0 []) ps);
  api_headers_subscribe := Ok (Z.of_nat (length l) - 1)
|}.

Lemma server_serves l : 2 < Z.of_nat (length l) ≤ 2 ^ 32 → @serves_wallet (server l) l history_of.
Proof.
  intros Hl. assert (∀ s r, r ∈ history_of s → r = mkHistory 2 paid_txid) as Hh.
  { intros s r. unfold history_of. case_bool_decide; [by intros ->%list_elem_of_singleton|by intros ?%elem_of_nil]. }
  split.
  - split; [lia|done| |done]. intros h hdr _ Hx. cbn. by rewrite Hx.
  - done.
  - intros s r ->%Hh. cbn. lia.
  - intros s r ->%Hh. by exists paid_tx.
  - intros i. cbn. case_bool_decide; [left; by exists paid_tx|right; by eexists].
  - intros hs Hhs. cbn. destruct (mapM (λ h, l !! Z.to_nat h) hs) as [x|] eqn:E; [exists x; split; [done|by apply mapM_Some]|].
    exfalso. assert (is_Some (mapM (λ h, l !! Z.to_nat h) hs)) as [x Hx]; [|congruence]. apply mapM_is_Some, Forall_forall.
    intros h Hin. apply lookup_lt_is_Some. specialize (Hhs h Hin). lia.
  - intros ps. by eexists.
Qed.

Definition wallet_chain : CheckPoint := CPLink (mkBlockId 1 [77]) (CPBase (mkBlockId 0 (block_hash (header 0)))).
Lemma wallet_chain_forks l :
  l !! 0%nat = Some (header 0) → l !! 1%nat = Some (header 1) → forks_at (server_best l) 0 wallet_chain.
Proof.
  intros H0 H1. split; [lia|]. intros h x Hx. apply cp_map_iter in Hx; [|by repeat split].
  apply elem_of_cons in Hx as [[= -> ->]|[= -> ->]%list_elem_of_singleton]; rewrite server_best_lookup.
  - split; [|lia]. intros (_ & hdr & Hl & Hx). change (Z.to_nat 1) with 1%nat in Hl. rewrite H1 in Hl. injection Hl as <-. by vm_compute in Hx.
  - split; [lia|]. intros _. split; [lia|]. by exists (header 0).
Qed.
Lemma fresh_on_chain l : cache_on_chain l BdkElectrumClient_new.
Proof. by split. Qed.

Definition paid_sync (tip : option CheckPoint) : SyncRequest := mkSyncRequest 9 tip [mkSpkItem paid_script ∅] [paid_txid] [].
Definition paid_scan (tip : option CheckPoint) : FullScanRequest :=
  mkFullScanRequest 9 tip [(KeychainExternal, [(0, [7]); (1, paid_script); (2, [8]); (3, [9])])].
Definition default_backend : ElectrumBackend := mkElectrumBackend regtest_electrs.

(** ** The update *)

Lemma electrum_update_applies_witness :
  ∃ up, electrum_sync (client := @bdk_client _ _ (server chain_a) fee_server BdkElectrumClient_new) default_backend (paid_sync (Some wallet_chain)) = Ok up ∧
    applies chain_a no_ptr wallet_chain up.
Proof.
  destruct (@electrum_update_applies _ _ (server chain_a) chain_a 0 history_of (server_serves chain_a ltac:(vm_compute; split; congruence))
    no_ptr fee_server default_backend BdkElectrumClient_new wallet_chain (paid_scan (Some wallet_chain)) (paid_sync (Some wallet_chain)))
    as (_ & up & Hup & Ha & _).
  - exact no_ptr_sound.
  - repeat split.
  - by apply wallet_chain_forks.
  - apply fresh_on_chain.
  - vm_compute. congruence.
  - reflexivity.
  - reflexivity.
  - reflexivity.
  - exact (ex_intro _ up (conj Hup Ha)).
Defined.

(** ** Anchors *)

(** The caches after a sync with the first server. *)
Definition synced_client : Caches := (@bdk_sync _ _ (server chain_a) (paid_sync None) 20 false BdkElectrumClient_new).1.
Definition anchor_a : ConfirmationBlockTime := mkAnchor (mkBlockId 2 (block_hash (header 2))) 1002.

Lemma anchors_proved_witness : proved paid_txid anchor_a.
Proof.
  apply (anchors_proved synced_client (server chain_b) (OpSync (paid_sync None) 20 false)
    (match (run_op (server chain_b) (OpSync (paid_sync None) 20 false) synced_client).2 with Ok u => u | _ => TxUpdate_default end)).
  - apply rtc_once. change synced_client with (run_op (server chain_a) (OpSync (paid_sync None) 20 false) BdkElectrumClient_new).1. constructor.
  - vm_compute. reflexivity.
  - vm_compute. reflexivity.
Defined.

(** After the reorganisation the sync still reports the first server's block,
    although the second server has another one at this height. *)
Lemma stale_anchor_kept_witness :
  ∃ r, (@bdk_sync _ _ (server chain_b) (paid_sync None) 20 false synced_client).2 = Ok r ∧
    (anchor_a, paid_txid) ∈ anchors (syr_tx_update r) ∧ ¬ on_best (server_best chain_b) (anchor_block anchor_a).
Proof.
  eexists. split_and!.
  - vm_compute. reflexivity.
  - eapply (@stale_anchor_kept _ _ (server chain_b) history_of (paid_sync None) 20 false synced_client _ _ (mkSpkItem paid_script ∅) paid_txid 2 (header 2)).
    + done.
    + lia.
    + vm_compute. congruence.
    + vm_compute. reflexivity.
    + vm_compute. reflexivity.
    + vm_compute. reflexivity.
    + left.
    + left.
    + unfold u32_max. lia.
  - vm_compute. discriminate.
Defined.

(** ** Batches and gaps *)

Lemma batch_size_irrelevant_witness :
  @bdk_full_scan _ _ (server chain_a) (paid_scan None) 2 1 false BdkElectrumClient_new =
  @bdk_full_scan _ _ (server chain_a) (paid_scan None) 2 20 false BdkElectrumClient_new.
Proof.
  apply (@batch_size_irrelevant _ (server chain_a) history_of _ (paid_scan None) (paid_sync None) 2 1 20 false BdkElectrumClient_new); [done|lia|lia].
Defined.

Definition sample_spks : list (Z * SpkWithExpectedTxids) :=
  [(0, mkSpkItem [7] ∅); (1, mkSpkItem paid_script {[ [99] ]}); (2, mkSpkItem [8] ∅); (3, mkSpkItem [9] ∅); (4, mkSpkItem [10] ∅)].
Definition spks_result : Caches * (TxUpdate * Pending) :=
  match @populate_with_spks (server chain_a) 9 (TxUpdate_default, []) sample_spks 2 3 BdkElectrumClient_new with
  | (c, Ok r) => (c, r.1)
  | (c, _) => (c, (TxUpdate_default, []))
  end.
Lemma scan_exact_witness : ([99], 9) ∈ evicted_ats spks_result.2.1 ∧ ∃ n, (1 < n)%nat ∧
  spks_result.2.2 = confirmed_of (concat (with_history history_of (take n sample_spks)).*2).
Proof.
  destruct (@scan_exact (server chain_a) history_of 9 (TxUpdate_default, []) sample_spks 2 3 BdkElectrumClient_new spks_result.1 spks_result.2 (Some 1))
    as (n & txl & Hfound & _ & _ & Hp & _).
  - done.
  - lia.
  - unfold usize_max, u64_max. lia.
  - vm_compute. reflexivity.
  - split; [apply (bool_decide_eq_true_1 _); vm_compute; reflexivity|]. exists n. split; [|exact Hp].
    apply (Hfound 1%nat (1, mkSpkItem paid_script {[ [99] ]})); [reflexivity|vm_compute; discriminate|]. intros q Hq. exfalso. cbn in Hq. lia.
Defined.

(** ** Proofs *)

Lemma merkle_proof_decides_witness :
  ∃ n, @validate_merkle_proof Toy.hashes (replicate 32 6)
    (default [] (@calculate_root Toy.hashes [replicate 32 4; replicate 32 5; replicate 32 6]))
    (mkMerkle 0 2 (@merkle_path Toy.hashes n [replicate 32 4; replicate 32 5; replicate 32 6] 2)) = true.
Proof.
  destruct (@merkle_proof_decides Toy.hashes (λ b, length_le_bytes 32 _) [replicate 32 4; replicate 32 5; replicate 32 6]
    (default [] (@calculate_root Toy.hashes [replicate 32 4; replicate 32 5; replicate 32 6]))) as (n & Hn & _).
  - vm_compute. reflexivity.
  - repeat constructor.
  - exists n. apply (Hn 2%nat (replicate 32 6) 0). reflexivity.
Defined.
