(* ===== verification/Redact.v ===== *)
(** What the types print of themselves: [Debug] and [Display].

    The secret buffer [SecretBytes] and the PSBT text [PsbtB64] of
    [trinity-types], and the hand-written [Debug] and [Display] implementations
    of all crates. The derived [Debug] of the enumerations that appear as
    fields, and the formatter's [debug_struct], are written out for the one-line
    form [{:?}]. [str_debug] is exact for printable text and the usual escapes.

    [debug_redacts] collects what the types that hold secrets keep to
    themselves. [sheet_debug_leaks] is about the one that does not: the redacted
    source bytes of a verification sheet can be read from its own [Debug]. *)
From S2P Require Import Prelude Ordered Types Bitcoin Aead CoreState Parse Keystore Window Entropy Sign Text Sheet SignSamples Toy.
From S2P Require Import Checkpoint Chain CoreRpc Electrum Cbf.

(** ** The formatter *)

Definition escape_debug (c : Z) : bytes :=
  if c =? 34 then [92; 34] else if c =? 92 then [92; 92] else if c =? 10 then [92; 110]
  else if c =? 13 then [92; 114] else if c =? 9 then [92; 116] else if c =? 0 then [92; 48] else [c].
Definition str_debug (s : bytes) : bytes := QUOTE ++ concat (map escape_debug s) ++ QUOTE.
Definition option_debug {A} (f : A → bytes) (o : option A) : bytes :=
  match o with Some x => str "Some(" ++ f x ++ str ")" | None => str "None" end.
Definition debug_struct (name : bytes) (fields : list (bytes * bytes)) : bytes :=
  match fields with
  | [] => name
  | _ => name ++ str " { " ++ join (str ", ") (map (λ f, f.1 ++ str ": " ++ f.2) fields) ++ str " }"
  end.
Definition REDACTED : bytes := str "[redacted]".
(** [.field(name, &"[redacted]")]: the field is a string, so it is quoted. *)
Definition redacted (name : bytes) : bytes * bytes := (name, str_debug REDACTED).
Definition usize_debug (n : nat) : bytes := dec (Z.of_nat n).

Definition WordCount_debug (wc : WordCount) : bytes := match wc with Words12 => str "Words12" | Words24 => str "Words24" end.
Definition Network_debug (n : Network) : bytes :=
  match n with Bitcoin => str "Bitcoin" | Testnet => str "Testnet" | Signet => str "Signet" | Regtest => str "Regtest" end.
Definition KeychainKind_debug (k : KeychainKind) : bytes :=
  match k with KeychainExternal => str "External" | KeychainInternal => str "Internal" end.
Definition FeeTarget_debug (t : FeeTarget) : bytes :=
  match t with
  | FeerateSatVb v => str "FeerateSatVb(" ++ dec v ++ str ")"
  | AbsoluteSats v => str "AbsoluteSats(" ++ dec v ++ str ")"
  end.

(** ** [trinity-types] *)

Record SecretBytes := mkSecret { secret : bytes }.
Definition SecretBytes_new (b : bytes) : SecretBytes := mkSecret b.
Definition SecretBytes_from_slice (b : bytes) : SecretBytes := SecretBytes_new b.
Definition SecretBytes_as_slice (s : SecretBytes) : bytes := secret s.
(** A write through [as_mut_slice]; an index out of range panics. *)
Definition SecretBytes_write {E} (i : nat) (v : Z) (s : SecretBytes) : res E SecretBytes :=
  if (i <? length (secret s))%nat then Ok (mkSecret (<[i := v]> (secret s))) else Panic.
Definition SecretBytes_len (s : SecretBytes) : nat := length (secret s).
Definition SecretBytes_is_empty (s : SecretBytes) : bool := (length (secret s) =? 0)%nat.
Definition SecretBytes_debug (s : SecretBytes) : bytes := REDACTED.
Definition SecretBytes_display (s : SecretBytes) : bytes := REDACTED.

Record PsbtB64 := mkPsbtB64 { psbt_text : bytes }.
Definition PsbtB64_new (b64 : bytes) : PsbtB64 := mkPsbtB64 b64.
Definition PsbtB64_as_str (p : PsbtB64) : bytes := psbt_text p.
Definition PsbtB64_into_string (p : PsbtB64) : bytes := psbt_text p.
Definition PsbtB64_debug (p : PsbtB64) : bytes := debug_struct (str "PsbtB64") [(str "len", usize_debug (length (psbt_text p)))].
Definition PsbtB64_display (p : PsbtB64) : bytes := psbt_text p.

Definition Fingerprint_debug (fp : Fingerprint) : bytes := str "Fingerprint(" ++ str_debug (to_hex fp) ++ str ")".
Definition KeychainKind_display (k : KeychainKind) : bytes :=
  match k with KeychainExternal => str "external" | KeychainInternal => str "internal" end.
Definition AddressInfo_debug (a : AddressInfo) : bytes :=
  debug_struct (str "AddressInfo")
    [(str "address", str_debug (ai_address a)); (str "index", dec (ai_index a)); (str "keychain", KeychainKind_debug (ai_keychain a))].
Definition AddressInfo_display (a : AddressInfo) : bytes := ai_address a.
Definition FeeTarget_display (t : FeeTarget) : bytes :=
  match t with FeerateSatVb v => dec v ++ str " sat/vB" | AbsoluteSats v => dec v ++ str " sat" end.
Definition SendRequest_debug (r : SendRequest) : bytes :=
  debug_struct (str "SendRequest")
    [(str "recipient", str_debug (sr_recipient r)); (str "amount_sats", dec (sr_amount_sats r));
     (str "fee_target", FeeTarget_debug (sr_fee_target r))].
Definition SendRequest_display (r : SendRequest) : bytes :=
  dec (sr_amount_sats r) ++ str " sat to " ++ sr_recipient r ++ str " (" ++ FeeTarget_display (sr_fee_target r) ++ str ")".
Definition PsbtVerdict_debug (v : PsbtVerdict) : bytes :=
  debug_struct (str "PsbtVerdict")
    [(str "ok", bool_display (vd_ok v)); (str "recipient", str_debug (vd_recipient v)); (str "amount_sats", dec (vd_amount_sats v));
     (str "change_sats", dec (vd_change_sats v)); (str "fee_sats", dec (vd_fee_sats v));
     (str "feerate_sat_vb", dec (vd_feerate_sat_vb v))].
Definition PsbtVerdict_display (v : PsbtVerdict) : bytes :=
  dec (vd_amount_sats v) ++ str " sat to " ++ vd_recipient v ++ str " · fee " ++ dec (vd_fee_sats v) ++ str " sat (" ++
  dec (vd_feerate_sat_vb v) ++ str " sat/vB) · change " ++ dec (vd_change_sats v) ++ str " sat · ok=" ++ bool_display (vd_ok v).
Definition XpubWithOrigin_debug (x : XpubWithOrigin) : bytes :=
  debug_struct (str "XpubWithOrigin")
    [(str "fingerprint", Fingerprint_debug (xo_fingerprint x)); (str "origin_path", str_debug (xo_origin_path x));
     (str "xpub", str_debug (xo_xpub x))].
Definition XpubWithOrigin_display (x : XpubWithOrigin) : bytes := key_origin_prefix x.
Definition Balance_display (b : Balance) : bytes :=
  str "{ confirmed: " ++ dec (confirmed_sats b) ++ str ", trusted_pending: " ++ dec (trusted_pending_sats b) ++
  str ", untrusted_pending: " ++ dec (untrusted_pending_sats b) ++ str ", immature: " ++ dec (immature_sats b) ++ str " }".

(** ** The types that hold secrets *)

(** A source is shown as its size. *)
Definition sized (unit : bytes) (n : nat) : bytes := str_debug (str "[" ++ dec (Z.of_nat n) ++ str " " ++ unit ++ str "]").
Definition AdditionalEntropy_debug (a : AdditionalEntropy) : bytes :=
  debug_struct (str "AdditionalEntropy")
    [(str "dice", option_debug (sized (str "chars")) (length <$> dice a)); (str "coins", option_debug (sized (str "chars")) (length <$> coins a));
     (str "cards", option_debug (sized (str "cards")) (length <$> cards a));
     (str "sensor", option_debug (sized (str "bytes")) (length <$> sensor a))].
Definition Bip39Material_debug (m : Bip39Material) : bytes :=
  debug_struct (str "Bip39Material") [redacted (str "mnemonic"); redacted (str "seed")].
Definition GeneratedKey_debug (k : GeneratedKey) : bytes :=
  debug_struct (str "GeneratedKey")
    [(str "word_count", WordCount_debug (gk_word_count k)); redacted (str "raw_csprng"); redacted (str "extra_bytes");
     redacted (str "entropy"); redacted (str "mnemonic"); redacted (str "seed"); redacted (str "xprv");
     (str "fingerprint", Fingerprint_debug (gk_fingerprint k)); (str "sources", AdditionalEntropy_debug (gk_sources k))].
Definition VerificationSheet_debug (s : VerificationSheet) : bytes :=
  debug_struct (str "VerificationSheet")
    [(str "l", dec (vs_l s)); (str "word_count", WordCount_debug (vs_word_count s)); redacted (str "raw_csprng_hex");
     redacted (str "extra_bytes_hex"); redacted (str "entropy_hex"); redacted (str "mnemonic");
     (str "dice", option_debug str_debug (vs_dice s)); (str "coins", option_debug str_debug (vs_coins s));
     (str "cards", option_debug str_debug (vs_cards s)); (str "sensor_len", option_debug usize_debug (vs_sensor_len s))].
(** [#[derive(Debug)]]: the entropy prints through [SecretBytes]. *)
Definition DecodedBlob_debug (b : DecodedBlob) : bytes :=
  debug_struct (str "DecodedBlob")
    [(str "slot", KeySlot_display (blob_slot b)); (str "word_count", WordCount_debug (blob_word_count b));
     (str "birthday", dec (blob_birthday b)); (str "entropy", SecretBytes_debug (mkSecret (blob_entropy b)));
     (str "created_at", dec (blob_created_at b))].
Definition LocalSigner_debug {W} (s : LocalSigner W) : bytes :=
  debug_struct (str "LocalSigner")
    [(str "slot", KeySlot_display (ls_slot W s)); (str "fingerprint", Fingerprint_debug (ls_fingerprint W s));
     redacted (str "wrapped_kek"); (str "blob_len", usize_debug (length (ls_blob W s)))].
Definition WindowCounter_debug (c : WindowCounter) : bytes :=
  debug_struct (str "WindowCounter")
    [redacted (str "kek"); (str "booked_sat", dec (booked_sat (wc_state c)));
     (str "passphrase_used_since_install", bool_display (passphrase_used_since_install (wc_state c)))].
Definition FakePlatformKeyStore_debug (s : FakeState) : bytes :=
  debug_struct (str "FakePlatformKeyStore")
    [(str "unwrap_kek_calls", usize_debug (unwrap_calls s)); (str "wrap_kek_calls", usize_debug (wrap_calls s));
     (str "provision_calls", usize_debug (provision_calls s)); (str "destroy_calls", usize_debug (destroy_calls s));
     redacted (str "unwrap_plain"); redacted (str "wrap_wrapped")].

(** ** The chain backends *)

Definition CoreRpcBackend_debug (b : CoreRpcBackend) : bytes :=
  debug_struct (str "CoreRpcBackend") [(str "stop_gap", dec (stop_gap b)); (str "client", str_debug (str "bitcoincore_rpc::Client"))].
Definition ElectrumBackend_debug (b : ElectrumBackend) : bytes :=
  debug_struct (str "ElectrumBackend")
    [(str "url", str_debug (server_url (el_config b))); (str "own_server", bool_display (own_server (el_config b)));
     (str "socks5", bool_display (bool_decide (is_Some (socks5 (el_config b))))); (str "use_tls", bool_display (use_tls (el_config b)));
     (str "has_tls_pin", bool_display (bool_decide (is_Some (tls_pin (el_config b)))))].
Definition CbfBackend_debug (b : CbfBackend) : bytes :=
  debug_struct (str "CbfBackend")
    [(str "network", Network_debug (cbf_network (cbf_config b))); (str "peers", usize_debug (length (peers (cbf_config b))));
     (str "whitelist_only", bool_display (whitelist_only (cbf_config b))); (str "required_peers", dec (required_peers (cbf_config b)))].
Definition SplitBackend_debug {St} (s : SplitBackend St) : bytes :=
  debug_struct (str "SplitBackend")
    [(str "sync", str_debug (str "Arc<dyn ChainBackend>")); (str "broadcast", str_debug (str "Arc<dyn ChainBackend>"))].

(** ** What is kept *)

Definition same_sizes (a b : AdditionalEntropy) : Prop :=
  length <$> dice a = length <$> dice b ∧ length <$> coins a = length <$> coins b ∧
  length <$> cards a = length <$> cards b ∧ length <$> sensor a = length <$> sensor b.

(** Two values that differ in secrets only print the same. *)
Lemma debug_redacts :
  (∀ a b, SecretBytes_debug a = SecretBytes_debug b ∧ SecretBytes_display a = SecretBytes_display b) ∧
  (∀ m m', Bip39Material_debug m = Bip39Material_debug m') ∧
  (∀ a b, same_sizes a b → AdditionalEntropy_debug a = AdditionalEntropy_debug b) ∧
  (∀ k k', gk_word_count k = gk_word_count k' → gk_fingerprint k = gk_fingerprint k' → same_sizes (gk_sources k) (gk_sources k') →
    GeneratedKey_debug k = GeneratedKey_debug k') ∧
  (∀ slot wc b t e e', DecodedBlob_debug (mkDecoded slot wc b e t) = DecodedBlob_debug (mkDecoded slot wc b e' t)) ∧
  (∀ W slot fp p (w w' b b' : bytes), length b = length b' →
    LocalSigner_debug (mkLocal W slot fp p w b) = LocalSigner_debug (mkLocal W slot fp p w' b')) ∧
  (∀ s kek kek', WindowCounter_debug (mkCounter kek s) = WindowCounter_debug (mkCounter kek' s)).
Proof.
  assert (∀ a b, same_sizes a b → AdditionalEntropy_debug a = AdditionalEntropy_debug b) as Hs.
  { intros a b (Hd & Hc & Hk & Hn). unfold AdditionalEntropy_debug. by rewrite Hd, Hc, Hk, Hn. }
  split_and!; try done.
  - intros k k' Hw Hf Hsz. unfold GeneratedKey_debug. by rewrite Hw, Hf, (Hs _ _ Hsz).
  - intros W slot fp p w w' b b' Hl. unfold LocalSigner_debug. cbn [ls_slot ls_fingerprint ls_blob]. by rewrite Hl.
Qed.

(** ** What is not *)

(** The rest of [s] after the first [pat]. *)
Fixpoint after (pat s : bytes) : option bytes :=
  match strip_prefix pat s with
  | Some r => Some r
  | None => match s with [] => None | _ :: s => after pat s end
  end.
(** An [Option<String>] field, and what follows its text. *)
Definition debug_field (s : bytes) : option (option bytes * bytes) :=
  match strip_prefix (str "Some(" ++ QUOTE) s with
  | Some r => '(v, rest) ← split_once 34 r; Some (Some v, rest)
  | None => Some (None, s)
  end.
(** The source bytes of a sheet, from its [Debug]. *)
Definition read_debug (text : bytes) : option bytes :=
  r ← after (str ", dice: ") text;
  '(d, r) ← debug_field r;
  r ← after (str ", coins: ") r;
  '(c, r) ← debug_field r;
  r ← after (str ", cards: ") r;
  '(k, _) ← debug_field r;
  Some (encode_slots [default [] d; default [] c; strip_spaces (default [] k); []]).

(** Text that [str_debug] only puts in quotes. *)
Definition unescaped (s : bytes) : Prop := Forall (λ c, 32 ≤ c ≤ 90 ∧ c ≠ 34) s.
Lemma str_debug_unescaped s : unescaped s → str_debug s = QUOTE ++ s ++ QUOTE.
Proof.
  intros H. unfold str_debug. do 2 f_equal. induction H as [|c s Hc _ IH]; [done|]. cbn [map concat]. rewrite IH.
  unfold escape_debug. repeat case_match; bool_simp; try lia. done.
Qed.
Lemma unescaped_quote s : unescaped s → 34 ∉ s.
Proof. unfold unescaped. rewrite Forall_forall. intros H Hs. by apply H in Hs as []. Qed.

Lemma debug_field_option o t :
  unescaped (default [] o) →
  debug_field (option_debug str_debug o ++ t) = Some (o, match o with Some _ => 41 :: t | None => str "None" ++ t end).
Proof.
  destruct o as [s|]; [|done]. cbn [default from_option id option_debug]. intros Hs. rewrite str_debug_unescaped by done.
  unfold debug_field. change (str "Some(") with [83; 111; 109; 101; 40]. change QUOTE with [34]. change (str ")") with [41].
  rewrite <-!app_assoc. cbn [app]. cbn [strip_prefix]. cbn [Z.eqb Pos.eqb].
  rewrite (proj2 (split_once_spec 34 (s ++ 34 :: 41 :: t) s (41 :: t))); [done|]. split; [done|by apply unescaped_quote].
Qed.

Lemma unescaped_app s t : unescaped s → unescaped t → unescaped (s ++ t).
Proof. intros. by apply Forall_app. Qed.
Lemma unescaped_cards a : unescaped (default [] (cards_display a)).
Proof.
  unfold cards_display. destruct (cards a) as [cs|]; [|constructor]. cbn [fmap option_fmap option_map default].
  assert (∀ c, unescaped (card_encode c)) as Hc by (intros [[] []]; repeat constructor; done).
  induction cs as [|c [|d cs] IH]; [constructor|apply Hc|].
  apply unescaped_app; [apply Hc|]. apply unescaped_app; [repeat constructor; done|exact IH].
Qed.
Lemma unescaped_ensured (P : Z → bool) (err : nat → Z → EntropyError) s :
  (∀ b, P b = true → 48 ≤ b ≤ 54) → for_eachi (λ i b, ensure (P b) (err i b)) 0 s = Ok tt → unescaped s.
Proof.
  intros HP Hf. rewrite for_eachi_Ok in Hf. apply Forall_lookup. intros i b Hb. apply Hf, ensure_Ok, HP in Hb. lia.
Qed.
Lemma built_unescaped a : built a → unescaped (default [] (dice a)) ∧ unescaped (default [] (coins a)).
Proof.
  induction 1 as [|s a b _ IH H|s a b _ IH H|s a b _ IH H|s a _ _ IH]; [by split; constructor|..|exact IH];
    apply bind_Ok in H as (d & Hd & [= <-]); cbn.
  - split; [|apply IH]. unfold parse_dice in Hd. if_inv Hd E. apply bind_Ok in Hd as ([] & Hf & [= <-]).
    eapply (unescaped_ensured (λ b, (49 <=? b) && (b <=? 54)) InvalidDice); [|done]. intros b Hb. bool_simp. lia.
  - split; [apply IH|]. unfold parse_coins in Hd. if_inv Hd E. apply bind_Ok in Hd as ([] & Hf & [= <-]).
    eapply (unescaped_ensured (λ b, (b =? 48) || (b =? 49)) InvalidCoin); [|done]. intros b [?|?]%orb_true_iff; bool_simp; lia.
  - exact IH.
Qed.

(** The text of a sheet from its first source on. *)
Definition debug_tail (sh : VerificationSheet) : bytes :=
  option_debug str_debug (vs_dice sh) ++ str ", coins: " ++ option_debug str_debug (vs_coins sh) ++ str ", cards: " ++
  option_debug str_debug (vs_cards sh) ++ str ", sensor_len: " ++ option_debug usize_debug (vs_sensor_len sh) ++ str " }".
Lemma sheet_debug_tail sh :
  vs_l sh = entropy_bytes (vs_word_count sh) → after (str ", dice: ") (VerificationSheet_debug sh) = Some (debug_tail sh).
Proof.
  intros Hl. unfold VerificationSheet_debug. rewrite Hl. unfold debug_tail. rewrite !(app_assoc _ _ (str " }")). generalize (option_debug str_debug (vs_dice sh)).
  generalize (option_debug str_debug (vs_coins sh)). generalize (option_debug str_debug (vs_cards sh)).
  generalize (option_debug usize_debug (vs_sensor_len sh)). intros s k c d. destruct (vs_word_count sh); reflexivity.
Qed.

Section Leak.
Context `{hashes : Hashes, keys : KeyDerivation}.
(** HMAC-SHA512 tags have 64 bytes. *)
Context (tag64 : ∀ k m, length (hmac_sha512 k m) = 64%nat).

(** The [Debug] of a verification sheet gives the redacted source bytes away.
    The dice, coins and cards are printed in full next to the redacted
    [extra_bytes_hex]; when no sensor was used, the bytes that went into the key
    derivation are computed from that text alone. *)
Lemma sheet_debug_leaks raw wc extra k :
  built extra → sensor extra = None → generate (Some raw) wc extra = Ok k →
  read_debug (VerificationSheet_debug (from_key k)) = Some (gk_extra_bytes k).
Proof.
  intros Hb Hs Hg. pose proof (generate_sources tag64 _ _ _ _ Hg) as [He _].
  assert (gk_extra_bytes k = canonical_bytes extra) as ->.
  { cbn [generate read_raw_csprng ok_or mbind res_bind] in Hg. unfold generate_from_raw in Hg. rewrite (finish_cases tag64) in Hg.
    destruct (mnemonic_from_entropy _); [|done]. destruct (new_master _); [|done]. by injection Hg as <-. }
  destruct (built_unescaped extra Hb) as [Hd Hc]. pose proof (unescaped_cards extra) as Hk.
  unfold read_debug. rewrite sheet_debug_tail by done. unfold debug_tail. unfold from_key, from_parts. rewrite He.
  cbn [mbind option_bind vs_dice vs_coins vs_cards vs_sensor_len]. rewrite debug_field_option by done. cbn [mbind option_bind].
  match goal with |- context [after (str ", coins: ") ?t] => replace (after (str ", coins: ") t) with
    (Some (option_debug str_debug (coins extra) ++ str ", cards: " ++ option_debug str_debug (cards_display extra) ++
      str ", sensor_len: " ++ option_debug usize_debug (length <$> sensor extra) ++ str " }")) by (destruct (dice extra); reflexivity) end.
  cbn [mbind option_bind]. rewrite debug_field_option by done. cbn [mbind option_bind].
  match goal with |- context [after (str ", cards: ") ?t] => replace (after (str ", cards: ") t) with
    (Some (option_debug str_debug (cards_display extra) ++ str ", sensor_len: " ++
      option_debug usize_debug (length <$> sensor extra) ++ str " }")) by (destruct (coins extra); reflexivity) end.
  cbn [mbind option_bind]. rewrite debug_field_option by done. cbn [mbind option_bind].
  unfold canonical_bytes, cards_ascii, cards_display. rewrite Hs. destruct (cards extra) as [cs|]; [|done].
  cbn [fmap option_fmap option_map default from_option id]. by rewrite strip_cards_display.
Qed.
End Leak.

(** Three dice, two coins and a card. *)
Definition leaked_extra : AdditionalEntropy := mkExtra (Some (str "316")) (Some (str "01")) (Some [mkCard Ace Spades]) None.
Definition leaked_key : GeneratedKey :=
  match @generate Toy.hashes toy_keys (Some drawn) Words12 leaked_extra with Ok k => k | _ => generated end.
Lemma leaked_extra_built : built leaked_extra.
Proof.
  apply (built_cards (str "AS") (mkExtra (Some (str "316")) (Some (str "01")) None None)); [|reflexivity].
  apply (built_coins (str "01") (mkExtra (Some (str "316")) None None None)); [|reflexivity].
  apply (built_dice (str "316") AdditionalEntropy_new); [constructor|reflexivity].
Qed.
Lemma sheet_debug_leaks_witness :
  read_debug (VerificationSheet_debug (from_key leaked_key)) = Some (str "316" ++ [30] ++ str "01" ++ [30] ++ str "AS").
Proof.
  change (str "316" ++ [30] ++ str "01" ++ [30] ++ str "AS") with (gk_extra_bytes leaked_key).
  apply (@sheet_debug_leaks Toy.hashes toy_keys toy_tag64 drawn Words12 leaked_extra leaked_key leaked_extra_built);
    [reflexivity|vm_compute; reflexivity].
Defined.
