(* ===== verification/SignerTests.v ===== *)
(** The unit tests of [trinity-signer], run on the model.

    The test modules of [window.rs], [limits.rs], [clock.rs] and [core_state.rs],
    translated statement by statement: a test is a list of steps on a counter,
    a fake clock and a fake block source, and its assertions are steps that may
    fail. [window_tests_pass] and its siblings evaluate them, so the model and
    the compiled crate agree on every value the project's own tests pin down.
    The fixture wallet is the toy wallet of [Toy]; tests that go through text
    formatting or threads, and three on full tables of inputs and bookings, are
    left out. *)
From S2P Require Import Prelude Ordered Types Bitcoin Aead CoreState Keystore Limits Clock.
From S2P Require Import Checksum Parse Derive Verify SignErrors Window Toy.
Import Toy.
#[local] Existing Instances hashes secp codec.

#[local] Instance ParseError_eq_dec : EqDecision ParseError.
Proof. solve_decision. Defined.
#[local] Instance DeriveError_eq_dec : EqDecision DeriveError.
Proof. solve_decision. Defined.
#[local] Instance VerifyError_eq_dec : EqDecision VerifyError.
Proof. solve_decision. Defined.
#[local] Instance BlobError_eq_dec : EqDecision BlobError.
Proof. solve_decision. Defined.
#[local] Instance CoreStateError_eq_dec : EqDecision CoreStateError.
Proof. solve_decision. Defined.
#[local] Instance SignError_eq_dec : EqDecision SignError.
Proof. solve_decision. Defined.
(** [assert_eq!(r.unwrap_err(), e)] *)
Definition fails_with {A} (e : SignError) (r : res SignError A) : bool :=
  match r with Err e' => bool_decide (e' = e) | _ => false end.

(** ** Steps *)

Record World := mkWorld { w_state : CoreState; w_clock : FakeClock; w_blocks : FakeBlockHeightSource }.
Definition world (tip : option Z) : World := mkWorld CoreState_empty FakeClock_new (mkFakeBlocks tip).

Inductive Step :=
  | Advance (wall : option Z)
  | AdvanceOn (clock : MonotonicClock)
  | ClockAdvance (d : Z)
  | ClockSet (d : Z)
  | Reboot
  | SetTip (tip : option Z)
  | Commit (a : SpendApproval)
  | Passphrase (used : bool)
  | Prune (window : Z)
  | Elapsed (d : Z)
  | Assert (P : CoreState → bool).

Definition on_state (f : CoreState → CoreState) (w : World) : World := mkWorld (f (w_state w)) (w_clock w) (w_blocks w).
Definition do_step (w : World) (s : Step) : option World :=
  match s with
  | Advance wall => Some (on_state (advance (FakeClock_reading (w_clock w)) (FakeBlocks_reading (w_blocks w)) wall) w)
  | AdvanceOn clock => Some (on_state (advance clock (FakeBlocks_reading (w_blocks w)) None) w)
  | ClockAdvance d => Some (mkWorld (w_state w) (FakeClock_advance d (w_clock w)) (w_blocks w))
  | ClockSet d => Some (mkWorld (w_state w) (FakeClock_set d (w_clock w)) (w_blocks w))
  | Reboot => Some (mkWorld (w_state w) (FakeClock_reboot (w_clock w)) (w_blocks w))
  | SetTip tip => Some (mkWorld (w_state w) (w_clock w) (FakeBlocks_set tip (w_blocks w)))
  | Commit a => Some (on_state (commit a) w)
  | Passphrase used => Some (on_state (set_passphrase_used used) w)
  | Prune window => Some (on_state (prune window) w)
  | Elapsed d => if window_elapsed_ns (w_state w) =? d then Some w else None
  | Assert P => if P (w_state w) then Some w else None
  end.
Fixpoint steps (w : World) (l : list Step) : bool :=
  match l with [] => true | s :: l => match do_step w s with Some w => steps w l | None => false end end.

(** ** [window.rs] *)

Module WindowTests.
Definition kek : bytes := replicate 32 0x42.
Definition policy_capped (cap : Z) : SpendPolicy := mkSpendPolicy None (Some 0) (Some cap) (from_secs (24 * 60 * 60)) true.
Definition outpoint (tag vout : Z) : OutPoint := mkOutPoint (replicate 32 tag) vout.
Definition test_input (tag : Z) : TxIn := mkTxIn (outpoint tag 0) [] 0xFFFFFFFD [].
Definition map_of (utxo : option TxOut) : PsbtInput := mkPsbtInput None utxo [] None None [] None None [].
Definition bare_psbt (tag in_sats out_sats : Z) : Psbt :=
  mkPsbt (mkTransaction 2 0 [test_input tag] [mkTxOut out_sats ([0; 20] ++ replicate 20 0xAA)])
    [map_of (Some (mkTxOut in_sats []))] [mkPsbtOutput [] []] [].
Definition book_for_test (tag charge : Z) : list Step := [Passphrase true; Commit (mkApproval [outpoint tag 0] charge)].
Definition wallet_desc : bytes := desc_string origin External.
Definition charge_verify : VerifyPolicy := mkPolicy [] 0 50000 5000 None 20 ∅ None Regtest.
Definition booked (n : Z) : Step := Assert (λ s, booked_sat s =? n).
Definition confirmed (sats : Z) : Balance := mkBalance sats 0 0 0.
Definition secs : Z → Z := from_secs.

Definition new_rejects_short_kek : bool :=
  fails_with InvalidKekLength (WindowCounter_new [1; 2; 3]) && fails_with InvalidKekLength (@WindowCounter_open ToyAead.aead [1] []).
Definition seal_open_roundtrip : bool :=
  match WindowCounter_new kek with
  | Ok c =>
      negb (passphrase_used_since_install (wc_state c)) &&
      let c := with_state (set_passphrase_used true) c in
      match @WindowCounter_seal ToyAead.aead (Some (replicate 24 1)) c with
      | Ok blob =>
          match @WindowCounter_open ToyAead.aead kek blob with
          | Ok opened => passphrase_used_since_install (wc_state opened) && (booked_sat (wc_state opened) =? 0)
          | _ => false
          end
      | _ => false
      end && negb (passphrase_used_since_install (wc_state (with_state (set_passphrase_used false) c)))
  | _ => false
  end.

(** [authorize] on a fresh clock. *)
Definition try_authorize (p : SpendPolicy) (psbt : Psbt) (desc : bytes) (v : VerifyPolicy) (b : Balance) (tip : option Z)
    (s : CoreState) : CoreState * res SignError SpendApproval :=
  authorize (mkEnv p psbt desc v b (FakeClock_reading FakeClock_new) (mkBlocks tip) None) s.

Definition first_use_blocks_before_any_booking : bool :=
  let '(s, r) := try_authorize (policy_capped 10000) (bare_psbt 1 100 90) (str "not-parsed-because-first-use")
    (mkPolicy [str "bcrt1qaaaaaaaaaaaaaaaaaaaaaaaaaaaaaaaaaaa"] 90 50000 5000 None 0 ∅ None Regtest) (confirmed 1000) (Some 10)
    CoreState_empty in
  fails_with SpendLimitExceeded r && initialized s.
Definition authorize_invalid_policy_does_not_advance_clock : bool :=
  let policy := mkSpendPolicy (window_fraction policy_standard) (Some 800) (Some 200) (window policy_standard) true in
  let '(s, r) := try_authorize policy (bare_psbt 1 100 50) wallet_desc charge_verify (confirmed 1000) None CoreState_empty in
  fails_with (SPolicy FloorAboveCap) r && negb (initialized s) && (window_elapsed_ns s =? 0).
Definition reboot_without_blocks_does_not_advance : bool :=
  steps (world None) [Advance None; ClockAdvance (secs 3600); Advance None; Elapsed (secs 3600); Reboot; Advance None; Elapsed (secs 3600)].
Definition reboot_does_not_advance_from_blocks_alone : bool :=
  steps (world (Some 100)) [Advance None; Reboot; SetTip (Some (100 + 144)); Advance None; Elapsed 0].
Definition min_of_mono_and_blocks : bool :=
  steps (world (Some 10)) [Advance None; ClockAdvance (secs 6000); SetTip (Some 11); Advance None; Elapsed (secs 600)].
Definition boot_id_change_without_mono_reset_is_untrusted : bool :=
  steps (world None)
    [AdvanceOn (mkClock 0 (Some 1)); AdvanceOn (mkClock 5000000000 (Some 1)); Elapsed (secs 5);
     AdvanceOn (mkClock 10000000000 (Some 2)); Elapsed (secs 5)].
Definition offline_same_boot_uses_monotonic : bool :=
  steps (world None) [Advance None; ClockAdvance (secs 90); Advance None; Elapsed (secs 90)].
Definition height_reorg_is_zero_block_progress : bool :=
  steps (world (Some 50)) [Advance None; SetTip (Some 40); ClockAdvance (secs 10); Advance None; Elapsed 0].
Definition wall_jump_forward_does_not_advance : bool :=
  steps (world (Some 1)) [Advance (Some 1000); Advance (Some (1000 + 86400 * 1000000000)); Elapsed 0].
Definition wall_jump_backward_does_not_advance : bool :=
  steps (world (Some 1)) [Advance (Some 5000); ClockAdvance (secs 10); Advance (Some 1); Elapsed 0].
Definition mono_regression_is_untrusted : bool :=
  steps (world None) [ClockSet (secs 50); Advance None; ClockSet (secs 10); Advance None; Elapsed 0].
Definition prune_drops_old_bookings : bool :=
  steps (world None) ([Advance None] ++ book_for_test 1 5 ++ [booked 5; ClockSet (secs 120); Advance None; Prune (secs 60); booked 0]).
Definition prune_keeps_only_booking_inside_window : bool :=
  steps (world None)
    ([Advance None] ++ book_for_test 1 5 ++ [ClockAdvance (secs 1); Advance None] ++ book_for_test 2 7 ++
     [ClockAdvance (secs 60); Advance None; Prune (secs 60);
      Assert (λ s, bool_decide (map bk_amount_sat (bookings s) = [7])); booked 7]).
Definition rbf_tracks_input_set_not_txid : bool :=
  let bookings := [mkBookedSpend [outpoint 1 0] 100 0] in
  (extra_against_bookings bookings [outpoint 1 0] 130 =? 30) && (extra_against_bookings bookings [outpoint 1 0] 80 =? 0) &&
  (extra_against_bookings bookings [outpoint 2 0] 50 =? 50).
Definition first_row (amount elapsed : Z) : Step :=
  Assert (λ s, match bookings s with b :: _ => (bk_amount_sat b =? amount) && (bk_elapsed_at_ns b =? elapsed) | [] => false end).
Definition commit_updates_existing_and_inserts_new : bool :=
  steps (world None)
    [Advance None; Commit (mkApproval [outpoint 9 0] 10); ClockAdvance (secs 5); Advance None; Commit (mkApproval [outpoint 9 0] 15);
     first_row 15 5000000000; ClockAdvance (secs 5); Advance None; Commit (mkApproval [outpoint 9 0] 15);
     first_row 15 5000000000; Commit (mkApproval [outpoint 8 0] 7); booked 22; Assert (λ s, (length (bookings s) =? 2)%nat)].
Definition same_inputs_length_mismatch : bool := negb (same_inputs [outpoint 0 0xFFFFFFFF; outpoint 0 0xFFFFFFFF] []).
Definition input_set_empty_psbt : bool := fails_with EmptyPsbt (input_set (mkPsbt (mkTransaction 2 0 [] []) [] [] [])).
Definition spend_charge_rejects_missing_witness_utxo : bool :=
  fails_with (SMissingWitnessUtxo 0)
    (spend_charge (mkPsbt (mkTransaction 2 0 [mkTxIn (outpoint 0 0xFFFFFFFF) [] 0xFFFFFFFD []] []) [map_of None] [] []) wallet_desc charge_verify).
Definition untrusted_pending_does_not_raise_allowance : bool :=
  (allowance policy_standard (spend_policy_reference_sats (mkBalance 200 0 10000 0)) =? 200) &&
  (allowance policy_standard (spend_policy_reference_sats (mkBalance 200 800 10000 0)) =? 200).
Definition seconds_per_block_is_ten_minutes : bool := SECONDS_PER_BLOCK =? 600.
Definition authorize_rejects_when_remaining_exhausted : bool :=
  fails_with SpendLimitExceeded
    (try_authorize (policy_capped 10) (bare_psbt 1 100 50) wallet_desc charge_verify (confirmed 10000) None
       (set_passphrase_used true CoreState_empty)).2.
Definition spend_charge_rejects_unparseable_descriptor : bool :=
  match spend_charge (bare_psbt 1 100 50) (str "not-a-descriptor") charge_verify with Err (SVerify _) => true | _ => false end.
Definition charge_rejects_outputs_exceeding_inputs : bool :=
  fails_with UnbalancedPsbt (spend_charge (bare_psbt 1 10 50) wallet_desc charge_verify).
Definition input_set_too_many_is_rejected : bool :=
  let psbt n := mkPsbt (mkTransaction 2 0 (map (λ i, test_input (Z.of_nat i)) (seq 0 n)) []) [] [] [] in
  fails_with TooManyInputs (input_set (psbt (S MAX_INPUTS))) &&
  match input_set (psbt MAX_INPUTS) with Ok l => (length l =? MAX_INPUTS)%nat | _ => false end.
Definition full : list Step :=
  Passphrase true :: map (λ i, Commit (mkApproval [outpoint (Z.of_nat i mod 256) (Z.of_nat i)] 1)) (seq 0 MAX_BOOKINGS).
Definition full_ledger (s : CoreState) : bool := (length (bookings s) =? MAX_BOOKINGS)%nat.
Definition commit_stops_at_max_bookings : bool :=
  steps (world None)
    (full ++ [Assert full_ledger;
      Assert (λ s, let '(s, r) := try_authorize policy_off (bare_psbt 0xFE 100 50) wallet_desc charge_verify (confirmed 10000) None s in
                   fails_with WindowLedgerFull r && full_ledger s);
      Commit (mkApproval [outpoint 0xFD 99] 9); Assert full_ledger]).
Definition wall_veto_forward_beyond_mono_zeroes_progress : bool :=
  steps (world (Some 100))
    [Advance (Some 1000); ClockAdvance (secs 3600); SetTip (Some 106); Advance (Some (1000 + 7200 * 1000000000)); Elapsed 0].
Definition wall_veto_backward_zeroes_progress : bool :=
  steps (world (Some 100)) [Advance (Some 10000); ClockAdvance (secs 3600); SetTip (Some 106); Advance (Some 1); Elapsed 0].
Definition wall_delta_equal_to_mono_is_not_a_jump : bool :=
  steps (world None)
    [Advance (Some 1000000000); ClockAdvance (secs 10); Advance (Some (1000000000 + 10000000000)); Elapsed (secs 10)].
Definition unchanged_wall_does_not_veto_mono : bool :=
  steps (world None) [Advance (Some 10000000000); ClockAdvance (secs 10); Advance (Some 10000000000); Elapsed (secs 10)].
Definition rbf_bump_refreshes_elapsed_so_row_does_not_expire_early : bool :=
  steps (world None)
    [Passphrase true; Advance None; Commit (mkApproval [outpoint 3 0] 100); ClockAdvance (secs (23 * 3600 + 59 * 60)); Advance None;
     Commit (mkApproval [outpoint 3 0] 500); ClockAdvance (secs 120); Advance None; Prune (secs (24 * 3600)); booked 500].
Definition wall_absent_does_not_veto : bool :=
  steps (world None)
    [Advance None; ClockAdvance (secs 5); Advance None; Elapsed (secs 5); ClockAdvance (secs 5); Advance (Some 99); Elapsed (secs 10)].
Definition same_boot_without_boot_id_uses_mono : bool :=
  steps (world None) [AdvanceOn (mkClock 0 None); AdvanceOn (mkClock 2000000000 None); Elapsed (secs 2)].

(** The tests of the spend window pass. *)
Lemma window_tests_pass :
  forallb id
    [new_rejects_short_kek; seal_open_roundtrip; first_use_blocks_before_any_booking;
     authorize_invalid_policy_does_not_advance_clock; reboot_without_blocks_does_not_advance;
     reboot_does_not_advance_from_blocks_alone; min_of_mono_and_blocks; boot_id_change_without_mono_reset_is_untrusted;
     offline_same_boot_uses_monotonic; height_reorg_is_zero_block_progress; wall_jump_forward_does_not_advance;
     wall_jump_backward_does_not_advance; mono_regression_is_untrusted; prune_drops_old_bookings;
     prune_keeps_only_booking_inside_window; rbf_tracks_input_set_not_txid; commit_updates_existing_and_inserts_new;
     same_inputs_length_mismatch; input_set_empty_psbt; spend_charge_rejects_missing_witness_utxo;
     untrusted_pending_does_not_raise_allowance; seconds_per_block_is_ten_minutes; authorize_rejects_when_remaining_exhausted;
     spend_charge_rejects_unparseable_descriptor; charge_rejects_outputs_exceeding_inputs; input_set_too_many_is_rejected;
     commit_stops_at_max_bookings; wall_veto_forward_beyond_mono_zeroes_progress; wall_veto_backward_zeroes_progress;
     wall_delta_equal_to_mono_is_not_a_jump; unchanged_wall_does_not_veto_mono;
     rbf_bump_refreshes_elapsed_so_row_does_not_expire_early; wall_absent_does_not_veto; same_boot_without_boot_id_uses_mono] = true.
Proof. vm_compute. reflexivity. Qed.
End WindowTests.

(** ** [limits.rs] *)

Module LimitsTests.
Definition hour_policy (fraction : option Ratio) (floor cap : Z) : SpendPolicy :=
  mkSpendPolicy fraction (Some floor) (Some cap) (from_secs (60 * 60)) true.
Definition with_bounds (floor cap : Z) (p : SpendPolicy) : SpendPolicy :=
  mkSpendPolicy (window_fraction p) (Some floor) (Some cap) (window p) (passphrase_on_first_use p).
Definition with_window (w : Z) (p : SpendPolicy) : SpendPolicy :=
  mkSpendPolicy (window_fraction p) (window_floor_sat p) (window_cap_sat p) w (passphrase_on_first_use p).
Definition with_fraction (f : option Ratio) (p : SpendPolicy) : SpendPolicy :=
  mkSpendPolicy f (window_floor_sat p) (window_cap_sat p) (window p) (passphrase_on_first_use p).
Definition refused (e : PolicyError) (p : SpendPolicy) : bool := match set_spend_policy p with Err e' => bool_decide (e' = e) | _ => false end.
Definition is_ok (p : SpendPolicy) : bool := match set_spend_policy p with Ok _ => true | _ => false end.
#[local] Instance Ratio_eq_dec : EqDecision Ratio.
Proof. solve_decision. Defined.
#[local] Instance SpendPolicy_eq_dec : EqDecision SpendPolicy.
Proof. solve_decision. Defined.
Definition accepted_as (p q : SpendPolicy) : bool := match set_spend_policy p with Ok r => bool_decide (r = q) | _ => false end.
Definition allowed (p : SpendPolicy) (l : list (Z * Z)) : bool := forallb (λ bx, allowance p bx.1 =? bx.2) l.

Definition ratio_rejects_zero_denominator : bool :=
  bool_decide (Ratio_new 1 0 = None) && bool_decide (Ratio_new 1 5 = Some PERCENT_20) && (numer PERCENT_20 =? 1) && (denom PERCENT_20 =? 5).
Definition ratio_of_and_mul : bool :=
  (Ratio_of PERCENT_20 1000 =? 200) && (Ratio_of PERCENT_20 999 =? 199) && (Ratio_of PERCENT_20 0 =? 0) && (Ratio_of (mkRatio 0 5) 100 =? 0).
Definition ratio_saturating_mul : bool :=
  (Ratio_of (mkRatio u64_max 1) 2 =? u64_max) && (Ratio_of (mkRatio 1 2) u64_max =? u64_max / 2).
Definition s29b_clamp_three_ranges_and_edges : bool :=
  allowed policy_standard [(0, 0); (100, 100); (199, 199); (200, 200); (999, 200); (1000, 200); (1500, 300); (2500, 500); (2501, 500); (10000, 500)].
Definition s29b_floor_equals_cap : bool := allowed (hour_policy (Some PERCENT_20) 300 300) [(100, 100); (300, 300); (10000, 300)].
Definition allowance_no_fraction_uses_cap : bool := allowed (hour_policy None 10 50) [(10000, 50); (5, 5)].
Definition allowance_off_is_the_balance : bool := allowed policy_off [(42, 42); (0, 0)].
Definition allowance_floor_above_cap_is_zero : bool := allowed (hour_policy (Some PERCENT_20) 500 200) [(10000, 0)].
Definition s29f_setter_rejects_floor_above_cap : bool :=
  refused FloorAboveCap (with_bounds 600 500 policy_standard) && refused FloorAboveCap (with_bounds 100 50 policy_standard) &&
  accepted_as (with_bounds 200 500 policy_standard) policy_standard.
Definition setter_rejects_disabled_first_use : bool :=
  refused InvalidSpendPolicy
    (mkSpendPolicy (window_fraction policy_standard) (window_floor_sat policy_standard) (window_cap_sat policy_standard) (window policy_standard) false).
Definition setter_accepts_equal_floor_and_cap : bool := accepted_as (hour_policy None 7 7) (hour_policy None 7 7).
Definition setter_rejects_zero_and_out_of_range_window : bool :=
  refused PolicyOutOfRange (with_window 0 policy_standard) && refused PolicyOutOfRange (with_window (from_secs (60 * 60 - 1)) policy_standard) &&
  refused PolicyOutOfRange (with_window (from_secs (7 * 24 * 60 * 60 + 1)) policy_standard) &&
  is_ok (with_window (from_secs (60 * 60)) policy_standard) && is_ok (with_window (from_secs (7 * 24 * 60 * 60)) policy_standard).
Definition setter_rejects_share_outside_one_to_hundred_percent : bool :=
  forallb (λ f, refused PolicyOutOfRange (with_fraction (Some f) policy_standard)) [mkRatio 0 5; mkRatio 1 200; mkRatio 2 1] &&
  forallb (λ f, is_ok (with_fraction f policy_standard)) [Some (mkRatio 1 100); Some (mkRatio 1 1); None].
Definition default_is_standard : bool := window policy_standard =? from_secs 86400.
Definition off_matches_spec : bool :=
  (window policy_off =? from_secs 86400) && accepted_as policy_off (mkSpendPolicy None None None (from_secs 86400) true).

(** The tests of the spend policy pass. *)
Lemma limits_tests_pass :
  forallb id
    [ratio_rejects_zero_denominator; ratio_of_and_mul; ratio_saturating_mul; s29b_clamp_three_ranges_and_edges;
     s29b_floor_equals_cap; allowance_no_fraction_uses_cap; allowance_off_is_the_balance; allowance_floor_above_cap_is_zero;
     s29f_setter_rejects_floor_above_cap; setter_rejects_disabled_first_use; setter_accepts_equal_floor_and_cap;
     setter_rejects_zero_and_out_of_range_window; setter_rejects_share_outside_one_to_hundred_percent; default_is_standard;
     off_matches_spec] = true.
Proof. vm_compute. reflexivity. Qed.
End LimitsTests.

(** ** [clock.rs] *)

Module ClockTests.
Definition shows (c : FakeClock) (now boot : Z) : bool :=
  (clock_now (FakeClock_reading c) =? now) && bool_decide (clock_boot_id (FakeClock_reading c) = Some boot).
Definition fake_clock_set_advance_reboot : bool :=
  shows FakeClock_new 0 1 &&
  let c := FakeClock_set (from_secs 10) FakeClock_new in shows c (from_secs 10) 1 &&
  let c := FakeClock_advance (from_secs 2) c in shows c (from_secs 12) 1 && shows (FakeClock_reboot c) 0 2.
Definition fake_clock_advance_saturates : bool := shows (FakeClock_advance 10 (FakeClock_set u64_max FakeClock_new)) u64_max 1.
Definition fake_blocks_offline_and_set : bool :=
  let tip b := tip_height (FakeBlocks_reading b) in
  let b := mkFakeBlocks None in
  bool_decide (tip b = None) && bool_decide (tip (FakeBlocks_set (Some 800000) b) = Some 800000) &&
  bool_decide (tip (FakeBlocks_set None (FakeBlocks_set (Some 800000) b)) = None) && bool_decide (tip (mkFakeBlocks (Some 1)) = Some 1).

(** The tests of the fake clocks pass. *)
Lemma clock_tests_pass : forallb id [fake_clock_set_advance_reboot; fake_clock_advance_saturates; fake_blocks_offline_and_set] = true.
Proof. vm_compute. reflexivity. Qed.
End ClockTests.

(** ** [core_state.rs] *)

Module CoreStateTests.
#[local] Existing Instance ToyAead.aead.
#[local] Instance BookedSpend_eq_dec : EqDecision BookedSpend.
Proof. solve_decision. Defined.
#[local] Instance CoreState_eq_dec : EqDecision CoreState.
Proof. solve_decision. Defined.

Definition KEK : bytes := replicate 32 0x5A.
Definition NONCE : bytes := replicate 24 0x11.
Definition sample_state : CoreState :=
  mkCoreState true 1000 (Some 800000) (Some 3) (Some 1700000000000000000) 5000 0 true
    [mkBookedSpend [mkOutPoint (replicate 32 7) 1] 42 10].
Definition or_nil (r : res CoreStateError bytes) : bytes := match r with Ok b => b | _ => [] end.
Definition sample_blob : bytes := or_nil (encrypt_at_nonce KEK NONCE sample_state).
Definition n_bookings (n : nat) : CoreState :=
  mkCoreState true 0 None None None 0 0 false
    (map (λ i, mkBookedSpend [mkOutPoint (replicate 32 (Z.of_nat i mod 256)) (Z.of_nat i)] 1 0) (seq 0 n)).
Definition opens_to (blob : bytes) (s : CoreState) : bool := bool_decide (decrypt KEK blob = Ok s).
Definition fails {A} (e : CoreStateError) (r : res CoreStateError A) : bool := match r with Err e' => bool_decide (e' = e) | _ => false end.
Definition set_at (i : nat) (v : Z) (b : bytes) : bytes := <[i := v]> b.
Definition flip_at (i : nat) (b : bytes) : bytes := alter (λ v, Z.lxor v 1) i b.
(** A plaintext sealed as it is. *)
Definition sealed (plaintext : bytes) : bytes := or_nil (seal KEK (encode_header NONCE) plaintext).
Definition layout_and_roundtrip : bool :=
  bool_decide (take 4 sample_blob = MAGIC) && bool_decide (sample_blob !! VERSION_OFFSET = Some VERSION) &&
  bool_decide (slice (E:=CoreStateError) RESERVED_OFFSET NONCE_OFFSET sample_blob = Ok [0; 0; 0]) &&
  bool_decide (slice (E:=CoreStateError) NONCE_OFFSET HEADER_LEN sample_blob = Ok NONCE) && opens_to sample_blob sample_state.
Definition empty_roundtrip : bool := opens_to (or_nil (encrypt_at_nonce KEK NONCE CoreState_empty)) CoreState_empty.
Definition unknown_sentinels_roundtrip_as_none : bool :=
  match decrypt KEK (or_nil (encrypt_at_nonce KEK NONCE (n_bookings 0))) with
  | Ok d => bool_decide (block_height_at_anchor d = None) && bool_decide (boot_id_at_anchor d = None) &&
            bool_decide (wall_unix_ns_at_anchor d = None)
  | _ => false
  end.
Definition decrypt_rejects_truncated_magic_version_reserved : bool :=
  fails Truncated (decrypt KEK []) && fails Truncated (decrypt KEK (replicate (HEADER_LEN + TAG_LEN - 1) 0)) &&
  fails BadMagic (decrypt KEK (replicate (HEADER_LEN + TAG_LEN) 0)) && fails BadMagic (decrypt KEK (set_at 0 88 sample_blob)) &&
  fails (UnsupportedVersion 2) (decrypt KEK (set_at VERSION_OFFSET 2 sample_blob)) &&
  fails UnsupportedReserved (decrypt KEK (set_at RESERVED_OFFSET 1 sample_blob)).
Definition decrypt_rejects_wrong_kek_and_bit_flips : bool :=
  fails AeadFailed (decrypt (replicate 32 0) sample_blob) && fails AeadFailed (decrypt KEK (flip_at HEADER_LEN sample_blob)) &&
  fails AeadFailed (decrypt KEK (flip_at NONCE_OFFSET sample_blob)) && fails AeadFailed (decrypt KEK (flip_at (length sample_blob - 1) sample_blob)).
Definition decode_rejects_bad_input_count_and_short_inputs : bool :=
  let raw ni := replicate 46 0 ++ le_bytes 2 1 ++ replicate 16 0 ++ le_bytes 2 ni in
  forallb (λ ni, fails Plaintext (decrypt KEK (sealed (raw ni)))) [0; Z.of_nat MAX_INPUTS + 1; 1].
Definition csrng_error_is_mapped : bool := fails CsRng (draw_nonce None).
Definition open_maps_tag_failure : bool := fails AeadFailed (open KEK (encode_header NONCE) (replicate TAG_LEN 0)).

(** The tests of the sealed state pass. *)
Lemma core_state_tests_pass :
  forallb id
    [layout_and_roundtrip; empty_roundtrip; unknown_sentinels_roundtrip_as_none; decrypt_rejects_truncated_magic_version_reserved;
     decrypt_rejects_wrong_kek_and_bit_flips; decode_rejects_bad_input_count_and_short_inputs; csrng_error_is_mapped;
     open_maps_tag_failure] = true.
Proof. vm_compute. reflexivity. Qed.
End CoreStateTests.
