(* ===== verification/TestWallet.v ===== *)
(** The fixture wallet of [trinity-signer]'s ceremony tests ([tests_wp33.rs]).

    Three keys from three entropies, their receive and change descriptors, a
    PSBT that spends one coin of the wallet, and a pair of on-device signers
    over two fake keystores. A test is a computation in [option]: [unwrap] and
    an assertion that fails end it with [None]. The stand-ins of [Toy] are
    completed for this purpose by a private derivation, which reads child
    secrets off the derived public keys, and by a script check that runs the
    2-of-3 CHECKMULTISIG on the witness, so that signatures in a wrong order
    are rejected. *)
From S2P Require Import Prelude Ordered Types Bitcoin Aead CoreState Keystore Limits Clock.
From S2P Require Import Checksum Parse Derive Verify SignErrors Window Entropy Sign Finalize Text Toy SignerTests.
Import Toy.

(** ** Stand-ins *)

(** Hashes and tweaks as in [Toy], but cheaper to evaluate: they mask instead of
    reducing, zero bytes are skipped, keys and chain codes are mostly zero, and
    both halves of an HMAC come from one pass. *)
Definition mix16 (l : bytes) : Z := foldl (λ acc b, if b =? 0 then acc else Z.land (acc * 3 + b + 1) 0xFFFF) 7 l.
Definition spread (v : Z) : bytes :=
  let v := Z.land (v * 40503) 0xFFFF in Z.shiftr v 8 :: Z.land v 0xFF :: replicate 30 0.
Definition test_hashes : Hashes := {|
  hmac_sha512 k m := let v := mix16 (k ++ m) in spread v ++ spread (Z.lxor v 0xFF);
  sha256 l := spread (mix16 l)
|}.
Definition test_secp : Secp := {|
  pubkey_valid := @pubkey_valid secp; seckey_valid := @seckey_valid secp;
  add_exp_tweak pk t :=
    match pk, t with
    | tag :: x0 :: x1 :: x, t0 :: t1 :: _ => Some (tag :: Z.land (x0 + t0) 0xFF :: Z.land (x1 + t1) 0xFF :: x)
    | _, _ => None
    end;
  pubkey_of_seckey := @pubkey_of_seckey secp; sign_ecdsa_low_r := @sign_ecdsa_low_r secp;
  verify_ecdsa := @verify_ecdsa secp; normalize_s := @normalize_s secp
|}.

(** The keys of a witness script [2 <k0> <k1> <k2> 3 CHECKMULTISIG]. *)
Definition script_keys (script : bytes) : list bytes :=
  [take 33 (drop 2 script); take 33 (drop 36 script); take 33 (drop 70 script)].

(** CHECKMULTISIG: signatures and keys are matched in one pass, in order. *)
Fixpoint checkmultisig (check : bytes → bytes → bool) (sigs keys : list bytes) : bool :=
  match sigs, keys with
  | [], _ => true
  | s :: sigs', k :: keys' =>
      if check s k then checkmultisig check sigs' keys' else checkmultisig check sigs keys'
  | _ :: _, [] => false
  end.

Definition check_2of3 (spk : bytes) (i : nat) (value : Z) (tx : Transaction) : bool :=
  match tx_input tx !! i with
  | Some t =>
      match witness t with
      | [[]; s0; s1; script] =>
          bool_decide (@p2wsh_script_pubkey test_hashes script = spk) &&
          checkmultisig (λ s k,
            match @p2wsh_signature_hash codec tx i script value with
            | Some msg => bool_decide (last s = Some 1) && @verify_ecdsa test_secp msg (take (length s - 1) s) k
            | None => false
            end) [s0; s1] (script_keys script)
      | _ => false
      end
  | None => false
  end.

(** Fourth character as key, fifth as chain code. *)
Definition test_xpub (s : bytes) : option (bytes * bytes) :=
  match drop 4 s with
  | k :: c :: _ => Some (c :: replicate 31 0, 2 :: k :: replicate 31 0)
  | _ => None
  end.
Definition test_codec : Codec := {|
  xpub_from_str := test_xpub;
  address_of_script := @address_of_script codec;
  compute_txid := @compute_txid codec;
  tx_vsize := @tx_vsize codec;
  p2wsh_signature_hash t i s v := if (i <? length (tx_input t))%nat then @p2wsh_signature_hash codec t i s v else None;
  verify_script := check_2of3;
  serialize_der := @serialize_der codec
|}.
#[export] Existing Instances test_hashes test_secp test_codec.
#[export] Existing Instance ToyAead.aead.

(** The account key of a master at [m/48'/1'/0'/2'], as the string [test_xpub] reads. *)
Definition account_xpub (m : bytes) : bytes := str "tpub" ++ [65 + hd 0 m mod 26; 49 + hd 0 m mod 9] ++ str "x".
Definition account_path : DerivationPath := [Hardened 48; Hardened 1; Hardened 0; Hardened 2].

Definition test_keys : KeyDerivation := {|
  mnemonic_from_entropy e := Some e;
  mnemonic_to_seed m := m;
  Xpriv := bytes;
  new_master s := Some s;
  xpriv_to_string m := m;
  xpriv_fingerprint m := [hd 0 m; 0; 0; 1];
  derive_priv m path :=
    match drop 4 path with
    | [Normal b; Normal i] =>
        if negb (bool_decide (take 4 path = account_path)) || (1 <? b) then None else
        match derive_child (mkKeyExpr [hd 0 m; 0; 0; 1] [] (account_xpub m) (if b =? 0 then External else Internal)) i with
        | Ok c => Some (drop 1 (dc_public_key c))
        | _ => None
        end
    | _ => None
    end
|}.
#[export] Existing Instance test_keys.

(** ** Tests *)

Definition unwrap {E A} (r : res E A) : option A := match r with Ok a => Some a | _ => None end.
Definition assert_that (b : bool) : option unit := if b then Some tt else None.
Definition passed (t : option unit) : bool := match t with Some _ => true | None => false end.
(** [assert!(r.is_err())] *)
Definition errs {A} (r : res SignError A) : bool := match r with Err _ => true | _ => false end.
(** [assert!(matches!(r.unwrap_err(), SignError::Verify(_)))] *)
Definition fails_verify {A} (r : res SignError A) : bool := match r with Err (SVerify _) => true | _ => false end.

(** ** The descriptor checksum, written again for the tests *)

Definition test_expand_step (st : list Z * list Z) (c : Z) : option (list Z * list Z) :=
  i ← position c INPUT_CHARSET;
  let v := Z.of_nat i in
  let symbols := st.2 ++ [Z.land v 31] in
  match st.1 ++ [Z.shiftr v 5] with
  | [g0; g1; g2] => Some ([], symbols ++ [g0 * 9 + g1 * 3 + g2])
  | groups => Some (groups, symbols)
  end.
Fixpoint test_expand_loop (st : list Z * list Z) (s : bytes) : option (list Z * list Z) :=
  match s with [] => Some st | c :: s => st ← test_expand_step st c; test_expand_loop st s end.
Definition test_expand (s : bytes) : option (list Z) :=
  st ← test_expand_loop ([], []) s;
  match st.1 with
  | [g0] => Some (st.2 ++ [g0])
  | [g0; g1] => Some (st.2 ++ [g0 * 3 + g1])
  | _ => Some st.2
  end.
Definition test_polymod (symbols : list Z) : Z :=
  foldl (λ chk value,
    let top := Z.shiftr chk 35 in
    foldl (λ chk '(i, gen), if Z.land (Z.shiftr top i) 1 =? 1 then Z.lxor chk gen else chk)
      (Z.lxor (Z.shiftl (Z.land chk 0x7ffffffff) 5) value) (zip [0; 1; 2; 3; 4] GENERATOR)) 1 symbols.
Definition with_checksum (script : bytes) : option bytes :=
  symbols ← test_expand script;
  let checksum_val := Z.lxor (test_polymod (symbols ++ replicate 8 0)) 1 in
  Some (script ++ str "#" ++
    map (λ i, nth (Z.to_nat (Z.land (Z.shiftr checksum_val (5 * (7 - Z.of_nat i))) 31)) CHECKSUM_CHARSET 0) (seq 0 8)).

Lemma test_expand_agrees s : test_expand s = unwrap (expand s).
Proof.
  unfold test_expand, expand. generalize ((@nil Z, @nil Z)) as st.
  induction s as [|c s IH]; intros st.
  - cbn. unfold expand_rest. by repeat case_match.
  - cbn [test_expand_loop fold_res]. unfold test_expand_step, expand_step.
    destruct (position c INPUT_CHARSET) as [i|]; [|done]. cbn [mbind option_bind res_bind ok_or].
    repeat case_match; simplify_eq; cbn [mbind option_bind res_bind]; apply IH.
Qed.
Lemma test_polymod_agrees l : test_polymod l = polymod l.
Proof. reflexivity. Qed.
(** The fixture's checksum is the crate's: on every string, also outside the charset. *)
Lemma with_checksum_agrees s : with_checksum s = unwrap (create_checksum s).
Proof.
  unfold with_checksum, create_checksum. rewrite test_expand_agrees. destruct (expand s); [|done..].
  cbn [mbind option_bind res_bind unwrap]. by rewrite test_polymod_agrees.
Qed.

(** ** The wallet *)

Definition KEK_A : bytes := replicate 32 0x11.
Definition KEK_B : bytes := replicate 32 0x22.
Definition ENTROPY_A : bytes := replicate 32 0xA0.
Definition ENTROPY_B : bytes := replicate 32 0xB0.
Definition ENTROPY_C : bytes := replicate 32 0xC0.

Record KeyMat := mkKeyMat { km_entropy : bytes; km_fp : Fingerprint; km_xpub : bytes }.
Record WalletFixture := mkWalletFixture { wf_a : KeyMat; wf_b : KeyMat; wf_receive : bytes; wf_change : bytes }.

Definition key_mat (entropy : bytes) : option KeyMat :=
  material ← unwrap (bip39_from_entropy entropy);
  master ← new_master (mat_seed material);
  Some (mkKeyMat entropy (xpriv_fingerprint master) (account_xpub master)).

Definition wallet_from_entropies (ea eb ec : bytes) : option WalletFixture :=
  a ← key_mat ea;
  b ← key_mat eb;
  c ← key_mat ec;
  let key k branch := str "[" ++ to_hex (km_fp k) ++ str "/48'/1'/0'/2']" ++ km_xpub k ++ str "/" ++ branch in
  let body branch := str "wsh(sortedmulti(2," ++ key a branch ++ str "," ++ key b branch ++ str "," ++ key c branch ++ str "))" in
  receive ← with_checksum (body (str "0/*"));
  change ← with_checksum (body (str "1/*"));
  Some (mkWalletFixture a b receive change).
Definition default_wallet : option WalletFixture := wallet_from_entropies ENTROPY_A ENTROPY_B ENTROPY_C.

(** Two fake keystores side by side; each signer has its own. *)
Notation Fakes := (FakeState * FakeState)%type.
Definition fakes_new : Fakes := (Fake_new, Fake_new).
Definition lift_store {S T} (get : T → S) (put : S → T → T) (p : PlatformKeyStore S) : PlatformKeyStore T :=
  let run {A} (f : S → S * A) (t : T) : T * A := let '(s, r) := f (get t) in (put s t, r) in
  mkPlatform T (λ k b, run (unwrap_kek p k b)) (λ k b, run (wrap_kek p k b)) (λ k q, run (provision p k q)) (λ k, run (destroy p k)).
Definition fake_a : PlatformKeyStore Fakes := lift_store fst (λ s t, (s, t.2)) FakePlatformKeyStore.
Definition fake_b : PlatformKeyStore Fakes := lift_store snd (λ s t, (t.1, s)) FakePlatformKeyStore.
Definition reset_both (w : Fakes) : Fakes := (reset_calls w.1, reset_calls w.2).
Definition unwraps (a b : nat) (w : Fakes) : bool := (unwrap_calls w.1 =? a)%nat && (unwrap_calls w.2 =? b)%nat.

Definition blob_for (slot : KeySlot) (kek entropy : bytes) (wc : WordCount) : option bytes :=
  unwrap (blob_encrypt (Some (replicate 24 3)) kek slot wc 0 entropy 0).
Definition signer_for (slot : KeySlot) (fp : Fingerprint) (kek entropy : bytes) (wc : WordCount)
    (fake : PlatformKeyStore Fakes) : option (LocalSigner Fakes) :=
  blob ← blob_for slot kek entropy wc;
  unwrap (LocalSigner_new slot fp fake kek blob).
Definition pair_signers (wallet : WalletFixture) : option (LocalSigner Fakes * LocalSigner Fakes) :=
  a ← signer_for SlotA (km_fp (wf_a wallet)) KEK_A (km_entropy (wf_a wallet)) Words24 fake_a;
  b ← signer_for SlotB (km_fp (wf_b wallet)) KEK_B (km_entropy (wf_b wallet)) Words24 fake_b;
  Some (a, b).

(** ** A spend of the wallet *)

Definition bip32_derivation_for (descriptor : ParsedDescriptor) (index : Z) : option (list (bytes * KeySource)) :=
  derived ← unwrap (derive_at descriptor index);
  foldl (λ acc '(key_expr, child),
    m ← acc;
    let branch := match derivation key_expr with External => 0 | Internal => 1 end in
    path ← DerivationPath_from_str (str "m/" ++ origin_path key_expr ++ str "/" ++ dec branch ++ str "/" ++ dec index);
    Some (bmap_insert (dc_public_key child) (fingerprint key_expr, path) m))
    (Some []) (zip (desc_keys descriptor) (children derived)).

Definition test_outpoint (n : Z) : OutPoint := mkOutPoint (replicate 32 n) 0.
Definition RBF_SEQUENCE : Z := 0xFFFFFFFD.
Record BuiltPsbt := mkBuiltPsbt { built_psbt : Psbt; built_policy : VerifyPolicy }.

(** [Psbt::from_unsigned_tx] of one input, with the maps the tests fill in. *)
Definition one_input_psbt (op : OutPoint) (outs : list (TxOut * list (bytes * KeySource))) (utxo : TxOut) (script : bytes)
    (derivation : list (bytes * KeySource)) : Psbt :=
  mkPsbt (mkTransaction 2 0 [mkTxIn op [] RBF_SEQUENCE []] (map fst outs))
    [mkPsbtInput None (Some utxo) [] None (Some script) derivation None None []] (map (λ o, mkPsbtOutput o.2 []) outs) [].

(** The common end of the two builders: pay [recip], change to the wallet. *)
Definition built_spend (wallet : WalletFixture) (recv chg : ParsedDescriptor) (op : OutPoint) (input_index change_index : Z)
    (recip recip_addr : bytes) (input_sats send_sats fee_sats : Z) : option BuiltPsbt :=
  in_der ← unwrap (derive_at recv input_index);
  ch_der ← unwrap (derive_at chg change_index);
  rest ← checked_sub input_sats send_sats;
  change_sats ← checked_sub rest fee_sats;
  let witness_utxo := mkTxOut input_sats (do_script_pubkey in_der) in
  in_map ← bip32_derivation_for recv input_index;
  out_map ← bip32_derivation_for chg change_index;
  let psbt := one_input_psbt op
    [(mkTxOut send_sats recip, []); (mkTxOut change_sats (do_script_pubkey ch_der), out_map)]
    witness_utxo (do_witness_script in_der) in_map in
  let policy := mkPolicy [recip_addr] send_sats (sat_mul fee_sats 10 `max` 50000) 5000 None 20
    {[op := witness_utxo]} (Some (wf_change wallet)) Regtest in
  Some (mkBuiltPsbt psbt policy).

Definition wp33_build_psbt (wallet : WalletFixture) (input_index change_index recipient_index input_sats send_sats fee_sats : Z)
    : option BuiltPsbt :=
  recv ← unwrap (parse (wf_receive wallet));
  chg ← unwrap (parse (wf_change wallet));
  recip_der ← unwrap (derive_at recv recipient_index);
  recip_addr ← address_of_script (do_script_pubkey recip_der) Regtest;
  let op := test_outpoint (((input_index mod 256 + 1) mod 256) `max` 1) in
  built_spend wallet recv chg op input_index change_index (do_script_pubkey recip_der) recip_addr input_sats send_sats fee_sats.

(** ** Changes the tests make to a PSBT *)

Definition with_input0 (f : PsbtInput → PsbtInput) (p : Psbt) : Psbt :=
  mkPsbt (unsigned_tx p) (alter f 0%nat (psbt_inputs p)) (psbt_outputs p) (psbt_proprietary p).
Definition with_tx (f : Transaction → Transaction) (p : Psbt) : Psbt :=
  mkPsbt (f (unsigned_tx p)) (psbt_inputs p) (psbt_outputs p) (psbt_proprietary p).
Definition with_output (n : nat) (f : TxOut → TxOut) : Psbt → Psbt :=
  with_tx (λ t, mkTransaction (tx_version t) (tx_lock_time t) (tx_input t) (alter f n (tx_output t))).
Definition set_utxo (u : option TxOut) (i : PsbtInput) : PsbtInput :=
  mkPsbtInput (non_witness_utxo i) u (partial_sigs i) (sighash_type i) (witness_script i) (in_bip32_derivation i)
    (final_script_sig i) (final_script_witness i) (in_proprietary i).
Definition set_sigs (l : list (BtcPublicKey * EcdsaSignature)) (i : PsbtInput) : PsbtInput :=
  mkPsbtInput (non_witness_utxo i) (witness_utxo i) l (sighash_type i) (witness_script i) (in_bip32_derivation i)
    (final_script_sig i) (final_script_witness i) (in_proprietary i).
Definition set_sighash (n : Z) (i : PsbtInput) : PsbtInput :=
  mkPsbtInput (non_witness_utxo i) (witness_utxo i) (partial_sigs i) (Some n) (witness_script i) (in_bip32_derivation i)
    (final_script_sig i) (final_script_witness i) (in_proprietary i).
Definition set_script (s : option bytes) (i : PsbtInput) : PsbtInput :=
  mkPsbtInput (non_witness_utxo i) (witness_utxo i) (partial_sigs i) (sighash_type i) s (in_bip32_derivation i)
    (final_script_sig i) (final_script_witness i) (in_proprietary i).
Definition set_derivation (l : list (bytes * KeySource)) (i : PsbtInput) : PsbtInput :=
  mkPsbtInput (non_witness_utxo i) (witness_utxo i) (partial_sigs i) (sighash_type i) (witness_script i) l
    (final_script_sig i) (final_script_witness i) (in_proprietary i).
Definition insert_sig (pk : bytes) (sig : EcdsaSignature) (i : PsbtInput) : PsbtInput :=
  set_sigs (bmap_insert (true, pk) sig (partial_sigs i)) i.
Definition sigs0 (p : Psbt) : list (BtcPublicKey * EcdsaSignature) :=
  match psbt_inputs p with i :: _ => partial_sigs i | [] => [] end.
Definition p2wpkh (b : Z) : bytes := [0; 20] ++ replicate 20 b.
