(* ===== verification/CeremonyTests.v ===== *)
(** The ceremony tests of [trinity-signer], run on the model.

    [tests_wp33.rs] (the two signatures and their guards) and [tests_wp34.rs]
    (the spend window around them), translated test by test over the fixture of
    [TestWallet], with the test modules of [sign.rs] and [local.rs]. A fake clock, a fake block source, two fake keystores and the
    counter make up a [Scene], which [session_sign_ab] moves on. The lemmas
    [helper_tests_pass], [signing_tests_pass] and [limit_tests_pass] evaluate the tests: the model
    and the crate agree on every outcome the tests assert, which keys were
    touched included. *)
From S2P Require Import Prelude Ordered Types Bitcoin Aead CoreState Keystore Limits Clock.
From S2P Require Import Checksum Parse Derive Verify SignErrors Window Entropy Sign Finalize Text Toy Redact SignerTests TestWallet.

#[local] Instance TxIn_eq_dec : EqDecision TxIn.
Proof. solve_decision. Defined.
#[local] Instance Transaction_eq_dec : EqDecision Transaction.
Proof. solve_decision. Defined.
#[local] Instance EcdsaSignature_eq_dec : EqDecision EcdsaSignature.
Proof. solve_decision. Defined.
#[local] Instance PsbtInput_eq_dec : EqDecision PsbtInput.
Proof. solve_decision. Defined.
#[local] Instance PsbtOutput_eq_dec : EqDecision PsbtOutput.
Proof. solve_decision. Defined.
#[local] Instance Psbt_eq_dec : EqDecision Psbt.
Proof. solve_decision. Defined.

(** ** A session over the fakes *)

Record Scene := mkScene { sc_state : CoreState; sc_clock : FakeClock; sc_blocks : FakeBlockHeightSource; sc_fakes : Fakes }.
Definition set_clock (f : FakeClock → FakeClock) (s : Scene) : Scene := mkScene (sc_state s) (f (sc_clock s)) (sc_blocks s) (sc_fakes s).
Definition set_tip (tip : Z) (s : Scene) : Scene := mkScene (sc_state s) (sc_clock s) (FakeBlocks_set (Some tip) (sc_blocks s)) (sc_fakes s).
Definition set_counter (c : CoreState) (s : Scene) : Scene := mkScene c (sc_clock s) (sc_blocks s) (sc_fakes s).
Definition reset_scene (s : Scene) : Scene := mkScene (sc_state s) (sc_clock s) (sc_blocks s) (reset_both (sc_fakes s)).

Definition CORE_KEK : bytes := replicate 32 0x3C.
Definition ready_counter : option WindowCounter := with_state (set_passphrase_used true) <$> unwrap (WindowCounter_new CORE_KEK).
(** [ready_counter()], [FakeClock::new()] and [FakeBlockHeightSource::new(Some(tip))]. *)
Definition fresh_scene (tip : Z) : option Scene := (λ c, mkScene (wc_state c) FakeClock_new (mkFakeBlocks (Some tip)) fakes_new) <$> ready_counter.

Definition confirmed_only (sats : Z) : Balance := mkBalance sats 0 0 0.
Definition spend_session (policy : SpendPolicy) (balance : Balance) (wall : option Z) (wallet : WalletFixture) (b : BuiltPsbt) (s : Scene) : SpendEnv :=
  mkEnv policy (built_psbt b) (wf_receive wallet) (built_policy b) balance (FakeClock_reading (sc_clock s)) (FakeBlocks_reading (sc_blocks s)) wall.
Definition session_sign_ab (ab : LocalSigner Fakes * LocalSigner Fakes) (policy : SpendPolicy) (balance : Balance) (wall : option Z)
    (wallet : WalletFixture) (b : BuiltPsbt) (s : Scene) : Scene * res SignError Psbt :=
  let '(c, w, r) := sign_ab (local_signer ab.1) (local_signer ab.2) (spend_session policy balance wall wallet b s) (sc_state s) (sc_fakes s) in
  (mkScene c (sc_clock s) (sc_blocks s) w, r).
Definition session_authorize (policy : SpendPolicy) (balance : Balance) (wallet : WalletFixture) (b : BuiltPsbt) (s : Scene)
    : Scene * res SignError SpendApproval :=
  let '(c, r) := authorize (spend_session policy balance None wallet b s) (sc_state s) in (set_counter c s, r).

(** ** The test modules of [sign.rs] and [local.rs]; those on erasing secrets
    and on a malformed signature are left out. *)

Module HelperTests.
Definition null_input : TxIn := mkTxIn (mkOutPoint (replicate 32 0) u32_max) [] RBF_SEQUENCE [].
Definition empty_map : PsbtInput := mkPsbtInput None None [] None None [] None None [].

Definition sighash_is_all_accepts_only_all : option unit :=
  assert_that (sighash_is_all 1 && negb (sighash_is_all 2) && negb (sighash_is_all 3) && negb (sighash_is_all 129) &&
    negb (sighash_is_all 0xFF)).
Definition p2wsh_sighash_rejects_out_of_range_index : option unit :=
  assert_that (fails_with (SSighash 0) (p2wsh_sighash (mkTransaction 2 0 [] []) 0 [] 1)).
Definition verify_own_signature_rejects_wrong_key : option unit :=
  let sk := replicate 32 1 in
  let pk := pubkey_of_seckey sk in
  let other_pk := pubkey_of_seckey (replicate 32 2) in
  let msg := replicate 32 3 in
  let sig := sign_ecdsa_low_r msg sk in
  _ ← unwrap (verify_own_signature msg sig pk);
  assert_that (fails_with SelfVerificationFailed (verify_own_signature msg sig other_pk)).
Definition seed_from_entropy_rejects_bad_length : option unit :=
  assert_that (fails_with SEntropy (seed_from_entropy (replicate 15 0)) &&
    is_ok (seed_from_entropy (replicate 16 0)) && is_ok (seed_from_entropy (replicate 32 0))).
Definition sighash_message_requires_utxo_and_script : option unit :=
  let tx := mkTransaction 2 0 [null_input] [] in
  assert_that (fails_with (SMissingWitnessUtxo 0) (sighash_message tx 0 empty_map) &&
    fails_with (MissingWitnessScript 0) (sighash_message tx 0 (set_utxo (Some (mkTxOut 1 [])) empty_map))).
Definition preflight_empty_psbt : option unit :=
  let psbt := mkPsbt (mkTransaction 2 0 [] [mkTxOut 1 []]) [] [mkPsbtOutput [] []] [] in
  assert_that (fails_with EmptyPsbt (preflight_inputs psbt (replicate 4 0))).
Definition preflight_missing_fields : option unit :=
  let fp := [1; 2; 3; 4] in
  let with_map i := mkPsbt (mkTransaction 2 0 [null_input] [mkTxOut 1 []]) [i] [mkPsbtOutput [] []] [] in
  _ ← assert_that (fails_with (SMissingWitnessUtxo 0) (preflight_inputs (with_map empty_map) fp));
  let i := set_utxo (Some (mkTxOut 2 [])) empty_map in
  _ ← assert_that (fails_with (MissingWitnessScript 0) (preflight_inputs (with_map i) fp));
  let i := set_script (Some []) i in
  _ ← assert_that (fails_with (MissingDerivation 0) (preflight_inputs (with_map i) fp));
  let pk := pubkey_of_seckey (replicate 32 1) in
  let i := set_derivation (bmap_insert pk (fp, []) (in_bip32_derivation i)) i in
  unwrap (preflight_inputs (with_map i) fp).

Definition new_rejects_slot_c : option unit :=
  assert_that (fails_with SInvalidSlot (LocalSigner_new SlotC (replicate 4 0) FakePlatformKeyStore (replicate 32 0) [])).
Definition new_accepts_a_and_b : option unit :=
  assert_that (forallb (λ slot,
    match LocalSigner_new slot [1; 2; 3; 4] FakePlatformKeyStore (replicate 32 0) [1; 2; 3] with
    | Ok s => bool_decide (ls_slot _ s = slot) && bool_decide (signer_fingerprint (local_signer s) = [1; 2; 3; 4]) &&
              match signer_kind (local_signer s) with Local => true | _ => false end
    | _ => false
    end) [SlotA; SlotB]).
Definition debug_redacts_kek : option unit :=
  s ← unwrap (LocalSigner_new SlotA [0xab; 0xcd; 0x12; 0x34] FakePlatformKeyStore [0xde; 0xad; 0xbe; 0xef] (replicate 8 9));
  let rendered := LocalSigner_debug s in
  assert_that (contains (str "[redacted]") rendered && contains (str "abcd1234") rendered && negb (contains (str "dead") rendered) &&
    negb (contains (str "beef") rendered) && contains (str "blob_len: 8") rendered).

(** The tests of the signing helpers and of the on-device signer pass. *)
Lemma helper_tests_pass :
  forallb passed
    [sighash_is_all_accepts_only_all; p2wsh_sighash_rejects_out_of_range_index; verify_own_signature_rejects_wrong_key;
     seed_from_entropy_rejects_bad_length; sighash_message_requires_utxo_and_script; preflight_empty_psbt; preflight_missing_fields;
     new_rejects_slot_c; new_accepts_a_and_b; debug_redacts_kek] = true.
Proof. vm_compute. reflexivity. Qed.
End HelperTests.

(** ** [tests_wp33.rs] *)

Module SigningTests.

(** What most tests start with: the wallet, its signers, one spend. *)
Definition spend_fixture : option (WalletFixture * (LocalSigner Fakes * LocalSigner Fakes) * BuiltPsbt) :=
  wallet ← default_wallet;
  ab ← pair_signers wallet;
  built ← wp33_build_psbt wallet 0 0 5 100000 40000 1000;
  Some (wallet, ab, built).
(** The generator point, compressed. *)
Definition dummy_pk : bytes :=
  [0x02; 0x79; 0xbe; 0x66; 0x7e; 0xf9; 0xdc; 0xbb; 0xac; 0x55; 0xa0; 0x62; 0x95; 0xce; 0x87; 0x0b; 0x07; 0x02; 0x9b; 0xfc; 0xdb; 0x2d;
   0xce; 0x28; 0xd9; 0x59; 0xf2; 0x81; 0x5b; 0x16; 0xf8; 0x17; 0x98].
(** A signature of a key that is not in the wallet. *)
Definition foreign_sig (sk msg : Z) (t : EcdsaSighashType) (i : PsbtInput) : PsbtInput :=
  insert_sig (pubkey_of_seckey (replicate 32 sk)) (mkSig (sign_ecdsa_low_r (replicate 32 msg) (replicate 32 sk)) t) i.

Definition bip380_expand_remainder_lengths : option unit :=
  zero ← with_checksum (str "wsh");
  one ← with_checksum (str "w");
  two ← with_checksum (str "ws");
  assert_that (has_char 35 zero && has_char 35 one && has_char 35 two &&
    negb (bool_decide (one = two)) && negb (bool_decide (zero = one))).

Definition sign_a_then_sign_b_produces_two_partial_sigs : option unit :=
  '(wallet, ab, built) ← spend_fixture;
  let txid := compute_txid (unsigned_tx (built_psbt built)) in
  let '(w, r) := sign_a (local_signer ab.1) (built_psbt built) (wf_receive wallet) (built_policy built) fakes_new in
  signed_a ← unwrap r;
  _ ← assert_that (unwraps 1 0 w && (length (sigs0 signed_a) =? 1)%nat);
  let '(w, r) := sign_b (local_signer ab.2) signed_a txid (wf_receive wallet) (built_policy built) w in
  signed_ab ← unwrap r;
  _ ← assert_that (unwraps 1 1 w && (length (sigs0 signed_ab) =? 2)%nat &&
    bool_decide (sighash_type <$> head (psbt_inputs signed_ab) = Some (Some 1)));
  again ← wp33_build_psbt wallet 0 0 5 100000 40000 1000;
  counter ← unwrap (WindowCounter_new (replicate 32 0x7A));
  let s := mkScene (set_passphrase_used true (wc_state counter)) FakeClock_new (mkFakeBlocks (Some 100)) w in
  via_ab ← unwrap (session_sign_ab ab policy_off (confirmed_only 100000) None wallet again s).2;
  assert_that (length (sigs0 via_ab) =? 2)%nat.

Definition p4_sign_is_bit_identical : option unit :=
  '(wallet, ab, built) ← spend_fixture;
  let '(w, r) := local_sign ab.1 (built_psbt built) fakes_new in
  first ← unwrap r;
  second ← unwrap (local_sign ab.1 (built_psbt built) w).2;
  assert_that (bool_decide (first = second)).
Definition p4_sign_determinism_over_random_keys (ea eb ec : bytes) (send : Z) : option unit :=
  wallet ← wallet_from_entropies ea eb ec;
  signer ← signer_for SlotA (km_fp (wf_a wallet)) KEK_A (km_entropy (wf_a wallet)) Words24 fake_a;
  built ← wp33_build_psbt wallet 0 1 4 100000 send 1000;
  let '(w, r) := local_sign signer (built_psbt built) fakes_new in
  first ← unwrap r;
  second ← unwrap (local_sign signer (built_psbt built) w).2;
  assert_that (bool_decide (first = second)).
Definition words12_blob_signs : option unit :=
  let ea := replicate 16 0x12 in
  wallet ← wallet_from_entropies ea ENTROPY_B ENTROPY_C;
  signer ← signer_for SlotA (km_fp (wf_a wallet)) KEK_A ea Words12 fake_a;
  built ← wp33_build_psbt wallet 0 0 5 80000 30000 1000;
  signed ← unwrap (local_sign signer (built_psbt built) fakes_new).2;
  assert_that (length (sigs0 signed) =? 1)%nat.

Definition s9_manipulated_change_output_blocks_before_key_access : option unit :=
  '(wallet, ab, built) ← spend_fixture;
  let psbt := with_output 1 (λ o, mkTxOut (txo_value o) (p2wpkh 0x42)) (built_psbt built) in
  let '(w, r) := sign_a (local_signer ab.1) psbt (wf_receive wallet) (built_policy built) fakes_new in
  assert_that (fails_with (SVerify (ForeignChangeOutput 1)) r && unwraps 0 0 w).
Definition s10_manipulation_between_a_and_b_is_detected : option unit :=
  '(wallet, ab, built) ← spend_fixture;
  let txid := compute_txid (unsigned_tx (built_psbt built)) in
  let '(w, r) := sign_a (local_signer ab.1) (built_psbt built) (wf_receive wallet) (built_policy built) fakes_new in
  signed_a ← unwrap r;
  let signed_a := with_tx (λ t, mkTransaction (tx_version t) 100000 (tx_input t) (tx_output t)) signed_a in
  let '(w, r) := sign_b (local_signer ab.2) signed_a txid (wf_receive wallet) (built_policy built) w in
  assert_that (fails_with UnsignedTxChanged r && unwraps 1 0 w).
Definition sign_b_rejects_missing_or_wrong_a_signature : option unit :=
  '(wallet, ab, built) ← spend_fixture;
  let txid := compute_txid (unsigned_tx (built_psbt built)) in
  let '(w, r) := sign_b (local_signer ab.2) (built_psbt built) txid (wf_receive wallet) (built_policy built) fakes_new in
  _ ← assert_that (fails_with UnexpectedKeyASignature r && unwraps 0 0 w);
  let '(w, r) := sign_a (local_signer ab.1) (built_psbt built) (wf_receive wallet) (built_policy built) w in
  signed_a ← unwrap r;
  let signed_a := with_input0 (λ i, foreign_sig 7 8 SighashAll (set_sigs [] i)) signed_a in
  let '(w, r) := sign_b (local_signer ab.2) signed_a txid (wf_receive wallet) (built_policy built) w in
  assert_that (fails_with UnexpectedKeyASignature r && unwraps 1 0 w).
Definition check_key_a_signatures_maps_parse_error : option unit :=
  '(_, _, built) ← spend_fixture;
  assert_that (fails_verify (check_key_a_signatures (built_psbt built) (str "not-a-descriptor"))).
Definition sign_a_non_all_is_verify_error_without_unwrap : option unit :=
  '(wallet, ab, built) ← spend_fixture;
  let psbt := with_input0 (set_sighash 2) (built_psbt built) in
  let '(w, r) := sign_a (local_signer ab.1) psbt (wf_receive wallet) (built_policy built) fakes_new in
  assert_that (fails_with (SVerify (NonSighashAll 0)) r && unwraps 0 0 w).

(** [a.sign(f(psbt))] fails with [e] after [n] unwraps. *)
Definition sign_fails (f : PsbtInput → PsbtInput) (e : SignError) (n : nat) : option unit :=
  '(_, ab, built) ← spend_fixture;
  let '(w, r) := local_sign ab.1 (with_input0 f (built_psbt built)) fakes_new in
  assert_that (fails_with e r && unwraps n 0 w).
Definition sign_rejects_non_all_sighash_without_verify : option unit := sign_fails (set_sighash 2) (SNonSighashAll 0) 0.
Definition sign_rejects_non_all_partial_sig : option unit := sign_fails (foreign_sig 3 4 SighashNone) (SNonSighashAll 0) 0.
Definition sign_rejects_nonstandard_sighash_field : option unit := sign_fails (set_sighash 0xFF) (SNonSighashAll 0) 0.

(** A signer of key A with this fingerprint, over a prepared keystore, signs [f(psbt)]. *)
Definition sign_prepared (slot : KeySlot) (fp : KeyMat → Fingerprint) (prepare : FakeState → FakeState) (f : PsbtInput → PsbtInput)
    : option (Fakes * res SignError Psbt) :=
  '(wallet, _, built) ← spend_fixture;
  blob ← blob_for slot KEK_A (km_entropy (wf_a wallet)) Words24;
  a ← unwrap (LocalSigner_new SlotA (fp (wf_a wallet)) fake_a KEK_A blob);
  Some (local_sign a (with_input0 f (built_psbt built)) (prepare Fake_new, Fake_new)).
Definition sign_platform_error_after_preflight : option unit :=
  '(w, r) ← sign_prepared SlotA km_fp (fail_unwrap UnwrapRejected) id;
  assert_that (fails_with (SPlatform UnwrapRejected) r && unwraps 1 0 w).
Definition sign_invalid_kek_length : option unit :=
  '(_, r) ← sign_prepared SlotA km_fp (succeed_unwrap_with (replicate 8 0xAA)) id;
  assert_that (fails_with InvalidKekLength r).
Definition sign_blob_aead_on_wrong_kek : option unit :=
  '(_, r) ← sign_prepared SlotA km_fp (succeed_unwrap_with (replicate 32 0x99)) id;
  assert_that (match r with Err (SBlob _) => true | _ => false end).
Definition sign_fingerprint_mismatch : option unit :=
  let wrong_fp := replicate 4 0xFF in
  path ← DerivationPath_from_str (str "m/48'/1'/0'/2'/0/0");
  '(_, r) ← sign_prepared SlotA (λ _, wrong_fp) id
    (λ i, set_derivation (bmap_insert dummy_pk (wrong_fp, path) (in_bip32_derivation i)) i);
  assert_that (fails_with FingerprintMismatch r).
Definition sign_slot_mismatch_after_decrypt : option unit :=
  '(_, r) ← sign_prepared SlotB km_fp id id;
  assert_that (fails_with SInvalidSlot r).
Definition sign_pubkey_mismatch : option unit :=
  '(wallet, ab, built) ← spend_fixture;
  let our_fp := km_fp (wf_a wallet) in
  input ← psbt_inputs (built_psbt built) !! 0%nat;
  '(old_key, source) ← List.find (λ e, bool_decide (e.2.1 = our_fp)) (in_bip32_derivation input);
  let removed := filter (λ e, e.1 ≠ old_key) (in_bip32_derivation input) in
  let psbt := with_input0 (set_derivation (bmap_insert dummy_pk source removed)) (built_psbt built) in
  assert_that (fails_with (PubkeyMismatch 0) (local_sign ab.1 psbt fakes_new).2).
Definition check_key_a_signatures_rejects_non_all : option unit :=
  '(wallet, ab, built) ← spend_fixture;
  signed_a ← unwrap (local_sign ab.1 (built_psbt built) fakes_new).2;
  '(pk, sig) ← head (sigs0 signed_a);
  let signed_a := with_input0 (insert_sig pk.2 (mkSig (sig_compact sig) SighashNone)) signed_a in
  assert_that (fails_with (SNonSighashAll 0) (check_key_a_signatures signed_a (wf_receive wallet))).
Definition signer_trait_object_and_kind : option unit :=
  '(wallet, ab, _) ← spend_fixture;
  let s := local_signer ab.1 in
  assert_that (match signer_kind s with Local => true | _ => false end && bool_decide (signer_fingerprint s = km_fp (wf_a wallet))).
Definition preflight_non_all_is_independent_of_verify : option unit :=
  '(wallet, _, built) ← spend_fixture;
  assert_that (fails_with (SNonSighashAll 0) (preflight_inputs (with_input0 (set_sighash 3) (built_psbt built)) (km_fp (wf_a wallet)))).

(** The tests of the two signatures pass; the random one on two draws. *)
Lemma signing_tests_pass :
  forallb passed
    [bip380_expand_remainder_lengths; sign_a_then_sign_b_produces_two_partial_sigs; p4_sign_is_bit_identical;
     p4_sign_determinism_over_random_keys (replicate 32 1) (replicate 32 2) (replicate 32 255) 10000;
     p4_sign_determinism_over_random_keys (replicate 32 77) (replicate 32 5) (replicate 32 130) 39999;
     words12_blob_signs; s9_manipulated_change_output_blocks_before_key_access; s10_manipulation_between_a_and_b_is_detected;
     sign_b_rejects_missing_or_wrong_a_signature; check_key_a_signatures_maps_parse_error;
     sign_a_non_all_is_verify_error_without_unwrap; sign_rejects_non_all_sighash_without_verify; sign_rejects_non_all_partial_sig;
     sign_rejects_nonstandard_sighash_field; sign_platform_error_after_preflight; sign_invalid_kek_length;
     sign_blob_aead_on_wrong_kek; sign_fingerprint_mismatch; sign_slot_mismatch_after_decrypt; sign_pubkey_mismatch;
     check_key_a_signatures_rejects_non_all; signer_trait_object_and_kind; preflight_non_all_is_independent_of_verify] = true.
Proof. vm_compute. reflexivity. Qed.
End SigningTests.

(** ** [tests_wp34.rs] *)

Module LimitTests.

Definition foreign_spk : bytes := p2wpkh 0x42.
Definition foreign_addr : option bytes := address_of_script foreign_spk Regtest.
Definition build_foreign_send (wallet : WalletFixture) (op : OutPoint) (input_index change_index input_sats send_sats fee_sats : Z)
    : option BuiltPsbt :=
  recv ← unwrap (parse (wf_receive wallet));
  chg ← unwrap (parse (wf_change wallet));
  recip_addr ← foreign_addr;
  built_spend wallet recv chg op input_index change_index foreign_spk recip_addr input_sats send_sats fee_sats.

(** [FakeBlockHeightSource::new(Some(tip))] and the rest of a test's fixture. *)
Definition limit_fixture (tip : Z) : option (WalletFixture * (LocalSigner Fakes * LocalSigner Fakes) * Scene) :=
  wallet ← default_wallet;
  ab ← pair_signers wallet;
  s ← fresh_scene tip;
  Some (wallet, ab, s).
(** [sign_ab] of a payment of [send] plus [fee] out of coin [n], against a balance. *)
Definition pay (wallet : WalletFixture) (ab : LocalSigner Fakes * LocalSigner Fakes) (policy : SpendPolicy) (n send fee : Z)
    (balance : Balance) (wall : option Z) (s : Scene) : option (Scene * res SignError Psbt) :=
  built ← build_foreign_send wallet (test_outpoint n) 0 0 10000 send fee;
  Some (session_sign_ab ab policy balance wall wallet built s).
(** The same, refused with [e], with both keys left alone. *)
Definition is_refused (wallet : WalletFixture) (ab : LocalSigner Fakes * LocalSigner Fakes) (policy : SpendPolicy) (n send fee : Z)
    (balance : Balance) (wall : option Z) (e : SignError) (s : Scene) : option Scene :=
  '(s, r) ← pay wallet ab policy n send fee balance wall (reset_scene s);
  _ ← assert_that (fails_with e r && unwraps 0 0 (sc_fakes s));
  Some s.
(** The same, signed. *)
Definition pays (wallet : WalletFixture) (ab : LocalSigner Fakes * LocalSigner Fakes) (policy : SpendPolicy) (n send fee : Z)
    (balance : Balance) (wall : option Z) (s : Scene) : option Scene :=
  '(s, r) ← pay wallet ab policy n send fee balance wall s;
  _ ← unwrap r;
  Some s.
Definition books (n : Z) (s : Scene) : option unit := assert_that (booked_sat (sc_state s) =? n).

Definition s28_spend_above_share_does_not_unwrap_kek : option unit :=
  '(wallet, ab, s) ← limit_fixture 100;
  _ ← is_refused wallet ab policy_standard 1 300 10 (confirmed_only 1000) None SpendLimitExceeded s;
  Some tt.
Definition s29_splitting_does_not_help_and_counter_survives_restart : option unit :=
  '(wallet, ab, s) ← limit_fixture 200;
  s ← foldl (λ acc i, s ← acc; pays wallet ab policy_standard i 45 5 (confirmed_only 1000) None s) (Some s) [1; 2; 3; 4];
  _ ← books 200 s;
  blob ← unwrap (WindowCounter_seal (Some (replicate 24 1)) (mkCounter CORE_KEK (sc_state s)));
  let s := set_clock FakeClock_reboot s in
  restored ← unwrap (WindowCounter_open CORE_KEK blob);
  let s := set_counter (wc_state restored) s in
  _ ← books 200 s;
  _ ← assert_that (passphrase_used_since_install (sc_state s));
  '(_, r) ← pay wallet ab policy_standard 9 45 5 (confirmed_only 1000) None s;
  assert_that (fails_with SpendLimitExceeded r).

(** [MAX_BOOKINGS] commits of one input each. *)
Definition full_table (amount : Z) (s : Scene) : Scene :=
  set_counter (foldl (λ c i, commit (mkApproval [mkOutPoint (replicate 32 (Z.of_nat i mod 256)) (Z.of_nat i)] amount) c)
    (sc_state s) (seq 0 MAX_BOOKINGS)) s.
Definition s29_full_booking_table_rejects_without_unwrap : option unit :=
  '(wallet, ab, s) ← limit_fixture 50;
  _ ← is_refused wallet ab policy_off 40 40 10 (confirmed_only 10000) None WindowLedgerFull (full_table 1 s);
  Some tt.
Definition s29_full_table_over_allowance_is_spend_limit : option unit :=
  '(wallet, ab, s) ← limit_fixture 50;
  _ ← is_refused wallet ab policy_standard 43 240 10 (confirmed_only 1000) None SpendLimitExceeded (full_table 0 s);
  Some tt.

Definition s29b_clamp_via_authorize_matches_allowance : option unit :=
  _ ← assert_that (forallb (λ '(bal, want), allowance policy_standard bal =? want)
    [(0, 0); (100, 100); (199, 199); (200, 200); (999, 200); (1000, 200); (1500, 300); (2500, 500); (2501, 500); (10000, 500)]);
  '(wallet, ab, s) ← limit_fixture 50;
  s ← pays wallet ab policy_standard 30 140 10 (confirmed_only 1000) None s;
  '(_, r) ← pay wallet ab policy_standard 31 240 10 (confirmed_only 1000) None s;
  assert_that (fails_with SpendLimitExceeded r).
Definition with_floor_and_cap (floor cap : Z) (p : SpendPolicy) : SpendPolicy :=
  mkSpendPolicy (window_fraction p) (Some floor) (Some cap) (window p) (passphrase_on_first_use p).
Definition s29f_floor_above_cap_rejected_not_reshaped : option unit :=
  let rejected p := match set_spend_policy p with Err FloorAboveCap => true | _ => false end in
  _ ← assert_that (rejected (with_floor_and_cap 800 200 policy_standard) && rejected (with_floor_and_cap 200 100 policy_standard));
  ok ← unwrap (set_spend_policy policy_standard);
  assert_that (bool_decide (window_floor_sat ok = Some 200)).

Definition charge_is (wallet : WalletFixture) (b : BuiltPsbt) (n : Z) : option unit :=
  charge ← unwrap (spend_charge (built_psbt b) (wf_receive wallet) (built_policy b));
  assert_that (charge =? n).
(** [authorize] with the charge asserted, then [commit]. *)
Definition approve (wallet : WalletFixture) (n send fee charge : Z) (s : Scene) : option Scene :=
  built ← build_foreign_send wallet (test_outpoint n) 0 0 10000 send fee;
  let '(s, r) := session_authorize policy_standard (confirmed_only 1000) wallet built s in
  approval ← unwrap r;
  _ ← assert_that (ap_charge_sat approval =? charge);
  Some (set_counter (commit approval (sc_state s)) s).
(** [authorize] of a payment of one satoshi, not committed. *)
Definition probe (wallet : WalletFixture) (n : Z) (s : Scene) : option Scene :=
  built ← build_foreign_send wallet (test_outpoint n) 0 0 10000 1 1;
  let '(s, r) := session_authorize policy_standard (confirmed_only 1000) wallet built s in
  _ ← unwrap r;
  Some s.
Definition s29h_accounting_change_fee_self_rbf_dropped : option unit :=
  wallet ← default_wallet;
  with_change ← build_foreign_send wallet (test_outpoint 1) 0 0 10000 100 25;
  _ ← charge_is wallet with_change 125;
  high_fee ← build_foreign_send wallet (test_outpoint 2) 0 0 10000 100 3000;
  _ ← charge_is wallet high_fee 3100;
  self_xfer ← wp33_build_psbt wallet 0 0 5 10000 100 25;
  _ ← charge_is wallet self_xfer 25;
  s ← fresh_scene 10;
  s ← approve wallet 3 40 10 50 s;
  _ ← books 50 s;
  s ← approve wallet 3 40 20 60 s;
  _ ← books 60 s;
  s ← probe wallet 32 (set_tip 16 (set_clock (FakeClock_advance (from_secs 3600)) s));
  _ ← books 60 s;
  s ← probe wallet 33 (set_tip (16 + 144) (set_clock (FakeClock_advance (from_secs 86400)) s));
  books 0 s.

Definition manipulated : Balance := mkBalance 200 0 50000 0.
Definition s29i_unconfirmed_foreign_payment_does_not_raise_reference : option unit :=
  assert_that ((allowance policy_standard (spend_policy_reference_sats manipulated) =? 200) &&
    (allowance policy_standard (spend_policy_reference_sats (confirmed_only 200)) =? allowance policy_standard (spend_policy_reference_sats manipulated))).
Definition s29i_authorize_rejects_when_only_untrusted_pending_would_allow : option unit :=
  '(wallet, ab, s) ← limit_fixture 50;
  _ ← is_refused wallet ab policy_standard 42 240 10 manipulated None SpendLimitExceeded s;
  Some tt.
Definition s29j_sliding_window_across_calendar_boundary : option unit :=
  '(wallet, ab, s) ← limit_fixture 50;
  let T_2359 := 1700000000000000000 in
  let TWO_MIN_NS := 120 * 1000000000 in
  s ← pays wallet ab policy_standard 4 145 5 (confirmed_only 1000) (Some T_2359) s;
  let s := set_clock (FakeClock_advance (from_secs 120)) s in
  '(_, r) ← pay wallet ab policy_standard 5 145 5 (confirmed_only 1000) (Some (T_2359 + TWO_MIN_NS)) s;
  assert_that (fails_with SpendLimitExceeded r).

(** The clock moves on by 25 hours and the tip to [tip]; a small payment is refused. *)
Definition refused_after (wallet : WalletFixture) (ab : LocalSigner Fakes * LocalSigner Fakes) (n tip wall : Z) (s : Scene) : option Scene :=
  is_refused wallet ab policy_standard n 45 5 (confirmed_only 1000) (Some wall) SpendLimitExceeded
    (set_tip tip (set_clock (FakeClock_advance (from_secs (25 * 3600))) s)).
Definition s29k_device_clock_jump_never_resets_window : option unit :=
  '(wallet, ab, s) ← limit_fixture 50;
  let WALL0 := 5000 in
  s ← pays wallet ab policy_standard 6 195 5 (confirmed_only 1000) (Some WALL0) s;
  _ ← books 200 s;
  s ← refused_after wallet ab 7 (50 + 150) (WALL0 + 2 * 86400 * 1000000000) s;
  s ← refused_after wallet ab 8 (50 + 300) 1 s;
  _ ← refused_after wallet ab 41 (50 + 450) (WALL0 + 3 * 86400 * 1000000000) s;
  Some tt.
Definition s29k_block_height_jump_never_resets_window : option unit :=
  '(wallet, ab, s) ← limit_fixture 50;
  s ← pays wallet ab policy_standard 12 195 5 (confirmed_only 1000) None s;
  _ ← books 200 s;
  let s := set_clock FakeClock_reboot s in
  s ← is_refused wallet ab policy_standard 13 45 5 (confirmed_only 1000) None SpendLimitExceeded (set_tip (50 + 144) s);
  _ ← is_refused wallet ab policy_standard 14 45 5 (confirmed_only 1000) None SpendLimitExceeded (set_tip (50 + 100000) s);
  Some tt.
Definition under_limit_sign_ab_books_and_unlocks : option unit :=
  '(wallet, ab, s) ← limit_fixture 50;
  '(s, r) ← pay wallet ab policy_standard 11 40 10 (confirmed_only 1000) None (reset_scene s);
  signed ← unwrap r;
  _ ← assert_that ((length (sigs0 signed) =? 2)%nat && unwraps 1 1 (sc_fakes s));
  books 50 s.

Definition with_change_descriptor (d : option bytes) (p : VerifyPolicy) : VerifyPolicy :=
  mkPolicy (declared_recipients p) (declared_amount_sats p) (max_absolute_fee p) (max_feerate p) (declared_fee_sats p) (gap_limit p)
    (known_utxos p) d (policy_network p).
Definition spend_charge_missing_utxo_and_overdraft_and_bad_change : option unit :=
  wallet ← default_wallet;
  built ← build_foreign_send wallet (test_outpoint 20) 0 0 10000 40 10;
  _ ← assert_that (fails_with (SMissingWitnessUtxo 0)
    (spend_charge (with_input0 (set_utxo None) (built_psbt built)) (wf_receive wallet) (built_policy built)));
  over ← build_foreign_send wallet (test_outpoint 21) 0 0 10000 40 10;
  _ ← assert_that (fails_with UnbalancedPsbt
    (spend_charge (with_output 0 (λ o, mkTxOut 20000 (txo_script o)) (built_psbt over)) (wf_receive wallet) (built_policy over)));
  ok ← build_foreign_send wallet (test_outpoint 22) 0 0 10000 40 10;
  _ ← assert_that (errs
    (spend_charge (built_psbt ok) (wf_receive wallet) (with_change_descriptor (Some (str "not-a-descriptor")) (built_policy ok))));
  charge ← unwrap (spend_charge (built_psbt ok) (wf_receive wallet) (with_change_descriptor None (built_policy ok)));
  assert_that (charge =? 10000).

(** The tests of the window around the ceremony pass. *)
Lemma limit_tests_pass :
  forallb passed
    [s28_spend_above_share_does_not_unwrap_kek; s29_splitting_does_not_help_and_counter_survives_restart;
     s29_full_booking_table_rejects_without_unwrap; s29_full_table_over_allowance_is_spend_limit;
     s29b_clamp_via_authorize_matches_allowance; s29f_floor_above_cap_rejected_not_reshaped;
     s29h_accounting_change_fee_self_rbf_dropped; s29i_unconfirmed_foreign_payment_does_not_raise_reference;
     s29i_authorize_rejects_when_only_untrusted_pending_would_allow; s29j_sliding_window_across_calendar_boundary;
     s29k_device_clock_jump_never_resets_window; s29k_block_height_jump_never_resets_window;
     under_limit_sign_ab_books_and_unlocks; spend_charge_missing_utxo_and_overdraft_and_bad_change] = true.
Proof. vm_compute. reflexivity. Qed.
End LimitTests.
