(* ===== verification/FinalizeTests.v ===== *)
(** The finalizer's tests of [trinity-signer] ([tests_wp36.rs]), run on the model.

    Over the fixture of [TestWallet]: the order of the signatures in the
    witness, the third signature, the fee checks, the change branch, and every
    error path of [finalize]. [finalize_tests_pass] evaluates them. *)
From S2P Require Import Prelude Ordered Types Bitcoin Aead CoreState Keystore Limits Clock.
From S2P Require Import Checksum Parse Derive Verify SignErrors Window Entropy Sign Finalize Text Toy SignerTests TestWallet CeremonyTests.

Module FinalizeTests.
Import LimitTests.

Definition sign_both (wallet : WalletFixture) (built : BuiltPsbt) : option (Psbt * VerifyPolicy) :=
  ab ← pair_signers wallet;
  let txid := compute_txid (unsigned_tx (built_psbt built)) in
  let '(w, r) := sign_a (local_signer ab.1) (built_psbt built) (wf_receive wallet) (built_policy built) fakes_new in
  after_a ← unwrap r;
  signed ← unwrap (sign_b (local_signer ab.2) after_a txid (wf_receive wallet) (built_policy built) w).2;
  Some (signed, built_policy built).

(** The loop over [0..64]; the index found, or zero, must satisfy the predicate. *)
Definition index_where (wallet : WalletFixture) (pred : bytes → bytes → bytes → bool) : option Z :=
  recv ← unwrap (parse (wf_receive wallet));
  let holds i :=
    match derive_at recv i with
    | Ok d => match map dc_public_key (children d) with [a; b; c] => pred a b c | _ => false end
    | _ => false
    end in
  let found := default 0 (List.find holds (map Z.of_nat (seq 0 64))) in
  _ ← assert_that (holds found);
  Some found.
Definition key_lt (a b : bytes) : bool := match cmp a b with Lt => true | _ => false end.
Definition index_where_a_sorts_after_b (wallet : WalletFixture) : option Z := index_where wallet (λ a b _, key_lt b a).
Definition index_where_a_sorts_before_b (wallet : WalletFixture) : option Z := index_where wallet (λ a b _, key_lt a b).
Definition index_where_c_sorts_last (wallet : WalletFixture) : option Z := index_where wallet (λ a b c, key_lt a c && key_lt b c).

Definition master_c : option Xpriv :=
  material ← unwrap (bip39_from_entropy ENTROPY_C);
  new_master (mat_seed material).
(** One input of the loop of [sign_c_into]. *)
Definition sign_c_input (tx : Transaction) (master : Xpriv) (i : nat) (input : PsbtInput) : option PsbtInput :=
  '(pk, (_, path)) ← List.find (λ e, bool_decide (e.2.1 = xpriv_fingerprint master)) (in_bip32_derivation input);
  child ← derive_priv master path;
  msg ← unwrap (sighash_message tx i input);
  Some (insert_sig pk (mkSig (sign_ecdsa_low_r msg child) SighashAll) input).
Fixpoint sign_c_loop (tx : Transaction) (master : Xpriv) (i : nat) (ins : list PsbtInput) : option (list PsbtInput) :=
  match ins with
  | [] => Some []
  | input :: ins => input ← sign_c_input tx master i input; rest ← sign_c_loop tx master (S i) ins; Some (input :: rest)
  end.
Definition sign_c_into (psbt : Psbt) : option Psbt :=
  master ← master_c;
  ins ← sign_c_loop (unsigned_tx psbt) master 0 (psbt_inputs psbt);
  Some (with_inputs psbt ins).

(** The stack of the first input's witness, and the signature of a key as it is pushed. *)
Definition stack (tx : Transaction) : list bytes := match tx_input tx with t :: _ => witness t | [] => [] end.
Definition sig_bytes (p : Psbt) (pk : bytes) : option bytes := serialize_signature <$> bmap_get (true, pk) (sigs0 p).

Definition finalize_happy_path_and_change_input : option unit :=
  wallet ← default_wallet;
  built ← wp33_build_psbt wallet 0 0 5 100000 40000 1000;
  '(signed, policy) ← sign_both wallet built;
  tx ← unwrap (finalize signed (wf_receive wallet) policy);
  _ ← assert_that ((length (tx_input tx) =? 1)%nat && (length (stack tx) =? 4)%nat && bool_decide (stack tx !! 0%nat = Some []));
  recv ← unwrap (parse (wf_receive wallet));
  chg ← unwrap (parse (wf_change wallet));
  in_der ← unwrap (derive_at chg 0);
  recip ← unwrap (derive_at recv 6);
  recip_addr ← address_of_script (do_script_pubkey recip) Regtest;
  let op := test_outpoint 9 in
  let utxo := mkTxOut 50000 (do_script_pubkey in_der) in
  in_map ← bip32_derivation_for chg 0;
  let psbt := one_input_psbt op [(mkTxOut 40000 (do_script_pubkey recip), [])] utxo (do_witness_script in_der) in_map in
  let policy := mkPolicy [recip_addr] 40000 50000 5000 None 20 {[op := utxo]} (Some (wf_change wallet)) Regtest in
  '(signed, policy) ← sign_both wallet (mkBuiltPsbt psbt policy);
  _ ← unwrap (finalize signed (wf_receive wallet) policy);
  Some tt.

Definition witness_follows_bip67_not_signing_order : option unit :=
  wallet ← default_wallet;
  idx ← index_where_a_sorts_before_b wallet;
  built ← wp33_build_psbt wallet idx 0 5 100000 40000 1000;
  ab ← pair_signers wallet;
  let '(w, r) := local_sign ab.2 (built_psbt built) fakes_new in
  after_b ← unwrap r;
  signed ← unwrap (local_sign ab.1 after_b w).2;
  _ ← assert_that (length (sigs0 signed) =? 2)%nat;
  tx ← unwrap (finalize signed (wf_receive wallet) (built_policy built));
  recv ← unwrap (parse (wf_receive wallet));
  derived ← unwrap (derive_at recv idx);
  a_child ← children derived !! 0%nat;
  b_child ← children derived !! 1%nat;
  let expected := omap (sig_bytes signed) (sorted_pubkeys derived) in
  assert_that (
    match dc_branch a_child with External => true | Internal => false end &&
    bool_decide (stack tx !! 1%nat = expected !! 0%nat) && bool_decide (stack tx !! 2%nat = expected !! 1%nat) &&
    key_lt (dc_public_key a_child) (dc_public_key b_child) &&
    bool_decide (stack tx !! 1%nat = sig_bytes signed (dc_public_key a_child)) &&
    bool_decide (stack tx !! 2%nat = sig_bytes signed (dc_public_key b_child))).

Definition finalize_ignores_third_signature_after_first_two : option unit :=
  wallet ← default_wallet;
  idx ← index_where_c_sorts_last wallet;
  built ← wp33_build_psbt wallet idx 0 5 100000 40000 1000;
  '(signed, policy) ← sign_both wallet built;
  signed ← sign_c_into signed;
  _ ← assert_that (length (sigs0 signed) =? 3)%nat;
  tx ← unwrap (finalize signed (wf_receive wallet) policy);
  recv ← unwrap (parse (wf_receive wallet));
  derived ← unwrap (derive_at recv idx);
  c_child ← children derived !! 2%nat;
  c_sig ← sig_bytes signed (dc_public_key c_child);
  first ← sorted_pubkeys derived !! 0%nat;
  second ← sorted_pubkeys derived !! 1%nat;
  first_sig ← sig_bytes signed first;
  second_sig ← sig_bytes signed second;
  assert_that (bool_decide (stack tx !! 1%nat = Some first_sig) && bool_decide (stack tx !! 2%nat = Some second_sig) &&
    negb (bool_decide (stack tx !! 1%nat = Some c_sig)) && negb (bool_decide (stack tx !! 2%nat = Some c_sig))).

Definition with_fee_caps (absolute feerate : Z) (p : VerifyPolicy) : VerifyPolicy :=
  mkPolicy (declared_recipients p) (declared_amount_sats p) absolute feerate (declared_fee_sats p) (gap_limit p)
    (known_utxos p) (change_descriptor p) (policy_network p).
Definition s11_absurd_fee_rejected_before_key_access : option unit :=
  '(wallet, ab, s) ← limit_fixture 100;
  built ← wp33_build_psbt wallet 0 0 5 60000000 9000000 50000000;
  let built := mkBuiltPsbt (built_psbt built) (with_fee_caps 100000 (max_feerate (built_policy built)) (built_policy built)) in
  let '(s, r) := session_sign_ab ab policy_off (confirmed_only 60000000) None wallet built (reset_scene s) in
  assert_that (match r with Err (SVerify (FeeTooHigh fee _)) => fee =? 50000000 | _ => false end && unwraps 0 0 (sc_fakes s)).

Definition s12_rbf_bump_runs_full_verification : option unit :=
  '(wallet, ab, s) ← limit_fixture 100;
  original ← wp33_build_psbt wallet 0 0 5 100000 40000 1000;
  let '(s1, r) := session_sign_ab ab policy_off (confirmed_only 100000) None wallet original s in
  signed ← unwrap r;
  tx1 ← unwrap (finalize signed (wf_receive wallet) (built_policy original));
  bumped ← wp33_build_psbt wallet 0 0 5 100000 39000 2000;
  counter ← ready_counter;
  signed ← unwrap (session_sign_ab ab policy_off (confirmed_only 100000) None wallet bumped (set_counter (wc_state counter) s1)).2;
  tx2 ← unwrap (finalize signed (wf_receive wallet) (built_policy bumped));
  in1 ← head (tx_input tx1);
  in2 ← head (tx_input tx2);
  assert_that (bool_decide (previous_output in1 = previous_output in2) && (sequence in1 =? RBF_SEQUENCE) &&
    (sum_Z (map txo_value (tx_output tx2)) <? 99000)).

Definition consensus_rejects_swapped_signatures : option unit :=
  wallet ← default_wallet;
  idx ← index_where_a_sorts_after_b wallet;
  built ← wp33_build_psbt wallet idx 0 5 100000 40000 1000;
  '(signed, policy) ← sign_both wallet built;
  match sigs0 signed with
  | [(k0, s0); (k1, s1)] =>
      let swapped := with_input0 (λ i, insert_sig k1.2 s0 (insert_sig k0.2 s1 i)) signed in
      assert_that (fails_with ConsensusRejected (finalize swapped (wf_receive wallet) policy))
  | _ => None
  end.

Definition final_feerate_boundary_is_strict_greater : option unit :=
  wallet ← default_wallet;
  built ← wp33_build_psbt wallet 0 0 5 100000 40000 1000;
  '(signed, policy) ← sign_both wallet built;
  tx ← unwrap (finalize signed (wf_receive wallet) policy);
  fee ← unwrap (psbt_fee signed);
  let exact := div_ceil fee (tx_vsize tx `max` 1) in
  _ ← unwrap (finalize signed (wf_receive wallet) (with_fee_caps (max_absolute_fee policy) exact policy));
  assert_that (fails_with (FinalFeerateTooHigh exact (exact - 1))
    (finalize signed (wf_receive wallet) (with_fee_caps (max_absolute_fee policy) (exact - 1) policy))).

(** Changes to every path of the input's derivation map. *)
Definition with_paths (f : DerivationPath → DerivationPath) : Psbt → Psbt :=
  with_input0 (λ i, set_derivation (map (λ e, (e.1, (e.2.1, f e.2.2))) (in_bip32_derivation i)) i).
(** [c[n - k] = child] *)
Definition set_from_end (k : nat) (c : ChildNumber) (path : DerivationPath) : DerivationPath := <[(length path - k)%nat := c]> path.
Definition with_utxo (f : TxOut → TxOut) : Psbt → Psbt := with_input0 (λ i, set_utxo (f <$> witness_utxo i) i).
Definition not_a_descriptor : bytes := str "not-a-descriptor".

Definition finalize_error_paths : option unit :=
  wallet ← default_wallet;
  built ← wp33_build_psbt wallet 0 0 5 100000 40000 1000;
  let policy := built_policy built in
  ab ← pair_signers wallet;
  let psbt := built_psbt built in
  let receive := wf_receive wallet in
  let fin p := finalize p receive policy in
  _ ← assert_that (match parse not_a_descriptor with
                   | Err e => fails_with (SVerify (VDescriptor e)) (finalize psbt not_a_descriptor policy)
                   | _ => false
                   end);
  let empty := mkPsbt (mkTransaction 2 0 [] [mkTxOut 1 []]) [] [mkPsbtOutput [] []] [] in
  _ ← assert_that (fails_with EmptyPsbt (fin empty));
  let '(w, r) := sign_a (local_signer ab.1) psbt receive policy fakes_new in
  only_a ← unwrap r;
  _ ← assert_that (fails_with (IncompleteWitness 0) (fin only_a));
  signed ← unwrap (sign_b (local_signer ab.2) only_a (compute_txid (unsigned_tx psbt)) receive policy w).2;
  _ ← assert_that (fails_with (SMissingWitnessUtxo 0) (fin (with_input0 (set_utxo None) signed)));
  _ ← assert_that (fails_with (MissingWitnessScript 0) (fin (with_input0 (set_script None) signed)));
  _ ← assert_that (fails_with (WitnessScriptMismatch 0) (fin (with_input0 (set_script (Some [])) signed)));
  _ ← assert_that (fails_with (SVerify (MismatchedUtxo 0)) (fin (with_utxo (λ o, mkTxOut (txo_value o) (p2wpkh 0x11)) signed)));
  _ ← assert_that (fails_with (MissingDerivation 0) (fin (with_input0 (set_derivation []) signed)));
  _ ← assert_that (fails_with (InvalidDerivationPath 0) (fin (with_paths (λ _, [Normal 0]) signed)));
  _ ← unwrap (fin (with_paths (λ _, [Normal 0; Normal 0]) signed));
  _ ← assert_that (fails_with (InvalidDerivationPath 0) (fin (with_paths (set_from_end 1 (Hardened 0)) signed)));
  _ ← assert_that (fails_with (InvalidDerivationPath 0) (fin (with_paths (set_from_end 2 (Hardened 0)) signed)));
  _ ← assert_that (fails_with (InvalidDerivationPath 0) (fin (with_paths (set_from_end 2 (Normal 2)) signed)));
  let change_branch := with_paths (set_from_end 2 (Normal 1)) signed in
  _ ← assert_that (fails_with (InvalidDerivationPath 0) (finalize change_branch receive (with_change_descriptor None policy)));
  _ ← assert_that (fails_verify (finalize change_branch receive (with_change_descriptor (Some not_a_descriptor) policy)));
  let non_all := with_input0 (λ i, set_sigs (map (λ e, (e.1, mkSig (sig_compact e.2) SighashNone)) (partial_sigs i)) i) signed in
  _ ← assert_that (fails_with (SNonSighashAll 0) (fin non_all));
  let null := mkOutPoint (replicate 32 0) u32_max in
  let extra_in := with_tx (λ t, mkTransaction (tx_version t) (tx_lock_time t)
    (tx_input t ++ [mkTxIn null [] RBF_SEQUENCE []]) (tx_output t)) signed in
  _ ← assert_that (match fin extra_in with Err (SVerify (InconsistentPsbt _)) => true | _ => false end);
  in_sats ← txo_value <$> (i ← head (psbt_inputs signed); witness_utxo i);
  let no_fee := with_output 1 (λ o, mkTxOut 0 (txo_script o)) (with_output 0 (λ o, mkTxOut in_sats (txo_script o)) signed) in
  assert_that (fails_with UnbalancedPsbt (fin no_fee)).

Definition with_known (f : gmap OutPoint TxOut → gmap OutPoint TxOut) (p : VerifyPolicy) : VerifyPolicy :=
  mkPolicy (declared_recipients p) (declared_amount_sats p) (max_absolute_fee p) (max_feerate p) (declared_fee_sats p) (gap_limit p)
    (f (known_utxos p)) (change_descriptor p) (policy_network p).
Definition finalize_rejects_witness_utxo_not_matching_known_utxos : option unit :=
  wallet ← default_wallet;
  built ← wp33_build_psbt wallet 0 0 5 100000 40000 1000;
  '(signed, policy) ← sign_both wallet built;
  let receive := wf_receive wallet in
  _ ← assert_that (fails_with (SVerify (UnknownInput 0)) (finalize signed receive (with_known (λ _, ∅) policy)));
  txin ← head (tx_input (unsigned_tx signed));
  _ ← known_utxos policy !! previous_output txin;
  _ ← assert_that (fails_with (SVerify (UnknownInput 0)) (finalize signed receive (with_known (delete (previous_output txin)) policy)));
  _ ← assert_that (fails_with (SVerify (MismatchedUtxo 0)) (finalize (with_utxo (λ o, mkTxOut 1 (txo_script o)) signed) receive policy));
  assert_that (fails_with (SVerify (MismatchedUtxo 0)) (finalize (with_utxo (λ o, mkTxOut (txo_value o) (p2wpkh 0x22)) signed) receive policy)).

Definition derive_error_from_huge_index : option unit :=
  wallet ← default_wallet;
  built ← wp33_build_psbt wallet 0 0 5 100000 40000 1000;
  '(signed, policy) ← sign_both wallet built;
  assert_that (match finalize (with_paths (set_from_end 1 (Normal 0x70000000)) signed) (wf_receive wallet) policy with
               | Err (SVerify (VDerive _)) | Err (WitnessScriptMismatch _) => true
               | _ => false
               end).

(** The finalizer's tests pass. *)
Lemma finalize_tests_pass :
  forallb passed
    [finalize_happy_path_and_change_input; witness_follows_bip67_not_signing_order; finalize_ignores_third_signature_after_first_two;
     s11_absurd_fee_rejected_before_key_access; s12_rbf_bump_runs_full_verification; consensus_rejects_swapped_signatures;
     final_feerate_boundary_is_strict_greater; finalize_error_paths; finalize_rejects_witness_utxo_not_matching_known_utxos;
     derive_error_from_huge_index] = true.
Proof. vm_compute. reflexivity. Qed.
End FinalizeTests.
