(* ===== verification/KeystoreTests.v ===== *)
(** The unit tests of [trinity-keystore], run on the model.

    The test modules of [blob.rs], [fake.rs] and [policy.rs], and the property
    tests of [p6_p13.rs]. [StreamAead] is a stand-in cipher with a keystream
    that depends on key and nonce and a tag over key, nonce, header and
    ciphertext, which is the structure these tests observe. Tests of error
    texts and of the derived [Debug] of a policy are left out; the random round
    trip is evaluated on two draws (that it holds of every input is a theorem
    of [Keystore]). *)
From S2P Require Import Prelude Ordered Types Bitcoin Aead CoreState Keystore Entropy Sign Text Redact TestWallet.

Module StreamAead.
Definition keystream (k n : bytes) : bytes := concat (replicate 4 (zip_with (λ x y, Z.land (x + y) 0xFF) k n)).
Definition xor_stream (k n m : bytes) : bytes := zip_with Z.lxor m (keystream k n).
Definition sum (acc : Z) (l : bytes) : Z := foldl (λ a b, Z.land (a * 257 + b + 1) 0xFFFFFFFF) acc l.
Definition tag (k n a c : bytes) : bytes := le_bytes 16 (sum (sum (sum (sum 7 k) n) a) c).
Definition aead : Aead := {|
  aead_encrypt k n a m := let c := xor_stream k n m in Some (c ++ tag k n a c);
  aead_decrypt k n a b :=
    let c := take (length b - TAG_LEN) b in
    if bool_decide (drop (length b - TAG_LEN) b = tag k n a c) then Some (xor_stream k n c) else None
|}.
End StreamAead.
#[local] Existing Instance StreamAead.aead | 0.

#[local] Instance BlobError_eq_dec : EqDecision BlobError.
Proof. solve_decision. Defined.
#[local] Instance UnlockFactor_eq_dec : EqDecision UnlockFactor.
Proof. solve_decision. Defined.
#[local] Instance HwBinding_eq_dec : EqDecision HwBinding.
Proof. solve_decision. Defined.
#[local] Instance ArgonProfile_eq_dec : EqDecision ArgonProfile.
Proof. solve_decision. Defined.

Definition rejects {E A} `{EqDecision E} (e : E) (r : res E A) : bool :=
  match r with Err e' => bool_decide (e' = e) | _ => false end.
(** [&blob[a..b]], [blob[n] = v] and [blob[n] ^= v]; indices are in range here. *)
Definition range (a b : nat) (l : bytes) : bytes := take (b - a) (drop a l).
Definition put (n : nat) (v : Z) (l : bytes) : bytes := <[n := v]> l.
Definition flip (n : nat) (v : Z) (l : bytes) : bytes := alter (λ b, Z.lxor b v) n l.

(** ** [blob.rs] *)

Module BlobTests.
Definition KEK : bytes := replicate 32 0x11.
Definition NONCE : bytes := replicate 24 0x22.
Definition ENTROPY24 : bytes := replicate 32 0x33.
Definition ENTROPY12 : bytes := replicate 16 0x44.
Definition test_blob (slot : KeySlot) (wc : WordCount) (entropy : bytes) : option bytes :=
  unwrap (blob_encrypt_at_nonce KEK slot wc NONCE 800000 entropy 1700000000).

Definition layout_matches_spec : option unit :=
  blob ← test_blob SlotA Words24 ENTROPY24;
  assert_that (bool_decide (take 4 blob = BLOB_MAGIC) && bool_decide (blob !! BLOB_VERSION_OFFSET = Some BLOB_VERSION) &&
    bool_decide (blob !! SLOT_OFFSET = Some 0) && bool_decide (blob !! BLOB_RESERVED_OFFSET = Some 0) &&
    bool_decide (blob !! WORD_COUNT_OFFSET = Some 24) && bool_decide (range BLOB_NONCE_OFFSET BIRTHDAY_OFFSET blob = NONCE) &&
    bool_decide (range BIRTHDAY_OFFSET BLOB_HEADER_LEN blob = le_bytes 4 800000) &&
    (length blob =? BLOB_HEADER_LEN + 32 + CREATED_AT_LEN + TAG_LEN)%nat).
(** Equal up to the slot byte and the tag, which differs. *)
Definition same_but_slot_and_tag (a b : bytes) : bool :=
  (length a =? length b)%nat && bool_decide (take SLOT_OFFSET a = take SLOT_OFFSET b) &&
  bool_decide (a !! SLOT_OFFSET = Some 0) && bool_decide (b !! SLOT_OFFSET = Some 1) &&
  bool_decide (range (SLOT_OFFSET + 1) (length a - TAG_LEN) a = range (SLOT_OFFSET + 1) (length b - TAG_LEN) b) &&
  negb (bool_decide (drop (length a - TAG_LEN) a = drop (length b - TAG_LEN) b)).
Definition a_and_b_share_format_and_ciphertext : option unit :=
  a ← test_blob SlotA Words24 ENTROPY24;
  b ← test_blob SlotB Words24 ENTROPY24;
  assert_that (same_but_slot_and_tag a b).
Definition words12_layout_length : option unit :=
  blob ← test_blob SlotB Words12 ENTROPY12;
  assert_that (bool_decide (blob !! SLOT_OFFSET = Some 1) && bool_decide (blob !! WORD_COUNT_OFFSET = Some 12) &&
    (length blob =? BLOB_HEADER_LEN + 16 + CREATED_AT_LEN + TAG_LEN)%nat).
(** Two draws of the operating system's generator, which are different. *)
Definition encrypt_draws_distinct_nonces : option unit :=
  a ← unwrap (blob_encrypt (Some (replicate 24 1)) KEK SlotA Words24 1 ENTROPY24 2);
  b ← unwrap (blob_encrypt (Some (replicate 24 9)) KEK SlotA Words24 1 ENTROPY24 2);
  _ ← assert_that (negb (bool_decide (range BLOB_NONCE_OFFSET BIRTHDAY_OFFSET a = range BLOB_NONCE_OFFSET BIRTHDAY_OFFSET b)) &&
    negb (bool_decide (range BLOB_HEADER_LEN (length a - TAG_LEN) a = range BLOB_HEADER_LEN (length b - TAG_LEN) b)));
  da ← unwrap (blob_decrypt KEK a);
  db ← unwrap (blob_decrypt KEK b);
  assert_that (bool_decide (blob_entropy da = ENTROPY24) && bool_decide (blob_entropy db = ENTROPY24)).
Definition roundtrip_recovers_all_fields : option unit :=
  blob ← test_blob SlotB Words12 ENTROPY12;
  d ← unwrap (blob_decrypt KEK blob);
  assert_that (bool_decide (blob_slot d = SlotB) && (words (blob_word_count d) =? 12) && (blob_birthday d =? 800000) &&
    bool_decide (blob_entropy d = ENTROPY12) && (blob_created_at d =? 1700000000) && (length (blob_entropy d) =? 16)%nat).
Definition decoded_debug_redacts_entropy : option unit :=
  blob ← test_blob SlotA Words24 ENTROPY24;
  d ← unwrap (blob_decrypt KEK blob);
  let rendered := DecodedBlob_debug d in
  assert_that (contains (str "[redacted]") rendered && negb (contains (str "333333") rendered) &&
    negb (contains (hex_encode ENTROPY24) rendered)).
Definition encrypt_rejects_slot_c : option unit :=
  assert_that (rejects BInvalidSlot (blob_encrypt_at_nonce KEK SlotC Words24 NONCE 0 ENTROPY24 0)).
Definition encrypt_rejects_wrong_entropy_length : option unit :=
  assert_that (rejects (EntropyLength 32 16) (blob_encrypt_at_nonce KEK SlotA Words24 NONCE 0 ENTROPY12 0) &&
    rejects (EntropyLength 16 32) (blob_encrypt_at_nonce KEK SlotA Words12 NONCE 0 ENTROPY24 0)).
Definition decrypt_rejects_truncated : option unit :=
  assert_that (rejects BTruncated (blob_decrypt KEK []) &&
    rejects BTruncated (blob_decrypt KEK (replicate (BLOB_HEADER_LEN + TAG_LEN - 1) 0)) &&
    rejects BBadMagic (blob_decrypt KEK (replicate (BLOB_HEADER_LEN + TAG_LEN) 0))).

(** Decrypting a changed sample blob fails with [e]. *)
Definition changed_rejects (f : bytes → bytes) (e : BlobError) : option unit :=
  blob ← test_blob SlotA Words24 ENTROPY24;
  assert_that (rejects e (blob_decrypt KEK (f blob))).
Definition decrypt_rejects_bad_magic : option unit := changed_rejects (put 0 88) BBadMagic.
Definition decrypt_rejects_unknown_version : option unit :=
  _ ← changed_rejects (put BLOB_VERSION_OFFSET 2) (BUnsupportedVersion 2);
  changed_rejects (put BLOB_VERSION_OFFSET 0) (BUnsupportedVersion 0).
Definition decrypt_rejects_nonzero_reserved : option unit := changed_rejects (put BLOB_RESERVED_OFFSET 1) BUnsupportedReserved.
Definition decrypt_rejects_slot_c_and_unknown : option unit :=
  _ ← changed_rejects (put SLOT_OFFSET 2) BInvalidSlot;
  changed_rejects (put SLOT_OFFSET 255) BInvalidSlot.
Definition decrypt_rejects_invalid_word_count : option unit :=
  _ ← changed_rejects (put WORD_COUNT_OFFSET 15) (InvalidWordCount 15);
  changed_rejects (put WORD_COUNT_OFFSET 0) (InvalidWordCount 0).
Definition decrypt_rejects_wrong_kek : option unit :=
  blob ← test_blob SlotA Words24 ENTROPY24;
  assert_that (rejects BAead (blob_decrypt (replicate 32 0xAA) blob)).
Definition decrypt_rejects_ciphertext_and_tag_mutation : option unit :=
  _ ← changed_rejects (flip BLOB_HEADER_LEN 1) BAead;
  _ ← changed_rejects (flip BLOB_NONCE_OFFSET 1) BAead;
  changed_rejects (λ blob, flip (length blob - 1) 1 blob) BAead.
Definition plaintext_length_is_defense_in_depth : option unit :=
  let header := blob_encode_header SlotA Words24 NONCE 1 in
  blob ← unwrap (blob_seal KEK header (ENTROPY12 ++ le_bytes 8 0));
  assert_that (rejects PlaintextLength (blob_decrypt KEK blob)).
Definition blob_csrng_error_is_mapped : option unit := assert_that (rejects BCsRng (blob_draw_nonce None)).
Definition blob_open_maps_tag_failure : option unit :=
  assert_that (rejects BAead (blob_open KEK (blob_encode_header SlotA Words12 NONCE 0) (replicate TAG_LEN 0))).

(** The tests of the key blobs pass. *)
Lemma blob_tests_pass :
  forallb passed
    [layout_matches_spec; a_and_b_share_format_and_ciphertext; words12_layout_length; encrypt_draws_distinct_nonces;
     roundtrip_recovers_all_fields; decoded_debug_redacts_entropy; encrypt_rejects_slot_c; encrypt_rejects_wrong_entropy_length;
     decrypt_rejects_truncated; decrypt_rejects_bad_magic; decrypt_rejects_unknown_version; decrypt_rejects_nonzero_reserved;
     decrypt_rejects_slot_c_and_unknown; decrypt_rejects_invalid_word_count; decrypt_rejects_wrong_kek;
     decrypt_rejects_ciphertext_and_tag_mutation; plaintext_length_is_defense_in_depth; blob_csrng_error_is_mapped;
     blob_open_maps_tag_failure] = true.
Proof. vm_compute. reflexivity. Qed.
End BlobTests.

(** ** [p6_p13.rs] *)

Module P6P13.
Definition KEK : bytes := replicate 32 0x5a.
Definition NONCE : bytes := replicate 24 0xa5.
Definition blob_fixture (slot : KeySlot) (wc : WordCount) (entropy nonce : bytes) (birthday created_at : Z) : option bytes :=
  unwrap (blob_encrypt_at_nonce KEK slot wc nonce birthday entropy created_at).
(** [decrypt] gives back every field. *)
Definition decrypts_to (kek blob : bytes) (slot : KeySlot) (wc : WordCount) (birthday created_at : Z) (entropy : bytes) : option unit :=
  d ← unwrap (blob_decrypt kek blob);
  assert_that (bool_decide (blob_slot d = slot) && (words (blob_word_count d) =? words wc) && (blob_birthday d =? birthday) &&
    (blob_created_at d =? created_at) && bool_decide (blob_entropy d = entropy)).

Definition p6_roundtrip_identity_both_profiles : option unit :=
  assert_that (forallb (λ '(wc, slot),
    let entropy := map (λ i, (Z.of_nat i mod 256 * 17 mod 256 + 3) mod 256) (seq 0 (Z.to_nat (entropy_bytes wc))) in
    passed (blob ← blob_fixture slot wc entropy NONCE 42 99; decrypts_to KEK blob slot wc 42 99 entropy))
    [(Words12, SlotA); (Words12, SlotB); (Words24, SlotA); (Words24, SlotB)]).
Definition p6_random_roundtrip (wc12 slot_b : bool) (kek nonce : bytes) (birthday created_at : Z) (e12 e24 : bytes) : option unit :=
  let wc := if wc12 then Words12 else Words24 in
  let slot := if slot_b then SlotB else SlotA in
  let entropy := if wc12 then e12 else e24 in
  blob ← unwrap (blob_encrypt_at_nonce kek slot wc nonce birthday entropy created_at);
  decrypts_to kek blob slot wc birthday created_at entropy.
Definition p6_every_header_mutation_is_decrypt_error : option unit :=
  blob ← blob_fixture SlotA Words24 (replicate 32 0x77) NONCE 1 2;
  _ ← assert_that (is_ok (blob_decrypt KEK blob));
  assert_that (forallb (λ offset, forallb (λ bit,
    match blob_decrypt KEK (flip offset (Z.shiftl 1 bit) blob) with Err _ => true | _ => false end)
    [0; 1; 2; 3; 4; 5; 6; 7]) (seq 0 BLOB_HEADER_LEN)).
Definition p13_word_count_24_to_12_is_aead : option unit :=
  blob ← blob_fixture SlotA Words24 (replicate 32 0xAB) NONCE 100 200;
  assert_that (rejects BAead (blob_decrypt KEK (put WORD_COUNT_OFFSET 12 blob))).
Definition p13_word_count_12_to_24_is_aead : option unit :=
  blob ← blob_fixture SlotB Words12 (replicate 16 0xCD) NONCE 3 4;
  assert_that (rejects BAead (blob_decrypt KEK (put WORD_COUNT_OFFSET 24 blob))).
Definition a_b_layout_identical_except_slot_and_tag : option unit :=
  a ← blob_fixture SlotA Words24 (replicate 32 0x10) NONCE 9 8;
  b ← blob_fixture SlotB Words24 (replicate 32 0x10) NONCE 9 8;
  assert_that (BlobTests.same_but_slot_and_tag a b).

(** The property tests of the blobs pass. *)
Lemma blob_property_tests_pass :
  forallb passed
    [p6_roundtrip_identity_both_profiles;
     p6_random_roundtrip true true (replicate 32 7) (replicate 24 200) u32_max u64_max (replicate 16 255) (replicate 32 0);
     p6_random_roundtrip false false (replicate 32 0) (replicate 24 0) 0 0 (replicate 16 1) (replicate 32 254);
     p6_every_header_mutation_is_decrypt_error; p13_word_count_24_to_12_is_aead; p13_word_count_12_to_24_is_aead;
     a_b_layout_identical_except_slot_and_tag] = true.
Proof. vm_compute. reflexivity. Qed.
End P6P13.

(** ** [fake.rs] *)

Module FakeTests.
Definition KEK : bytes :=
  [0x11; 0x22; 0x33; 0x44; 0x55; 0x66; 0x77; 0x88; 0x99; 0xaa; 0xbb; 0xcc; 0xdd; 0xee; 0xff; 0x00; 0x01; 0x02; 0x03; 0x04; 0x05; 0x06;
   0x07; 0x08; 0x09; 0x0a; 0x0b; 0x0c; 0x0d; 0x0e; 0x0f; 0x10].
(** The four counters, in the order unwrap, wrap, provision, destroy. *)
Definition counts (u w p d : nat) (s : FakeState) : bool :=
  (unwrap_calls s =? u)%nat && (wrap_calls s =? w)%nat && (provision_calls s =? p)%nat && (destroy_calls s =? d)%nat.
Definition gives {A} `{EqDecision A} (a : A) (r : res PlatformError A) : bool :=
  match r with Ok a' => bool_decide (a' = a) | _ => false end.

Definition default_unwrap_is_identity : option unit :=
  let '(fake, out) := Fake_unwrap_kek SlotA KEK Fake_new in
  assert_that (gives KEK out && counts 1 0 0 0 fake).
Definition default_wrap_is_identity : option unit :=
  let '(fake, out) := Fake_wrap_kek SlotB KEK Fake_new in
  assert_that (gives KEK out && (wrap_calls fake =? 1)%nat).
Definition configured_unwrap_payload : option unit :=
  let expected := replicate 32 0xAB in
  let '(fake, out) := Fake_unwrap_kek SlotA (replicate 32 0) (succeed_unwrap_with expected Fake_new) in
  assert_that (gives expected out && (unwrap_calls fake =? 1)%nat).
Definition configured_wrap_payload : option unit :=
  let expected := replicate 32 0xCD in
  let '(fake, out) := Fake_wrap_kek SlotB (replicate 32 0) (succeed_wrap_with expected Fake_new) in
  assert_that (gives expected out && (wrap_calls fake =? 1)%nat).
Definition configured_failure_wins_over_payload : option unit :=
  let fake := fail_unwrap UnwrapRejected (succeed_unwrap_with (replicate 32 0x11) Fake_new) in
  let '(fake, r) := Fake_unwrap_kek SlotA (replicate 32 0x22) fake in
  _ ← assert_that (rejects UnwrapRejected r && (unwrap_calls fake =? 1)%nat);
  let fake := fail_wrap WrapFailed (succeed_wrap_with (replicate 32 0x33) fake) in
  let '(fake, r) := Fake_wrap_kek SlotA (replicate 32 0x44) fake in
  assert_that (rejects WrapFailed r && (wrap_calls fake =? 1)%nat).
Definition every_method_failure_surfaces : option unit :=
  let fake := fail_destroy DestroyFailed (fail_provision ProvisionFailed (fail_wrap WrapFailed (fail_unwrap KeyInvalidated Fake_new))) in
  let '(fake, r1) := Fake_unwrap_kek SlotA [1] fake in
  let '(fake, r2) := Fake_wrap_kek SlotA [1] fake in
  let '(fake, r3) := Fake_provision SlotA POLICY_A fake in
  let '(fake, r4) := Fake_destroy SlotB fake in
  assert_that (rejects KeyInvalidated r1 && rejects WrapFailed r2 && rejects ProvisionFailed r3 && rejects DestroyFailed r4 &&
    counts 1 1 1 1 fake).
Definition unexpected_is_injectable : option unit :=
  assert_that (rejects Unexpected (Fake_unwrap_kek SlotB [0] (fail_unwrap Unexpected Fake_new)).2).
Definition slot_c_is_rejected_and_counted : option unit :=
  let '(fake, r1) := Fake_unwrap_kek SlotC (replicate 8 0x55) Fake_new in
  let '(fake, r2) := Fake_wrap_kek SlotC (replicate 8 0x55) fake in
  let '(fake, r3) := Fake_provision SlotC POLICY_A fake in
  let '(fake, r4) := Fake_destroy SlotC fake in
  assert_that (rejects PInvalidSlot r1 && rejects PInvalidSlot r2 && rejects PInvalidSlot r3 && rejects PInvalidSlot r4 &&
    counts 1 1 1 1 fake).
Definition provision_rejects_slot_policy_mismatch : option unit :=
  let '(fake, r) := Fake_provision SlotA POLICY_B Fake_new in
  assert_that (rejects PInvalidSlot r && (provision_calls fake =? 1)%nat).
Definition provision_and_destroy_succeed_for_matching_slots : option unit :=
  let '(fake, r1) := Fake_provision SlotA POLICY_A Fake_new in
  let '(fake, r2) := Fake_provision SlotB POLICY_B fake in
  let '(fake, r3) := Fake_destroy SlotA fake in
  let '(fake, r4) := Fake_destroy SlotB fake in
  assert_that (is_ok r1 && is_ok r2 && is_ok r3 && is_ok r4 && counts 0 0 2 2 fake).
Definition counters_accumulate_then_reset : option unit :=
  let '(fake, r1) := Fake_unwrap_kek SlotA [1] Fake_new in
  let '(fake, r2) := Fake_unwrap_kek SlotA [2] fake in
  let '(fake, r3) := Fake_wrap_kek SlotA [3] fake in
  let '(fake, r4) := Fake_provision SlotA POLICY_A fake in
  let '(fake, r5) := Fake_destroy SlotA fake in
  _ ← assert_that (is_ok r1 && is_ok r2 && is_ok r3 && is_ok r4 && is_ok r5 && counts 2 1 1 1 fake);
  let fake := reset_calls fake in
  _ ← assert_that (counts 0 0 0 0 fake);
  let '(fake, r) := Fake_unwrap_kek SlotA [9] (fail_unwrap UnwrapRejected fake) in
  assert_that (rejects UnwrapRejected r && (unwrap_calls fake =? 1)%nat).
Definition clear_restores_identity_and_success : option unit :=
  let fake := clear_unwrap (succeed_unwrap_with (replicate 4 0x99) (fail_unwrap UnwrapRejected Fake_new)) in
  let '(fake, r1) := Fake_unwrap_kek SlotA [0x42] fake in
  let fake := clear_wrap (succeed_wrap_with (replicate 4 0x88) (fail_wrap WrapFailed fake)) in
  let '(fake, r2) := Fake_wrap_kek SlotA [0x43] fake in
  let '(fake, r3) := Fake_provision SlotA POLICY_A (clear_provision (fail_provision ProvisionFailed fake)) in
  let '(fake, r4) := Fake_destroy SlotA (clear_destroy (fail_destroy DestroyFailed fake)) in
  assert_that (gives [0x42] r1 && gives [0x43] r2 && is_ok r3 && is_ok r4).
Definition debug_redacts_payloads : option unit :=
  let fake := succeed_wrap_with [0xfe; 0xdc; 0xba; 0x98] (succeed_unwrap_with [0xab; 0xcd; 0x12; 0x34] Fake_new) in
  let rendered := FakePlatformKeyStore_debug (Fake_unwrap_kek SlotA [0] fake).1 in
  assert_that (contains (str "[redacted]") rendered && contains (str "unwrap_kek_calls: 1") rendered &&
    negb (contains (str "abcd") rendered) && negb (contains (str "fedc") rendered) && negb (contains (str "1234") rendered) &&
    negb (contains (str "ab cd") (to_ascii_lowercase rendered))).
Definition zeroize_clears_configured_payloads : option unit :=
  let fake := Fake_zeroize (succeed_wrap_with (replicate 32 0xBB) (succeed_unwrap_with (replicate 32 0xAA) Fake_new)) in
  let '(fake, r1) := Fake_unwrap_kek SlotA [1; 2] fake in
  let '(fake, r2) := Fake_wrap_kek SlotA [3; 4] fake in
  assert_that (gives [1; 2] r1 && gives [3; 4] r2).

(** The tests of the fake keystore pass. *)
Lemma fake_tests_pass :
  forallb passed
    [default_unwrap_is_identity; default_wrap_is_identity; configured_unwrap_payload; configured_wrap_payload;
     configured_failure_wins_over_payload; every_method_failure_surfaces; unexpected_is_injectable; slot_c_is_rejected_and_counted;
     provision_rejects_slot_policy_mismatch; provision_and_destroy_succeed_for_matching_slots; counters_accumulate_then_reset;
     clear_restores_identity_and_success; debug_redacts_payloads; zeroize_clears_configured_payloads] = true.
Proof. vm_compute. reflexivity. Qed.
End FakeTests.

(** ** [policy.rs] *)

Module PolicyTests.
(** The class fields of a policy that names no hardware binding and no Argon profile. *)
Definition access_class (p : SlotPolicy) (slot : KeySlot) (unlock : UnlockFactor) (on_change : bool) : bool :=
  bool_decide (sp_slot p = slot) && bool_decide (sp_unlock p = unlock) && bool_decide (sp_hw_binding p = None) &&
  bool_decide (sp_argon p = None) && bool_decide (invalidate_on_biometric_change p = on_change) && require_device_unlocked p.
Definition policy_a_matches_spec_access_class : option unit := assert_that (access_class POLICY_A SlotA Biometry true).
Definition policy_b_matches_spec_access_class : option unit := assert_that (access_class POLICY_B SlotB UserPresence false).
Definition with_hw_binding_fills_only_that_field : option unit :=
  let ios := with_hw_binding SecureEnclaveEcies POLICY_A in
  let android := with_hw_binding KeystoreAesGcm POLICY_B in
  assert_that (bool_decide (sp_hw_binding ios = Some SecureEnclaveEcies) && bool_decide (sp_slot ios = sp_slot POLICY_A) &&
    bool_decide (sp_unlock ios = sp_unlock POLICY_A) && bool_decide (sp_argon ios = sp_argon POLICY_A) &&
    bool_decide (invalidate_on_biometric_change ios = invalidate_on_biometric_change POLICY_A) &&
    bool_decide (require_device_unlocked ios = require_device_unlocked POLICY_A) &&
    bool_decide (sp_hw_binding android = Some KeystoreAesGcm) && bool_decide (sp_slot android = SlotB)).
Definition labels_and_display : option unit :=
  assert_that (bool_decide (UnlockFactor_as_str Biometry = str "biometry") &&
    bool_decide (UnlockFactor_as_str UserPresence = str "user-presence") &&
    bool_decide (HwBinding_as_str SecureEnclaveEcies = str "secure-enclave-ecies") &&
    bool_decide (HwBinding_as_str KeystoreAesGcm = str "keystore-aes-gcm") &&
    bool_decide (ArgonProfile_as_str ArgonHigh = str "HIGH") && bool_decide (ArgonProfile_as_str ArgonLow = str "LOW")).

(** The tests of the slot policies pass. *)
Lemma policy_tests_pass :
  forallb passed
    [policy_a_matches_spec_access_class; policy_b_matches_spec_access_class; with_hw_binding_fills_only_that_field;
     labels_and_display] = true.
Proof. vm_compute. reflexivity. Qed.
End PolicyTests.
