(* ===== verification/ChainTests.v ===== *)
(** The offline unit tests of [trinity-chain], run on the model.

    The test modules of [fee.rs], [privacy.rs], [memory.rs], [split.rs],
    [lib.rs] and [electrum.rs]. The two backends behind a split are two states
    side by side. An Electrum server is an instance of [ElectrumClient]: one
    that cannot be reached, and the project's mock, which accepts the handshake
    and answers every request with an error. Tests of error texts are left
    out. *)
From Stdlib Require Import SpecFloat.
From S2P Require Import Prelude Ordered Types Bitcoin Parse Text Checkpoint Chain CoreRpc Electrum Cbf Keystore Sign Redact TestWallet.

Definition is_network {A} (r : res ChainError A) : bool := match r with Err (ChNetwork _) => true | _ => false end.
Definition is_other {A} (r : res ChainError A) : bool := match r with Err (ChOther _) => true | _ => false end.
Definition is_unavailable {A} (r : res ChainError A) : bool := match r with Err (ChUnavailable _) => true | _ => false end.
Definition kind_is (k : BackendKind) (p : PrivacyProfile) : bool := bool_decide (kind p = k).
(** [FullScanRequest::builder_at(t).build()] and its sibling. *)
Definition empty_full_scan (t : Z) : FullScanRequest := mkFullScanRequest t None [].
Definition empty_sync_request (t : Z) : SyncRequest := mkSyncRequest t None [] [] [].
Definition empty_tx (sats : Z) : Transaction :=
  mkTransaction 2 0 [mkTxIn (mkOutPoint (replicate 32 0) u32_max) [] RBF_SEQUENCE []] [mkTxOut sats []].

(** ** [fee.rs] and [privacy.rs] *)

Module FeeTests.
Definition from_targets_and_lookup : option unit :=
  let e := from_targets [(1, 10); (6, 3)] in
  assert_that (bool_decide (sat_per_vb_for e 1 = Some 10) && bool_decide (sat_per_vb_for e 6 = Some 3) &&
    bool_decide (sat_per_vb_for e 144 = None) && negb (FeeEstimates_is_empty e)).
Definition empty_default : option unit :=
  assert_that (FeeEstimates_is_empty FeeEstimates_empty && bool_decide (FeeEstimates_display FeeEstimates_empty = str "{}")).
Definition display_lists_targets : option unit :=
  let s := FeeEstimates_display (from_targets [(1, 8); (6, 2)]) in
  let arrow := [226; 134; 146] in
  assert_that (contains (str "1bl" ++ arrow ++ str "8 sat/vB") s && contains (str "6bl" ++ arrow ++ str "2 sat/vB") s).

Definition table_rows_match_spec_flags : option unit :=
  assert_that (
    reveals_full_wallet_graph electrum_own_server && negb (third_party_counterparty electrum_own_server) &&
    negb (requires_selection_warning electrum_own_server) &&
    reveals_full_wallet_graph electrum_third_party && third_party_counterparty electrum_third_party &&
    requires_selection_warning electrum_third_party &&
    negb (reveals_full_wallet_graph profile_core_rpc) && negb (third_party_counterparty profile_core_rpc) &&
    negb (reveals_full_wallet_graph profile_cbf) && third_party_counterparty profile_cbf &&
    negb (requires_selection_warning profile_cbf)).
Definition kind_labels_stable : option unit :=
  assert_that (bool_decide (BackendKind_as_str ElectrumOwnServer = str "electrum_own_server") &&
    bool_decide (BackendKind_as_str ElectrumThirdParty = str "electrum_third_party") &&
    bool_decide (BackendKind_as_str CoreRpc = str "core_rpc") && bool_decide (BackendKind_as_str Chain.Cbf = str "cbf") &&
    bool_decide (BackendKind_as_str InMemory = str "in_memory") &&
    contains (str "in_memory") (PrivacyProfile_display profile_in_memory)).
Definition copy_strings_are_nonempty : option unit :=
  assert_that (forallb (λ p, negb (length (counterparty_learns p) =? 0)%nat && negb (length (magnitude p) =? 0)%nat)
    [electrum_own_server; electrum_third_party; profile_core_rpc; profile_cbf; profile_in_memory]).

(** The tests of fee estimates and privacy profiles pass. *)
Lemma fee_tests_pass :
  forallb passed
    [from_targets_and_lookup; empty_default; display_lists_targets; table_rows_match_spec_flags; kind_labels_stable;
     copy_strings_are_nonempty] = true.
Proof. vm_compute. reflexivity. Qed.
End FeeTests.

(** ** [memory.rs], [split.rs] and [lib.rs] *)

Module BackendTests.
Definition happy_path_no_network : option unit :=
  let m := set_sync_update Update_default (set_full_scan_update Update_default
    (set_fee_estimates (from_targets [(1, 12); (6, 4)]) (set_tip_height 840000 MemoryBackend_new))) in
  let '(m, r) := memory_full_scan (empty_full_scan 0) m in
  update ← unwrap r;
  _ ← assert_that (match up_chain update with None => true | Some _ => false end);
  let '(m, r) := memory_sync (empty_sync_request 0) m in
  _ ← unwrap r;
  let '(m, r) := memory_broadcast (empty_tx 1000) m in
  txid ← unwrap r;
  _ ← assert_that (bool_decide (txid = compute_txid (empty_tx 1000)) && (length (broadcasted m) =? 1)%nat);
  let '(m, r) := memory_tip_height m in
  tip ← unwrap r;
  let '(m, r) := memory_fee_estimates m in
  fees ← unwrap r;
  assert_that ((tip =? 840000) && bool_decide (sat_per_vb_for fees 1 = Some 12) && kind_is InMemory (mem_privacy m)).
Definition failure_injection_covers_error_variants : option unit :=
  let '(m, r) := memory_full_scan (empty_full_scan 0) (fail_next_full_scan (str "scan down") MemoryBackend_new) in
  _ ← assert_that (is_network r);
  let '(m, r) := memory_full_scan (empty_full_scan 0) m in
  _ ← assert_that (is_ok r);
  let '(m, r) := memory_sync (empty_sync_request 0) (fail_next_sync (str "sync down") m) in
  _ ← assert_that (is_network r);
  let '(m, r) := memory_broadcast (empty_tx 1000) (fail_next_broadcast (str "reject") m) in
  _ ← assert_that (match r with Err (ChBroadcast _) => true | _ => false end && (length (broadcasted m) =? 0)%nat);
  let '(m, r) := memory_fee_estimates (fail_next_fee_estimates (str "no fees") m) in
  _ ← assert_that (is_unavailable r);
  assert_that (is_unavailable (memory_tip_height (fail_next_tip_height (str "no tip") m)).2).
Definition shared_is_object_safe : option unit :=
  tip ← unwrap (tip_height memory_backend MemoryBackend_new).2;
  assert_that ((tip =? 0) && negb (reveals_full_wallet_graph (privacy_profile memory_backend MemoryBackend_new))).

(** A split over two in-memory backends, with their states. *)
Definition memory_split : ChainBackend (MemoryBackend * MemoryBackend) := split_backend (mkSplit (on_fst memory_backend) (on_snd memory_backend)).
Definition broadcast_uses_broadcast_backend_only : option unit :=
  let w := (set_tip_height 100 MemoryBackend_new, MemoryBackend_new) in
  let '(w, r) := broadcast memory_split (empty_tx 500) w in
  txid ← unwrap r;
  _ ← assert_that (bool_decide (txid = compute_txid (empty_tx 500)) && (length (broadcasted w.1) =? 0)%nat && (length (broadcasted w.2) =? 1)%nat);
  let '(w, r) := tip_height memory_split w in
  tip ← unwrap r;
  fees ← unwrap (fee_estimates memory_split w).2;
  assert_that ((tip =? 100) && FeeEstimates_is_empty fees).

(** [ProfiledBackend]: an in-memory backend with another privacy profile. *)
Definition profiled (profile : PrivacyProfile) : ChainBackend MemoryBackend :=
  mkBackend (full_scan memory_backend) (sync memory_backend) (broadcast memory_backend) (fee_estimates memory_backend)
    (tip_height memory_backend) (λ _, profile).
Definition privacy_profile_follows_sync_backend : option unit :=
  let split := split_backend (mkSplit (on_fst (profiled electrum_third_party)) (on_snd (profiled profile_cbf))) in
  let w := (set_tip_height 7 MemoryBackend_new, MemoryBackend_new) in
  let p := privacy_profile split w in
  _ ← assert_that (kind_is ElectrumThirdParty p && requires_selection_warning p);
  let '(w, r) := tip_height split w in
  tip ← unwrap r;
  let '(w, r) := fee_estimates split w in
  fees ← unwrap r;
  let '(w, scanned) := full_scan split (empty_full_scan 0) w in
  let '(w, synced) := sync split (empty_sync_request 0) w in
  let '(w, sent) := broadcast split (empty_tx 500) w in
  assert_that ((tip =? 7) && FeeEstimates_is_empty fees && is_ok scanned && is_ok synced && is_ok sent).
Definition scan_and_sync_delegate_to_sync_backend : option unit :=
  let w := (fail_next_full_scan (str "only sync") MemoryBackend_new, MemoryBackend_new) in
  let '(w, r) := full_scan memory_split (empty_full_scan 0) w in
  assert_that (is_network r && is_ok (sync memory_split (empty_sync_request 0) w).2).
Definition dyn_chain_backend_method_set : option unit :=
  let w := (set_tip_height 42 MemoryBackend_new, MemoryBackend_new) in
  let '(w, scanned) := full_scan memory_split (empty_full_scan 1) w in
  let '(w, synced) := sync memory_split (empty_sync_request 1) w in
  _ ← assert_that (is_ok scanned && is_ok synced);
  let '(w, r) := tip_height memory_split w in
  tip ← unwrap r;
  let '(w, r) := fee_estimates memory_split w in
  fees ← unwrap r;
  assert_that ((tip =? 42) && FeeEstimates_is_empty fees && kind_is InMemory (privacy_profile memory_split w)).

(** The tests of the in-memory backend and of the split pass. *)
Lemma backend_tests_pass :
  forallb passed
    [happy_path_no_network; failure_injection_covers_error_variants; shared_is_object_safe; broadcast_uses_broadcast_backend_only;
     privacy_profile_follows_sync_backend; scan_and_sync_delegate_to_sync_backend; dyn_chain_backend_method_set] = true.
Proof. vm_compute. reflexivity. Qed.
End BackendTests.

(** ** [electrum.rs] *)

Module ElectrumTests.
(** A server with this answer to the handshake that fails every request. *)
Definition refusing (handshake : res ElectrumError unit) (e : ElectrumError) : ElectrumClient := {|
  client_from_config _ _ := handshake;
  client_full_scan _ _ _ _ := Err e;
  client_sync _ _ _ := Err e;
  transaction_broadcast _ := Err e;
  estimate_fee _ := Err e;
  block_headers_subscribe := Err e
|}.
Definition unreachable_server : ElectrumClient := refusing (Err (EIOError (str "refused"))) (EIOError (str "refused")).
(** [spawn_mock_electrum] *)
Definition mock_electrum : ElectrumClient := refusing (Ok tt) (EProtocol (str "mock: unimplemented")).
Definition connect (client : ElectrumClient) (c : ElectrumConfig) : res ChainError ElectrumBackend := electrum_connect c.

Definition with_limits (stop_gap batch : Z) (c : ElectrumConfig) : ElectrumConfig :=
  mkElectrumConfig (host c) (port c) (use_tls c) (tls_pin c) (socks5 c) (own_server c) stop_gap batch
    (timeout c) (retry c) (validate_domain c) (fetch_prev_txouts c).
Definition with_timeout (ms : Z) (c : ElectrumConfig) : ElectrumConfig :=
  mkElectrumConfig (host c) (port c) (use_tls c) (tls_pin c) (socks5 c) (own_server c) (el_stop_gap c) (batch_size c)
    (Some ms) 0 (validate_domain c) (fetch_prev_txouts c).
Definition with_pin_only (pin : bytes) (c : ElectrumConfig) : ElectrumConfig :=
  mkElectrumConfig (host c) (port c) false (Some pin) (socks5 c) (own_server c) (el_stop_gap c) (batch_size c)
    (timeout c) (retry c) (validate_domain c) (fetch_prev_txouts c).
(** The errors a failed connection may end in. *)
Definition clean_error {A} (r : res ChainError A) : bool := is_network r || is_unavailable r || is_other r.

Definition server_url_plaintext_and_tls : option unit :=
  let plain := ElectrumConfig_new (str "example.org") 50001 in
  let tls := with_tls (Some (str "ab")) (ElectrumConfig_new (str "example.org") 50002) in
  assert_that (bool_decide (server_url plain = str "tcp://example.org:50001") &&
    bool_decide (server_url tls = str "ssl://example.org:50002") && bool_decide (tls_pin tls = Some (str "ab"))).
Definition privacy_own_vs_third_party : option unit :=
  let c := ElectrumConfig_new (str "h") 1 in
  assert_that (own_server c && negb (own_server (third_party c)) && kind_is ElectrumOwnServer electrum_own_server &&
    kind_is ElectrumThirdParty electrum_third_party && requires_selection_warning electrum_third_party &&
    reveals_full_wallet_graph electrum_own_server).
Definition config_rejects_tls_pin_without_tls : option unit :=
  let c := with_pin_only (str "deadbeef") (ElectrumConfig_new (str "127.0.0.1") 1) in
  let c' := with_timeout 200 (with_tls (Some (str "deadbeef")) (ElectrumConfig_new (str "127.0.0.1") 1)) in
  assert_that (match connect unreachable_server c with Err (ChOther msg) => contains (str "tls_pin") msg | _ => false end &&
    match connect unreachable_server c' with Err (ChOther msg) => negb (contains (str "tls_pin requires use_tls") msg) | Err _ => true | _ => false end).
Definition config_rejects_empty_host_and_zero_gaps : option unit :=
  let c := ElectrumConfig_new (str "h") 1 in
  assert_that (is_other (connect unreachable_server (ElectrumConfig_new (str "  ") 1)) &&
    is_other (connect unreachable_server (with_limits 0 (batch_size c) c)) &&
    is_other (connect unreachable_server (with_limits (el_stop_gap c) 0 c))).

(** [n / d] as the closest double, the value of a decimal literal. *)
Definition literal (n d : Z) : spec_float := SFdiv 53 1024 (f64 n) (f64 d).
Definition btc_per_kb_conversion : option unit :=
  assert_that (bool_decide (btc_per_kb_to_sat_per_vb (literal 1 100000) = Some 1) &&
    bool_decide (btc_per_kb_to_sat_per_vb (literal 1 10000) = Some 10) &&
    bool_decide (btc_per_kb_to_sat_per_vb (f64 (-1)) = None) && bool_decide (btc_per_kb_to_sat_per_vb S754_nan = None)).
Definition s13_unreachable_port_returns_chain_error : option unit :=
  assert_that (clean_error (connect unreachable_server (with_timeout 400 (ElectrumConfig_new (str "127.0.0.1") 1)))).
Definition s13_unroutable_host_returns_chain_error : option unit :=
  assert_that (clean_error (connect unreachable_server (with_timeout 500 (ElectrumConfig_new (str "192.0.2.1") 60401)))).
Definition socks5_builders_and_debug : option unit :=
  let p := Socks5Proxy_new (str "127.0.0.1:9050") in
  let c := config_own_server (with_socks5 p regtest_electrs) in
  assert_that (bool_decide (socks_addr p = str "127.0.0.1:9050") && bool_decide (is_Some (socks5 c)) && own_server c).
Definition regtest_electrs_defaults : option unit :=
  let c := regtest_electrs in
  assert_that (bool_decide (host c = str "127.0.0.1") && (port c =? 60401) && negb (use_tls c) && own_server c &&
    bool_decide (server_url c = str "tcp://127.0.0.1:60401")).

Definition err (e : ChainError) : res ChainError unit := Err e.
Definition is_protocol {A} (r : res ChainError A) : bool := match r with Err (ChProtocol _) => true | _ => false end.
Definition map_error_variants_cover_surface : option unit :=
  let m e := err (map_electrum_error e) in
  let b e := err (map_broadcast_error e) in
  let sh := replicate 32 0 in
  assert_that (
    is_network (m (EMessage (str "cannot find agreement block with server"))) && is_network (m (EMessage (str "failed to connect"))) &&
    is_other (m (EMessage (str "server says hi"))) && is_protocol (m (EProtocol (str "x"))) && is_protocol (m (EInvalidResponse (str "a"))) &&
    is_network (m EMissingDomain) && is_network (m (EInvalidDNSNameError (str "x"))) && is_unavailable (m ECouldntLockReader) &&
    is_unavailable (m EMpsc) && is_unavailable (m (EAlreadySubscribed sh)) && is_unavailable (m (ENotSubscribed sh)) &&
    is_protocol (m (EJSON (str "expected ident"))) && is_protocol (m (EHex (str "invalid hex"))) && is_protocol (m (EBitcoin (str "empty"))) &&
    is_network (m (EAllAttemptsErrored [EMessage (str "a"); EMessage (str "b")])) &&
    match b (EProtocol (str "reject")) with Err (ChBroadcast _) => true | _ => false end &&
    is_network (b (EAllAttemptsErrored [EMessage (str "down")])) &&
    bool_decide (btc_per_kb_to_sat_per_vb (S754_infinity false) = None) && bool_decide (btc_per_kb_to_sat_per_vb (literal (-1) 2) = None) &&
    bool_decide (btc_per_kb_to_sat_per_vb (f64 (10 ^ 300)) = None) &&
    is_network (m (EIOError (str "refused"))) && is_network (m (ESharedIOError (str "pipe"))) && is_network (b (EIOError (str "timeout")))).

Definition third_party_privacy_on_connected_shape : option unit :=
  let c := with_timeout 300 (third_party regtest_electrs) in
  assert_that (negb (own_server c) && clean_error (connect unreachable_server c) &&
    match connect mock_electrum c with
    | Ok b => kind_is ElectrumThirdParty (electrum_privacy_profile b) && requires_selection_warning (electrum_privacy_profile b)
    | _ => false
    end).
Definition mock_server_covers_connected_surface : option unit :=
  let c := with_timeout 2000 (ElectrumConfig_new (str "127.0.0.1") 50001) in
  backend ← unwrap (connect mock_electrum c);
  assert_that (contains (str "127.0.0.1") (ElectrumBackend_debug backend) && (port (el_config backend) =? 50001) &&
    kind_is ElectrumOwnServer (electrum_privacy_profile backend) && negb (is_ok (@electrum_fee_estimates mock_electrum)) &&
    negb (is_ok (@electrum_tip_height mock_electrum)) && negb (is_ok (@electrum_broadcast mock_electrum (mkTransaction 2 0 [] [])))).
Definition mock_server_third_party_privacy_branch : option unit :=
  backend ← unwrap (connect mock_electrum (with_timeout 2000 (third_party (ElectrumConfig_new (str "127.0.0.1") 50001))));
  assert_that (kind_is ElectrumThirdParty (electrum_privacy_profile backend) && requires_selection_warning (electrum_privacy_profile backend)).

(** The tests of the Electrum backend pass. *)
Lemma electrum_tests_pass :
  forallb passed
    [server_url_plaintext_and_tls; privacy_own_vs_third_party; config_rejects_tls_pin_without_tls; config_rejects_empty_host_and_zero_gaps;
     btc_per_kb_conversion; s13_unreachable_port_returns_chain_error; s13_unroutable_host_returns_chain_error; socks5_builders_and_debug;
     regtest_electrs_defaults; map_error_variants_cover_surface; third_party_privacy_on_connected_shape;
     mock_server_covers_connected_surface; mock_server_third_party_privacy_branch] = true.
Proof. vm_compute. reflexivity. Qed.
End ElectrumTests.
