(* ===== verification/EntropyTests.v ===== *)
(** The unit tests of [trinity-entropy]'s [sources.rs] and [hex.rs], and those of
    [trinity-types]'s [secret.rs] and [psbt.rs], run on the model: each test is a
    boolean with the assertions of the source, and [sources_tests_pass] and
    [wrapper_tests_pass] evaluate them. The serialization tests of [psbt.rs] are left out. *)
From S2P Require Import Prelude Ordered Types Bitcoin Entropy Text Redact.

#[local] Instance CardError_eq_dec : EqDecision CardError.
Proof. solve_decision. Defined.
#[local] Instance EntropyError_eq_dec : EqDecision EntropyError.
Proof. solve_decision. Defined.
#[local] Instance CountableEntropy_eq_dec : EqDecision CountableEntropy.
Proof. solve_decision. Defined.

(** ** [sources.rs] *)

Module SourcesTests.
Definition NEW : AdditionalEntropy := AdditionalEntropy_new.
(** [unwrap()] on a builder step, and the bytes of the result. *)
Definition unwrap (r : res EntropyError AdditionalEntropy) : AdditionalEntropy := match r with Ok a => a | _ => NEW end.
Definition dice_of (s : bytes) (a : AdditionalEntropy) : AdditionalEntropy := unwrap (with_dice s a).
Definition coins_of (s : bytes) (a : AdditionalEntropy) : AdditionalEntropy := unwrap (with_coins s a).
Definition cards_of (s : bytes) (a : AdditionalEntropy) : AdditionalEntropy := unwrap (with_cards s a).
Definition encodes (a : AdditionalEntropy) (b : bytes) : bool := bool_decide (canonical_bytes a = b).
Definition refused (e : EntropyError) (r : res EntropyError AdditionalEntropy) : bool :=
  match r with Err e' => bool_decide (e' = e) | _ => false end.
Definition encoded_cards (a : AdditionalEntropy) : list bytes := map card_encode (default [] (cards a)).

Definition dice_only_example_from_spec : bool :=
  let extra := dice_of (str "31662") NEW in
  encodes extra (str "31662") && bool_decide (dice extra = Some (str "31662")) && (dice_rolls (countable extra) =? 5)%nat.
Definition empty_sources_yield_empty_bytes : bool := encodes NEW [] && encodes (with_sensor [] NEW) [].
Definition trailing_omit_keeps_internal_empty_slot : bool :=
  encodes (cards_of (str "AS") (dice_of (str "12") NEW)) (str "12" ++ [0x1E; 0x1E] ++ str "AS").
Definition only_coin_has_leading_separator : bool := encodes (coins_of (str "10") NEW) ([0x1E] ++ str "10").
Definition only_sensor_has_three_separators : bool := encodes (with_sensor [0xAA] NEW) [0x1E; 0x1E; 0x1E; 0xAA].
Definition dice_one_does_not_collide_with_coin_one : bool :=
  negb (bool_decide (canonical_bytes (dice_of (str "1") NEW) = canonical_bytes (coins_of (str "1") NEW))).
Definition dice_11_does_not_collide_with_dice_1_coin_1 : bool :=
  encodes (dice_of (str "11") NEW) (str "11") && encodes (coins_of (str "1") (dice_of (str "1") NEW)) (str "1" ++ [0x1E] ++ str "1").
Definition cards_parse_ten_and_faces : bool :=
  let extra := cards_of (str "AS10HKDQC2C") NEW in
  bool_decide (encoded_cards extra = [str "AS"; str "10H"; str "KD"; str "QC"; str "2C"]) &&
  bool_decide (cards_ascii extra = Some (str "AS10HKDQC2C")) && bool_decide (cards_display extra = Some (str "AS 10H KD QC 2C")) &&
  bool_decide (head (default [] (cards extra)) = Some (mkCard Ace Spades)).
Definition deck : list Card :=
  r ← [Ace; Two; Three; Four; Five; Six; Seven; Eight; Nine; Ten; Jack; Queen; King];
  s ← [Spades; Hearts; Diamonds; Clubs]; [mkCard r s].
Definition full_deck_all_ranks_and_suits : bool := (card_count (countable (cards_of (concat (map card_encode deck)) NEW)) =? 52)%nat.
Definition rejects_bad_dice_coins_cards : bool :=
  refused EmptyDice (with_dice [] NEW) && refused (InvalidDice 1 55) (with_dice (str "17") NEW) &&
  refused EmptyCoins (with_coins [] NEW) && refused (InvalidCoin 1 50) (with_coins (str "02") NEW) &&
  refused EmptyCards (with_cards [] NEW) && refused (InvalidCard Incomplete) (with_cards (str "A") NEW) &&
  refused (InvalidCard Incomplete) (with_cards (str "10") NEW) &&
  refused (InvalidCard (UnexpectedByte 0 49)) (with_cards (str "1H") NEW) &&
  refused (InvalidCard (UnexpectedByte 1 88)) (with_cards (str "AX") NEW) &&
  forallb (λ c, refused (InvalidCard (Duplicate c)) (with_cards (c ++ c) NEW)) [str "AS"; str "2H"; str "KD"].
Definition cards_known_sequence_roundtrip : bool :=
  let extra := cards_of (str "2HKDAS") NEW in
  bool_decide (cards_ascii extra = Some (str "2HKDAS")) && (card_count (countable extra) =? 3)%nat &&
  bool_decide (encoded_cards extra = [str "2H"; str "KD"; str "AS"]).
Definition countable_ignores_sensor : bool :=
  let a := dice_of (str "123") NEW in
  let b := with_sensor (replicate (100 * 100) 0) a in
  bool_decide (countable a = countable b) && (class_b_credited_bits (countable b) =? 0) &&
  negb (bool_decide (canonical_bytes a = canonical_bytes b)) && bool_decide (length <$> sensor b = Some (100 * 100)%nat).
Definition shows (text : bytes) (yes no : list bytes) : bool := forallb (λ p, contains p text) yes && forallb (λ p, negb (contains p text)) no.
Definition debug_redacts_sensor_payload : bool :=
  shows (AdditionalEntropy_debug (with_sensor [0xDE; 0xAD] NEW)) [str "2 bytes"] [str "dead"; str "de, ad"].
Definition debug_redacts_class_a_sources : bool :=
  let extra := with_sensor [0xAA; 0xBB] (cards_of (str "AS10HKD") (coins_of (str "0110") (dice_of (str "31662") NEW))) in
  shows (AdditionalEntropy_debug extra) [str "[5 chars]"; str "[4 chars]"; str "[3 cards]"; str "[2 bytes]"]
    [str "31662"; str "0110"; str "AS"; str "10H"; str "KD"; str "Ace"; str "Spades"; str "aabb"].
Definition accessors_none_when_inactive : bool :=
  bool_decide (dice NEW = None) && bool_decide (coins NEW = None) && bool_decide (cards NEW = None) && bool_decide (cards_ascii NEW = None) &&
  bool_decide (cards_display NEW = None) && bool_decide (sensor NEW = None) && bool_decide (countable NEW = mkCountable 0 0 0).

(** The tests of the entropy sources pass. *)
Lemma sources_tests_pass :
  forallb id
    [dice_only_example_from_spec; empty_sources_yield_empty_bytes; trailing_omit_keeps_internal_empty_slot;
     only_coin_has_leading_separator; only_sensor_has_three_separators; dice_one_does_not_collide_with_coin_one;
     dice_11_does_not_collide_with_dice_1_coin_1; cards_parse_ten_and_faces; full_deck_all_ranks_and_suits;
     rejects_bad_dice_coins_cards; cards_known_sequence_roundtrip; countable_ignores_sensor;
     debug_redacts_sensor_payload; debug_redacts_class_a_sources; accessors_none_when_inactive] = true.
Proof. vm_compute. reflexivity. Qed.
End SourcesTests.

(** ** [secret.rs] and [psbt.rs] *)

Module WrapperTests.
Import SourcesTests.
Definition new_and_accessors : bool :=
  let s := SecretBytes_new [1; 2; 3] in
  bool_decide (SecretBytes_as_slice s = [1; 2; 3]) && (SecretBytes_len s =? 3)%nat && negb (SecretBytes_is_empty s).
Definition from_slice_copies : bool := bool_decide (SecretBytes_as_slice (SecretBytes_from_slice [9; 8; 7]) = [9; 8; 7]).
Definition empty_buffer : bool := SecretBytes_is_empty (SecretBytes_new []) && (SecretBytes_len (SecretBytes_new []) =? 0)%nat.
Definition mut_slice_writable : bool :=
  match SecretBytes_write (E:=unit) 0 1 (SecretBytes_new [0; 0]) with Ok s => bool_decide (SecretBytes_as_slice s = [1; 0]) | _ => false end.
Definition debug_is_redacted : bool :=
  let d := SecretBytes_debug (SecretBytes_new [0xDE; 0xAD]) in bool_decide (d = str "[redacted]") && shows d [] [str "de"; str "ad"].
Definition display_is_redacted : bool :=
  let d := SecretBytes_display (SecretBytes_new [0xBE; 0xEF]) in bool_decide (d = str "[redacted]") && shows d [] [str "be"; str "ef"].
Definition construct_and_access : bool :=
  bool_decide (PsbtB64_as_str (PsbtB64_new (str "cHNidP8BAH0")) = str "cHNidP8BAH0") &&
  bool_decide (PsbtB64_into_string (PsbtB64_new (str "xyz")) = str "xyz").
Definition debug_shows_len_not_full_body_requirement : bool := shows (PsbtB64_debug (PsbtB64_new (str "abcd"))) [str "PsbtB64"; str "len"; str "4"] [].
Definition display_is_base64 : bool := bool_decide (PsbtB64_display (PsbtB64_new (str "cHNidP8=")) = str "cHNidP8=").

(** The tests of the wrappers pass. *)
Lemma wrapper_tests_pass :
  forallb id
    [new_and_accessors; from_slice_copies; empty_buffer; mut_slice_writable; debug_is_redacted; display_is_redacted;
     construct_and_access; debug_shows_len_not_full_body_requirement; display_is_base64] = true.
Proof. vm_compute. reflexivity. Qed.
End WrapperTests.
