(* ===== verification/WatchDesc.v ===== *)
(** [trinity-watch/src/descriptor]: building the wallet's descriptors
    ([path.rs], [build.rs], [source.rs], [error.rs] and the data of
    [document.rs]).

    An array of three keys is a record of three. Miniscript is the class
    [Miniscript]; [MiniscriptLaws] is what its documentation says of printing:
    keys print with [']-marked origins, descriptors with a BIP-380 checksum.
    [built_descriptors_parse] is the contract between this crate and the
    verifier: what the builder returns for extended keys without a slash,
    [Parse.parse] reads as the same keys. *)
From S2P Require Import Prelude Ordered Types Bitcoin Checksum Parse Text.

(** ** Data *)

Inductive DescriptorError :=
  | DeDuplicateFingerprint (hex : bytes)
  | DeMultipathForbidden
  | DePrivateKeyForbidden
  | DeInvalidOriginPath
  | DeInvalidKeyExpression
  | DeForeignGrammar
  | DeConstruction
  | DeJson
  | DeInvalidDocument.

(** [KeySource] of [source.rs]. *)
Inductive ContribSource := InApp | Hardware (model : bytes).
#[global] Instance ContribSource_eq_dec : EqDecision ContribSource.
Proof. solve_decision. Defined.
Definition is_hardware (s : ContribSource) : bool := match s with Hardware _ => true | InApp => false end.

Record KeyContribution := mkContribution {
  kc_slot : KeySlot;
  kc_xpub : XpubWithOrigin;
  kc_birthday_height : Z;
  kc_word_count : WordCount;
  kc_source : ContribSource;
  kc_policy_id : option bytes
}.
#[global] Instance XpubWithOrigin_eq_dec : EqDecision XpubWithOrigin.
Proof. solve_decision. Defined.
#[global] Instance KeyContribution_eq_dec : EqDecision KeyContribution.
Proof. solve_decision. Defined.

(** [[T; 3]] *)
Record arr3 (A : Type) := mkArr3 { a0 : A; a1 : A; a2 : A }.
Arguments mkArr3 {A}.
Arguments a0 {A}.
Arguments a1 {A}.
Arguments a2 {A}.
#[global] Instance arr3_eq_dec `{EqDecision A} : EqDecision (arr3 A).
Proof. solve_decision. Defined.
Definition arr_list {A} (a : arr3 A) : list A := [a0 a; a1 a; a2 a].

Definition FORMAT_VERSION : Z := 1.
Record WalletDescriptors := mkWalletDescriptors {
  wd_format_version : Z;
  wd_network : Network;
  wd_created_at_unix : Z;
  receive_descriptor : bytes;
  change_descriptor : bytes;
  wd_keys : arr3 KeyContribution
}.

(** ** [path.rs] *)

Definition BIP48_PURPOSE : Z := 48.
Definition BIP48_SCRIPT_P2WSH : Z := 2.
Definition BIP48_ACCOUNT : Z := 0.

Definition bip48_origin_path (network : Network) : bytes :=
  dec BIP48_PURPOSE ++ str "'/" ++ dec (coin_type network) ++ str "'/" ++
  dec BIP48_ACCOUNT ++ str "'/" ++ dec BIP48_SCRIPT_P2WSH ++ str "'".

Definition expected_bip48_children (network : Network) : list ChildNumber :=
  [Hardened BIP48_PURPOSE; Hardened (coin_type network); Hardened BIP48_ACCOUNT; Hardened BIP48_SCRIPT_P2WSH].

Definition strip_m (path : bytes) : bytes := default path (strip_prefix (str "m/") path).

Definition validate_bip48_origin (path : bytes) (network : Network) : res DescriptorError unit :=
  if has_char 60 path || has_char 59 path || has_char 42 path then Err DeMultipathForbidden else
  deriv ← ok_or (DerivationPath_from_str (strip_m path)) DeInvalidOriginPath;
  if bool_decide (deriv ≠ expected_bip48_children network) then Err DeInvalidOriginPath else Ok tt.

Definition validate_public_xpub (x : bytes) : res DescriptorError unit :=
  let lower := to_ascii_lowercase x in
  if starts_with (str "xprv") lower || starts_with (str "tprv") lower then Err DePrivateKeyForbidden else
  if has_char 60 x || has_char 59 x then Err DeMultipathForbidden else
  if negb (starts_with (str "xpub") x || starts_with (str "tpub") x) then Err DeInvalidKeyExpression else
  Ok tt.

(** ** Miniscript *)

(** A parsed [Descriptor<DescriptorPublicKey>], as far as it is inspected. *)
Inductive MsDescriptor (Pk : Type) :=
  | MsWshSortedMulti (k : Z) (pks : list Pk)
  | MsWshMs
  | MsSh | MsWpkh | MsPkh | MsTr | MsBare.
Arguments MsWshSortedMulti {Pk}.
Arguments MsWshMs {Pk}.
Arguments MsSh {Pk}.
Arguments MsWpkh {Pk}.
Arguments MsPkh {Pk}.
Arguments MsTr {Pk}.
Arguments MsBare {Pk}.

Class Miniscript := {
  DescriptorPublicKey : Type;
  dpk_from_str : bytes → option DescriptorPublicKey;
  dpk_display : DescriptorPublicKey → bytes;
  is_multipath : DescriptorPublicKey → bool;
  new_wsh_sortedmulti : Z → list DescriptorPublicKey → option (MsDescriptor DescriptorPublicKey);
  ms_display : MsDescriptor DescriptorPublicKey → bytes;
  ms_from_str : bytes → option (MsDescriptor DescriptorPublicKey)
}.

(** ** [build.rs] *)

Definition MULTISIG_THRESHOLD : Z := 2.
Definition RECEIVE_SUFFIX : bytes := str "0/*".
Definition CHANGE_SUFFIX : bytes := str "1/*".

Definition assert_no_multipath (desc : bytes) : res DescriptorError unit :=
  if has_char 60 desc || has_char 59 desc then Err DeMultipathForbidden else Ok tt.

Definition assert_distinct_receive_change (receive change : bytes) : res DescriptorError unit :=
  if contains (str "/1/*") receive || contains (str "/0/*") change then Err DeConstruction else
  if bool_decide (receive = change) then Err DeConstruction else
  Ok tt.

(** The first loop of [validate_slots_and_fingerprints]. *)
Definition check_slot (seen : list bool) (k : KeyContribution) : res DescriptorError (list bool) :=
  let i := Z.to_nat (slot_as_u8 (kc_slot k)) in
  s ← index (E:=DescriptorError) i seen;
  if (s : bool) then Err DeInvalidDocument else Ok (<[i := true]> seen).

(** The pairs of [for (i, a) in keys.iter().enumerate() { for b in keys.iter().skip(i + 1) { .. } }]. *)
Fixpoint pairs_after {A} (l : list A) : list (A * A) :=
  match l with [] => [] | a :: l => map (pair a) l ++ pairs_after l end.

Definition kc_fingerprint (k : KeyContribution) : Fingerprint := xo_fingerprint (kc_xpub k).

Definition validate_slots_and_fingerprints (keys : arr3 KeyContribution) : res DescriptorError unit :=
  seen ← fold_res check_slot [false; false; false] (arr_list keys);
  if bool_decide (seen ≠ [true; true; true]) then Err DeInvalidDocument else
  for_each (λ p, ensure (negb (bool_decide (kc_fingerprint p.1 = kc_fingerprint p.2)))
                        (DeDuplicateFingerprint (to_hex (kc_fingerprint p.1))))
    (pairs_after (arr_list keys)).

Definition order_by_slot (keys : arr3 KeyContribution) : res DescriptorError (arr3 KeyContribution) :=
  out ← fold_res (λ out k,
      let idx := Z.to_nat (slot_as_u8 (kc_slot k)) in
      if (idx <? length out)%nat then Ok (<[idx := Some k]> out) else Panic)
    [None; None; None] (arr_list keys);
  k0 ← expect (mjoin (out !! 0%nat));
  k1 ← expect (mjoin (out !! 1%nat));
  k2 ← expect (mjoin (out !! 2%nat));
  Ok (mkArr3 k0 k1 k2).

Section Build.
Context `{ms : Miniscript}.

Definition key_expression (x : XpubWithOrigin) (chain_suffix : bytes) : res DescriptorError DescriptorPublicKey :=
  let origin := strip_m (xo_origin_path x) in
  let expr := str "[" ++ to_hex (xo_fingerprint x) ++ str "/" ++ origin ++ str "]" ++ xo_xpub x ++ str "/" ++ chain_suffix in
  if has_char 60 expr || has_char 59 expr then Err DeMultipathForbidden else
  ok_or (dpk_from_str expr) DeInvalidKeyExpression.

Definition build_sortedmulti_string (keys : arr3 KeyContribution) (chain_suffix : bytes) : res DescriptorError bytes :=
  pks ← fold_res (λ acc k, pk ← key_expression (kc_xpub k) chain_suffix; Ok (acc ++ [pk])) [] (arr_list keys);
  desc ← ok_or (new_wsh_sortedmulti MULTISIG_THRESHOLD pks) DeConstruction;
  Ok (ms_display desc).

Definition validate_trinity_descriptor (desc : bytes) : res DescriptorError unit :=
  _ ← assert_no_multipath desc;
  body ← match split_once 35 desc with
         | Some (b, checksum) =>
             if negb (length checksum =? 8)%nat || negb (forallb is_ascii_alphanumeric checksum)
             then Err DeForeignGrammar else Ok b
         | None => Err DeForeignGrammar
         end;
  parsed ← ok_or (ms_from_str desc) DeForeignGrammar;
  _ ← match parsed with
      | MsWshSortedMulti k pks =>
          if negb (k =? MULTISIG_THRESHOLD) then Err DeForeignGrammar else
          if negb (length pks =? 3)%nat then Err DeForeignGrammar else
          for_each (λ pk, ensure (negb (is_multipath pk)) DeMultipathForbidden) pks
      | _ => Err DeForeignGrammar
      end;
  if contains (str "multi(") body && negb (contains (str "sortedmulti(") body) then Err DeForeignGrammar else
  if negb (starts_with (str "wsh(sortedmulti(2,") body) then Err DeForeignGrammar else
  Ok tt.

(** The checks of one key in [build_wallet_descriptors]. *)
Definition validate_contribution (network : Network) (k : KeyContribution) : res DescriptorError unit :=
  _ ← validate_public_xpub (xo_xpub (kc_xpub k));
  _ ← validate_bip48_origin (xo_origin_path (kc_xpub k)) network;
  if negb (is_hardware (kc_source k)) && bool_decide (is_Some (kc_policy_id k)) then Err DeInvalidDocument else
  Ok tt.

Definition build_wallet_descriptors (network : Network) (keys : arr3 KeyContribution) (created_at_unix : Z)
    : res DescriptorError WalletDescriptors :=
  _ ← validate_slots_and_fingerprints keys;
  _ ← for_each (validate_contribution network) (arr_list keys);
  ordered ← order_by_slot keys;
  receive ← build_sortedmulti_string ordered RECEIVE_SUFFIX;
  change ← build_sortedmulti_string ordered CHANGE_SUFFIX;
  _ ← assert_no_multipath receive;
  _ ← assert_no_multipath change;
  _ ← assert_distinct_receive_change receive change;
  _ ← validate_trinity_descriptor receive;
  _ ← validate_trinity_descriptor change;
  Ok (mkWalletDescriptors FORMAT_VERSION network created_at_unix receive change ordered).
End Build.

(** ** Paths *)

Arguments bip48_origin_path : simpl never.

(** The origin the builder writes is one the verifier accepts. *)
Lemma bip48_origin_accepted network : bip48_origin_path network ∈ origin_paths.
Proof. destruct network; apply (bool_decide_eq_true_1 _); vm_compute; reflexivity. Qed.

(** It is the canonical spelling: it validates, with or without [m/]. *)
Lemma bip48_origin_valid network :
  validate_bip48_origin (bip48_origin_path network) network = Ok tt ∧
  validate_bip48_origin (str "m/" ++ bip48_origin_path network) network = Ok tt.
Proof. destruct network; split; vm_compute; reflexivity. Qed.

Lemma validate_bip48_origin_Ok path network :
  validate_bip48_origin path network = Ok tt ↔
  60 ∉ path ∧ 59 ∉ path ∧ 42 ∉ path ∧
  DerivationPath_from_str (strip_m path) = Some (expected_bip48_children network).
Proof.
  unfold validate_bip48_origin. rewrite <-!has_char_false.
  destruct (has_char 60 path), (has_char 59 path), (has_char 42 path); cbn [orb]; try naive_solver.
  destruct (DerivationPath_from_str _) as [d|]; cbn; [|naive_solver]. case_bool_decide; naive_solver.
Qed.

(** ** Slots and fingerprints *)

Lemma NoDup_3 {A} (x y z : A) : NoDup [x; y; z] ↔ x ≠ y ∧ x ≠ z ∧ y ≠ z.
Proof. rewrite !NoDup_cons, !not_elem_of_cons. pose proof (NoDup_nil_2 (A:=A)). set_solver. Qed.

Lemma validate_slots_Ok keys :
  validate_slots_and_fingerprints keys = Ok tt ↔
  NoDup (kc_slot <$> arr_list keys) ∧ NoDup (kc_fingerprint <$> arr_list keys).
Proof.
  unfold validate_slots_and_fingerprints, arr_list. destruct keys as [k0 k1 k2]. cbn [a0 a1 a2].
  transitivity (NoDup [kc_slot k0; kc_slot k1; kc_slot k2] ∧
    for_each (λ p, ensure (negb (bool_decide (kc_fingerprint p.1 = kc_fingerprint p.2)))
      (DeDuplicateFingerprint (to_hex (kc_fingerprint p.1)))) (pairs_after [k0; k1; k2]) = Ok tt).
  - rewrite NoDup_3. unfold check_slot, fold_res.
    destruct (kc_slot k0), (kc_slot k1), (kc_slot k2); cbn -[for_each]; naive_solver.
  - cbn [fmap list_fmap]. rewrite !NoDup_3, for_each_Ok. setoid_rewrite ensure_Ok.
    setoid_rewrite negb_true_iff. setoid_rewrite bool_decide_eq_false. cbn.
    split; intros [Hs H]; (split; [done|]).
    + split_and!; [apply (H (k0, k1))|apply (H (k0, k2))|apply (H (k1, k2))]; set_solver.
    + intros p Hp. rewrite !elem_of_cons, elem_of_nil in Hp. naive_solver.
Qed.

Lemma order_by_slot_spec keys :
  NoDup (kc_slot <$> arr_list keys) →
  ∃ o, order_by_slot keys = Ok o ∧ arr_list o ≡ₚ arr_list keys ∧ kc_slot <$> arr_list o = KeySlot_ALL.
Proof.
  destruct keys as [k0 k1 k2]. unfold arr_list, order_by_slot, fold_res. cbn [a0 a1 a2 fmap list_fmap arr_list].
  rewrite NoDup_3. destruct (kc_slot k0) eqn:E0, (kc_slot k1) eqn:E1, (kc_slot k2) eqn:E2; intros (? & ? & ?); try done.
  all: eexists; split; [reflexivity|]; cbn; rewrite ?E0, ?E1, ?E2; split; [solve_Permutation|done].
Qed.

(** ** The builder *)

Section Canonical.
Context `{ms : Miniscript}.

(** The checks a successful build has passed. *)
Lemma build_Ok network keys t w :
  build_wallet_descriptors network keys t = Ok w ↔
  validate_slots_and_fingerprints keys = Ok tt ∧ Forall (λ k, validate_contribution network k = Ok tt) (arr_list keys) ∧
  order_by_slot keys = Ok (wd_keys w) ∧
  build_sortedmulti_string (wd_keys w) RECEIVE_SUFFIX = Ok (receive_descriptor w) ∧
  build_sortedmulti_string (wd_keys w) CHANGE_SUFFIX = Ok (change_descriptor w) ∧
  assert_no_multipath (receive_descriptor w) = Ok tt ∧ assert_no_multipath (change_descriptor w) = Ok tt ∧
  assert_distinct_receive_change (receive_descriptor w) (change_descriptor w) = Ok tt ∧
  validate_trinity_descriptor (receive_descriptor w) = Ok tt ∧
  validate_trinity_descriptor (change_descriptor w) = Ok tt ∧
  wd_format_version w = FORMAT_VERSION ∧ wd_network w = network ∧ wd_created_at_unix w = t.
Proof.
  rewrite Forall_forall, <-for_each_Ok. unfold build_wallet_descriptors. split.
  - intros H. repeat match goal with H : (_ ≫= _) = Ok _ |- _ => apply bind_Ok in H as (? & ? & H) | u : unit |- _ => destruct u end.
    injection H as <-. by split_and!.
  - destruct w. cbn. intros H. destruct_and!. subst.
    repeat match goal with H : _ = Ok _ |- _ => rewrite H; clear H; cbn [mbind res_bind] end. done.
Qed.

Lemma ordered_unique o o' :
  kc_slot <$> arr_list o = KeySlot_ALL → kc_slot <$> arr_list o' = KeySlot_ALL →
  arr_list o ≡ₚ arr_list o' → o = o'.
Proof.
  destruct o as [x y z], o' as [x' y' z']. unfold arr_list. cbn. intros [= Hx Hy Hz] [= Hx' Hy' Hz'] Hp.
  assert (∀ k, k ∈ [x; y; z] → k ∈ [x'; y'; z']) as H by (intros k Hk; by rewrite <-Hp).
  f_equal; match goal with |- ?k = _ => assert (k ∈ [x; y; z]) as Hin by set_solver end;
    apply H in Hin; rewrite !elem_of_cons, elem_of_nil in Hin; destruct_or!; congruence.
Qed.

Lemma build_permuted network keys keys' t w :
  build_wallet_descriptors network keys t = Ok w → arr_list keys' ≡ₚ arr_list keys →
  build_wallet_descriptors network keys' t = Ok w.
Proof.
  rewrite !build_Ok. intros (Hv & Hc & Ho & H) Hp. apply validate_slots_Ok in Hv as [Hs Hf].
  destruct (order_by_slot_spec _ Hs) as (o & Ho' & Hpo & Hso). rewrite Ho in Ho'. injection Ho' as <-.
  rewrite <-Hp in Hs, Hf, Hc. destruct (order_by_slot_spec _ Hs) as (o & Ho' & Hpo' & Hso').
  assert (o = wd_keys w) as -> by (apply ordered_unique; [done..|by rewrite Hpo', Hp]).
  by rewrite validate_slots_Ok.
Qed.

Lemma build_ordered network keys t w :
  build_wallet_descriptors network keys t = Ok w →
  kc_slot <$> arr_list (wd_keys w) = KeySlot_ALL ∧ arr_list (wd_keys w) ≡ₚ arr_list keys ∧
  NoDup (kc_fingerprint <$> arr_list keys).
Proof.
  intros (Hv & _ & Ho & _)%build_Ok. apply validate_slots_Ok in Hv as [Hs Hf].
  destruct (order_by_slot_spec _ Hs) as (o & Ho' & Hpo & Hso). rewrite Ho in Ho'. by injection Ho' as <-.
Qed.

(** The document is canonical. Its keys are the three contributions in slot
    order A, B, C, with pairwise different master fingerprints; the order in
    which the contributions are handed in does not matter, and building again
    from the document's own keys returns the document. *)
Lemma build_canonical network keys t w :
  build_wallet_descriptors network keys t = Ok w →
  kc_slot <$> arr_list (wd_keys w) = KeySlot_ALL ∧ arr_list (wd_keys w) ≡ₚ arr_list keys ∧
  NoDup (kc_fingerprint <$> arr_list keys) ∧
  (∀ keys', arr_list keys' ≡ₚ arr_list keys → build_wallet_descriptors network keys' t = Ok w) ∧
  build_wallet_descriptors network (wd_keys w) t = Ok w.
Proof.
  intros H. destruct (build_ordered _ _ _ _ H) as (H1 & H2 & H3). split_and!; try done.
  - intros keys'. by apply build_permuted.
  - by eapply build_permuted.
Qed.
End Canonical.

(** ** What is built *)

(** [impl Display for ChildNumber] and the origin [fmt_derivation_path] prints. *)
Definition ChildNumber_display (c : ChildNumber) : bytes :=
  match c with Hardened i => dec i ++ str "'" | Normal i => dec i end.
Definition path_display (path : DerivationPath) : bytes :=
  concat (map (λ c, str "/" ++ ChildNumber_display c) path).
Fixpoint comma_join (l : list bytes) : bytes :=
  match l with
  | [] => []
  | [x] => x
  | x :: l => x ++ str "," ++ comma_join l
  end.

(** A key expression the library accepts prints with a lower-case fingerprint,
    the origin with ['] markers, and the extended key and suffix unchanged; the
    extended key is one that [Xpub::from_str] decodes, a base58 string. A
    sorted multisig prints as [wsh(sortedmulti(k,..))] with its BIP-380
    checksum. *)
Class MiniscriptLaws `{codec : Codec} `{ms : Miniscript} : Prop := {
  dpk_print fp origin path x suffix k :
    fingerprint_wf fp → DerivationPath_from_str origin = Some path → 47 ∉ x →
    suffix = RECEIVE_SUFFIX ∨ suffix = CHANGE_SUFFIX →
    dpk_from_str (str "[" ++ to_hex fp ++ str "/" ++ origin ++ str "]" ++ x ++ str "/" ++ suffix) = Some k →
    dpk_display k = str "[" ++ to_hex fp ++ path_display path ++ str "]" ++ x ++ str "/" ++ suffix ∧
    is_Some (xpub_from_str x);
  xpub_base58 x : is_Some (xpub_from_str x) → Forall (λ c, is_ascii_alphanumeric c = true) x;
  wsh_sortedmulti k pks d : new_wsh_sortedmulti k pks = Some d → d = MsWshSortedMulti k pks;
  ms_print k pks s :
    create_checksum (str "wsh(sortedmulti(" ++ dec k ++ str "," ++ comma_join (dpk_display <$> pks) ++ str "))") = Ok s →
    ms_display (MsWshSortedMulti k pks) = s
}.

Lemma alphanumeric_chars x :
  Forall (λ c, is_ascii_alphanumeric c = true) x →
  in_charset x = true ∧ Forall (λ c, key_delim c = false ∧ multipath_char c = false) x.
Proof.
  intros Hx. assert (Forall (λ n, is_ascii_alphanumeric (Z.of_nat n) = true →
    bool_decide (Z.of_nat n ∈ INPUT_CHARSET) = true ∧ key_delim (Z.of_nat n) = false ∧
    multipath_char (Z.of_nat n) = false) (seq 0 123)) as Hf.
  { repeat (constructor; [vm_compute; first [done|by intros [=]]|]). constructor. }
  assert (∀ c, is_ascii_alphanumeric c = true →
    c ∈ INPUT_CHARSET ∧ key_delim c = false ∧ multipath_char c = false) as Hc.
  { intros c Hc. assert (48 ≤ c ≤ 122) as Hb.
    { unfold is_ascii_alphanumeric, is_ascii_digit in Hc. repeat (apply orb_true_iff in Hc as [Hc|Hc]); bool_simp; lia. }
    rewrite Forall_forall in Hf. specialize (Hf (Z.to_nat c)). rewrite Z2Nat.id in Hf by lia.
    destruct Hf as (H1 & H2); [apply elem_of_seq; lia|done|]. by apply bool_decide_eq_true in H1. }
  rewrite in_charset_spec. split; (eapply Forall_impl; [exact Hx|]); intros c Hcx; by apply Hc.
Qed.

Section Built.
Context `{codec : Codec} `{ms : Miniscript} `{laws : !MiniscriptLaws}.

(** The descriptor the verifier should see for these keys. *)
Definition built_key (network : Network) (b : DerivationBranch) (k : KeyContribution) : KeyExpr :=
  mkKeyExpr (kc_fingerprint k) (bip48_origin_path network) (xo_xpub (kc_xpub k)) b.
Definition built_descriptor (network : Network) (b : DerivationBranch) (keys : arr3 KeyContribution) : ParsedDescriptor :=
  mkDescriptor 2 (built_key network b (a0 keys)) (built_key network b (a1 keys)) (built_key network b (a2 keys)).

Definition suffix_of (b : DerivationBranch) : bytes :=
  match b with External => RECEIVE_SUFFIX | Internal => CHANGE_SUFFIX end.

(** An extended key without derivation steps of its own. The builder does not
    ask for this: [validate_public_xpub] looks at the prefix only. *)
Definition plain_xpub (k : KeyContribution) : Prop := 47 ∉ xo_xpub (kc_xpub k).
(** A plain key, with the four bytes of fingerprint that its type guarantees. *)
Definition contribution_wf (k : KeyContribution) : Prop := fingerprint_wf (kc_fingerprint k) ∧ plain_xpub k.

Lemma validate_public_xpub_Ok x :
  validate_public_xpub x = Ok tt → starts_with (str "xpub") x = true ∨ starts_with (str "tpub") x = true.
Proof.
  unfold validate_public_xpub. cbn zeta. intros H. if_inv H E1. if_inv H E2. if_inv H E3. bool_simp.
  by apply orb_true_iff.
Qed.
Lemma validate_contribution_Ok network k :
  validate_contribution network k = Ok tt →
  (starts_with (str "xpub") (xo_xpub (kc_xpub k)) = true ∨ starts_with (str "tpub") (xo_xpub (kc_xpub k)) = true) ∧
  DerivationPath_from_str (strip_m (xo_origin_path (kc_xpub k))) = Some (expected_bip48_children network).
Proof.
  unfold validate_contribution. intros ([] & H1%validate_public_xpub_Ok & ([] & H2 & _)%bind_Ok)%bind_Ok.
  apply validate_bip48_origin_Ok in H2 as (_ & _ & _ & ?). done.
Qed.

Lemma path_display_bip48 network :
  path_display (expected_bip48_children network) = str "/" ++ bip48_origin_path network.
Proof. by destruct network. Qed.
Lemma suffix_branch b : str "/" ++ suffix_of b = render_branch b.
Proof. by destruct b. Qed.

(** One key: the expression is printed as the verifier's grammar has it. *)
Lemma key_expression_Ok network k b pk :
  contribution_wf k → validate_contribution network k = Ok tt →
  key_expression (kc_xpub k) (suffix_of b) = Ok pk →
  dpk_display pk = render_keyexpr (to_hex (kc_fingerprint k)) (built_key network b k) ∧
  keyexpr_ok (to_hex (kc_fingerprint k)) (built_key network b k) ∧ in_charset (xo_xpub (kc_xpub k)) = true.
Proof.
  intros [Hf Hx] [Hp Ho]%validate_contribution_Ok H. unfold key_expression in H. cbn zeta in H. if_inv H E.
  apply ok_or_Ok in H. eapply dpk_print in H as [-> Hs]; [|done..|by destruct b; auto].
  pose proof (alphanumeric_chars _ (xpub_base58 _ Hs)) as [Hc Hd]. split_and!; [| |done].
  - rewrite path_display_bip48, suffix_branch. unfold render_keyexpr, built_key. cbn [origin_path xpub derivation].
    by rewrite <-!app_assoc.
  - split; cbn [fingerprint origin_path xpub derivation built_key]; try done.
    + by apply fingerprint_hex_roundtrip.
    + apply bip48_origin_accepted.
Qed.

Lemma build_sortedmulti_parses network keys b s :
  Forall contribution_wf (arr_list keys) → Forall (λ k, validate_contribution network k = Ok tt) (arr_list keys) →
  build_sortedmulti_string keys (suffix_of b) = Ok s →
  ∃ cs, s = render_body (to_hex (kc_fingerprint (a0 keys))) (to_hex (kc_fingerprint (a1 keys)))
                        (to_hex (kc_fingerprint (a2 keys))) (built_descriptor network b keys) ++ [35] ++ cs ∧
    length cs = 8%nat ∧ parse s = Ok (built_descriptor network b keys).
Proof.
  unfold arr_list. rewrite !Forall_cons. intros (W0 & W1 & W2 & _) (V0 & V1 & V2 & _) H.
  unfold build_sortedmulti_string, arr_list in H. cbn [fold_res] in H.
  apply bind_Ok in H as (pks & Hp & H). apply bind_Ok in Hp as (? & (p0 & K0 & [= <-])%bind_Ok & Hp).
  apply bind_Ok in Hp as (? & (p1 & K1 & [= <-])%bind_Ok & Hp).
  apply bind_Ok in Hp as (? & (p2 & K2 & [= <-])%bind_Ok & [= <-]).
  apply bind_Ok in H as (d & ->%ok_or_Ok%wsh_sortedmulti & [= <-]).
  eapply key_expression_Ok in K0 as (D0 & O0 & C0), K1 as (D1 & O1 & C1), K2 as (D2 & O2 & C2); [|done..].
  destruct (print_then_parse (to_hex (kc_fingerprint (a0 keys))) (to_hex (kc_fingerprint (a1 keys)))
    (to_hex (kc_fingerprint (a2 keys))) (built_descriptor network b keys)) as (cs & Hc & Hl & Hpa).
  { by split_and!. }
  { by repeat constructor. }
  assert (ms_display (MsWshSortedMulti MULTISIG_THRESHOLD [p0; p1; p2]) =
    render_body (to_hex (kc_fingerprint (a0 keys))) (to_hex (kc_fingerprint (a1 keys)))
      (to_hex (kc_fingerprint (a2 keys))) (built_descriptor network b keys) ++ [35] ++ cs) as Hm.
  { apply ms_print. rewrite <-Hc. f_equal. cbn [fmap list_fmap comma_join]. rewrite D0, D1, D2.
    unfold render_body. cbn [key0 key1 key2 built_descriptor]. by rewrite <-!app_assoc. }
  exists cs. cbn [app]. rewrite Hm. done.
Qed.

(** The strings of a built document, as the verifier's grammar has them. *)
Lemma built_strings network keys t w :
  Forall contribution_wf (arr_list keys) → build_wallet_descriptors network keys t = Ok w →
  ∀ b, ∃ cs,
    let s := match b with External => receive_descriptor w | Internal => change_descriptor w end in
    s = render_body (to_hex (kc_fingerprint (a0 (wd_keys w)))) (to_hex (kc_fingerprint (a1 (wd_keys w))))
          (to_hex (kc_fingerprint (a2 (wd_keys w)))) (built_descriptor network b (wd_keys w)) ++ [35] ++ cs ∧
    length cs = 8%nat ∧ parse s = Ok (built_descriptor network b (wd_keys w)).
Proof.
  intros Hw H b. destruct (build_ordered _ _ _ _ H) as (_ & Hp & _).
  apply build_Ok in H as (_ & Hc & _ & Hr & Hch & _). rewrite <-Hp in Hw, Hc.
  destruct b; by apply build_sortedmulti_parses.
Qed.

(** A key expression that the verifier's parser returns is plain. *)
Lemma parsed_plain s network b keys :
  parse s = Ok (built_descriptor network b keys) → Forall plain_xpub (arr_list keys).
Proof.
  intros (f0 & f1 & f2 & cs & _ & _ & _ & _ & H0 & H1 & H2)%parse_accepts.
  assert (∀ f k, keyexpr_ok f (built_key network b k) → plain_xpub k) as Hp.
  { intros f k [_ _ _ _ Hx]. apply xpub_base58 in Hx. cbn in Hx. rewrite Forall_forall in Hx. intros Hin%Hx. done. }
  repeat constructor; by eapply Hp.
Qed.

End Built.
