(* ===== verification/WatchDoc.v ===== *)
(** [trinity-watch/src/descriptor/document.rs]: the [descriptor.json] document.

    The document as it is held ([WalletDescriptors]) and as it is written
    ([WireDocument]), with the conversions both ways. The JSON text itself is
    serde's: the class [Json], whose law [JsonLaws] is that a derived
    serialisation reads back.

    A document that was built survives the trip to JSON and back; a document
    that loads is exactly what the builder makes of the keys it lists. *)
From S2P Require Import Prelude Types Bitcoin Checksum Parse Text WatchDesc.

(** ** The wire form *)

Record WordCountMap := mkWordCountMap { wc_a : Z; wc_b : Z; wc_c : Z }.

Record WireKey := mkWireKey {
  wk_slot : KeySlot;
  wk_fingerprint : bytes;
  wk_origin_path : bytes;
  wk_xpub : bytes;
  wk_birthday_height : Z;
  wk_source : ContribSource;
  wk_policy_id : option bytes
}.

Record WireDocument := mkWireDocument {
  wire_format_version : Z;
  wire_network : Network;
  wire_created_at_unix : Z;
  wire_receive_descriptor : bytes;
  wire_change_descriptor : bytes;
  wire_word_count : WordCountMap;
  wire_keys : arr3 WireKey
}.

Definition word_count_map (w : WalletDescriptors) : WordCountMap :=
  mkWordCountMap (words (kc_word_count (a0 (wd_keys w)))) (words (kc_word_count (a1 (wd_keys w))))
                 (words (kc_word_count (a2 (wd_keys w)))).

(** [&self.keys[slot.as_u8() as usize]] *)
Definition wallet_key (w : WalletDescriptors) (slot : KeySlot) : res DescriptorError KeyContribution :=
  index (Z.to_nat (slot_as_u8 slot)) (arr_list (wd_keys w)).

Definition from_contrib (k : KeyContribution) : WireKey :=
  mkWireKey (kc_slot k) (to_hex (xo_fingerprint (kc_xpub k))) (xo_origin_path (kc_xpub k)) (xo_xpub (kc_xpub k))
    (kc_birthday_height k) (kc_source k) (kc_policy_id k).

Definition to_contrib (k : WireKey) (word_count_words : Z) : res DescriptorError KeyContribution :=
  word_count ← ok_or (from_words word_count_words) DeInvalidDocument;
  fp ← map_err (λ _, DeInvalidKeyExpression) (from_hex (wk_fingerprint k));
  if negb (is_hardware (wk_source k)) && bool_decide (is_Some (wk_policy_id k)) then Err DeInvalidDocument else
  Ok (mkContribution (wk_slot k) (mkXpubWithOrigin fp (wk_origin_path k) (wk_xpub k)) (wk_birthday_height k)
        word_count (wk_source k) (wk_policy_id k)).

Definition from_wallet (w : WalletDescriptors) : WireDocument :=
  mkWireDocument (wd_format_version w) (wd_network w) (wd_created_at_unix w)
    (receive_descriptor w) (change_descriptor w) (word_count_map w)
    (mkArr3 (from_contrib (a0 (wd_keys w))) (from_contrib (a1 (wd_keys w))) (from_contrib (a2 (wd_keys w)))).

(** [slice::sort_by_key], a stable sort, on the three keys. *)
Fixpoint insert_by_slot (k : KeyContribution) (l : list KeyContribution) : list KeyContribution :=
  match l with
  | [] => [k]
  | x :: l' => if slot_as_u8 (kc_slot k) <=? slot_as_u8 (kc_slot x) then k :: l else x :: insert_by_slot k l'
  end.
Definition sort_by_slot (keys : arr3 KeyContribution) : arr3 KeyContribution :=
  match foldr insert_by_slot [] (arr_list keys) with
  | [x; y; z] => mkArr3 x y z
  | _ => keys
  end.

(** A wallet's construction request. *)
Record DescriptorSetup := mkSetup {
  ds_network : Network;
  ds_keys : arr3 KeyContribution;
  ds_created_at_unix : Z
}.

Section Document.
Context `{ms : Miniscript}.

Definition setup_build (s : DescriptorSetup) : res DescriptorError WalletDescriptors :=
  build_wallet_descriptors (ds_network s) (ds_keys s) (ds_created_at_unix s).

Definition into_wallet (d : WireDocument) : res DescriptorError WalletDescriptors :=
  let receive := wire_receive_descriptor d in
  let change := wire_change_descriptor d in
  let wc := wire_word_count d in
  if negb (wire_format_version d =? FORMAT_VERSION) then Err DeInvalidDocument else
  _ ← validate_trinity_descriptor receive;
  _ ← validate_trinity_descriptor change;
  if contains (str "/1/*") receive || negb (contains (str "/0/*") receive)
     || contains (str "/0/*") change || negb (contains (str "/1/*") change) then Err DeInvalidDocument else
  if has_char 60 receive || has_char 60 change then Err DeMultipathForbidden else
  k0 ← to_contrib (a0 (wire_keys d)) (wc_a wc);
  k1 ← to_contrib (a1 (wire_keys d)) (wc_b wc);
  k2 ← to_contrib (a2 (wire_keys d)) (wc_c wc);
  let keys := sort_by_slot (mkArr3 k0 k1 k2) in
  if negb (bool_decide (kc_slot (a0 keys) = SlotA)) || negb (bool_decide (kc_slot (a1 keys) = SlotB))
     || negb (bool_decide (kc_slot (a2 keys) = SlotC)) then Err DeInvalidDocument else
  if negb (words (kc_word_count (a0 keys)) =? wc_a wc) || negb (words (kc_word_count (a1 keys)) =? wc_b wc)
     || negb (words (kc_word_count (a2 keys)) =? wc_c wc) then Err DeInvalidDocument else
  rebuilt ← build_wallet_descriptors (wire_network d) keys (wire_created_at_unix d);
  if negb (bool_decide (receive_descriptor rebuilt = receive)) || negb (bool_decide (change_descriptor rebuilt = change))
  then Err DeInvalidDocument else
  Ok (mkWalletDescriptors (wire_format_version d) (wire_network d) (wire_created_at_unix d) receive change keys).
End Document.

(** [serde_json::to_string_pretty] and [from_str] at [WireDocument]. *)
Class Json := {
  to_string_pretty : WireDocument → option bytes;
  json_from_str : bytes → option WireDocument
}.
Class JsonLaws `{json : Json} : Prop := {
  json_writes d : is_Some (to_string_pretty d);
  json_reads d s : to_string_pretty d = Some s → json_from_str s = Some d
}.

Section JsonDocument.
Context `{ms : Miniscript} `{json : Json}.

Definition to_json (w : WalletDescriptors) : res DescriptorError bytes :=
  ok_or (to_string_pretty (from_wallet w)) DeJson.

Definition from_json (s : bytes) : res DescriptorError WalletDescriptors :=
  wire ← ok_or (json_from_str s) DeJson;
  into_wallet wire.
End JsonDocument.

(** ** One key *)

(** A key record with another word count. *)
Definition with_words (k : KeyContribution) (wc : WordCount) : KeyContribution :=
  mkContribution (kc_slot k) (kc_xpub k) (kc_birthday_height k) wc (kc_source k) (kc_policy_id k).
Lemma with_words_id k : with_words k (kc_word_count k) = k.
Proof. by destruct k. Qed.
Lemma same_words s k : s = with_words k (kc_word_count s) → words (kc_word_count s) = words (kc_word_count k) → s = k.
Proof.
  intros -> H. assert (∀ u v, words u = words v → u = v) as Hinj by (by intros [] []).
  apply Hinj in H. cbn in H |- *. rewrite H. apply with_words_id.
Qed.

Lemma contrib_words k wc :
  fingerprint_wf (kc_fingerprint k) →
  negb (is_hardware (kc_source k)) && bool_decide (is_Some (kc_policy_id k)) = false →
  to_contrib (from_contrib k) (words wc) = Ok (with_words k wc).
Proof.
  intros Hf Hp. unfold to_contrib, from_contrib. cbn [wk_slot wk_fingerprint wk_origin_path wk_xpub
    wk_birthday_height wk_source wk_policy_id]. rewrite from_words_words. cbn [ok_or mbind res_bind].
  destruct fingerprint_hex_roundtrip as [Hh _]. unfold kc_fingerprint in Hf. rewrite Hh by done.
  cbn [map_err mbind res_bind]. rewrite Hp. by destruct k as [? [] ? ? ? ?].
Qed.

Lemma to_contrib_Ok wk n k :
  to_contrib wk n = Ok k →
  fingerprint_wf (kc_fingerprint k) ∧ words (kc_word_count k) = n ∧ kc_slot k = wk_slot wk ∧
  to_hex (kc_fingerprint k) = to_ascii_lowercase (wk_fingerprint wk) ∧
  xo_origin_path (kc_xpub k) = wk_origin_path wk ∧ xo_xpub (kc_xpub k) = wk_xpub wk ∧
  kc_birthday_height k = wk_birthday_height wk ∧ kc_source k = wk_source wk ∧ kc_policy_id k = wk_policy_id wk.
Proof.
  unfold to_contrib. intros (wc & Hw%ok_or_Ok%words_from_words & H)%bind_Ok.
  apply bind_Ok in H as (fp & Hf%map_err_Ok & H). if_inv H E. injection H as <-.
  destruct fingerprint_hex_roundtrip as [_ Hh]. apply Hh in Hf as [Hf He]. done.
Qed.

(** ** Sorting by slot *)

Lemma insert_by_slot_perm k l : insert_by_slot k l ≡ₚ k :: l.
Proof. induction l as [|x l IH]; cbn; [done|]. case_match; [done|]. rewrite IH. constructor. Qed.
Lemma sort_by_slot_perm keys : arr_list (sort_by_slot keys) ≡ₚ arr_list keys.
Proof.
  unfold sort_by_slot. assert (∀ l, foldr insert_by_slot [] l ≡ₚ l) as H.
  { induction l as [|x l IH]; cbn; [done|]. by rewrite insert_by_slot_perm, IH. }
  specialize (H (arr_list keys)). destruct (foldr _ _ _) as [|? [|? [|? [|]]]]; done.
Qed.
Lemma sort_by_slot_id keys : kc_slot <$> arr_list keys = KeySlot_ALL → sort_by_slot keys = keys.
Proof.
  destruct keys as [x y z]. unfold sort_by_slot, arr_list. cbn. intros [= Hx Hy Hz].
  by repeat (rewrite ?Hx, ?Hy, ?Hz; cbn).
Qed.
Lemma sort_by_slot_slots keys :
  NoDup (kc_slot <$> arr_list keys) → kc_slot <$> arr_list (sort_by_slot keys) = KeySlot_ALL.
Proof.
  destruct keys as [x y z]. unfold sort_by_slot, arr_list. cbn [a0 a1 a2 fmap list_fmap foldr insert_by_slot].
  rewrite NoDup_3. destruct (kc_slot x) eqn:Ex, (kc_slot y) eqn:Ey, (kc_slot z) eqn:Ez; intros (? & ? & ?); try done.
  all: by repeat (cbn; rewrite ?Ex, ?Ey, ?Ez).
Qed.
Lemma with_words_slots x y z wx wy wz :
  kc_slot <$> arr_list (mkArr3 (with_words x wx) (with_words y wy) (with_words z wz)) = kc_slot <$> [x; y; z].
Proof. done. Qed.

(** Records that take other word counts sort to other keys. *)
Lemma sort_with_words x y z wx wy wz keys :
  kc_slot <$> arr_list keys = KeySlot_ALL → [x; y; z] ≡ₚ arr_list keys →
  let sorted := sort_by_slot (mkArr3 (with_words x wx) (with_words y wy) (with_words z wz)) in
  kc_slot <$> arr_list sorted = KeySlot_ALL ∧
  Forall2 (λ s k, s = with_words k (kc_word_count s)) (arr_list sorted) (arr_list keys).
Proof.
  intros Hk Hp sorted. assert (kc_slot <$> arr_list sorted = KeySlot_ALL) as Hs.
  { apply sort_by_slot_slots. rewrite with_words_slots, Hp, Hk. unfold KeySlot_ALL. by apply NoDup_3. }
  split; [done|]. assert (∀ s, s ∈ arr_list sorted → ∃ k, k ∈ arr_list keys ∧ s = with_words k (kc_word_count s)) as Hin.
  { intros s Hin. unfold sorted in Hin. rewrite sort_by_slot_perm in Hin. setoid_rewrite <-Hp.
    unfold arr_list in Hin. cbn in Hin. rewrite !elem_of_cons, elem_of_nil in Hin.
    destruct_or!; try done; subst s; eexists; (split; [|reflexivity]); set_solver. }
  destruct sorted as [s0 s1 s2], keys as [k0 k1 k2]. unfold arr_list in *. cbn in Hs, Hk.
  injection Hs as S0 S1 S2. injection Hk as K0 K1 K2. cbn [a0 a1 a2] in *.
  repeat constructor;
    match goal with |- ?s = _ => destruct (Hin s) as (k & Hk' & He); [set_solver|] end;
    rewrite !elem_of_cons, elem_of_nil in Hk'; pose proof (f_equal kc_slot He) as Hsl; cbn in Hsl;
    destruct_or!; congruence.
Qed.

(** ** Round trip and tamper detection *)

Section Loading.
Context `{codec : Codec} `{ms : Miniscript} `{laws : !MiniscriptLaws}.

Lemma built_branch network keys t w b :
  Forall contribution_wf (arr_list keys) → build_wallet_descriptors network keys t = Ok w →
  contains (render_branch b) (match b with External => receive_descriptor w | Internal => change_descriptor w end) = true.
Proof.
  intros Hw H. destruct (built_strings _ _ _ _ Hw H b) as (cs & -> & _). apply contains_app_l. unfold render_body.
  do 4 apply contains_app_r. apply contains_app_l. unfold render_keyexpr. cbn [key0 built_descriptor derivation built_key].
  do 6 apply contains_app_r. apply contains_refl.
Qed.

Lemma no_multipath_char s : assert_no_multipath s = Ok tt → has_char 60 s = false.
Proof. unfold assert_no_multipath. intros H. if_inv H E. by bool_simp. Qed.

Lemma validate_contribution_policy network k :
  validate_contribution network k = Ok tt →
  negb (is_hardware (kc_source k)) && bool_decide (is_Some (kc_policy_id k)) = false.
Proof.
  unfold validate_contribution. intros ([] & _ & ([] & _ & H)%bind_Ok)%bind_Ok. by if_inv H E.
Qed.

(** The guards in front of the key records pass for a built document. *)
Lemma built_guards network keys t w :
  Forall contribution_wf (arr_list keys) → build_wallet_descriptors network keys t = Ok w →
  contains (str "/1/*") (receive_descriptor w) || negb (contains (str "/0/*") (receive_descriptor w))
  || contains (str "/0/*") (change_descriptor w) || negb (contains (str "/1/*") (change_descriptor w)) = false ∧
  has_char 60 (receive_descriptor w) || has_char 60 (change_descriptor w) = false.
Proof.
  intros Hw H. pose proof (built_branch _ _ _ _ External Hw H) as H0.
  pose proof (built_branch _ _ _ _ Internal Hw H) as H1. cbn [render_branch] in H0, H1. rewrite H0, H1.
  apply build_Ok in H as (_ & _ & _ & _ & _ & Hm0%no_multipath_char & Hm1%no_multipath_char & Hd & _).
  rewrite Hm0, Hm1. unfold assert_distinct_receive_change in Hd. if_inv Hd E.
  apply orb_false_elim in E as [-> ->]. done.
Qed.

(** Loading a built document with its key records in any order: the records
    take the word counts by position, and are then sorted. *)
Lemma into_wallet_keys network keys t w wks x y z :
  Forall contribution_wf (arr_list keys) → build_wallet_descriptors network keys t = Ok w →
  arr_list wks = [from_contrib x; from_contrib y; from_contrib z] → [x; y; z] ≡ₚ arr_list (wd_keys w) →
  let wc := λ k, kc_word_count (k (wd_keys w)) in
  let loaded := mkArr3 (with_words x (wc a0)) (with_words y (wc a1)) (with_words z (wc a2)) in
  let d := from_wallet w in
  into_wallet (mkWireDocument (wire_format_version d) (wire_network d) (wire_created_at_unix d)
    (wire_receive_descriptor d) (wire_change_descriptor d) (wire_word_count d) wks) =
  if bool_decide (sort_by_slot loaded = wd_keys w) then Ok w else Err DeInvalidDocument.
Proof.
  intros Hw H Hwk Hxyz. cbv zeta. destruct (built_guards _ _ _ _ Hw H) as [Hg Hm].
  destruct (build_ordered _ _ _ _ H) as (Hs & Hp & _).
  assert (build_wallet_descriptors network (wd_keys w) t = Ok w) as Hb by (by eapply build_permuted).
  apply build_Ok in H as (_ & Hc & _ & _ & _ & _ & _ & _ & Ht0 & Ht1 & Hv & Hn & Ht).
  rewrite <-Hp, <-Hxyz in Hw, Hc. assert (∀ k wc, k ∈ [x; y; z] → to_contrib (from_contrib k) (words wc) = Ok (with_words k wc)) as Hk.
  { intros k wc' Hk. rewrite Forall_forall in Hw, Hc. apply contrib_words; [by apply Hw|].
    by eapply validate_contribution_policy, Hc. }
  destruct wks as [w0 w1 w2]. cbn in Hwk. injection Hwk as -> -> ->.
  unfold into_wallet, from_wallet, word_count_map. cbn [wire_format_version wire_network wire_created_at_unix
    wire_receive_descriptor wire_change_descriptor wire_word_count wire_keys wc_a wc_b wc_c a0 a1 a2].
  rewrite Hv, Ht0, Ht1. cbn [mbind res_bind FORMAT_VERSION Z.eqb Pos.eqb negb]. rewrite Hg, Hm.
  rewrite !Hk by set_solver. cbn [mbind res_bind].
  pose proof (sort_with_words x y z (kc_word_count (a0 (wd_keys w))) (kc_word_count (a1 (wd_keys w)))
    (kc_word_count (a2 (wd_keys w))) (wd_keys w) Hs Hxyz) as [Hsl Hf]. set (sorted := sort_by_slot _) in *.
  clearbody sorted. destruct (decide (sorted = wd_keys w)) as [Hl|Hl];
    [rewrite (bool_decide_true (sorted = _)) by done|rewrite (bool_decide_false (sorted = _)) by done].
  - rewrite Hl. destruct (wd_keys w) as [k0 k1 k2] eqn:Ek. cbn [a0 a1 a2]. cbn in Hs. injection Hs as H0 H1 H2.
    rewrite !bool_decide_true by done. rewrite !Z.eqb_refl. cbn [negb orb]. rewrite Hn, Ht, Hb. cbn [mbind res_bind].
    rewrite !bool_decide_true by done. cbn [negb orb]. destruct w; cbn in *. by subst.
  - destruct sorted as [s0 s1 s2], (wd_keys w) as [k0 k1 k2]. cbn [a0 a1 a2].
    unfold arr_list in Hf. cbn in Hsl. injection Hsl as S0 S1 S2. rewrite !bool_decide_true by done. cbn [negb orb].
    rewrite !Forall2_cons in Hf. destruct Hf as (E0 & E1 & E2 & _). cbn [a0 a1 a2] in E0, E1, E2.
    case_match eqn:E; [done|]. bool_simp. destruct Hl.
    f_equal; by apply same_words.
Qed.

Lemma into_wallet_from_wallet network keys t w :
  Forall contribution_wf (arr_list keys) → build_wallet_descriptors network keys t = Ok w →
  into_wallet (from_wallet w) = Ok w.
Proof.
  intros Hw H. destruct (build_ordered _ _ _ _ H) as (Hs & _ & _).
  pose proof (into_wallet_keys _ _ _ _ (wire_keys (from_wallet w)) _ _ _ Hw H eq_refl) as Hi. cbv zeta in Hi.
  etrans; [exact (Hi ltac:(done))|]. rewrite !with_words_id, bool_decide_true; [done|].
  destruct (wd_keys w). by apply sort_by_slot_id.
Qed.

(** Loading a document whose first two key records are exchanged. The word
    counts are read by position before the records are sorted by slot, so the
    exchanged document loads, to the same wallet, exactly when the two keys
    have the same number of words; with 12 and 24 words it is refused although
    every record and the word-count map are right. *)
Lemma reordered_document network keys t w :
  Forall contribution_wf (arr_list keys) → build_wallet_descriptors network keys t = Ok w →
  let d := from_wallet w in
  let k := wire_keys d in
  into_wallet (mkWireDocument (wire_format_version d) (wire_network d) (wire_created_at_unix d)
    (wire_receive_descriptor d) (wire_change_descriptor d) (wire_word_count d) (mkArr3 (a1 k) (a0 k) (a2 k))) =
  if bool_decide (kc_word_count (a0 (wd_keys w)) = kc_word_count (a1 (wd_keys w))) then Ok w else Err DeInvalidDocument.
Proof.
  intros Hw H d k. destruct (build_ordered _ _ _ _ H) as (Hs & _ & _).
  pose proof (into_wallet_keys _ _ _ _ (mkArr3 (a1 k) (a0 k) (a2 k)) (a1 (wd_keys w)) (a0 (wd_keys w)) (a2 (wd_keys w))
    Hw H eq_refl) as Hi. cbv zeta in Hi. unfold d, k in *. rewrite Hi by solve_Permutation. clear Hi.
  match goal with |- context [bool_decide ?P] => assert (P ↔ kc_word_count (a0 (wd_keys w)) = kc_word_count (a1 (wd_keys w))) as Hiff end.
  { clear -Hs. destruct (wd_keys w) as [k0 k1 k2]. cbn in Hs. injection Hs as S0 S1 S2. unfold sort_by_slot, arr_list.
    cbn [a0 a1 a2 foldr insert_by_slot]. repeat (rewrite ?S0, ?S1, ?S2; cbn). rewrite with_words_id. split.
    - intros [= H0 H1]. by rewrite <-H0.
    - intros Hw. by rewrite <-Hw, with_words_id, Hw, with_words_id. }
  by rewrite (bool_decide_ext _ _ Hiff).
Qed.
End Loading.

Section Json.
Context `{codec : Codec} `{ms : Miniscript} `{laws : !MiniscriptLaws} `{json : Json}.

(** C19: [descriptor.json] keeps the wallet. When none of the extended keys
    contains a slash (a condition that the builder does not enforce), the
    document a build returns is written as JSON, and reading that text returns
    the same document, key records, word counts, sources and policy ids
    included. Of the JSON library it is assumed that it writes every document
    and reads back what it wrote. *)
Theorem document_roundtrip `{jlaws : !JsonLaws} network keys t w :
  Forall contribution_wf (arr_list keys) → build_wallet_descriptors network keys t = Ok w →
  ∃ s, to_json w = Ok s ∧ from_json s = Ok w.
Proof.
  intros Hw H. destruct (json_writes (from_wallet w)) as [s Hs]. exists s. unfold to_json, from_json.
  rewrite Hs, (json_reads _ _ Hs). split; [done|]. by eapply into_wallet_from_wallet.
Qed.

End Json.
