(* ===== verification/Watch.v ===== *)
(** [trinity-watch/src/wallet]: the watch-only wallet.

    [WatchWallet] wraps the BDK wallet, which is a parameter: the class [Bdk]
    has one operation per call the crate makes, on an abstract state, and
    [BdkLaws] states what its documentation promises of them. Everything the
    crate computes itself (the synthetic tip walk, the builder parameters, the
    fee identity, the mapping helpers, base64) is translated. *)
From S2P Require Import Prelude Ordered Types Bitcoin Checkpoint Chain Parse Text Base64 WatchDesc.

(** ** Data *)

Definition GAP_LIMIT : Z := 20.
Definition ANTI_FEE_SNIPING_SEQUENCE : Z := 0xFFFFFFFD.
Definition ENABLE_RBF_NO_LOCKTIME : Z := 0xFFFFFFFD.

Inductive WalletError :=
  | WeCreate
  | WeInvalidAddress
  | WeInvalidFee
  | WeBuild
  | WeApplyUpdate
  | WeDescriptor (e : DescriptorError)
  | WeOverflow.

Record UtxoInfo := mkUtxoInfo {
  ui_outpoint : OutPoint;
  ui_amount_sats : Z;
  ui_keychain : KeychainKind;
  ui_derivation_index : Z;
  ui_script_pubkey : bytes
}.

(** [bdk_wallet::LocalOutput], the fields that are read. *)
Record LocalOutput := mkLocalOutput {
  lo_outpoint : OutPoint;
  lo_txout : TxOut;
  lo_keychain : KeychainKind;
  lo_derivation_index : Z
}.

(** The parameters of [TxBuilder] that the crate sets. *)
Inductive FeePolicy := FpRate (sat_per_kwu : Z) | FpAmount (sats : Z).
Record TxParams := mkTxParams {
  tp_recipients : list (bytes * Z);
  tp_fee_policy : option FeePolicy;
  tp_sequence : option Z;
  tp_add_global_xpubs : bool;
  tp_current_height : option Z
}.
Definition TxParams_default : TxParams := mkTxParams [] None None false None.

Definition add_recipient (script : bytes) (amount : Z) (p : TxParams) : TxParams :=
  mkTxParams (tp_recipients p ++ [(script, amount)]) (tp_fee_policy p) (tp_sequence p) (tp_add_global_xpubs p) (tp_current_height p).
(** [LockTime::from_height(height).expect(..)]: heights are below 500,000,000. *)
Definition current_height (height : Z) (p : TxParams) : res WalletError TxParams :=
  if height <? 500000000 then
    Ok (mkTxParams (tp_recipients p) (tp_fee_policy p) (tp_sequence p) (tp_add_global_xpubs p) (Some height))
  else Panic.
Definition set_exact_sequence (n : Z) (p : TxParams) : TxParams :=
  mkTxParams (tp_recipients p) (tp_fee_policy p) (Some n) (tp_add_global_xpubs p) (tp_current_height p).
Definition add_global_xpubs (p : TxParams) : TxParams :=
  mkTxParams (tp_recipients p) (tp_fee_policy p) (tp_sequence p) true (tp_current_height p).
Definition set_fee_policy (f : FeePolicy) (p : TxParams) : TxParams :=
  mkTxParams (tp_recipients p) (Some f) (tp_sequence p) (tp_add_global_xpubs p) (tp_current_height p).

(** [FeeRate::from_sat_per_vb]: in sat per 1000 weight units. *)
Definition from_sat_per_vb (vb : Z) : option Z := if vb * 250 <=? u64_max then Some (vb * 250) else None.

(** ** The BDK wallet *)

Class Bdk := {
  BWallet : Type;
  BChangeSet : Type;
  Rng : Type;
  (** [Wallet::create(receive, change).network(n).lookahead(l).create_wallet_no_persist()] *)
  bdk_create : bytes → bytes → Network → Z → option BWallet;
  bdk_latest_checkpoint : BWallet → CheckPoint;
  bdk_reveal_next_address : KeychainKind → BWallet → AddressInfo * BWallet;
  bdk_peek_address : BWallet → KeychainKind → Z → AddressInfo;
  bdk_next_unused_address : KeychainKind → BWallet → AddressInfo * BWallet;
  bdk_balance : BWallet → Balance;
  bdk_list_unspent : BWallet → list LocalOutput;
  (** [None] is an error; it leaves the wallet as it was. *)
  bdk_apply_update : Update → BWallet → option BWallet;
  bdk_take_staged : BWallet → option BChangeSet * BWallet;
  bdk_staged : BWallet → option BChangeSet;
  (** [TxBuilder::finish_with_aux_rand] *)
  bdk_finish : TxParams → Rng → BWallet → option Psbt * Rng * BWallet;
  (** [Address::from_str(s)?.require_network(n)?.script_pubkey()] *)
  address_script : bytes → Network → option bytes;
  psbt_serialize : Psbt → bytes;
  psbt_deserialize : bytes → option Psbt
}.

Section Wallet.
Context `{codec : Codec} `{ms : Miniscript} `{bdk : Bdk}.

Record WatchWallet := mkWatchWallet { ww_inner : BWallet; ww_network : Network }.
Definition with_inner (w : WatchWallet) (b : BWallet) : WatchWallet := mkWatchWallet b (ww_network w).

(** ** Mapping helpers *)

Definition to_bitcoin_network (n : Network) : Network :=
  match n with Bitcoin => Bitcoin | Testnet => Testnet | Signet => Signet | Regtest => Regtest end.
Definition to_bdk_keychain (k : KeychainKind) : KeychainKind :=
  match k with KeychainExternal => KeychainExternal | KeychainInternal => KeychainInternal end.
Definition from_bdk_keychain (k : KeychainKind) : KeychainKind :=
  match k with KeychainExternal => KeychainExternal | KeychainInternal => KeychainInternal end.
Definition from_bdk_address_info (i : AddressInfo) : AddressInfo :=
  mkAddressInfo (ai_address i) (ai_index i) (from_bdk_keychain (ai_keychain i)).

Definition psbt_to_b64 (p : Psbt) : bytes := encode_base64 (psbt_serialize p).
Definition decode_psbt_b64 (b64 : bytes) : res WalletError Psbt :=
  bytes ← map_err (λ _, WeBuild) (decode_base64 b64);
  ok_or (psbt_deserialize bytes) WeBuild.

(** ** Opening *)

Definition from_descriptor_strings (network : Network) (receive change : bytes) : res WalletError WatchWallet :=
  _ ← map_err WeDescriptor (validate_trinity_descriptor receive);
  _ ← map_err WeDescriptor (validate_trinity_descriptor change);
  wallet ← ok_or (bdk_create receive change (to_bitcoin_network network) GAP_LIMIT) WeCreate;
  Ok (mkWatchWallet wallet network).

Definition from_descriptors (d : WalletDescriptors) : res WalletError WatchWallet :=
  from_descriptor_strings (wd_network d) (receive_descriptor d) (change_descriptor d).

(** ** Addresses, balance, coins *)

Definition watch_tip_height (w : WatchWallet) : Z := cp_height (bdk_latest_checkpoint (ww_inner w)).
Definition gap_limit (w : WatchWallet) : Z := GAP_LIMIT.

Definition reveal_next_address (keychain : KeychainKind) (w : WatchWallet) : AddressInfo * WatchWallet :=
  let '(info, b) := bdk_reveal_next_address (to_bdk_keychain keychain) (ww_inner w) in
  (from_bdk_address_info info, with_inner w b).
Definition peek_address (w : WatchWallet) (keychain : KeychainKind) (index : Z) : AddressInfo :=
  from_bdk_address_info (bdk_peek_address (ww_inner w) (to_bdk_keychain keychain) index).
Definition next_unused_address (keychain : KeychainKind) (w : WatchWallet) : AddressInfo * WatchWallet :=
  let '(info, b) := bdk_next_unused_address (to_bdk_keychain keychain) (ww_inner w) in
  (from_bdk_address_info info, with_inner w b).
Definition derive_addresses (w : WatchWallet) (keychain : KeychainKind) (count : Z) : list AddressInfo :=
  map (λ i, peek_address w keychain (Z.of_nat i)) (seq 0 (Z.to_nat count)).

Definition watch_balance (w : WatchWallet) : Balance :=
  let b := bdk_balance (ww_inner w) in
  mkBalance (confirmed_sats b) (trusted_pending_sats b) (untrusted_pending_sats b) (immature_sats b).
Definition list_unspent (w : WatchWallet) : list UtxoInfo :=
  map (λ o, mkUtxoInfo (lo_outpoint o) (txo_value (lo_txout o)) (from_bdk_keychain (lo_keychain o))
              (lo_derivation_index o) (txo_script (lo_txout o)))
    (bdk_list_unspent (ww_inner w)).

(** ** Chain updates *)

Definition apply_update (u : Update) (w : WatchWallet) : res WalletError WatchWallet :=
  b ← ok_or (bdk_apply_update u (ww_inner w)) WeApplyUpdate;
  Ok (with_inner w b).
Definition take_staged (w : WatchWallet) : option BChangeSet * WatchWallet :=
  let '(c, b) := bdk_take_staged (ww_inner w) in (c, with_inner w b).
Definition has_staged (w : WatchWallet) : bool := bool_decide (is_Some (bdk_staged (ww_inner w))).

(** The block id made up for height [h]. *)
Definition synthetic_block (h : Z) : BlockId :=
  mkBlockId h (le_bytes 4 h ++ [0x74] ++ replicate 27 0).
Definition range_incl (a b : Z) : list Z := map (λ i, a + Z.of_nat i) (seq 0 (Z.to_nat (b + 1 - a))).

Definition ensure_tip_at_least (height : Z) (w : WatchWallet) : res WalletError WatchWallet :=
  let tip := bdk_latest_checkpoint (ww_inner w) in
  let tip_h := cp_height tip in
  if height <=? tip_h then Ok w else
  cp ← fold_res (λ cp h, cp_insert cp (synthetic_block h)) tip (range_incl (tip_h + 1) height);
  apply_update (mkUpdate ∅ TxUpdate_default (Some cp)) w.

Definition inject_confirmed_utxo (amount_sats : Z) (keychain : KeychainKind) (w : WatchWallet)
    : res WalletError (OutPoint * AddressInfo * WatchWallet) :=
  w ← ensure_tip_at_least 1 w;
  let '(addr_info, w) := next_unused_address keychain w in
  spk ← ok_or (address_script (ai_address addr_info) (to_bitcoin_network (ww_network w))) WeInvalidAddress;
  let tx := mkTransaction 2 0 [mkTxIn (mkOutPoint (replicate 32 0xab) 0) [] 0xFFFFFFFF []] [mkTxOut amount_sats spk] in
  let txid := compute_txid tx in
  let anchor := mkAnchor (block_id (bdk_latest_checkpoint (ww_inner w))) 1700000000 in
  w ← apply_update (mkUpdate ∅ (mkTxUpdate [tx] ∅ {[ (anchor, txid) ]} ∅ ∅) None) w;
  Ok (mkOutPoint txid 0, addr_info, w).

(** ** Building *)

Definition tx_builder_for (req : SendRequest) (w : WatchWallet) : res WalletError TxParams :=
  script ← ok_or (address_script (sr_recipient req) (to_bitcoin_network (ww_network w))) WeInvalidAddress;
  let tip := cp_height (bdk_latest_checkpoint (ww_inner w)) in
  builder ← current_height tip (add_recipient script (sr_amount_sats req) TxParams_default);
  let builder := add_global_xpubs (set_exact_sequence ENABLE_RBF_NO_LOCKTIME builder) in
  match sr_fee_target req with
  | FeerateSatVb vb =>
      rate ← ok_or (from_sat_per_vb vb) WeInvalidFee;
      Ok (set_fee_policy (FpRate rate) builder)
  | AbsoluteSats sats => Ok (set_fee_policy (FpAmount sats) builder)
  end.

(** [builder.finish_with_aux_rand(rng)] on the borrowed wallet: the result,
    with the wallet and generator it leaves behind in either case. *)
Definition build_psbt_raw_with_aux_rand (req : SendRequest) (rng : Rng) (w : WatchWallet)
    : res WalletError Psbt * Rng * WatchWallet :=
  match tx_builder_for req w with
  | Ok params =>
      let '(r, rng, b) := bdk_finish params rng (ww_inner w) in
      (ok_or r WeBuild, rng, with_inner w b)
  | Err e => (Err e, rng, w)
  | Panic => (Panic, rng, w)
  end.

Definition build_psbt_with_aux_rand (req : SendRequest) (rng : Rng) (w : WatchWallet)
    : res WalletError bytes * Rng * WatchWallet :=
  let '(r, rng, w) := build_psbt_raw_with_aux_rand req rng w in
  (p ← r; Ok (psbt_to_b64 p), rng, w).

(** [finish()] is the same with the thread's generator. *)
Definition build_psbt (req : SendRequest) (thread_rng : Rng) (w : WatchWallet) : res WalletError bytes * WatchWallet :=
  let '(r, _, w) := build_psbt_with_aux_rand req thread_rng w in (r, w).

End Wallet.

(** ** Fee identity *)

(** The value of input [idx]. *)
Definition coin_value (p : Psbt) (idx : nat) (input : PsbtInput) : res WalletError Z :=
  match witness_utxo input with
  | Some o => Ok (txo_value o)
  | None =>
      match non_witness_utxo input with
      | Some tx =>
          txin ← index idx (tx_input (unsigned_tx p));
          o ← ok_or (tx_output tx !! Z.to_nat (op_vout (previous_output txin))) WeBuild;
          Ok (txo_value o)
      | None => Err WeBuild
      end
  end.

Definition fee_identity (p : Psbt) : res WalletError (Z * Z * Z) :=
  sum_in ← fold_resi (λ acc idx input, v ← coin_value p idx input; ok_or (checked_add acc v) WeOverflow)
             0 0 (psbt_inputs p);
  sum_out ← fold_res (λ acc o, ok_or (checked_add acc (txo_value o)) WeOverflow) 0 (tx_output (unsigned_tx p));
  fee ← ok_or (checked_sub sum_in sum_out) WeOverflow;
  Ok (fee, sum_in, sum_out).

(** ** The fee is the difference of the sums *)

Lemma fold_resi_zip {E A B C} (f : C → nat → A → res E C) (g : C → B * A → res E C) (bs : list B) (l : list A) acc i :
  length (drop i bs) = length l →
  (∀ c k b a, bs !! k = Some b → f c k a = g c (b, a)) →
  fold_resi f acc i l = fold_res g acc (zip (drop i bs) l).
Proof.
  revert acc i. induction l as [|a l IH]; intros acc i Hl Hf.
  - by destruct (drop i bs).
  - destruct (drop i bs) as [|b r] eqn:Ed; [done|]. cbn [fold_resi zip zip_with fold_res].
    assert (bs !! i = Some b) as Hb by (rewrite <-(Nat.add_0_r i), <-lookup_drop, Ed; done).
    assert (drop (S i) bs = r) as Hr by (rewrite <-Nat.add_1_r, <-drop_drop, Ed; done).
    rewrite (Hf _ _ b a Hb). destruct (g acc (b, a)) as [c| |]; [|done..]. cbn [mbind res_bind].
    rewrite IH, Hr; [done|by rewrite Hr; injection Hl|done].
Qed.

(** The amounts of the coins an unsigned transaction spends, in order. *)
Definition funded (p : Psbt) (vs : list Z) : Prop :=
  Forall2 (λ ti v, ∃ o, funding_utxo ti.1 ti.2 = Some o ∧ txo_value o = v)
    (zip (tx_input (unsigned_tx p)) (psbt_inputs p)) vs.

Definition value_of {E} (e : E) (ti : TxIn * PsbtInput) : res E Z :=
  o ← ok_or (funding_utxo ti.1 ti.2) e; Ok (txo_value o).
Lemma value_of_Ok {E} (e : E) p vs :
  Forall2 (λ ti v, value_of e ti = Ok v) (zip (tx_input (unsigned_tx p)) (psbt_inputs p)) vs ↔ funded p vs.
Proof.
  unfold funded. split; (intros H; eapply Forall2_impl; [exact H|]); intros ti v; unfold value_of; destruct (funding_utxo _ _); cbn; naive_solver.
Qed.
Lemma coin_value_eq p k ti pi :
  tx_input (unsigned_tx p) !! k = Some ti → coin_value p k pi = value_of WeBuild (ti, pi).
Proof.
  intros Hk. unfold coin_value, value_of, funding_utxo. cbn [fst snd]. destruct (witness_utxo pi) as [o|]; [done|].
  destruct (non_witness_utxo pi) as [tx|]; [|done]. unfold index. rewrite Hk. cbn [expect mbind res_bind].
  by destruct (tx_output tx !! _).
Qed.

(** Both computations, as sums over the funding coins and the outputs. *)
Definition fee_sums (p : Psbt) (fee sum_in sum_out : Z) : Prop :=
  ∃ vs, funded p vs ∧ sums_fit 0 vs ∧ sums_fit 0 (txo_value <$> tx_output (unsigned_tx p)) ∧
    sum_in = sum_Z vs ∧ sum_out = sum_Z (txo_value <$> tx_output (unsigned_tx p)) ∧ sum_out ≤ sum_in ∧ fee = sum_in - sum_out.

Lemma out_sums {E} (e : E) outs s :
  fold_res (λ acc o, ok_or (checked_add acc (txo_value o)) e) 0 outs = Ok s ↔
  sums_fit 0 (txo_value <$> outs) ∧ s = sum_Z (txo_value <$> outs).
Proof.
  rewrite (checked_sum_spec (λ o, Ok (txo_value o)) e) by done. split.
  - intros (vs & Hf & Hs & ->). assert (vs = txo_value <$> outs) as -> by
      (clear Hs; induction Hf as [|x y l k Hx _ IH]; [done|]; injection Hx as <-; by rewrite IH). done.
  - intros [Hs ->]. exists (txo_value <$> outs). split_and!; [|done..]. clear. induction outs; by constructor.
Qed.
Lemma sub_sums {E} (e : E) i o fee : ok_or (checked_sub i o) e = Ok fee ↔ o ≤ i ∧ fee = i - o.
Proof. rewrite ok_or_Ok, checked_sub_Some. naive_solver. Qed.

Lemma psbt_fee_sums p fee :
  length (psbt_inputs p) = length (tx_input (unsigned_tx p)) →
  psbt_fee p = Ok fee ↔ ∃ i o, fee_sums p fee i o.
Proof.
  intros Hl. unfold psbt_fee. rewrite Hl, Nat.eqb_refl. cbn [negb].
  pose proof (λ s, checked_sum_spec (value_of tt) tt (λ acc ti, o ← ok_or (funding_utxo ti.1 ti.2) tt;
    ok_or (checked_add acc (txo_value o)) tt) 0 (zip (tx_input (unsigned_tx p)) (psbt_inputs p)) s) as Hin.
  assert (∀ acc ti, (o ← ok_or (funding_utxo ti.1 ti.2) tt; ok_or (checked_add acc (txo_value o)) tt) =
    v ← value_of tt ti; ok_or (checked_add acc v) tt) as Hstep
    by (intros acc ti; unfold value_of; by destruct (funding_utxo _ _)).
  split.
  - intros (i & Hi & (o & Ho & Hf)%bind_Ok)%bind_Ok. apply out_sums in Ho as [Ho ->]. apply sub_sums in Hf as [? ->].
    apply Hin in Hi as (vs & Hv%value_of_Ok & Hs & ->); [|intros; apply Hstep]. by eexists _, _, vs.
  - intros (i & o & vs & Hv & Hs & Ho & -> & -> & Hle & ->).
    rewrite (proj2 (Hin (sum_Z vs) ltac:(intros; apply Hstep))) by (exists vs; by rewrite value_of_Ok). cbn [mbind res_bind].
    rewrite (proj2 (out_sums tt _ _)) by done. cbn [mbind res_bind]. by apply sub_sums.
Qed.

Lemma fee_identity_sums p fee i o :
  length (psbt_inputs p) = length (tx_input (unsigned_tx p)) →
  fee_identity p = Ok (fee, i, o) ↔ fee_sums p fee i o.
Proof.
  intros Hl. unfold fee_identity.
  rewrite (fold_resi_zip _ (λ acc ti, v ← value_of WeBuild ti; ok_or (checked_add acc v) WeOverflow) (tx_input (unsigned_tx p)));
    [|by rewrite drop_0|intros; by rewrite (coin_value_eq _ _ b)]. rewrite drop_0. split.
  - intros (i' & Hi & (o' & Ho & (f & Hf & [= <- <- <-])%bind_Ok)%bind_Ok)%bind_Ok.
    apply out_sums in Ho as [Ho ->]. apply sub_sums in Hf as [? ->].
    apply (checked_sum_spec (value_of WeBuild) WeOverflow) in Hi as (vs & Hv%value_of_Ok & Hs & ->); [|done].
    by exists vs.
  - intros (vs & Hv & Hs & Ho & -> & -> & Hle & ->).
    rewrite (proj2 (checked_sum_spec (value_of WeBuild) WeOverflow _ _ _ (sum_Z vs) ltac:(done))).
    + cbn [mbind res_bind]. rewrite (proj2 (out_sums WeOverflow _ _)) by done. cbn [mbind res_bind].
      by rewrite (proj2 (sub_sums WeOverflow _ _ _)) by done.
    + exists vs. by rewrite value_of_Ok.
Qed.

(** C20: the fee identity P8. On a PSBT with one input map per input,
    [fee_identity] succeeds exactly when the library's own [Psbt::fee] does,
    with the same fee, and its sums are the exact totals of the funding coins
    and of the outputs, the fee their difference; it never aborts. *)
Theorem fee_identity_exact p :
  length (psbt_inputs p) = length (tx_input (unsigned_tx p)) →
  (∀ fee i o, fee_identity p = Ok (fee, i, o) →
     psbt_fee p = Ok fee ∧ fee = i - o ∧ o = sum_Z (txo_value <$> tx_output (unsigned_tx p)) ∧
     ∃ vs, funded p vs ∧ i = sum_Z vs) ∧
  (∀ fee, psbt_fee p = Ok fee → ∃ i o, fee_identity p = Ok (fee, i, o)) ∧
  fee_identity p ≠ Panic.
Proof.
  intros Hl. split_and!.
  - intros fee i o H%fee_identity_sums; [|done]. split; [apply psbt_fee_sums; eauto|].
    destruct H as (vs & ? & _ & _ & -> & -> & _ & ->). eauto.
  - intros fee (i & o & H)%psbt_fee_sums; [|done]. exists i, o. by apply fee_identity_sums.
  - unfold fee_identity. intros H. apply bind_Panic in H as [H|(? & _ & H)].
    + rewrite (fold_resi_zip _ (λ acc ti, v ← value_of WeBuild ti; ok_or (checked_add acc v) WeOverflow)
        (tx_input (unsigned_tx p))) in H; [|by rewrite drop_0|intros; by rewrite (coin_value_eq _ _ b)].
      apply fold_res_no_panic in H; [done|]. intros acc ti _ Hp. unfold value_of in Hp.
      destruct (funding_utxo _ _); [|done]. by apply ok_or_Panic in Hp.
    + apply bind_Panic in H as [H|(? & _ & H)].
      * apply fold_res_no_panic in H; [done|]. intros ? ? _ Hp. by apply ok_or_Panic in Hp.
      * apply bind_Panic in H as [H|(? & _ & H)]; [by apply ok_or_Panic in H|done].
Qed.

(** ** What the wallet promises *)

(** The documented behaviour of the BDK calls. A chain update that contains the
    whole local chain and continues it is applied and becomes the local chain;
    a finished transaction has the locktime, sequence and recipients that were
    set, one input map per input, a fee that is at least the absolute one asked
    for, and a serialisation that reads back. *)
Class BdkLaws `{bdk : Bdk} : Prop := {
  bdk_tip_wf b : cp_wf (bdk_latest_checkpoint b);
  bdk_extend b cp l :
    cp_wf cp → cp_iter cp = l ++ cp_iter (bdk_latest_checkpoint b) →
    ∃ b', bdk_apply_update (mkUpdate ∅ TxUpdate_default (Some cp)) b = Some b' ∧ bdk_latest_checkpoint b' = cp;
  bdk_honours params rng b p rng' b' :
    bdk_finish params rng b = (Some p, rng', b') →
    (∀ h, tp_current_height params = Some h → tx_lock_time (unsigned_tx p) = h) ∧
    (∀ n, tp_sequence params = Some n → Forall (λ i, sequence i = n) (tx_input (unsigned_tx p))) ∧
    (∀ script v, (script, v) ∈ tp_recipients params → mkTxOut v script ∈ tx_output (unsigned_tx p)) ∧
    length (psbt_inputs p) = length (tx_input (unsigned_tx p)) ∧
    (∃ fee, psbt_fee p = Ok fee ∧ ∀ a, tp_fee_policy params = Some (FpAmount a) → a ≤ fee) ∧
    is_bytes (psbt_serialize p) ∧ psbt_deserialize (psbt_serialize p) = Some p
}.

Section Promises.
Context `{codec : Codec} `{ms : Miniscript} `{bdk : Bdk} `{laws : !BdkLaws}.

(** A document that was built opens unless BDK itself refuses the strings. *)
Lemma built_wallet_opens network keys t d :
  build_wallet_descriptors network keys t = Ok d →
  from_descriptors d = match bdk_create (receive_descriptor d) (change_descriptor d) network GAP_LIMIT with
                       | Some b => Ok (mkWatchWallet b network)
                       | None => Err WeCreate
                       end.
Proof.
  intros (_ & _ & _ & _ & _ & _ & _ & _ & H0 & H1 & _ & Hn & _)%build_Ok.
  unfold from_descriptors, from_descriptor_strings. rewrite H0, H1, Hn. cbn [map_err mbind res_bind].
  replace (to_bitcoin_network network) with network by by destruct network. by destruct (bdk_create _ _ _ _).
Qed.

Lemma range_incl_cons a b : a ≤ b → range_incl a b = a :: range_incl (a + 1) b.
Proof.
  intros H. unfold range_incl. replace (Z.to_nat (b + 1 - a)) with (S (Z.to_nat (b + 1 - (a + 1)))) by lia.
  cbn [seq map]. f_equal; [lia|]. rewrite <-seq_shift, map_map. apply map_ext. intros i. lia.
Qed.
Lemma range_incl_nil a b : b < a → range_incl a b = [].
Proof. intros H. unfold range_incl. by replace (Z.to_nat (b + 1 - a)) with O by lia. Qed.

(** The walk puts one synthetic block per height on top of the chain. *)
Lemma tip_walk {E} n cp height :
  cp_wf cp → height = cp_height cp + Z.of_nat n →
  ∃ cp', fold_res (E:=E) (λ cp h, cp_insert cp (synthetic_block h)) cp (range_incl (cp_height cp + 1) height) = Ok cp' ∧
    cp_wf cp' ∧ cp_height cp' = height ∧ cp_genesis cp' = cp_genesis cp ∧
    cp_iter cp' = reverse (synthetic_block <$> range_incl (cp_height cp + 1) height) ++ cp_iter cp.
Proof.
  revert cp. induction n as [|n IH]; intros cp Hw Hh.
  - rewrite range_incl_nil by lia. exists cp. cbn. split_and!; [done|done|lia|done..].
  - pose proof (cp_height_nonneg _ Hw) as H0. rewrite range_incl_cons by lia. cbn [fold_res].
    set (b := synthetic_block (cp_height cp + 1)). assert (cp_height cp < bi_height b) as Hb by (cbn; lia).
    destruct (cp_insert_spec (E:=E) cp b) as (cp1 & -> & Hw1 & Hg1 & Hi1); [done|cbn; lia|cbn; lia|].
    unfold insert_spec in Hi1. destruct (no_height _ _ Hw Hb) as [Hn He].
    rewrite bool_decide_false, He in Hi1 by done. destruct (below_all _ _ Hw Hb) as [-> ->] in Hi1. cbn [app] in Hi1.
    assert (cp_height cp1 = cp_height cp + 1) as Hh1.
    { unfold cp_height at 1. destruct cp1 as [c|c p]; cbn in Hi1 |- *; injection Hi1 as -> _; done. }
    cbn [mbind res_bind]. destruct (IH cp1) as (cp' & Hf & Hw' & Hh' & Hg' & Hi'); [done|lia|].
    rewrite Hh1 in Hf, Hi'. exists cp'. split_and!; [done..|congruence|].
    rewrite Hi', Hi1. cbn [fmap list_fmap]. rewrite reverse_cons, <-app_assoc. done.
Qed.

(** [ensure_tip_at_least] always succeeds; the tip is then at the larger of
    the old and the asked height, every block of the old chain is kept, one
    synthetic block stands at each new height, and a second call with the same
    height changes nothing. *)
Lemma ensure_tip_extends height w :
  ∃ w', ensure_tip_at_least height w = Ok w' ∧
    watch_tip_height w' = Z.max (watch_tip_height w) height ∧ ww_network w' = ww_network w ∧
    cp_iter (bdk_latest_checkpoint (ww_inner w')) =
      reverse (synthetic_block <$> range_incl (watch_tip_height w + 1) height) ++
      cp_iter (bdk_latest_checkpoint (ww_inner w)) ∧
    ensure_tip_at_least height w' = Ok w'.
Proof.
  unfold ensure_tip_at_least at 1. cbv zeta. fold (watch_tip_height w). destruct (Z.leb_spec height (watch_tip_height w)) as [H|H].
  - exists w. rewrite range_incl_nil by lia. split_and!; [done|lia|done..|].
    unfold ensure_tip_at_least. cbv zeta. fold (watch_tip_height w). by rewrite (proj2 (Z.leb_le _ _)).
  - destruct (tip_walk (E:=WalletError) (Z.to_nat (height - watch_tip_height w)) (bdk_latest_checkpoint (ww_inner w)) height)
      as (cp & Hf & Hw & Hh & _ & Hi); [apply bdk_tip_wf|unfold watch_tip_height in *; lia|].
    fold (watch_tip_height w) in Hf, Hi. rewrite Hf. cbn [mbind res_bind].
    destruct (bdk_extend (ww_inner w) cp _ Hw Hi) as (b' & Hu & Ht). unfold apply_update. rewrite Hu. cbn [ok_or mbind res_bind].
    exists (with_inner w b'). unfold watch_tip_height at 1. cbn [with_inner ww_inner ww_network]. rewrite Ht. split_and!; try done; try lia.
    unfold ensure_tip_at_least. cbn [with_inner ww_inner]. cbv zeta. by rewrite Ht, Hh, Z.leb_refl.
Qed.

Lemma tx_builder_for_Ok req w params :
  tx_builder_for req w = Ok params →
  ∃ script fee, address_script (sr_recipient req) (to_bitcoin_network (ww_network w)) = Some script ∧
    params = mkTxParams [(script, sr_amount_sats req)] (Some fee) (Some ENABLE_RBF_NO_LOCKTIME) true (Some (watch_tip_height w)) ∧
    watch_tip_height w < 500000000 ∧
    match sr_fee_target req with
    | FeerateSatVb vb => fee = FpRate (vb * 250) ∧ vb * 250 ≤ u64_max
    | AbsoluteSats sats => fee = FpAmount sats
    end.
Proof.
  unfold tx_builder_for. intros (script & Hs%ok_or_Ok & H)%bind_Ok. cbv zeta in H.
  apply bind_Ok in H as (b & Hb & H). unfold current_height in Hb. if_inv Hb E. injection Hb as <-. bool_simp.
  exists script. destruct (sr_fee_target req) as [vb|a].
  - apply bind_Ok in H as (r & Hr%ok_or_Ok & [= <-]). unfold from_sat_per_vb in Hr. if_inv Hr E'. bool_simp.
    injection Hr as <-. by eexists.
  - injection H as <-. by eexists.
Qed.

(** What leaves [build_psbt]. The base64 text decodes to a PSBT whose
    locktime is the wallet's tip height, whose inputs all carry the
    anti-fee-sniping, replaceable sequence, which pays the requested amount to
    the recipient's script, and whose fee is the difference of its input and
    output sums, at least the absolute fee when one was asked for. *)
Lemma built_psbt_shape req rng w b64 w' :
  build_psbt req rng w = (Ok b64, w') →
  ∃ p script fee i o,
    decode_psbt_b64 b64 = Ok p ∧
    tx_lock_time (unsigned_tx p) = watch_tip_height w ∧
    Forall (λ t, sequence t = ANTI_FEE_SNIPING_SEQUENCE) (tx_input (unsigned_tx p)) ∧
    address_script (sr_recipient req) (ww_network w) = Some script ∧
    mkTxOut (sr_amount_sats req) script ∈ tx_output (unsigned_tx p) ∧
    fee_identity p = Ok (fee, i, o) ∧ fee = i - o ∧
    (∀ a, sr_fee_target req = AbsoluteSats a → a ≤ fee).
Proof.
  unfold build_psbt, build_psbt_with_aux_rand, build_psbt_raw_with_aux_rand. intros H.
  destruct (tx_builder_for req w) as [params|e|] eqn:Eb; [|done..].
  destruct (bdk_finish params rng (ww_inner w)) as [[[p|] rng'] b'] eqn:Ef; [|done]. cbn in H. injection H as <- <-.
  apply tx_builder_for_Ok in Eb as (script & fp & Hs & -> & _ & Hfp).
  replace (to_bitcoin_network (ww_network w)) with (ww_network w) in Hs by by destruct (ww_network w).
  apply bdk_honours in Ef as (Hh & Hq & Hr & Hl & (fee & Hfee & Ha) & Hb & Hd). cbn in Hh, Hq, Hr, Ha.
  destruct (proj1 (psbt_fee_sums p fee Hl) Hfee) as (i & o & Hsum).
  exists p, script, fee, i, o. split_and!; try done; auto.
  - unfold decode_psbt_b64, psbt_to_b64. rewrite base64_roundtrip by done. cbn [map_err mbind res_bind]. by rewrite Hd.
  - apply Hr. set_solver.
  - by apply fee_identity_sums.
  - by destruct Hsum as (vs & _ & _ & _ & _ & _ & _ & ->).
  - intros a Hf. rewrite Hf in Hfp. subst fp. auto.
Qed.

(** A request that cannot be built leaves the wallet as it was. *)
Lemma build_psbt_refused req rng w :
  (address_script (sr_recipient req) (to_bitcoin_network (ww_network w)) = None → build_psbt req rng w = (Err WeInvalidAddress, w)) ∧
  (∀ vb script, address_script (sr_recipient req) (to_bitcoin_network (ww_network w)) = Some script →
     watch_tip_height w < 500000000 → sr_fee_target req = FeerateSatVb vb → u64_max < vb * 250 →
     build_psbt req rng w = (Err WeInvalidFee, w)).
Proof.
  unfold build_psbt, build_psbt_with_aux_rand, build_psbt_raw_with_aux_rand, tx_builder_for, current_height. split.
  - by intros ->.
  - intros vb script -> Ht -> Hv. fold (watch_tip_height w). cbn [ok_or mbind res_bind].
    rewrite (proj2 (Z.ltb_lt _ _)) by done. cbn [mbind res_bind]. unfold from_sat_per_vb.
    by rewrite (proj2 (Z.leb_gt _ _)) by done.
Qed.
End Promises.
