(* ===== verification/WatchSamples.v ===== *)
(** Concrete runs of the watch-only wallet.

    A miniscript that knows six key expressions and satisfies
    [MiniscriptLaws]; JSON as an enumeration of the documents; a BDK wallet that
    is its local chain and can build one transaction. The theorems on the
    descriptor builder, the document and the wallet are applied to them. *)
From S2P Require Import Prelude Ordered Types Bitcoin Checksum Parse Text Base64 Checkpoint Chain WatchDesc WatchDoc Watch Derive Toy.

(** ** Three keys *)

Definition base58_codec : Codec := {|
  xpub_from_str x := if forallb is_ascii_alphanumeric x then Toy.toy_xpub x else None;
  address_of_script s _ := Some s;
  compute_txid := @compute_txid Toy.codec;
  tx_vsize := @tx_vsize Toy.codec;
  p2wsh_signature_hash := @p2wsh_signature_hash Toy.codec;
  verify_script := @verify_script Toy.codec;
  serialize_der s := s
|}.

Definition origin : bytes := str "48'/1'/0'/2'".
Definition sample_keys : list (Z * bytes) := [(10, str "tpubA1x"); (11, str "tpubB2x"); (12, str "tpubC3x")].
Definition expression (k : Z * bytes) (suffix : bytes) : bytes :=
  str "[" ++ to_hex [k.1; 0; 0; 1] ++ str "/" ++ origin ++ str "]" ++ k.2 ++ str "/" ++ suffix.
Definition known : list bytes := k ← sample_keys; [expression k RECEIVE_SUFFIX; expression k CHANGE_SUFFIX].

Definition sample_ms : Miniscript := {|
  DescriptorPublicKey := bytes;
  dpk_from_str s := if bool_decide (s ∈ known) then Some s else None;
  dpk_display s := s;
  is_multipath _ := false;
  new_wsh_sortedmulti k pks := Some (MsWshSortedMulti k pks);
  ms_display d :=
    match d with
    | MsWshSortedMulti k pks =>
        match create_checksum (str "wsh(sortedmulti(" ++ dec k ++ str "," ++ comma_join pks ++ str "))") with
        | Ok s => s
        | _ => []
        end
    | _ => []
    end;
  ms_from_str s := Some (MsWshSortedMulti 2 (drop 1 (split_on 44 s)))
|}.

Lemma app_sep_inj (c : Z) (a b a' b' : bytes) :
  a ++ c :: b = a' ++ c :: b' → c ∉ a' → c ∉ b' → a = a' ∧ b = b'.
Proof.
  revert a'. induction a as [|x a IH]; intros [|y a'] H Ha Hb; cbn in H; simplify_eq; [done|set_solver|set_solver|].
  edestruct IH as [-> ->]; [eassumption|set_solver|done|done].
Qed.

(** A known expression determines its fingerprint, origin and key. *)
Lemma expression_inj fp o x suffix k suffix' :
  length (to_hex fp) = 8%nat → length suffix = length suffix' → 93 ∉ k.2 ++ str "/" ++ suffix' →
  length (to_hex [k.1; 0; 0; 1]) = 8%nat →
  str "[" ++ to_hex fp ++ str "/" ++ o ++ str "]" ++ x ++ str "/" ++ suffix = expression k suffix' →
  to_hex fp = to_hex [k.1; 0; 0; 1] ∧ o = origin ∧ x = k.2 ∧ suffix = suffix'.
Proof.
  intros Hf Hs Hk Hk' H. unfold expression in H. apply app_inv_head in H.
  apply app_inj_1 in H as [Hfp H]; [|congruence]. apply app_inv_head in H.
  change (str "]" ++ ?l) with (93 :: l) in H. apply app_sep_inj in H as [-> H]; [|vm_compute; set_solver|done].
  apply app_inj_2 in H as [-> H]; [|by rewrite !length_app, Hs]. by apply app_inv_head in H.
Qed.

#[global] Instance sample_ms_laws : @MiniscriptLaws base58_codec sample_ms.
Proof.
  split; cbn [dpk_from_str dpk_display new_wsh_sortedmulti ms_display sample_ms xpub_from_str base58_codec].
  - intros fp o path x suffix k [Hb Hl] Hp Hx Hsuf H. case_bool_decide as Hk; [|done]. injection H as <-.
    assert (length (to_hex fp) = 8%nat) as H8 by (unfold to_hex; by rewrite length_hex_encode, Hl).
    assert (∃ kx s, kx ∈ sample_keys ∧ (s = RECEIVE_SUFFIX ∨ s = CHANGE_SUFFIX) ∧
      str "[" ++ to_hex fp ++ str "/" ++ o ++ str "]" ++ x ++ str "/" ++ suffix = expression kx s) as (kx & s & Hkx & Hs & He).
    { unfold known in Hk. apply list_elem_of_bind in Hk as (kx & Hk & Hkx). exists kx.
      rewrite !elem_of_cons, elem_of_nil in Hk. destruct Hk as [Hk|[Hk|[]]]; eauto 6. }
    apply expression_inj in He as (Hfp & -> & -> & ->).
    + assert (path = [Hardened 48; Hardened 1; Hardened 0; Hardened 2]) as ->.
      { assert (DerivationPath_from_str origin = Some [Hardened 48; Hardened 1; Hardened 0; Hardened 2]) as Ho
          by (vm_compute; reflexivity). congruence. }
      split; [done|]. unfold sample_keys in Hkx. rewrite !elem_of_cons, elem_of_nil in Hkx.
      destruct Hkx as [->|[->|[->|[]]]]; vm_compute; by eexists.
    + done.
    + destruct Hsuf as [->| ->], Hs as [->| ->]; done.
    + apply (bool_decide_eq_true_1 _). unfold sample_keys in Hkx. rewrite !elem_of_cons, elem_of_nil in Hkx.
      destruct Hkx as [->|[->|[->|[]]]], Hs as [->| ->]; vm_compute; reflexivity.
    + done.
  - intros x [y Hy]. destruct (forallb _ x) eqn:E; [|done]. apply Forall_forall. intros c Hc.
    rewrite forallb_forall in E. by apply E, list_elem_of_In.
  - by intros k pks d [= <-].
  - intros k pks s. rewrite list_fmap_id. by intros ->.
Qed.

(** ** A built document *)

Definition contribution (slot : KeySlot) (fp : Z) (x : bytes) (wc : WordCount) (src : ContribSource) (pol : option bytes) : KeyContribution :=
  mkContribution slot (mkXpubWithOrigin [fp; 0; 0; 1] origin x) 100 wc src pol.
(** Handed in out of order; B is a hardware key with twelve words. *)
Definition contributions : arr3 KeyContribution :=
  mkArr3 (contribution SlotC 12 (str "tpubC3x") Words24 InApp None)
         (contribution SlotA 10 (str "tpubA1x") Words24 InApp None)
         (contribution SlotB 11 (str "tpubB2x") Words12 (Hardware (str "coldcard_mk4")) (Some (str "pol"))).
Definition sample_wallet : WalletDescriptors :=
  match @build_wallet_descriptors sample_ms Regtest contributions 1700 with
  | Ok w => w
  | _ => mkWalletDescriptors 0 Regtest 0 [] [] contributions
  end.

Lemma sample_builds : @build_wallet_descriptors sample_ms Regtest contributions 1700 = Ok sample_wallet.
Proof. vm_compute. reflexivity. Qed.
Lemma contributions_wf : Forall contribution_wf (arr_list contributions).
Proof.
  repeat constructor; cbn; first [unfold is_u8, u8_max; lia|apply (bool_decide_eq_true_1 _); vm_compute; reflexivity].
Qed.


Lemma build_canonical_witness :
  kc_slot <$> arr_list (wd_keys sample_wallet) = KeySlot_ALL ∧ arr_list (wd_keys sample_wallet) ≡ₚ arr_list contributions ∧
  NoDup (kc_fingerprint <$> arr_list contributions) ∧
  (∀ keys', arr_list keys' ≡ₚ arr_list contributions → @build_wallet_descriptors sample_ms Regtest keys' 1700 = Ok sample_wallet) ∧
  @build_wallet_descriptors sample_ms Regtest (wd_keys sample_wallet) 1700 = Ok sample_wallet.
Proof. exact (@build_canonical sample_ms Regtest contributions 1700 sample_wallet sample_builds). Defined.

(** ** Documents as numbers *)

#[global] Instance KeySlot_countable : Countable KeySlot.
Proof.
  refine (inj_countable (λ s, Z.to_nat (slot_as_u8 s)) (λ n, slot_from_u8 (Z.of_nat n)) _). by intros [].
Defined.
#[global] Instance Network_countable : Countable Network.
Proof.
  refine (inj_countable' (λ n, match n with Bitcoin => (true, true) | Testnet => (true, false) | Signet => (false, true) | Regtest => (false, false) end)
    (λ p, match p with (true, true) => Bitcoin | (true, false) => Testnet | (false, true) => Signet | (false, false) => Regtest end) _).
  by intros [].
Defined.
#[global] Instance ContribSource_countable : Countable ContribSource.
Proof.
  refine (inj_countable' (λ s, match s with InApp => None | Hardware m => Some m end)
    (λ o, match o with None => InApp | Some m => Hardware m end) _). by intros [].
Defined.
#[global] Instance WireKey_eq_dec : EqDecision WireKey.
Proof. solve_decision. Defined.
#[global] Instance WireKey_countable : Countable WireKey.
Proof.
  refine (inj_countable' (λ k, (wk_slot k, wk_fingerprint k, wk_origin_path k, wk_xpub k, wk_birthday_height k, wk_source k, wk_policy_id k))
    (λ '(a, b, c, d, e, f, g), mkWireKey a b c d e f g) _). by intros [].
Defined.
#[global] Instance WordCountMap_eq_dec : EqDecision WordCountMap.
Proof. solve_decision. Defined.
#[global] Instance WireDocument_eq_dec : EqDecision WireDocument.
Proof. solve_decision. Defined.
#[global] Instance WireDocument_countable : Countable WireDocument.
Proof.
  refine (inj_countable' (λ d, (wire_format_version d, wire_network d, wire_created_at_unix d, wire_receive_descriptor d,
      wire_change_descriptor d, (wc_a (wire_word_count d), wc_b (wire_word_count d), wc_c (wire_word_count d)),
      (a0 (wire_keys d), a1 (wire_keys d), a2 (wire_keys d))))
    (λ '(v, n, t, r, c, (x, y, z), (k0, k1, k2)), mkWireDocument v n t r c (mkWordCountMap x y z) (mkArr3 k0 k1 k2)) _).
  by intros [? ? ? ? ? [] []].
Defined.

Definition sample_json : Json := {|
  to_string_pretty d := Some [Zpos (encode d)];
  json_from_str s := match s with [Zpos p] => decode p | _ => None end
|}.
#[global] Instance sample_json_laws : @JsonLaws sample_json.
Proof. split; cbn -[encode decode]; [by eexists|]. intros d s [= <-]. apply decode_encode. Qed.

Lemma document_roundtrip_witness :
  ∃ s, @to_json sample_json sample_wallet = Ok s ∧ @from_json sample_ms sample_json s = Ok sample_wallet.
Proof.
  exact (@document_roundtrip base58_codec sample_ms sample_ms_laws sample_json sample_json_laws Regtest contributions 1700
    sample_wallet contributions_wf sample_builds).
Defined.

Definition sample_text : bytes := [Zpos (encode (from_wallet sample_wallet))].
Lemma sample_loads : @from_json sample_ms sample_json sample_text = Ok sample_wallet.
Proof.
  unfold from_json. cbn [json_from_str sample_json sample_text]. rewrite decode_encode. cbn [ok_or mbind res_bind].
  exact (@into_wallet_from_wallet base58_codec sample_ms sample_ms_laws Regtest contributions 1700 sample_wallet
    contributions_wf sample_builds).
Qed.

(** Keys A and B exchanged, with 24 and 12 words: refused. *)
Lemma reordered_document_witness :
  let d := from_wallet sample_wallet in
  let k := wire_keys d in
  @into_wallet sample_ms (mkWireDocument (wire_format_version d) (wire_network d) (wire_created_at_unix d)
    (wire_receive_descriptor d) (wire_change_descriptor d) (wire_word_count d) (mkArr3 (a1 k) (a0 k) (a2 k))) =
  if bool_decide (kc_word_count (a0 (wd_keys sample_wallet)) = kc_word_count (a1 (wd_keys sample_wallet)))
  then Ok sample_wallet else Err DeInvalidDocument.
Proof.
  exact (@reordered_document base58_codec sample_ms sample_ms_laws Regtest contributions 1700 sample_wallet
    contributions_wf sample_builds).
Defined.
Example reordered_sample_refused :
  bool_decide (kc_word_count (a0 (wd_keys sample_wallet)) = kc_word_count (a1 (wd_keys sample_wallet))) = false.
Proof. vm_compute. reflexivity. Qed.

(** ** A wallet that is its local chain *)

(** A genesis hash and, from the tip down, positive height steps with hashes. *)
Definition chain_rep : Type := bytes * list (positive * bytes).
Fixpoint to_cp (base : bytes) (l : list (positive * bytes)) : CheckPoint :=
  match l with
  | [] => CPBase (mkBlockId 0 base)
  | (g, h) :: l => let p := to_cp base l in CPLink (mkBlockId (cp_height p + Zpos g) h) p
  end.
Fixpoint of_cp (cp : CheckPoint) : chain_rep :=
  match cp with
  | CPBase b => (bi_hash b, [])
  | CPLink b p => let r := of_cp p in (r.1, (Z.to_pos (bi_height b - cp_height p), bi_hash b) :: r.2)
  end.
Lemma to_cp_wf base l : cp_wf (to_cp base l).
Proof. induction l as [|[g h] l IH]; cbn; [done|]. split; [lia|done]. Qed.
Lemma to_of_cp cp : cp_wf cp → to_cp (of_cp cp).1 (of_cp cp).2 = cp.
Proof.
  induction cp as [[hg h]|[hg h] p IH]; cbn; [by intros ->|]. intros [Hlt Hw]. rewrite IH by done.
  cbn in Hlt. rewrite Z2Pos.id by lia. by replace (cp_height p + (hg - cp_height p)) with hg by lia.
Qed.

(** It can build one transaction: 1000 sat to script 5 for a fee of 200. *)
#[global] Instance FeePolicy_eq_dec : EqDecision FeePolicy.
Proof. solve_decision. Defined.
#[global] Instance TxParams_eq_dec : EqDecision TxParams.
Proof. solve_decision. Defined.
Definition sample_params : TxParams := mkTxParams [([5], 1000)] (Some (FpAmount 200)) (Some 0xFFFFFFFD) true (Some 0).
Definition coin : PsbtInput := mkPsbtInput None (Some (mkTxOut 1200 [6])) [] None None [] None None [].
Definition sample_psbt : Psbt :=
  mkPsbt (mkTransaction 2 0 [mkTxIn (mkOutPoint [1] 0) [] 0xFFFFFFFD []] [mkTxOut 1000 [5]]) [coin] [mkPsbtOutput [] []] [].

Definition sample_bdk : Bdk := {|
  BWallet := chain_rep;
  BChangeSet := unit;
  Rng := unit;
  bdk_create _ _ _ _ := Some ([0], []);
  bdk_latest_checkpoint b := to_cp b.1 b.2;
  bdk_reveal_next_address k b := (mkAddressInfo [5] 0 k, b);
  bdk_peek_address _ k i := mkAddressInfo [5] i k;
  bdk_next_unused_address k b := (mkAddressInfo [5] 0 k, b);
  bdk_balance _ := Balance_zero;
  bdk_list_unspent _ := [];
  bdk_apply_update u b := Some (match up_chain u with Some cp => of_cp cp | None => b end);
  bdk_take_staged b := (None, b);
  bdk_staged _ := None;
  bdk_finish p rng b := (if bool_decide (p = sample_params) then Some sample_psbt else None, rng, b);
  address_script a _ := Some a;
  psbt_serialize _ := [112; 115; 98; 116];
  psbt_deserialize _ := Some sample_psbt
|}.

#[global] Instance sample_bdk_laws : @BdkLaws sample_bdk.
Proof.
  split.
  - intros b. apply to_cp_wf.
  - intros b cp l Hw _. eexists. split; [reflexivity|]. by apply to_of_cp.
  - intros params rng b p rng' b'. cbn. case_bool_decide as Hp; [|done]. intros [= <- _ _]. subst params. cbn. split_and!.
    + by intros h [= <-].
    + intros n [= <-]. repeat constructor.
    + intros script v Hs. apply list_elem_of_singleton in Hs as [= -> ->]. set_solver.
    + done.
    + exists 200. split; [vm_compute; reflexivity|]. by intros a [= <-].
    + apply bytes_ok_spec. reflexivity.
    + done.
Qed.

Definition open_wallet : @WatchWallet sample_bdk := @mkWatchWallet sample_bdk ([0], []) Regtest.
Lemma ensure_tip_extends_witness :
  ∃ w', @ensure_tip_at_least sample_bdk 3 open_wallet = Ok w' ∧
    watch_tip_height w' = Z.max (watch_tip_height open_wallet) 3 ∧ ww_network w' = ww_network open_wallet ∧
    cp_iter (bdk_latest_checkpoint (ww_inner w')) =
      reverse (synthetic_block <$> range_incl (watch_tip_height open_wallet + 1) 3) ++
      cp_iter (bdk_latest_checkpoint (ww_inner open_wallet)) ∧
    @ensure_tip_at_least sample_bdk 3 w' = Ok w'.
Proof. exact (@ensure_tip_extends sample_bdk sample_bdk_laws 3 open_wallet). Defined.

Lemma fee_identity_exact_witness :
  fee_identity sample_psbt = Ok (200, 1200, 1000) ∧
  (∀ fee i o, fee_identity sample_psbt = Ok (fee, i, o) →
     psbt_fee sample_psbt = Ok fee ∧ fee = i - o ∧ o = sum_Z (txo_value <$> tx_output (unsigned_tx sample_psbt)) ∧
     ∃ vs, funded sample_psbt vs ∧ i = sum_Z vs) ∧
  (∀ fee, psbt_fee sample_psbt = Ok fee → ∃ i o, fee_identity sample_psbt = Ok (fee, i, o)) ∧
  fee_identity sample_psbt ≠ Panic.
Proof. split; [vm_compute; reflexivity|]. apply (fee_identity_exact sample_psbt). reflexivity. Defined.

Definition sample_request : SendRequest := mkSendRequest [5] 1000 (AbsoluteSats 200).
Definition sample_b64 : bytes := str "cHNidA==".
Lemma built_psbt_shape_witness :
  @build_psbt sample_bdk sample_request tt open_wallet = (Ok sample_b64, open_wallet) ∧
  ∃ p script fee i o,
    @decode_psbt_b64 sample_bdk sample_b64 = Ok p ∧
    tx_lock_time (unsigned_tx p) = watch_tip_height open_wallet ∧
    Forall (λ t, sequence t = ANTI_FEE_SNIPING_SEQUENCE) (tx_input (unsigned_tx p)) ∧
    @address_script sample_bdk (sr_recipient sample_request) (ww_network open_wallet) = Some script ∧
    mkTxOut (sr_amount_sats sample_request) script ∈ tx_output (unsigned_tx p) ∧
    fee_identity p = Ok (fee, i, o) ∧ fee = i - o ∧
    (∀ a, sr_fee_target sample_request = AbsoluteSats a → a ≤ fee).
Proof.
  assert (@build_psbt sample_bdk sample_request tt open_wallet = (Ok sample_b64, open_wallet)) as H by (vm_compute; reflexivity).
  split; [exact H|].
  exact (@built_psbt_shape sample_bdk sample_bdk_laws sample_request tt open_wallet sample_b64 open_wallet H).
Defined.
